(** * CodeCSI: a robot-soccer world model, embedded over the reals

    The Python sources compute with binary floating point.  This
    development reads every [float] as a real number: [math.hypot],
    [math.cos], [math.sin], [math.exp], [math.sqrt] are the real
    functions, [%] is Python's floored remainder and [math.atan2] the
    two-argument arctangent.  Rounding, infinities and NaN are outside
    the model.

    Objects that Python mutates in place (robots, ball, teams, world)
    are records threaded through the functions; a team's [robots] dict
    is the list of its values in insertion order, each robot stored
    under its own [robot_id]. *)

From Stdlib Require Import Reals Lra Lia Psatz ZArith Bool String List Permutation
  Sorted.
Import ListNotations.
Open Scope R_scope.

(** ** Python numerics *)

Module Py.

(** [a <= b] and [a < b] as Python booleans. *)
Definition leb (a b : R) : bool := if Rle_dec a b then true else false.
Definition ltb (a b : R) : bool := if Rlt_dec a b then true else false.
Definition eqb (a b : R) : bool := if Req_dec_T a b then true else false.

(** [math.hypot]. *)
Definition hypot (a b : R) : R := sqrt (a * a + b * b).

(** [a % b] on floats: the remainder has the sign of [b]. *)
Definition fmod (a b : R) : R := a - b * IZR (Int_part (a / b)).

(** [math.atan2 (y, x)]. *)
Definition atan2 (y x : R) : R :=
  if ltb 0 x then atan (y / x)
  else if ltb x 0 then
    (if leb 0 y then atan (y / x) + PI else atan (y / x) - PI)
  else if ltb 0 y then PI / 2
  else if ltb y 0 then - (PI / 2)
  else 0.

(** [math.radians]. *)
Definition radians (d : R) : R := d * PI / 180.

(** [v or d] for an optional float [v]: [None] and [0.0] are falsy. *)
Definition or_else (v : option R) (d : R) : R :=
  match v with
  | None => d
  | Some m => if eqb m 0 then d else m
  end.

(** [min(xs)] and [max(xs)] of a non-empty sequence [a :: l]: the first
    of equal values is kept. *)
Definition min_of (a : R) (l : list R) : R :=
  fold_left (fun m v => if ltb v m then v else m) l a.

Definition max_of (a : R) (l : list R) : R :=
  fold_left (fun m v => if ltb m v then v else m) l a.

End Py.

(** ** models/robot.py *)

Definition _wrap_pi (a : R) : R := Py.fmod (a + PI) (2 * PI) - PI.

Definition _clamp (v lo hi : R) : R := Rmax lo (Rmin hi v).

Module Robot.

Record t : Type := mk {
  robot_id : Z;
  team_id : Z;
  x : R;
  y : R;
  theta : R;
  vx : R;
  vy : R;
  omega : R;
  desired_vx : R;
  desired_vy : R;
  desired_omega : R;
  side_len : R;
  max_speed : R;
  max_omega : R;
  max_accel : R;
  max_alpha : R;
  tau_v : R;
  tau_w : R;
  active : bool;
  has_ball : bool;
  dbg_action : string
}.

(** [Robot()] with the dataclass defaults. *)
Definition default : t :=
  mk 0 0 0 0 0 0 0 0 0 0 0 0.45 2.5 6 4 20 0.12 0.10 true false EmptyString.

(** Attribute assignments. *)
Definition with_ids (rid tid : Z) (r : t) : t :=
  mk rid tid (x r) (y r) (theta r) (vx r) (vy r) (omega r)
     (desired_vx r) (desired_vy r) (desired_omega r) (side_len r)
     (max_speed r) (max_omega r) (max_accel r) (max_alpha r) (tau_v r)
     (tau_w r) (active r) (has_ball r) (dbg_action r).

Definition with_xy (x' y' : R) (r : t) : t :=
  mk (robot_id r) (team_id r) x' y' (theta r) (vx r) (vy r) (omega r)
     (desired_vx r) (desired_vy r) (desired_omega r) (side_len r)
     (max_speed r) (max_omega r) (max_accel r) (max_alpha r) (tau_v r)
     (tau_w r) (active r) (has_ball r) (dbg_action r).

Definition with_theta (th : R) (r : t) : t :=
  mk (robot_id r) (team_id r) (x r) (y r) th (vx r) (vy r) (omega r)
     (desired_vx r) (desired_vy r) (desired_omega r) (side_len r)
     (max_speed r) (max_omega r) (max_accel r) (max_alpha r) (tau_v r)
     (tau_w r) (active r) (has_ball r) (dbg_action r).

Definition with_vxy (vx' vy' : R) (r : t) : t :=
  mk (robot_id r) (team_id r) (x r) (y r) (theta r) vx' vy' (omega r)
     (desired_vx r) (desired_vy r) (desired_omega r) (side_len r)
     (max_speed r) (max_omega r) (max_accel r) (max_alpha r) (tau_v r)
     (tau_w r) (active r) (has_ball r) (dbg_action r).

Definition with_omega (w : R) (r : t) : t :=
  mk (robot_id r) (team_id r) (x r) (y r) (theta r) (vx r) (vy r) w
     (desired_vx r) (desired_vy r) (desired_omega r) (side_len r)
     (max_speed r) (max_omega r) (max_accel r) (max_alpha r) (tau_v r)
     (tau_w r) (active r) (has_ball r) (dbg_action r).

Definition with_desired (dvx dvy dw : R) (r : t) : t :=
  mk (robot_id r) (team_id r) (x r) (y r) (theta r) (vx r) (vy r) (omega r)
     dvx dvy dw (side_len r)
     (max_speed r) (max_omega r) (max_accel r) (max_alpha r) (tau_v r)
     (tau_w r) (active r) (has_ball r) (dbg_action r).

Definition with_desired_omega (dw : R) (r : t) : t :=
  with_desired (desired_vx r) (desired_vy r) dw r.

Definition with_active (b : bool) (r : t) : t :=
  mk (robot_id r) (team_id r) (x r) (y r) (theta r) (vx r) (vy r) (omega r)
     (desired_vx r) (desired_vy r) (desired_omega r) (side_len r)
     (max_speed r) (max_omega r) (max_accel r) (max_alpha r) (tau_v r)
     (tau_w r) b (has_ball r) (dbg_action r).

Definition with_has_ball (b : bool) (r : t) : t :=
  mk (robot_id r) (team_id r) (x r) (y r) (theta r) (vx r) (vy r) (omega r)
     (desired_vx r) (desired_vy r) (desired_omega r) (side_len r)
     (max_speed r) (max_omega r) (max_accel r) (max_alpha r) (tau_v r)
     (tau_w r) (active r) b (dbg_action r).

(** Properties. *)
Definition speed (r : t) : R := Py.hypot (vx r) (vy r).

Definition half_side (r : t) : R := 0.5 * side_len r.

Definition outer_radius (r : t) : R :=
  let h := half_side r in Py.hypot h h.

Definition half_extents_xy (r : t) : R * R :=
  let h := half_side r in
  let c := Rabs (cos (theta r)) in
  let s := Rabs (sin (theta r)) in
  let e := h * (c + s) in
  (e, e).

(** The four corners, counter-clockwise, rotated and translated. *)
Definition corners (r : t) : list (R * R) :=
  let h := half_side r in
  let c := cos (theta r) in
  let s := sin (theta r) in
  let local := [(- h, - h); (h, - h); (h, h); (- h, h)] in
  map (fun '(lx, ly) => (x r + c * lx - s * ly, y r + s * lx + c * ly)) local.

(** [(min(xs), max(xs), min(ys), max(ys))] over the corners. *)
Definition aabb (r : t) : R * R * R * R :=
  let xs := map fst (corners r) in
  let ys := map snd (corners r) in
  (Py.min_of (hd 0 xs) (tl xs), Py.max_of (hd 0 xs) (tl xs),
   Py.min_of (hd 0 ys) (tl ys), Py.max_of (hd 0 ys) (tl ys)).

(** set / command. *)
Definition set_pose (x' y' th : R) (r : t) : t :=
  with_theta (_wrap_pi th) (with_xy x' y' r).

Definition set_vel (vx' vy' w : R) (r : t) : t :=
  with_omega w (with_vxy vx' vy' r).

Definition stop (r : t) : t := with_desired 0 0 0 r.

Definition command_velocity (vx' vy' w : R) (r : t) : t :=
  let sp := Py.hypot vx' vy' in
  let '(vx1, vy1) :=
    if Py.ltb 1e-9 sp && Py.ltb (max_speed r) sp
    then (let k := max_speed r / sp in (vx' * k, vy' * k))
    else (vx', vy') in
  let w1 := _clamp w (- max_omega r) (max_omega r) in
  with_desired vx1 vy1 w1 r.

(** [speed = None] selects [max_speed]. *)
Definition command_move_towards (tx ty : R) (speed : option R) (r : t) : t :=
  let speed := match speed with None => max_speed r | Some s => s end in
  let dx := tx - x r in
  let dy := ty - y r in
  let d := Py.hypot dx dy in
  if Py.ltb d 1e-6 then command_velocity 0 0 (desired_omega r) r
  else
    let ux := dx / d in
    let uy := dy / d in
    command_velocity (ux * speed) (uy * speed) (desired_omega r) r.

Definition command_face_point (tx ty kp : R) (max_rate : option R) (r : t) : t :=
  let err := _wrap_pi (Py.atan2 (ty - y r) (tx - x r) - theta r) in
  let w := kp * err in
  with_desired_omega
    (_clamp w (- (Py.or_else max_rate (max_omega r)))
              (Py.or_else max_rate (max_omega r))) r.

(** Kinematics. *)
Definition _alpha (tau dt : R) : R :=
  if Py.leb tau 0 then 1 else 1 - exp (- dt / tau).

Definition update (dt : R) (r : t) : t :=
  if negb (active r) || Py.leb dt 0 then r
  else
    let av := _alpha (tau_v r) dt in
    let aw := _alpha (tau_w r) dt in
    let vx_tgt := vx r + av * (desired_vx r - vx r) in
    let vy_tgt := vy r + av * (desired_vy r - vy r) in
    let w_tgt := omega r + aw * (desired_omega r - omega r) in
    let sp := Py.hypot vx_tgt vy_tgt in
    let '(vx_tgt, vy_tgt) :=
      if Py.ltb (max_speed r) sp && Py.ltb 0 (max_speed r)
      then (let s := max_speed r / sp in (vx_tgt * s, vy_tgt * s))
      else (vx_tgt, vy_tgt) in
    let w_tgt := _clamp w_tgt (- max_omega r) (max_omega r) in
    let max_dv := max_accel r * dt in
    let dvx := vx_tgt - vx r in
    let dvy := vy_tgt - vy r in
    let dv := Py.hypot dvx dvy in
    let '(dvx, dvy) :=
      if Py.ltb max_dv dv && Py.ltb 0 max_dv
      then (let s := max_dv / dv in (dvx * s, dvy * s))
      else (dvx, dvy) in
    let vx1 := vx r + dvx in
    let vy1 := vy r + dvy in
    let w1 := omega r
              + _clamp (w_tgt - omega r) (- max_alpha r * dt) (max_alpha r * dt) in
    let x1 := x r + vx1 * dt in
    let y1 := y r + vy1 * dt in
    let th1 := _wrap_pi (theta r + w1 * dt) in
    with_theta th1 (with_xy x1 y1 (with_omega w1 (with_vxy vx1 vy1 r))).

(** Ball detection (cone) and dribble anchor. *)
Definition ball_relative (bx by_ : R) (r : t) : R * R :=
  let dx := bx - x r in
  let dy := by_ - y r in
  let dist := Py.hypot dx dy in
  let ang_err := _wrap_pi (Py.atan2 dy dx - theta r) in
  (dist, ang_err).

Definition sees_ball_front (bx by_ max_dist half_angle_deg : R) (r : t) : bool :=
  let '(dist, ang_err) := ball_relative bx by_ r in
  Py.leb dist max_dist && Py.leb (Rabs ang_err) (Py.radians half_angle_deg).

Definition dribble_anchor (ball_radius gap : R) (r : t) : R * R * R * R :=
  let h := half_side r in
  let front := h + ball_radius + gap in
  let c := cos (theta r) in
  let s := sin (theta r) in
  let ax := x r + c * front in
  let ay := y r + s * front in
  let rx := c * front in
  let ry := s * front in
  let avx := vx r - omega r * ry in
  let avy := vy r + omega r * rx in
  (ax, ay, avx, avy).

End Robot.

(** ** models/ball.py *)

Inductive BoundaryMode : Type := Clip | Bounce.

Module Ball.

Record t : Type := mk {
  x : R;
  y : R;
  vx : R;
  vy : R;
  radius : R;
  min_speed : R;
  lin_drag_per_s : R;
  restitution : R
}.

Definition default : t := mk 0 0 0 0 0.11 0.05 1.5 0.25.

Definition speed (b : t) : R := Py.hypot (vx b) (vy b).

Definition set_pos (x' y' : R) (b : t) : t :=
  mk x' y' (vx b) (vy b) (radius b) (min_speed b) (lin_drag_per_s b)
     (restitution b).

Definition set_vel (vx' vy' : R) (b : t) : t :=
  mk (x b) (y b) vx' vy' (radius b) (min_speed b) (lin_drag_per_s b)
     (restitution b).

Definition set_speed_dir (speed theta_rad : R) (b : t) : t :=
  set_vel (speed * cos theta_rad) (speed * sin theta_rad) b.

Definition kick (speed theta_rad : R) (b : t) : t :=
  set_speed_dir speed theta_rad b.

Definition _time_invariant_damping (dt : R) (b : t) : R :=
  let k := Rmax 0 (lin_drag_per_s b) in
  exp (- k * dt).

(** One axis of the boundary handling: position and velocity component
    against the bound [m]. *)
Definition clip_axis (m p v : R) : R * R :=
  if Py.ltb m p then (m, 0)
  else if Py.ltb p (- m) then (- m, 0)
  else (p, v).

Definition bounce_axis (e m p v : R) : R * R :=
  if Py.ltb m p then (m, - v * e)
  else if Py.ltb p (- m) then (- m, - v * e)
  else (p, v).

Definition update (dt : R) (field_half_w field_half_h : option R)
    (boundary_mode : BoundaryMode) (b : t) : t :=
  if Py.leb dt 0 then b
  else
    (* 1) Euler step with the current velocity *)
    let x1 := x b + vx b * dt in
    let y1 := y b + vy b * dt in
    (* 2) damping *)
    let damp := _time_invariant_damping dt b in
    let vx1 := vx b * damp in
    let vy1 := vy b * damp in
    (* 3) snap to rest *)
    let min_v2 := min_speed b * min_speed b in
    let v2 := vx1 * vx1 + vy1 * vy1 in
    let '(vx2, vy2) := if Py.ltb v2 min_v2 then (0, 0) else (vx1, vy1) in
    (* 4) field boundary *)
    match field_half_w, field_half_h with
    | Some hw, Some hh =>
        let max_x := hw - radius b in
        let max_y := hh - radius b in
        let '(x3, vx3) :=
          match boundary_mode with
          | Clip => clip_axis max_x x1 vx2
          | Bounce => bounce_axis (restitution b) max_x x1 vx2
          end in
        let '(y3, vy3) :=
          match boundary_mode with
          | Clip => clip_axis max_y y1 vy2
          | Bounce => bounce_axis (restitution b) max_y y1 vy2
          end in
        set_vel vx3 vy3 (set_pos x3 y3 b)
    | _, _ => set_vel vx2 vy2 (set_pos x1 y1 b)
    end.

End Ball.

(** ** models/team.py *)

Inductive Side : Type := Left | Right.

(** A [Dict[int, Robot]] in insertion order, each robot under its own id. *)
Module Roster.

Definition t : Type := list Robot.t.

Definition keys (d : t) : list Z := map Robot.robot_id d.

Fixpoint get (rid : Z) (d : t) : option Robot.t :=
  match d with
  | [] => None
  | r :: d' => if Z.eqb (Robot.robot_id r) rid then Some r else get rid d'
  end.

(** [d[rid] = r]: an existing key keeps its place, a new one goes last. *)
Fixpoint set (r : Robot.t) (d : t) : t :=
  match d with
  | [] => [r]
  | r0 :: d' =>
      if Z.eqb (Robot.robot_id r0) (Robot.robot_id r) then r :: d'
      else r0 :: set r d'
  end.

(** [d.pop(rid, None)]. *)
Fixpoint pop (rid : Z) (d : t) : t :=
  match d with
  | [] => []
  | r :: d' => if Z.eqb (Robot.robot_id r) rid then d' else r :: pop rid d'
  end.

(** Mutating the robot stored under [rid] through a reference to it. *)
Definition modify (rid : Z) (f : Robot.t -> Robot.t) (d : t) : t :=
  map (fun r => if Z.eqb (Robot.robot_id r) rid then f r else r) d.

(** [sorted(..., key=key)]: a stable insertion sort. *)
Fixpoint insert_by {A : Type} (le : A -> A -> bool) (a : A) (l : list A)
    : list A :=
  match l with
  | [] => [a]
  | b :: l' => if le a b then a :: b :: l' else b :: insert_by le a l'
  end.

Definition sort_by {A : Type} (le : A -> A -> bool) (l : list A) : list A :=
  fold_right (insert_by le) [] l.

End Roster.

Module Team.

Record t : Type := mk {
  team_id : Z;
  name : string;
  side : Side;
  max_size : Z;
  robots : Roster.t;
  goalie_id : option Z;
  _next_robot_id : Z
}.

Definition with_robots (rs : Roster.t) (tm : t) : t :=
  mk (team_id tm) (name tm) (side tm) (max_size tm) rs (goalie_id tm)
     (_next_robot_id tm).

Definition with_goalie_id (g : option Z) (tm : t) : t :=
  mk (team_id tm) (name tm) (side tm) (max_size tm) (robots tm) g
     (_next_robot_id tm).

Definition with_next_robot_id (n : Z) (tm : t) : t :=
  mk (team_id tm) (name tm) (side tm) (max_size tm) (robots tm)
     (goalie_id tm) n.

Definition attack_sign (tm : t) : Z :=
  match side tm with Left => 1 | Right => -1 end.

Definition own_goal_x (tm : t) : R :=
  match side tm with Left => -11 | Right => 11 end.

Definition opponent_goal_x (tm : t) : R :=
  match side tm with Left => 11 | Right => -11 end.

Definition _alloc_id (tm : t) : Z * t :=
  (_next_robot_id tm, with_next_robot_id (_next_robot_id tm + 1)%Z tm).

Definition add_robot (robot : option Robot.t) (robot_id : option Z) (tm : t)
    : t :=
  let robot := match robot with None => Robot.default | Some r => r end in
  let '(rid, tm) :=
    match robot_id with
    | None => _alloc_id tm
    | Some rid =>
        (rid, with_next_robot_id (Z.max (_next_robot_id tm) (rid + 1)) tm)
    end in
  let robot := Robot.with_ids rid (team_id tm) robot in
  let tm := with_robots (Roster.set robot (robots tm)) tm in
  match goalie_id tm with
  | None => with_goalie_id (Some rid) tm
  | Some _ => tm
  end.

Definition remove_robot (rid : Z) (tm : t) : t :=
  let tm := with_robots (Roster.pop rid (robots tm)) tm in
  match goalie_id tm with
  | Some g =>
      if Z.eqb g rid then with_goalie_id (hd_error (Roster.keys (robots tm))) tm
      else tm
  | None => tm
  end.

Definition get (rid : Z) (tm : t) : option Robot.t :=
  Roster.get rid (robots tm).

Definition robots_list (tm : t) : list Robot.t :=
  Roster.sort_by (fun a b => Z.leb (Robot.robot_id a) (Robot.robot_id b))
                 (robots tm).

Definition active_robots (tm : t) : list Robot.t :=
  filter Robot.active (robots_list tm).

(** A missing [robot_id] leaves the team as it is. *)
Definition set_active (rid : Z) (flag : bool) (tm : t) : t :=
  match get rid tm with
  | Some _ => with_robots (Roster.modify rid (Robot.with_active flag) (robots tm)) tm
  | None => tm
  end.

Definition set_goalie (rid : Z) (tm : t) : t :=
  match Roster.get rid (robots tm) with
  | Some _ => with_goalie_id (Some rid) tm
  | None => tm
  end.

Definition update (dt : R) (tm : t) : t :=
  with_robots (map (Robot.update dt) (robots tm)) tm.

(** The body of the loop of [nearest_robot_to]; [None] stands for
    [best = None], [best_d2 = float("inf")]. *)
Definition nearest_step (x y : R) (best : option (Robot.t * R)) (r : Robot.t)
    : option (Robot.t * R) :=
  let dx := Robot.x r - x in
  let dy := Robot.y r - y in
  let d2 := dx * dx + dy * dy in
  match best with
  | None => Some (r, d2)
  | Some (_, best_d2) => if Py.ltb d2 best_d2 then Some (r, d2) else best
  end.

Definition nearest_robot_to (x y : R) (active_only : bool) (tm : t)
    : option Robot.t :=
  option_map fst
    (fold_left (nearest_step x y)
       (if active_only then active_robots tm else robots_list tm) None).

Definition ensure_size (n : Z) (tm : t) : t :=
  let n := Z.max 1 n in
  let current := Z.of_nat (length (robots tm)) in
  if Z.ltb current n then
    Nat.iter (Z.to_nat (n - current)) (add_robot None None) tm
  else if Z.ltb n current then
    fold_left (fun tm rid => remove_robot rid tm)
      (firstn (Z.to_nat (current - n))
         (rev (Roster.sort_by Z.leb (Roster.keys (robots tm)))))
      tm
  else tm.

(** The formation slots for [n] robots: GK, DF, MF1, MF2, FW, then the
    extra ones spread along y around [x_mid]. *)
Definition kickoff_templates (n : nat) (x_gk x_def x_mid x_fwd y0 y_mid y_max : R)
    : list (R * R) :=
  let templates :=
    (if Nat.leb 1 n then [(x_gk, y0)] else [])
    ++ (if Nat.leb 2 n then [(x_def, y0)] else [])
    ++ (if Nat.leb 3 n then [(x_mid, y_mid)] else [])
    ++ (if Nat.leb 4 n then [(x_mid, - y_mid)] else [])
    ++ (if Nat.leb 5 n then [(x_fwd, 0)] else []) in
  let extra := (n - length templates)%nat in
  if Nat.ltb 0 extra then
    let step := Rmax 1 (y_max / (INR extra + 1)) in
    templates
    ++ map (fun i => (x_mid,
                      (INR i + 1) * step * (if Nat.odd i then -1 else 1)))
           (seq 0 extra)
  else templates.

(** The nested [clip_xy] of [auto_position_kickoff]. *)
Definition clip_xy (half_w half_h : R) (p : R * R) : R * R :=
  (Rmax (- half_w + 0.1) (Rmin (half_w - 0.1) (fst p)),
   Rmax (- half_h + 0.1) (Rmin (half_h - 0.1) (snd p))).

Definition auto_position_kickoff (field_w field_h margin_goal : R) (tm : t)
    : t :=
  let half_w := field_w * 0.5 in
  let half_h := field_h * 0.5 in
  let s := IZR (attack_sign tm) in
  let x_gk := - s * (half_w - margin_goal) in
  let x_def := - s * 6 in
  let x_mid := - s * 3 in
  let x_fwd := - s * 1 in
  let y0 := 0 in
  let y_mid := 2 in
  let y_max := half_h - 0.5 in
  let face_theta := if Z.eqb (attack_sign tm) 1 then 0 else PI in
  let tm :=
    match robots_list tm with
    | [] => ensure_size (max_size tm) tm
    | _ => tm
    end in
  let order := robots_list tm in
  let '(order, tm) :=
    match goalie_id tm with
    | Some g =>
        (Roster.sort_by
           (fun a b =>
              let ka := if Z.eqb (Robot.robot_id a) g then 0%Z else 1%Z in
              let kb := if Z.eqb (Robot.robot_id b) g then 0%Z else 1%Z in
              Z.ltb ka kb
              || (Z.eqb ka kb && Z.leb (Robot.robot_id a) (Robot.robot_id b)))
           order, tm)
    | None =>
        (order,
         with_goalie_id (Some (Robot.robot_id (hd Robot.default order))) tm)
    end in
  let templates :=
    kickoff_templates (length order) x_gk x_def x_mid x_fwd y0 y_mid y_max in
  fold_left
    (fun tm '(r, p) =>
       let '(px, py) := clip_xy half_w half_h p in
       with_robots
         (Roster.modify (Robot.robot_id r)
            (fun r => Robot.stop
                        (Robot.set_vel 0 0 0 (Robot.set_pose px py face_theta r)))
            (robots tm))
         tm)
    (combine order templates) tm.

End Team.

(** ** models/world.py: the dataclass *)

Inductive GameState : Type :=
  | st_stopped | st_playing | st_kickoff_left | st_kickoff_right | st_goal | st_halt.

Module ScoreBoard.

Record t : Type := mk { left : Z; right : Z }.

Definition reset (_ : t) : t := mk 0 0.

End ScoreBoard.

Module WorldState.

Record t : Type := mk {
  field_w : R;
  field_h : R;
  t_ : R;
  ball : Ball.t;
  team_left : Team.t;
  team_right : Team.t;
  score : ScoreBoard.t;
  state : GameState;
  cone_dist_on : R;
  cone_angle_on_deg : R;
  cone_dist_off : R;
  cone_angle_off_deg : R;
  sticky_enabled : bool;
  sticky_ball_radius : R;
  sticky_gap : R;
  sticky_clip_field : bool;
  kick_cooldown : R
}.

(** [World()] with the dataclass defaults. *)
Definition default : t :=
  mk 22 14 0 Ball.default
     (Team.mk 0 "Blue"%string Left 5 [] None 1)
     (Team.mk 1 "Red"%string Right 5 [] None 1)
     (ScoreBoard.mk 0 0) st_stopped
     0.35 40 0.45 60 true 0.11 0.015 true 0.

Definition with_t (v : R) (w : t) : t :=
  mk (field_w w) (field_h w) v (ball w) (team_left w) (team_right w)
     (score w) (state w) (cone_dist_on w) (cone_angle_on_deg w)
     (cone_dist_off w) (cone_angle_off_deg w) (sticky_enabled w)
     (sticky_ball_radius w) (sticky_gap w) (sticky_clip_field w)
     (kick_cooldown w).

Definition with_ball (b : Ball.t) (w : t) : t :=
  mk (field_w w) (field_h w) (t_ w) b (team_left w) (team_right w)
     (score w) (state w) (cone_dist_on w) (cone_angle_on_deg w)
     (cone_dist_off w) (cone_angle_off_deg w) (sticky_enabled w)
     (sticky_ball_radius w) (sticky_gap w) (sticky_clip_field w)
     (kick_cooldown w).

Definition with_teams (l r : Team.t) (w : t) : t :=
  mk (field_w w) (field_h w) (t_ w) (ball w) l r
     (score w) (state w) (cone_dist_on w) (cone_angle_on_deg w)
     (cone_dist_off w) (cone_angle_off_deg w) (sticky_enabled w)
     (sticky_ball_radius w) (sticky_gap w) (sticky_clip_field w)
     (kick_cooldown w).

Definition with_score (sc : ScoreBoard.t) (w : t) : t :=
  mk (field_w w) (field_h w) (t_ w) (ball w) (team_left w) (team_right w)
     sc (state w) (cone_dist_on w) (cone_angle_on_deg w)
     (cone_dist_off w) (cone_angle_off_deg w) (sticky_enabled w)
     (sticky_ball_radius w) (sticky_gap w) (sticky_clip_field w)
     (kick_cooldown w).

Definition with_state (st : GameState) (w : t) : t :=
  mk (field_w w) (field_h w) (t_ w) (ball w) (team_left w) (team_right w)
     (score w) st (cone_dist_on w) (cone_angle_on_deg w)
     (cone_dist_off w) (cone_angle_off_deg w) (sticky_enabled w)
     (sticky_ball_radius w) (sticky_gap w) (sticky_clip_field w)
     (kick_cooldown w).

Definition with_kick_cooldown (k : R) (w : t) : t :=
  mk (field_w w) (field_h w) (t_ w) (ball w) (team_left w) (team_right w)
     (score w) (state w) (cone_dist_on w) (cone_angle_on_deg w)
     (cone_dist_off w) (cone_angle_off_deg w) (sticky_enabled w)
     (sticky_ball_radius w) (sticky_gap w) (sticky_clip_field w) k.

Definition half_w (w : t) : R := 0.5 * field_w w.
Definition half_h (w : t) : R := 0.5 * field_h w.

Definition teams (w : t) : list Team.t := [team_left w; team_right w].

(** The robots in the order [for tm in teams(): for r in tm.robots.values()]
    visits them; a robot is referred to by its position in this list. *)
Definition all_robots (w : t) : list Robot.t :=
  flat_map Team.robots (teams w).

(** Writing the robots back through their references: the left roster
    takes the first entries, the right roster the rest. *)
Definition with_all_robots (rs : list Robot.t) (w : t) : t :=
  let n := length (Team.robots (team_left w)) in
  with_teams (Team.with_robots (firstn n rs) (team_left w))
             (Team.with_robots (skipn n rs) (team_right w)) w.

End WorldState.

(** ** The [random] module, as an oracle

    [shuffle_at k n] is the list the [k]-th [random.shuffle] leaves when
    applied to [list(range(n))] (a permutation of it), [random_at k] the
    [k]-th value of [random.random()]. *)

Module Rng.

Record t : Type := mk {
  shuffle_at : nat -> nat -> list nat;
  random_at : nat -> R;
  n_shuffle : nat;
  n_random : nat
}.

Definition shuffle (n : nat) (g : t) : list nat * t :=
  (shuffle_at g (n_shuffle g) n,
   mk (shuffle_at g) (random_at g) (S (n_shuffle g)) (n_random g)).

Definition random (g : t) : R * t :=
  (random_at g (n_random g),
   mk (shuffle_at g) (random_at g) (n_shuffle g) (S (n_random g))).

(** The oracle whose shuffles leave the list as it is and whose draws are 0. *)
Definition identity : t := mk (fun _ n => seq 0 n) (fun _ => 0) 0 0.

(** The oracles whose shuffles return a permutation of [list(range(n))],
    as [random.shuffle] does. *)
Definition permutes (g : t) : Prop :=
  forall k n, Permutation (shuffle_at g k n) (seq 0 n).

End Rng.

(** ** simulation/collisions.py *)

Module Collisions.

Definition clamp_robot_inside_field (world : WorldState.t) (r : Robot.t)
    : Robot.t :=
  let '(ex, ey) := Robot.half_extents_xy r in
  let r := Robot.with_xy
             (_clamp (Robot.x r) (- WorldState.half_w world + ex)
                     (WorldState.half_w world - ex))
             (Robot.y r) r in
  Robot.with_xy (Robot.x r)
    (_clamp (Robot.y r) (- WorldState.half_h world + ey)
            (WorldState.half_h world - ey)) r.

(** [l[i] = v] for a list of robot references. *)
Fixpoint list_set {A : Type} (i : nat) (v : A) (l : list A) : list A :=
  match l, i with
  | [], _ => []
  | _ :: l', O => v :: l'
  | a :: l', S i' => a :: list_set i' v l'
  end.

(** The body of the inner loop for the pair [(i, j)]; [xi], [yi] are the
    coordinates of robot [i] read when the outer loop reached it. *)
Definition resolve_pair (radii : list R) (restitution limit_push_per_iter : R)
    (i : nat) (xi yi : R) (st : list Robot.t * Rng.t) (j : nat)
    : list Robot.t * Rng.t :=
  let '(robots, g) := st in
  let ri := nth i robots Robot.default in
  let rj := nth j robots Robot.default in
  let dx := Robot.x rj - xi in
  let dy := Robot.y rj - yi in
  let d2 := dx * dx + dy * dy in
  let min_d := nth i radii 0 + nth j radii 0 in
  let '(ri, rj, dx, dy, d2, g) :=
    if Py.ltb d2 1e-12 then
      let '(u, g) := Rng.random g in
      let ang := u * 2 * PI in
      let eps := 1e-3 in
      let ri := Robot.with_xy (Robot.x ri - eps * cos ang)
                              (Robot.y ri - eps * sin ang) ri in
      let rj := Robot.with_xy (Robot.x rj + eps * cos ang)
                              (Robot.y rj + eps * sin ang) rj in
      let dx := Robot.x rj - Robot.x ri in
      let dy := Robot.y rj - Robot.y ri in
      (ri, rj, dx, dy, dx * dx + dy * dy, g)
    else (ri, rj, dx, dy, d2, g) in
  let d := sqrt d2 in
  if Py.leb min_d d then (list_set j rj (list_set i ri robots), g)
  else
    let nx := if Py.ltb 1e-9 d then dx / d else 1 in
    let ny := if Py.ltb 1e-9 d then dy / d else 0 in
    let overlap := min_d - d in
    let push := Rmin (0.5 * overlap) limit_push_per_iter in
    let ri := Robot.with_xy (Robot.x ri - nx * push) (Robot.y ri - ny * push) ri in
    let rj := Robot.with_xy (Robot.x rj + nx * push) (Robot.y rj + ny * push) rj in
    let rvx := Robot.vx rj - Robot.vx ri in
    let rvy := Robot.vy rj - Robot.vy ri in
    let vn := rvx * nx + rvy * ny in
    let '(ri, rj) :=
      if Py.ltb vn 0 then
        let j_imp := - (1 + restitution) * vn * 0.5 in
        (Robot.with_vxy (Robot.vx ri - nx * j_imp) (Robot.vy ri - ny * j_imp) ri,
         Robot.with_vxy (Robot.vx rj + nx * j_imp) (Robot.vy rj + ny * j_imp) rj)
      else (ri, rj) in
    (list_set j rj (list_set i ri robots), g).

(** The body of [for a in range(n)]. *)
Definition resolve_from (radii : list R) (restitution limit_push_per_iter : R)
    (n : nat) (order : list nat) (st : list Robot.t * Rng.t) (a : nat)
    : list Robot.t * Rng.t :=
  let i := nth a order O in
  let ri := nth i (fst st) Robot.default in
  let xi := Robot.x ri in
  let yi := Robot.y ri in
  fold_left (resolve_pair radii restitution limit_push_per_iter i xi yi)
            (seq (S i) (n - S i)) st.

(** One relaxation pass, closed by the clamp of every robot. *)
Definition relax_pass (world : WorldState.t) (radii : list R)
    (restitution limit_push_per_iter : R) (n : nat)
    (st : list Robot.t * Rng.t) : list Robot.t * Rng.t :=
  let '(robots, g) := st in
  let '(order, g) := Rng.shuffle n g in
  let '(robots, g) :=
    fold_left (resolve_from radii restitution limit_push_per_iter n order)
              (seq 0 n) (robots, g) in
  (map (clamp_robot_inside_field world) robots, g).

(** Putting the active robots back in their places among all robots. *)
Fixpoint scatter (all acts : list Robot.t) : list Robot.t :=
  match all with
  | [] => []
  | r :: all' =>
      if Robot.active r then
        match acts with
        | a :: acts' => a :: scatter all' acts'
        | [] => r :: scatter all' []
        end
      else r :: scatter all' acts
  end.

Definition enforce_no_overlap (world : WorldState.t) (iterations : Z)
    (clearance restitution limit_push_per_iter : R) (g : Rng.t)
    : WorldState.t * Rng.t :=
  let all := WorldState.all_robots world in
  let robots := filter Robot.active all in
  let n := length robots in
  if Nat.leb n 1 then
    (WorldState.with_all_robots
       (scatter all (map (clamp_robot_inside_field world) robots)) world, g)
  else
    let radii := map (fun r => Robot.outer_radius r + clearance * 0.5) robots in
    let '(robots, g) :=
      Nat.iter (Z.to_nat (Z.max 1 iterations))
               (relax_pass world radii restitution limit_push_per_iter n)
               (robots, g) in
    (WorldState.with_all_robots (scatter all robots) world, g).

End Collisions.

(** ** models/world.py: the methods *)

Module World.

Include WorldState.

Definition ensure_sizes (left_n right_n : Z) (w : t) : t :=
  with_teams (Team.ensure_size left_n (team_left w))
             (Team.ensure_size right_n (team_right w)) w.

Definition reset_ball_center (w : t) : t :=
  with_ball (Ball.set_vel 0 0 (Ball.set_pos 0 0 (ball w))) w.

Definition auto_position_kickoff (w : t) : t :=
  reset_ball_center
    (with_teams
       (Team.auto_position_kickoff (field_w w) (field_h w) 0.5 (team_left w))
       (Team.auto_position_kickoff (field_w w) (field_h w) 0.5 (team_right w))
       w).

Definition set_kickoff (side : Side) (w : t) : t :=
  auto_position_kickoff
    (with_state (match side with Left => st_kickoff_left | Right => st_kickoff_right end)
                w).

Definition start (w : t) : t := with_state st_playing w.

Definition stop (w : t) : t := with_state st_stopped w.

Definition halt (w : t) : t := with_state st_halt w.

Definition goal_scored (by_side : Side) (w : t) : t :=
  match by_side with
  | Left =>
      set_kickoff Right
        (with_score (ScoreBoard.mk (ScoreBoard.left (score w) + 1)
                                   (ScoreBoard.right (score w))) w)
  | Right =>
      set_kickoff Left
        (with_score (ScoreBoard.mk (ScoreBoard.left (score w))
                                   (ScoreBoard.right (score w) + 1)) w)
  end.

(** Step 1 of the possession update: the first robot that is flagged
    and still inside the "off" cone. *)
Fixpoint first_index {A : Type} (p : A -> bool) (l : list A) : option nat :=
  match l with
  | [] => None
  | a :: l' =>
      if p a then Some O
      else match first_index p l' with Some k => Some (S k) | None => None end
  end.

Definition keeps_ball (w : t) (bx by_ : R) (r : Robot.t) : bool :=
  Robot.has_ball r
  && Robot.sees_ball_front bx by_ (cone_dist_off w) (cone_angle_off_deg w) r.

(** Step 2: among the active robots inside the "on" cone, the nearest to
    the ball; [best] is [(best_r, best_d2)], [None] standing for
    no robot and [float("inf")]. *)
Definition may_take_ball (w : t) (bx by_ : R) (r : Robot.t) : bool :=
  Robot.active r
  && Robot.sees_ball_front bx by_ (cone_dist_on w) (cone_angle_on_deg w) r.

Definition dist2_to (bx by_ : R) (r : Robot.t) : R :=
  (Robot.x r - bx) ^ 2 + (Robot.y r - by_) ^ 2.

Fixpoint nearest_from (w : t) (bx by_ : R) (k : nat) (best : option (nat * R))
    (l : list Robot.t) : option (nat * R) :=
  match l with
  | [] => best
  | r :: l' =>
      let best :=
        if may_take_ball w bx by_ r then
          let d2 := dist2_to bx by_ r in
          match best with
          | None => Some (k, d2)
          | Some (_, best_d2) => if Py.ltb d2 best_d2 then Some (k, d2) else best
          end
        else best in
      nearest_from w bx by_ (S k) best l'
  end.

Definition find_holder (w : t) (bx by_ : R) : option nat :=
  match first_index (keeps_ball w bx by_) (all_robots w) with
  | Some k => Some k
  | None => option_map fst (nearest_from w bx by_ O None (all_robots w))
  end.

(** Step 3: [r.has_ball = (r is holder)] for every robot, [k] being the
    position of the first robot of [l]. *)
Fixpoint set_flags (holder : option nat) (k : nat) (l : list Robot.t)
    : list Robot.t :=
  match l with
  | [] => []
  | r :: l' =>
      Robot.with_has_ball
        (match holder with Some h => Nat.eqb k h | None => false end) r
      :: set_flags holder (S k) l'
  end.

Definition _update_possession_and_anchor (dt : R) (w : t) : t :=
  (* 0) cooldown countdown *)
  let w :=
    if Py.ltb 0 (kick_cooldown w)
    then with_kick_cooldown (Rmax 0 (kick_cooldown w - dt)) w
    else w in
  let bx := Ball.x (ball w) in
  let by_ := Ball.y (ball w) in
  if Py.ltb 0 (kick_cooldown w) then
    with_all_robots (map (Robot.with_has_ball false) (all_robots w)) w
  else
    (* 1), 2) *)
    let holder := find_holder w bx by_ in
    (* 3) *)
    let w := with_all_robots (set_flags holder O (all_robots w)) w in
    (* 4) *)
    match holder with
    | Some h =>
        if sticky_enabled w then
          let '(ax, ay, avx, avy) :=
            Robot.dribble_anchor (sticky_ball_radius w) (sticky_gap w)
              (nth h (all_robots w) Robot.default) in
          let '(ax, ay) :=
            if sticky_clip_field w then
              (Rmax (- half_w w + sticky_ball_radius w)
                    (Rmin (half_w w - sticky_ball_radius w) ax),
               Rmax (- half_h w + sticky_ball_radius w)
                    (Rmin (half_h w - sticky_ball_radius w) ay))
            else (ax, ay) in
          with_ball (Ball.set_vel avx avy (Ball.set_pos ax ay (ball w))) w
        else w
    | None => w
    end.

(** Steps 1) to 3) of [update]: robots, overlap removal, possession.
    The resolver is imported inside a [try]; the module is part of the
    repository and its arithmetic raises nothing over the reals, so the
    [except] branch is never taken. *)
Definition update_before_ball (dt : R) (w : t) (g : Rng.t) : t * Rng.t :=
  let w := with_teams (Team.update dt (team_left w))
                      (Team.update dt (team_right w)) w in
  let '(w, g) := Collisions.enforce_no_overlap w 6 0.01 0 0.10 g in
  (_update_possession_and_anchor dt w, g).

Definition update (dt : R) (w : t) (g : Rng.t) : t * Rng.t :=
  if Py.leb dt 0 then (w, g)
  else
    let '(w, g) := update_before_ball dt w g in
    (* 4) ball *)
    let w := with_ball
               (Ball.update dt (Some (half_w w)) (Some (half_h w)) Clip (ball w))
               w in
    (* 5) time *)
    (with_t (t_ w + dt) w, g).

(** [who_has_ball], by position among all robots. *)
Definition who_has_ball (w : t) : option nat :=
  first_index Robot.has_ball (all_robots w).

(** [theta] defaults to [0.0]. *)
Definition place_robot (team_side : Side) (robot_id : Z) (x y theta : R) (w : t)
    : t :=
  let tm := match team_side with Left => team_left w | Right => team_right w end in
  let tm :=
    match Team.get robot_id tm with
    | None => Team.add_robot None (Some robot_id) tm
    | Some _ => tm
    end in
  let tm :=
    Team.with_robots
      (Roster.modify robot_id
         (fun r => Robot.stop (Robot.set_vel 0 0 0 (Robot.set_pose x y theta r)))
         (Team.robots tm))
      tm in
  match team_side with
  | Left => with_teams tm (team_right w) w
  | Right => with_teams (team_left w) tm w
  end.

Definition place_ball (x y vx vy : R) (w : t) : t :=
  with_ball (Ball.set_vel vx vy (Ball.set_pos x y (ball w))) w.

End World.

(** ** actions/planning.py *)

Module Planning.

Definition EXEC_DIST : R := 0.20.
Definition EXEC_ANG_DEG : R := 25.
Definition PASS_SPEED : R := 6.
Definition SHOT_SPEED : R := 7.5.
Definition OPP_MAX_SPEED : R := 2.5.
Definition BALL_RADIUS : R := 0.11.

Module Location.

Record t : Type := mk { x : R; y : R; theta : R }.

End Location.

Module ActionQValue.

Record t : Type := mk {
  imagined_robot_id : Z;
  imagined_robot_action : Z;
  action_subtype : option Z;
  action_reward : R;
  success_probability : R;
  location_action_envisagee : option Location.t;
  location_action_target_envisagee : option Location.t;
  is_current_action_loc : bool
}.

End ActionQValue.

Definition _place_ball_in_front (robot : Robot.t) (gap : R) : R * R :=
  let front := Robot.half_side robot + BALL_RADIUS + gap in
  (Robot.x robot + cos (Robot.theta robot) * front,
   Robot.y robot + sin (Robot.theta robot) * front).

Definition _set_cooldown (seconds : R) (world : World.t) : World.t :=
  World.with_kick_cooldown seconds world.

(** [robot] is the position of the kicking robot among all robots of the
    world, [team] the side of the team object that is passed along. *)
Definition release_ball (world : World.t) (robot : nat) : World.t * R * R :=
  let r := nth robot (World.all_robots world) Robot.default in
  let '(bx, by_) := _place_ball_in_front r 0.02 in
  let world := World.with_ball (Ball.set_pos bx by_ (World.ball world)) world in
  let world :=
    World.with_all_robots
      (Collisions.list_set robot (Robot.with_has_ball false r)
                           (World.all_robots world)) world in
  (world, bx, by_).

Definition exec_shoot (world : World.t) (team : Side) (robot : nat) (speed : R)
    : World.t :=
  let '(world, bx, by_) := release_ball world robot in
  let goal_x := match team with
                | Left => World.half_w world
                | Right => - World.half_w world
                end in
  let ang := Py.atan2 (0 - by_) (goal_x - bx) in
  let world := World.with_ball (Ball.kick speed ang (World.ball world)) world in
  _set_cooldown 0.25 world.

Definition exec_pass (world : World.t) (team : Side) (robot : nat)
    (to_xy : R * R) (speed : R) : World.t :=
  let '(world, bx, by_) := release_ball world robot in
  let '(tx, ty) := to_xy in
  let ang := Py.atan2 (ty - by_) (tx - bx) in
  let world := World.with_ball (Ball.kick speed ang (World.ball world)) world in
  _set_cooldown 0.25 world.

Definition _seg_point_distance (p0 p1 p : R * R) : R * R :=
  let '(x0, y0) := p0 in
  let '(x1, y1) := p1 in
  let '(x, y) := p in
  let vx := x1 - x0 in
  let vy := y1 - y0 in
  let L2 := vx * vx + vy * vy in
  if Py.leb L2 1e-12 then (Py.hypot (x - x0) (y - y0), 0)
  else
    let t := ((x - x0) * vx + (y - y0) * vy) / L2 in
    let t := Rmax 0 (Rmin 1 t) in
    let proj := (x0 + t * vx, y0 + t * vy) in
    (Py.hypot (x - fst proj) (y - snd proj), t).

Definition linear_in_interval (x x0 x1 y0 y1 : R) : R :=
  if Py.leb x x0 then y0
  else if Py.leb x1 x then y1
  else y0 + (y1 - y0) * (x - x0) / (x1 - x0).

(** The ratio appended to [crits] for one interceptor. *)
Definition crit (start cible : R * R) (L vitesse_deplacement opponent_max_speed
    inter_centre_distance temps_reaction_opponent : R) (i : R * R) : R :=
  let '(d, t) := _seg_point_distance start cible i in
  let d_eff := Rmax 0 (d - inter_centre_distance) in
  let tr := if Py.eqb d_eff 0 then 0 else temps_reaction_opponent in
  let t_opp := d_eff / Rmax 1e-6 opponent_max_speed + tr in
  let d_start_proj := t * L in
  let t_ball := d_start_proj / Rmax 1e-6 vitesse_deplacement in
  t_opp / Rmax 1e-6 t_ball.

(** [min] of a non-empty list. *)
Fixpoint list_min (a : R) (l : list R) : R :=
  match l with
  | [] => a
  | b :: l' => list_min (if Py.ltb b a then b else a) l'
  end.

Definition evaluate_success_probability_absence_interception
    (start cible : R * R) (interceptors : list (R * R))
    (vitesse_deplacement opponent_max_speed inter_centre_distance
     temps_reaction_opponent : R) : R :=
  let '(sx, sy) := start in
  let '(cx, cy) := cible in
  let vx := cx - sx in
  let vy := cy - sy in
  let L := Py.hypot vx vy in
  if Py.leb L 1e-9 then 1
  else
    let crits :=
      map (crit start cible L vitesse_deplacement opponent_max_speed
                inter_centre_distance temps_reaction_opponent)
          interceptors in
    match crits with
    | [] => 1
    | c :: crits' =>
        let crit_final := list_min c crits' in
        linear_in_interval crit_final 0.8 1 0 1
    end.

(** Heuristics and geometry helpers; a team is passed by its side. *)
Definition _attack_sign (team : Side) : Z :=
  match team with Left => 1 | Right => -1 end.

Definition _goal_x_for (team : Side) (world : World.t) : R :=
  match team with Left => World.half_w world | Right => - World.half_w world end.

Definition _dist (a b : R * R) : R :=
  Py.hypot (fst a - fst b) (snd a - snd b).

Definition _angle (a b : R * R) : R :=
  let '(x0, y0) := a in
  let '(x1, y1) := b in
  Py.atan2 (y1 - y0) (x1 - x0).

Definition _angle_abs_diff (a b : R) : R :=
  let d := Py.fmod (a - b + PI) (2 * PI) - PI in
  Rabs d.

(** [goal_half_height] defaults to [1.2]. *)
Definition evaluate_goal_opening_angle (world : World.t) (team : Side)
    (target_pos : Location.t) (goal_half_height : R) : R :=
  let goal_x := match team with
                | Left => World.half_w world
                | Right => - World.half_w world
                end in
  let tx := Location.x target_pos in
  let ty := Location.y target_pos in
  let hi := _angle (tx, ty) (goal_x, goal_half_height) in
  let lo := _angle (tx, ty) (goal_x, - goal_half_height) in
  let opening := _angle_abs_diff hi lo in
  linear_in_interval opening 0 (PI / 3) 0.2 1.

Definition evaluate_shoot (world : World.t) (team : Side)
    (shoot_pos : Location.t) (goal_y : R) (respect_3m : bool)
    (robot_start : Location.t) : R * R :=
  let sign := _attack_sign team in
  let goal_x := _goal_x_for team world in
  let reward := 1 in
  let prob := 1 in
  let opp := match team with
             | Left => World.team_right world
             | Right => World.team_left world
             end in
  let interceptors :=
    map (fun o => (Robot.x o, Robot.y o))
        (filter Robot.active (Team.robots opp)) in
  let p_move :=
    evaluate_success_probability_absence_interception
      (Location.x robot_start, Location.y robot_start)
      (Location.x shoot_pos, Location.y shoot_pos)
      interceptors 3 3 0.55 0.1 in
  let prob := prob * p_move in
  let p_shot :=
    evaluate_success_probability_absence_interception
      (Location.x shoot_pos, Location.y shoot_pos) (goal_x, goal_y)
      interceptors 15 3 0.40 0.1 in
  let prob := prob * p_shot in
  let d_carry := _dist (Location.x robot_start, Location.y robot_start)
                       (Location.x shoot_pos, Location.y shoot_pos) in
  let reward := reward * linear_in_interval d_carry 2.5 3 1 0 in
  let reward := reward * linear_in_interval d_carry 0 3 1 0.8 in
  let reward := reward * evaluate_goal_opening_angle world team shoot_pos 1.2 in
  let reward := if Py.leb (Location.x shoot_pos * IZR sign) 0 then 0 else reward in
  (Rmax 0 reward, Rmax 0 (Rmin 1 prob)).

(** The key of [choose_best_action]. *)
Definition q_value (a : ActionQValue.t) : R :=
  ActionQValue.action_reward a * Rmax 1e-3 (ActionQValue.success_probability a).

(** [max(actions, key=...)]: the first action of maximal key. *)
Definition choose_best_action (actions : list ActionQValue.t)
    : option ActionQValue.t :=
  match actions with
  | [] => None
  | a :: l =>
      Some (fold_left
              (fun best b => if Py.ltb (q_value best) (q_value b) then b else best)
              l a)
  end.

End Planning.

(** ** actions/positioning.py *)

Module Positioning.

Definition _sign (team : Side) : Z :=
  match team with Left => 1 | Right => -1 end.

Definition kickoff_restricted (world : World.t) (team : Side) (x y : R)
    : R * R :=
  let st := World.state world in
  let x2 :=
    match st with
    | st_playing => x
    | _ => if Z.eqb (_sign team) 1 then Rmin x 0 else Rmax x 0
    end in
  let y2 := y in
  match st with
  | st_kickoff_left | st_kickoff_right =>
      let cx := 0 in
      let cy := 0 in
      let r := 1 in
      if Py.ltb ((x2 - cx) ^ 2 + (y2 - cy) ^ 2) (r * r) then
        let ang := Py.atan2 (y2 - cy) (x2 - cx) in
        (cx + r * cos ang, cy + r * sin ang)
      else (x2, y2)
  | _ => (x2, y2)
  end.

End Positioning.

(** ** The possession rule, in the words of the specification *)

Module PossessionSpec.

(** The distance from a robot's centre to the ball. *)
Definition distance (bx by_ : R) (r : Robot.t) : R :=
  Py.hypot (bx - Robot.x r) (by_ - Robot.y r).

(** The cone test: distance to the ball at most [max_dist] and absolute
    angular error at most [half_angle_deg] degrees. *)
Definition in_cone (bx by_ max_dist half_angle_deg : R) (r : Robot.t) : Prop :=
  Py.hypot (bx - Robot.x r) (by_ - Robot.y r) <= max_dist
  /\ Rabs (_wrap_pi (Py.atan2 (by_ - Robot.y r) (bx - Robot.x r) - Robot.theta r))
     <= Py.radians half_angle_deg.

(** The anchor point of a holder: offset from its centre by half its
    side plus the ball radius plus the gap, along its heading; clamped
    inside the field less the ball radius when clipping is on. *)
Definition anchor_point (w : World.t) (r : Robot.t) : R * R :=
  let d := Robot.side_len r / 2 + World.sticky_ball_radius w + World.sticky_gap w in
  let ax := Robot.x r + d * cos (Robot.theta r) in
  let ay := Robot.y r + d * sin (Robot.theta r) in
  if World.sticky_clip_field w then
    (_clamp ax (- (World.field_w w / 2 - World.sticky_ball_radius w))
               (World.field_w w / 2 - World.sticky_ball_radius w),
     _clamp ay (- (World.field_h w / 2 - World.sticky_ball_radius w))
               (World.field_h w / 2 - World.sticky_ball_radius w))
  else (ax, ay).

(** The velocity of that point: the robot's velocity plus the sweep of
    its rotation. *)
Definition anchor_velocity (w : World.t) (r : Robot.t) : R * R :=
  let d := Robot.side_len r / 2 + World.sticky_ball_radius w + World.sticky_gap w in
  (Robot.vx r - Robot.omega r * (d * sin (Robot.theta r)),
   Robot.vy r + Robot.omega r * (d * cos (Robot.theta r))).

Section Holder.

Variable w : World.t.

Let bx := Ball.x (World.ball w).
Let by_ := Ball.y (World.ball w).

(** Robot number [k] is flagged and still inside the wide "off" cone. *)
Definition retains (k : nat) : Prop :=
  exists r, nth_error (World.all_robots w) k = Some r
            /\ Robot.has_ball r = true
            /\ in_cone bx by_ (World.cone_dist_off w) (World.cone_angle_off_deg w) r.

(** Robot number [k] is active and inside the narrow "on" cone. *)
Definition acquires (k : nat) : Prop :=
  exists r, nth_error (World.all_robots w) k = Some r
            /\ Robot.active r = true
            /\ in_cone bx by_ (World.cone_dist_on w) (World.cone_angle_on_deg w) r.

(** Distance from robot number [k] to the ball. *)
Definition dist (k : nat) : R :=
  distance bx by_ (nth k (World.all_robots w) Robot.default).

(** [h] is the holder the hysteresis rule selects: a flagged robot
    inside the off cone (the first one in iteration order); failing
    that, the active robot inside the on cone that is nearest to the
    ball (the first one among equally near ones); failing that,
    nobody. *)
Definition holder (h : option nat) : Prop :=
  match h with
  | Some k =>
      (retains k /\ forall j, (j < k)%nat -> ~ retains j)
      \/ ((forall j, ~ retains j)
          /\ acquires k
          /\ (forall j, acquires j -> dist k <= dist j)
          /\ (forall j, (j < k)%nat -> acquires j -> dist k < dist j))
  | None => forall j, ~ retains j /\ ~ acquires j
  end.

End Holder.

End PossessionSpec.

(** ** The kickoff formation, in the words of the claim *)

Module KickoffSpec.

(** The kickoff order on robot ids: the goalkeeper stands before
    everybody else, the others follow by ascending id. *)
Definition before (goalie : option Z) (a b : Z) : bool :=
  let keeper (k : Z) :=
    match goalie with Some g => Z.eqb k g | None => false end in
  if keeper a then negb (keeper b) else negb (keeper b) && Z.ltb a b.

(** The place of a robot in that order: the number of team-mates that
    stand before it. *)
Definition rank (tm : Team.t) (r : Robot.t) : nat :=
  length (filter (fun k => before (Team.goalie_id tm) k (Robot.robot_id r))
                 (Roster.keys (Team.robots tm))).

(** Slot number [i] of the formation of [n] robots on a field of the
    given size: goalkeeper 0.5 m in front of the own goal line,
    defender 6 m, two midfielders 3 m (2 m either side of the axis) and
    forward 1 m behind the halfway line; further robots on the
    midfield row, alternately left and right of the axis, one step
    further out each, the step dividing the half width less 0.5 m
    evenly but being at least 1 m. *)
Definition slot (field_w field_h : R) (side : Side) (n i : nat) : R * R :=
  let s := match side with Left => 1 | Right => -1 end in
  match i with
  | 0%nat => (- s * (field_w / 2 - 0.5), 0)
  | 1%nat => (- s * 6, 0)
  | 2%nat => (- s * 3, 2)
  | 3%nat => (- s * 3, -2)
  | 4%nat => (- s * 1, 0)
  | _ =>
      let k := (i - 5)%nat in
      let step := Rmax 1 ((field_h / 2 - 0.5) / INR (n - 4)) in
      (- s * 3, INR (k + 1) * step * (if Nat.even k then 1 else -1))
  end.

(** A point brought back to 0.1 m inside the field. *)
Definition inside (field_w field_h : R) (p : R * R) : R * R :=
  (_clamp (fst p) (- (field_w / 2 - 0.1)) (field_w / 2 - 0.1),
   _clamp (snd p) (- (field_h / 2 - 0.1)) (field_h / 2 - 0.1)).

(** A robot standing on its slot, facing the opponent goal, at rest and
    with no command. *)
Definition placed (field_w field_h : R) (tm : Team.t) (r : Robot.t) : Prop :=
  Robot.vx r = 0 /\ Robot.vy r = 0 /\ Robot.omega r = 0
  /\ Robot.desired_vx r = 0 /\ Robot.desired_vy r = 0
  /\ Robot.desired_omega r = 0
  /\ Robot.theta r = match Team.side tm with Left => 0 | Right => - PI end
  /\ (Robot.x r, Robot.y r)
     = inside field_w field_h
         (slot field_w field_h (Team.side tm) (length (Team.robots tm))
               (rank tm r)).

(** The whole team after a kickoff placement: the robots take the
    slots 0, 1, ... one each, the goalkeeper slot 0; on a field at
    least 13 m long no team-mate stands deeper than the goalkeeper. *)
Definition team_placed (field_w field_h : R) (tm : Team.t) : Prop :=
  Team.robots tm <> []
  /\ Permutation (map (rank tm) (Team.robots tm))
                 (seq 0 (length (Team.robots tm)))
  /\ (forall r, In r (Team.robots tm) -> placed field_w field_h tm r)
  /\ (forall g r, Team.goalie_id tm = Some g -> In r (Team.robots tm) ->
      Robot.robot_id r = g -> rank tm r = 0%nat)
  /\ (13 <= field_w ->
      forall g r r', Team.goalie_id tm = Some g -> In r (Team.robots tm) ->
        Robot.robot_id r = g -> In r' (Team.robots tm) ->
        match Team.side tm with
        | Left => Robot.x r <= Robot.x r'
        | Right => Robot.x r' <= Robot.x r
        end).

End KickoffSpec.

(** ** The interception ratio, in the words of the claim *)

Module InterceptionSpec.

(** The Euclidean distance of two points. *)
Definition distance (p q : R * R) : R :=
  Py.hypot (fst p - fst q) (snd p - snd q).

(** The point of the segment from [start] to [cible] at the fraction
    [u] of the way. *)
Definition point (start cible : R * R) (u : R) : R * R :=
  (fst start + u * (fst cible - fst start),
   snd start + u * (snd cible - snd start)).

(** [u] locates the projection of the opponent onto the segment: the
    point of the segment nearest to the opponent. *)
Definition projects (start cible opp : R * R) (u : R) : Prop :=
  0 <= u <= 1
  /\ forall u', 0 <= u' <= 1 ->
       distance opp (point start cible u) <= distance opp (point start cible u').

(** The ratio of an opponent whose projection lies at [u]: the time the
    opponent needs to reach the projection (its distance less the body
    radius at its top speed, plus the reaction time when there is a
    distance left to cover) over the time the mover needs to reach the
    same point. *)
Definition ratio_at (start cible : R * R) (mover_speed opponent_speed body
    reaction : R) (opp : R * R) (u : R) : R :=
  let q := point start cible u in
  let left_to_cover := Rmax 0 (distance opp q - body) in
  let opponent_time :=
    left_to_cover / opponent_speed
    + (if Req_dec_T left_to_cover 0 then 0 else reaction) in
  let mover_time := distance start q / mover_speed in
  opponent_time / mover_time.

Definition ratio (start cible : R * R) (mover_speed opponent_speed body
    reaction : R) (opp : R * R) (m : R) : Prop :=
  exists u, projects start cible opp u
            /\ m = ratio_at start cible mover_speed opponent_speed body reaction opp u.

(** [m] is the least of the opponents' ratios. *)
Definition least_ratio (start cible : R * R) (mover_speed opponent_speed body
    reaction : R) (opps : list (R * R)) (m : R) : Prop :=
  (exists opp, In opp opps
               /\ ratio start cible mover_speed opponent_speed body reaction opp m)
  /\ forall opp m', In opp opps ->
       ratio start cible mover_speed opponent_speed body reaction opp m' -> m <= m'.

(** The ramp from 0 at 0.8 to 1 at 1.0. *)
Definition ramp (m : R) : R :=
  if Rle_dec m 0.8 then 0
  else if Rle_dec 1 m then 1
  else (m - 0.8) / (1 - 0.8).

End InterceptionSpec.

(** ** A team as its clients drive it

    The methods of [Team] that change it, as a type of calls; robots
    enter through [add_robot] as fresh [Robot()] objects. *)

Module TeamCalls.

Inductive call : Type :=
  | AddRobot (robot_id : option Z)
  | RemoveRobot (robot_id : Z)
  | SetActive (robot_id : Z) (flag : bool)
  | SetGoalie (robot_id : Z)
  | Update (dt : R)
  | EnsureSize (n : Z)
  | AutoPositionKickoff (field_w field_h margin_goal : R).

Definition run (tm : Team.t) (c : call) : Team.t :=
  match c with
  | AddRobot robot_id => Team.add_robot None robot_id tm
  | RemoveRobot robot_id => Team.remove_robot robot_id tm
  | SetActive robot_id flag => Team.set_active robot_id flag tm
  | SetGoalie robot_id => Team.set_goalie robot_id tm
  | Update dt => Team.update dt tm
  | EnsureSize n => Team.ensure_size n tm
  | AutoPositionKickoff field_w field_h margin_goal =>
      Team.auto_position_kickoff field_w field_h margin_goal tm
  end.

Definition run_all (cs : list call) (tm : Team.t) : Team.t :=
  fold_left run cs tm.

(** The ids of the roster are distinct and below the next id to be
    allotted, every robot carries its team's id, and the goalkeeper id
    names a member of the roster, being unset only for an empty one. *)
Definition well_formed (tm : Team.t) : Prop :=
  NoDup (Roster.keys (Team.robots tm))
  /\ (forall k, In k (Roster.keys (Team.robots tm)) ->
      (k < Team._next_robot_id tm)%Z)
  /\ (forall r, In r (Team.robots tm) -> Robot.team_id r = Team.team_id tm)
  /\ match Team.goalie_id tm with
     | Some g => In g (Roster.keys (Team.robots tm))
     | None => Team.robots tm = []
     end.

End TeamCalls.

(** ** What a step may change *)

Module Frame.

(** [r'] is [r] at another place and with another velocity: heading,
    turn rate, commands, limits, flags and ids are those of [r]. *)
Definition moved (r r' : Robot.t) : Prop :=
  exists x y vx vy, r' = Robot.with_vxy vx vy (Robot.with_xy x y r).

(** [r'] has the identity and the parameters of [r]. *)
Definition same_robot (r r' : Robot.t) : Prop :=
  Robot.robot_id r' = Robot.robot_id r
  /\ Robot.team_id r' = Robot.team_id r
  /\ Robot.active r' = Robot.active r
  /\ Robot.side_len r' = Robot.side_len r
  /\ Robot.max_speed r' = Robot.max_speed r
  /\ Robot.max_omega r' = Robot.max_omega r
  /\ Robot.max_accel r' = Robot.max_accel r
  /\ Robot.max_alpha r' = Robot.max_alpha r
  /\ Robot.tau_v r' = Robot.tau_v r
  /\ Robot.tau_w r' = Robot.tau_w r.

(** [tm'] is [tm] with other robots in its roster. *)
Definition same_team (tm tm' : Team.t) : Prop :=
  Team.team_id tm' = Team.team_id tm
  /\ Team.name tm' = Team.name tm
  /\ Team.side tm' = Team.side tm
  /\ Team.max_size tm' = Team.max_size tm
  /\ Team.goalie_id tm' = Team.goalie_id tm
  /\ Team._next_robot_id tm' = Team._next_robot_id tm
  /\ length (Team.robots tm') = length (Team.robots tm).

(** [w'] has the field, the score, the state and the possession
    settings of [w], and the same teams up to their robots. *)
Definition same_settings (w w' : World.t) : Prop :=
  World.field_w w' = World.field_w w
  /\ World.field_h w' = World.field_h w
  /\ World.score w' = World.score w
  /\ World.state w' = World.state w
  /\ World.cone_dist_on w' = World.cone_dist_on w
  /\ World.cone_angle_on_deg w' = World.cone_angle_on_deg w
  /\ World.cone_dist_off w' = World.cone_dist_off w
  /\ World.cone_angle_off_deg w' = World.cone_angle_off_deg w
  /\ World.sticky_enabled w' = World.sticky_enabled w
  /\ World.sticky_ball_radius w' = World.sticky_ball_radius w
  /\ World.sticky_gap w' = World.sticky_gap w
  /\ World.sticky_clip_field w' = World.sticky_clip_field w
  /\ same_team (World.team_left w) (World.team_left w')
  /\ same_team (World.team_right w) (World.team_right w').

End Frame.

(** ** The driver: one [World.update] per tick *)

Module Driver.

Definition ticks (dts : list R) (w : World.t) (g : Rng.t) : World.t * Rng.t :=
  fold_left (fun st dt => World.update dt (fst st) (snd st)) dts (w, g).

End Driver.

(** ** Concrete worlds *)

Module Examples.

(** The default world with the given rosters. *)
Definition world_of (left right : list Robot.t) : World.t :=
  World.with_teams
    (Team.with_robots left (World.team_left World.default))
    (Team.with_robots right (World.team_right World.default))
    World.default.

(** Robot 1 of the left team, at the centre spot, facing +x, at rest. *)
Definition robot1 : Robot.t := Robot.with_ids 1 0 Robot.default.

(** The same robot flagged as holder. *)
Definition holder1 : Robot.t := Robot.with_has_ball true robot1.

(** The holder driving along +x at 1 m/s, commanded to keep doing so. *)
Definition dribbler1 : Robot.t :=
  Robot.with_desired 1 0 0 (Robot.with_vxy 1 0 holder1).

(** A robot without the ball driving along +x at 1 m/s. *)
Definition runner1 : Robot.t :=
  Robot.with_desired 1 0 0 (Robot.with_vxy 1 0 robot1).

(** Sticky attach switched off, the holder at rest, the ball 0.30 m in
    front of its centre. *)
Definition loose_grip : World.t :=
  let w := World.place_ball 0.3 0 0 0 (world_of [holder1] []) in
  World.mk (World.field_w w) (World.field_h w) (World.t_ w) (World.ball w)
    (World.team_left w) (World.team_right w) (World.score w) (World.state w)
    (World.cone_dist_on w) (World.cone_angle_on_deg w) (World.cone_dist_off w)
    (World.cone_angle_off_deg w) false (World.sticky_ball_radius w)
    (World.sticky_gap w) (World.sticky_clip_field w) (World.kick_cooldown w).

(** Default settings, the holder driving, the ball at its anchor. *)
Definition dribbling : World.t :=
  World.place_ball 0.35 0 1 0 (world_of [dribbler1] []).

(** A robot driving and a ball rolling along +x at 1 m/s, nobody near
    the ball. *)
Definition in_motion : World.t :=
  World.place_ball 5 0 1 0 (world_of [runner1] []).

(** Two robots at rest on the x axis: [b] against the right touch line,
    [a] 7.5 cm beside it. *)
Definition wall_a_at (xa : R) : Robot.t := Robot.with_xy xa 0 robot1.
Definition wall_a : Robot.t := wall_a_at 10.7.
Definition wall_b : Robot.t :=
  Robot.with_xy 10.775 0 (Robot.with_ids 2 0 Robot.default).
Definition at_the_wall : World.t := world_of [wall_a; wall_b] [].

(** A field only 10 m long, with a goalkeeper and one more robot on the
    left. *)
Definition short_field : World.t :=
  let w := World.default in
  World.mk 10 (World.field_h w) (World.t_ w) (World.ball w)
    (Team.mk 0 "Blue"%string Left 5
       [robot1; Robot.with_ids 2 0 Robot.default] (Some 1%Z) 3)
    (World.team_right w) (World.score w) (World.state w)
    (World.cone_dist_on w) (World.cone_angle_on_deg w) (World.cone_dist_off w)
    (World.cone_angle_off_deg w) (World.sticky_enabled w)
    (World.sticky_ball_radius w) (World.sticky_gap w) (World.sticky_clip_field w)
    (World.kick_cooldown w).

(** Three robots of the left team around a ball at rest on the centre
    spot: the first 0.34 m behind the ball and facing it, the second
    0.30 m beyond it and facing it, the third flagged as holder but
    2 m away. *)
Definition taker_far : Robot.t := Robot.with_xy (-0.34) 0 robot1.
Definition taker_near : Robot.t :=
  Robot.with_theta (- PI) (Robot.with_xy 0.30 0 (Robot.with_ids 2 0 Robot.default)).
Definition loser : Robot.t :=
  Robot.with_has_ball true (Robot.with_xy 2 0 (Robot.with_ids 3 0 Robot.default)).
Definition contested : World.t := world_of [taker_far; taker_near; loser] [].

(** The holder of the ball 0.40 m behind it, between the two cone
    ranges, and a second robot 0.30 m beyond the ball, inside the
    narrow cone. *)
Definition keeper_far : Robot.t :=
  Robot.with_has_ball true (Robot.with_xy (-0.40) 0 robot1).
Definition kept : World.t := world_of [keeper_far; taker_near] [].

(** A receiver facing the passer: robot 2 of the left team 0.655 m up
    the x axis, heading -x, at rest. *)
Definition receiver2 : Robot.t :=
  Robot.with_theta (- PI) (Robot.with_xy 0.655 0 (Robot.with_ids 2 0 Robot.default)).

(** The holder at the centre spot with the receiver in front of it. *)
Definition pass_play : World.t := world_of [holder1; receiver2] [].

(** Two robots at rest 0.1 m apart near the centre spot, their
    footprints overlapping. *)
Definition close_a : Robot.t := robot1.
Definition close_b : Robot.t :=
  Robot.with_xy 0.1 0 (Robot.with_ids 2 0 Robot.default).
Definition close_pair : World.t := world_of [close_a; close_b] [].

(** Two robots of the left team at top speed on crossing courses:
    [a] drives along +y and [b] along -x, so that after one step of
    0.05 s they stand 0.5 m apart on the x axis. *)
Definition crossing_a : Robot.t :=
  Robot.with_desired 0 2.5 0
    (Robot.with_vxy 0 2.5 (Robot.with_xy 0 (-0.125) robot1)).
Definition crossing_b : Robot.t :=
  Robot.with_desired (-2.5) 0 0
    (Robot.with_vxy (-2.5) 0
       (Robot.with_xy 0.625 0 (Robot.with_ids 2 0 Robot.default))).
Definition crossing : World.t := world_of [crossing_a; crossing_b] [].

End Examples.

(* ================================================================== *)
(** * Properties *)

(** ** Comparisons *)

Lemma leb_true (a b : R) : a <= b -> Py.leb a b = true.
Proof. intros H. unfold Py.leb. destruct (Rle_dec a b); [reflexivity | contradiction]. Qed.

Lemma leb_false (a b : R) : b < a -> Py.leb a b = false.
Proof. intros H. unfold Py.leb. destruct (Rle_dec a b); [lra | reflexivity]. Qed.

Lemma ltb_true (a b : R) : a < b -> Py.ltb a b = true.
Proof. intros H. unfold Py.ltb. destruct (Rlt_dec a b); [reflexivity | contradiction]. Qed.

Lemma ltb_false (a b : R) : b <= a -> Py.ltb a b = false.
Proof. intros H. unfold Py.ltb. destruct (Rlt_dec a b); [lra | reflexivity]. Qed.

Lemma eqb_true (a b : R) : a = b -> Py.eqb a b = true.
Proof. intros H. unfold Py.eqb. destruct (Req_dec_T a b); [reflexivity | contradiction]. Qed.

Lemma eqb_false (a b : R) : a <> b -> Py.eqb a b = false.
Proof. intros H. unfold Py.eqb. destruct (Req_dec_T a b); [contradiction | reflexivity]. Qed.

Lemma leb_spec (a b : R) : Py.leb a b = true <-> a <= b.
Proof.
  unfold Py.leb. destruct (Rle_dec a b); split; intros; try assumption;
    try reflexivity; try discriminate; contradiction.
Qed.

Lemma ltb_spec (a b : R) : Py.ltb a b = true <-> a < b.
Proof.
  unfold Py.ltb. destruct (Rlt_dec a b); split; intros; try assumption;
    try reflexivity; try discriminate; contradiction.
Qed.

Lemma ltb_nspec (a b : R) : Py.ltb a b = false <-> b <= a.
Proof.
  unfold Py.ltb. destruct (Rlt_dec a b); split; intros; try reflexivity;
    try discriminate; lra.
Qed.

Lemma leb_nspec (a b : R) : Py.leb a b = false <-> b < a.
Proof.
  unfold Py.leb. destruct (Rle_dec a b); split; intros; try reflexivity;
    try discriminate; lra.
Qed.

Lemma PI_lower : 3 < PI.
Proof. pose proof PI2_3_2. lra. Qed.

Lemma clamp_bounds (v lo hi : R) : lo <= hi -> lo <= _clamp v lo hi <= hi.
Proof.
  intros H. unfold _clamp, Rmax, Rmin.
  destruct (Rle_dec hi v); destruct (Rle_dec lo _); lra.
Qed.

Lemma clamp_id (v lo hi : R) : lo <= v <= hi -> _clamp v lo hi = v.
Proof.
  intros H. unfold _clamp, Rmax, Rmin.
  destruct (Rle_dec hi v); destruct (Rle_dec lo _); lra.
Qed.

(** ** The floored remainder and the angle wrap *)

Lemma fmod_range (a b : R) : 0 < b -> 0 <= Py.fmod a b < b.
Proof.
  intros Hb. unfold Py.fmod.
  destruct (base_Int_part (a / b)) as [H1 H2].
  set (q := IZR (Int_part (a / b))) in *.
  assert (Ha : a = a / b * b) by (field; lra).
  set (u := a / b) in *. split; nra.
Qed.

Lemma fmod_small (a b : R) : 0 <= a < b -> Py.fmod a b = a.
Proof.
  intros [H0 H1]. unfold Py.fmod.
  assert (Hb : 0 < b) by lra.
  replace (Int_part (a / b)) with 0%Z; [simpl; lra |].
  apply Int_part_spec. simpl.
  assert (0 <= a / b < 1).
  { split.
    - apply Rmult_le_pos; [lra | left; apply Rinv_0_lt_compat; lra].
    - apply Rmult_lt_reg_r with b; [lra |].
      replace (a / b * b) with a by (field; lra). lra. }
  lra.
Qed.

Lemma fmod_self (b : R) : 0 < b -> Py.fmod b b = 0.
Proof.
  intros Hb. unfold Py.fmod.
  replace (b / b) with 1 by (field; lra).
  replace (Int_part 1) with 1%Z; [simpl; lra |].
  apply Int_part_spec. simpl. lra.
Qed.

Lemma wrap_pi_range (a : R) : - PI <= _wrap_pi a < PI.
Proof.
  unfold _wrap_pi. pose proof PI_RGT_0.
  pose proof (fmod_range (a + PI) (2 * PI)). lra.
Qed.

Lemma wrap_pi_fixed (a : R) : - PI <= a < PI -> _wrap_pi a = a.
Proof.
  intros H. unfold _wrap_pi. rewrite fmod_small; lra.
Qed.

Lemma wrap_pi_idem (a : R) : _wrap_pi (_wrap_pi a) = _wrap_pi a.
Proof. apply wrap_pi_fixed, wrap_pi_range. Qed.

Lemma wrap_pi_at_PI : _wrap_pi PI = - PI.
Proof.
  unfold _wrap_pi. pose proof PI_RGT_0.
  replace (PI + PI) with (2 * PI) by lra.
  rewrite fmod_self; lra.
Qed.

(** ** Robot kinematics *)

Lemma update_skipped (dt : R) (r : Robot.t) :
  Robot.active r = false \/ dt <= 0 -> Robot.update dt r = r.
Proof.
  intros [H | H]; unfold Robot.update.
  - rewrite H. reflexivity.
  - rewrite (leb_true _ _ H), orb_true_r. reflexivity.
Qed.

Lemma update_theta_wrapped (dt : R) (r : Robot.t) :
  Robot.active r = true -> 0 < dt ->
  exists a, Robot.theta (Robot.update dt r) = _wrap_pi a.
Proof.
  intros Ha Hdt. unfold Robot.update.
  rewrite Ha, (leb_false _ _ Hdt). simpl.
  repeat match goal with
         | |- context [if ?c then _ else _] => destruct c
         end; simpl; eexists; reflexivity.
Qed.

(** C8, as the claim states it, fails: the wrap sends [PI] to [- PI],
    which lies outside the half-open interval (-PI, PI]. *)
Lemma C8_wrap_pi_excludes_upper_end :
  _wrap_pi PI = - PI /\ ~ (- PI < _wrap_pi PI <= PI).
Proof.
  split; [apply wrap_pi_at_PI |].
  rewrite wrap_pi_at_PI. lra.
Qed.

(** C8 (amended): for every real angle the wrap lies in the closed
    interval [-PI, PI], whose lower end it takes at [PI]; it is
    idempotent wherever its value is not [PI] (a value the remainder
    never gives over the reals, and which rounding gives the
    floating-point program for the float next below [- PI]); the heading
    stored by [set_pose], and the heading of an active robot after a
    kinematics update with positive [dt], lie in [-PI, PI]. *)
Theorem C8_wrap_pi_closed_range (a x y dt : R) (r : Robot.t) :
  Robot.active r = true -> 0 < dt ->
  (- PI <= _wrap_pi a <= PI)
  /\ (_wrap_pi a <> PI -> _wrap_pi (_wrap_pi a) = _wrap_pi a)
  /\ (- PI <= Robot.theta (Robot.set_pose x y a r) <= PI)
  /\ (- PI <= Robot.theta (Robot.update dt r) <= PI).
Proof.
  intros Ha Hdt.
  destruct (update_theta_wrapped dt r Ha Hdt) as [b Hb].
  pose proof (wrap_pi_range a) as H1. pose proof (wrap_pi_range b) as H2.
  split; [lra |]. split; [intros _; apply wrap_pi_idem |].
  split; [cbn [Robot.set_pose Robot.theta Robot.with_theta]; lra |].
  rewrite Hb. lra.
Qed.

Lemma C8_wrap_pi_closed_range_witness :
  let r := Robot.with_desired 0 0 2 Robot.default in
  (- PI <= _wrap_pi PI <= PI)
  /\ _wrap_pi (_wrap_pi PI) = _wrap_pi PI
  /\ (- PI <= Robot.theta (Robot.set_pose 1 2 PI r) <= PI)
  /\ (- PI <= Robot.theta (Robot.update 0.05 r) <= PI).
Proof.
  intros r.
  destruct (C8_wrap_pi_closed_range PI 1 2 0.05 r) as (H1 & H2 & H3 & H4);
    [reflexivity | lra |].
  split; [exact H1 |]. split; [| split; [exact H3 | exact H4]].
  apply H2. rewrite wrap_pi_at_PI. pose proof PI_RGT_0. lra.
Defined.

(** ** Command intents *)

Lemma hypot_0_0 : Py.hypot 0 0 = 0.
Proof. unfold Py.hypot. replace (0 * 0 + 0 * 0) with 0 by lra. apply sqrt_0. Qed.

Lemma command_velocity_zero (w : R) (r : Robot.t) :
  Robot.command_velocity 0 0 w r
  = Robot.with_desired 0 0 (_clamp w (- Robot.max_omega r) (Robot.max_omega r)) r.
Proof.
  unfold Robot.command_velocity. rewrite hypot_0_0.
  rewrite (ltb_false 1e-9 0) by lra. reflexivity.
Qed.

Lemma command_velocity_omega (vx vy w : R) (r : Robot.t) :
  Robot.desired_omega (Robot.command_velocity vx vy w r)
  = _clamp w (- Robot.max_omega r) (Robot.max_omega r).
Proof.
  unfold Robot.command_velocity.
  destruct (Py.ltb 1e-9 (Py.hypot vx vy) && Py.ltb (Robot.max_speed r) (Py.hypot vx vy));
    reflexivity.
Qed.

Lemma command_move_towards_omega (tx ty : R) (speed : option R) (r : Robot.t) :
  Robot.desired_omega (Robot.command_move_towards tx ty speed r)
  = _clamp (Robot.desired_omega r) (- Robot.max_omega r) (Robot.max_omega r).
Proof.
  unfold Robot.command_move_towards.
  destruct (Py.ltb _ 1e-6); apply command_velocity_omega.
Qed.

(** C10, as the claim states it, fails: a turn rate commanded through
    [command_face_point] with a [max_rate] above [max_omega] is cut back
    to [max_omega] by a [command_move_towards] whose target is the
    robot's own position. *)
Lemma C10_move_towards_cuts_omega :
  let r0 := Robot.command_face_point 0 1 8 (Some 20) Robot.default in
  let r1 := Robot.command_move_towards (Robot.x r0) (Robot.y r0) None r0 in
  Py.hypot (Robot.x r0 - Robot.x r0) (Robot.y r0 - Robot.y r0) < 1e-6
  /\ Robot.desired_omega r0 = 4 * PI
  /\ Robot.desired_omega r1 = 6
  /\ Robot.desired_omega r1 <> Robot.desired_omega r0.
Proof.
  pose proof PI_lower as Hlo. pose proof PI_4 as Hhi.
  assert (H0 : Robot.desired_omega
                 (Robot.command_face_point 0 1 8 (Some 20) Robot.default) = 4 * PI).
  { unfold Robot.command_face_point, Robot.with_desired_omega. simpl.
    unfold Py.or_else. rewrite (eqb_false 20 0) by lra.
    unfold Py.atan2. replace (0 - 0) with 0 by lra. replace (1 - 0) with 1 by lra.
    rewrite (ltb_false 0 0), (ltb_true 0 1) by lra.
    replace (PI / 2 - 0) with (PI / 2) by lra.
    rewrite wrap_pi_fixed by lra.
    rewrite clamp_id by lra. lra. }
  cbv zeta. rewrite command_move_towards_omega, H0.
  assert (H1 : _clamp (4 * PI)
                 (- Robot.max_omega (Robot.command_face_point 0 1 8 (Some 20) Robot.default))
                 (Robot.max_omega (Robot.command_face_point 0 1 8 (Some 20) Robot.default))
               = 6).
  { simpl. unfold _clamp. rewrite Rmin_left by lra. rewrite Rmax_right by lra.
    reflexivity. }
  rewrite H1. repeat split; try lra.
  rewrite !Rminus_diag. rewrite hypot_0_0. lra.
Qed.

(** C10 (amended): [command_face_point] writes only [desired_omega], the
    proportional rate clamped to [max_omega] when no [max_rate] is given
    and to a given non-zero [max_rate]; every other field keeps its
    value.  [command_move_towards] stores [desired_omega] clamped to
    [max_omega] again, so it keeps the rate whenever that rate is within
    [max_omega] in absolute value, as it is after a [command_face_point]
    without [max_rate]; with a target closer than 1e-6 it commands zero
    linear velocity. *)
Theorem C10_face_point_then_move (tx ty kp : R) (max_rate : option R)
    (tx2 ty2 : R) (speed : option R) (r : Robot.t) :
  let r' := Robot.command_face_point tx ty kp max_rate r in
  let w := kp * _wrap_pi (Py.atan2 (ty - Robot.y r) (tx - Robot.x r) - Robot.theta r) in
  r' = Robot.with_desired_omega (Robot.desired_omega r') r
  /\ (max_rate = None ->
      Robot.desired_omega r' = _clamp w (- Robot.max_omega r) (Robot.max_omega r))
  /\ (forall m, max_rate = Some m -> m <> 0 ->
      Robot.desired_omega r' = _clamp w (- m) m)
  /\ (max_rate = None -> 0 <= Robot.max_omega r ->
      Robot.desired_omega (Robot.command_move_towards tx2 ty2 speed r')
      = Robot.desired_omega r')
  /\ (Py.hypot (tx2 - Robot.x r) (ty2 - Robot.y r) < 1e-6 ->
      Robot.command_move_towards tx2 ty2 speed r
      = Robot.with_desired 0 0
          (_clamp (Robot.desired_omega r) (- Robot.max_omega r) (Robot.max_omega r)) r)
  /\ (Py.hypot (tx2 - Robot.x r) (ty2 - Robot.y r) < 1e-6 ->
      - Robot.max_omega r <= Robot.desired_omega r <= Robot.max_omega r ->
      Robot.command_move_towards tx2 ty2 speed r
      = Robot.with_desired 0 0 (Robot.desired_omega r) r).
Proof.
  cbv zeta. repeat split.
  - intros ->. reflexivity.
  - intros m -> Hm. unfold Robot.command_face_point. simpl.
    rewrite (eqb_false m 0 Hm). reflexivity.
  - intros -> HM. rewrite command_move_towards_omega.
    apply clamp_id. simpl. apply clamp_bounds. lra.
  - intros Hd. unfold Robot.command_move_towards.
    rewrite (ltb_true _ _ Hd). apply command_velocity_zero.
  - intros Hd Hw. unfold Robot.command_move_towards.
    rewrite (ltb_true _ _ Hd), command_velocity_zero, clamp_id by assumption.
    reflexivity.
Qed.

Lemma C10_face_point_then_move_witness :
  let r := Robot.default in
  let r' := Robot.command_face_point 3 4 3 None r in
  Robot.desired_omega (Robot.command_move_towards 5 5 None r')
  = Robot.desired_omega r'
  /\ Robot.command_move_towards 0 0 None r = Robot.with_desired 0 0 0 r.
Proof.
  destruct (C10_face_point_then_move 3 4 3 None 5 5 None Robot.default)
    as (_ & _ & _ & H4 & _ & _).
  destruct (C10_face_point_then_move 3 4 3 None 0 0 None Robot.default)
    as (_ & _ & _ & _ & _ & H6).
  split.
  - apply H4; [reflexivity | simpl; lra].
  - apply H6.
    + simpl. replace (0 - 0) with 0 by lra. rewrite hypot_0_0. lra.
    + simpl. lra.
Defined.

(** ** Speed limit *)

Lemma hypot_nonneg (a b : R) : 0 <= Py.hypot a b.
Proof. apply sqrt_pos. Qed.

Lemma hypot_sqr (a b : R) : Py.hypot a b * Py.hypot a b = a * a + b * b.
Proof. unfold Py.hypot. apply sqrt_sqrt. nra. Qed.

Lemma hypot_le_iff (a b m : R) :
  0 <= m -> (Py.hypot a b <= m <-> a * a + b * b <= m * m).
Proof.
  intros Hm. pose proof (hypot_nonneg a b). pose proof (hypot_sqr a b).
  split; intros; nra.
Qed.

Lemma hypot_x_0 (a : R) : 0 <= a -> Py.hypot a 0 = a.
Proof.
  intros H. unfold Py.hypot. replace (a * a + 0 * 0) with (a * a) by ring.
  apply sqrt_square; assumption.
Qed.

Lemma hypot_0_y (a : R) : 0 <= a -> Py.hypot 0 a = a.
Proof.
  intros H. unfold Py.hypot. replace (0 * 0 + a * a) with (a * a) by ring.
  apply sqrt_square; assumption.
Qed.

Lemma hypot_abs_0 (a : R) : Py.hypot a 0 = Rabs a.
Proof.
  unfold Py.hypot. replace (a * a + 0 * 0) with (Rsqr a) by (unfold Rsqr; ring).
  apply sqrt_Rsqr_abs.
Qed.

Lemma alpha_unit (tau dt : R) : 0 < dt -> 0 <= Robot._alpha tau dt <= 1.
Proof.
  intros Hdt. unfold Robot._alpha. unfold Py.leb.
  destruct (Rle_dec tau 0) as [H | H]; [lra |].
  assert (Ht : 0 < tau) by lra.
  assert (Hneg : - dt / tau < 0).
  { assert (0 < dt / tau) by (apply Rdiv_lt_0_compat; lra).
    replace (- dt / tau) with (- (dt / tau)) by (field; lra). lra. }
  pose proof (exp_pos (- dt / tau)).
  pose proof (exp_increasing _ _ Hneg) as Hinc. rewrite exp_0 in Hinc. lra.
Qed.

(** Convexity of the disc of radius [m]. *)
Lemma disc_convex (a1 b1 a2 b2 s m : R) :
  0 <= s <= 1 ->
  a1 * a1 + b1 * b1 <= m * m ->
  a2 * a2 + b2 * b2 <= m * m ->
  (a1 + (a2 - a1) * s) * (a1 + (a2 - a1) * s)
  + (b1 + (b2 - b1) * s) * (b1 + (b2 - b1) * s) <= m * m.
Proof.
  intros Hs H1 H2.
  assert (Hd : 2 * (a1 * a2 + b1 * b2) <= 2 * (m * m)).
  { pose proof (Rle_0_sqr (a1 - a2)). pose proof (Rle_0_sqr (b1 - b2)).
    unfold Rsqr in *. lra. }
  replace ((a1 + (a2 - a1) * s) * (a1 + (a2 - a1) * s)
           + (b1 + (b2 - b1) * s) * (b1 + (b2 - b1) * s))
    with ((1 - s) * (1 - s) * (a1 * a1 + b1 * b1)
          + s * s * (a2 * a2 + b2 * b2)
          + s * (1 - s) * (2 * (a1 * a2 + b1 * b2))) by ring.
  assert (0 <= (1 - s) * (1 - s)) by nra.
  assert (0 <= s * s) by nra.
  assert (0 <= s * (1 - s)) by nra.
  assert ((1 - s) * (1 - s) * (a1 * a1 + b1 * b1) <= (1 - s) * (1 - s) * (m * m))
    by (apply Rmult_le_compat_l; assumption).
  assert (s * s * (a2 * a2 + b2 * b2) <= s * s * (m * m))
    by (apply Rmult_le_compat_l; assumption).
  assert (s * (1 - s) * (2 * (a1 * a2 + b1 * b2)) <= s * (1 - s) * (2 * (m * m)))
    by (apply Rmult_le_compat_l; assumption).
  replace (m * m) with ((1 - s) * (1 - s) * (m * m) + s * s * (m * m)
                        + s * (1 - s) * (2 * (m * m))) at 4 by ring.
  lra.
Qed.

(** A vector rescaled to length [m]. *)
Lemma rescaled_norm (a b m : R) :
  0 < Py.hypot a b ->
  (a * (m / Py.hypot a b)) * (a * (m / Py.hypot a b))
  + (b * (m / Py.hypot a b)) * (b * (m / Py.hypot a b)) = m * m.
Proof.
  intros Hp. pose proof (hypot_sqr a b) as Hs.
  set (h := Py.hypot a b) in *.
  replace (a * (m / h) * (a * (m / h)) + b * (m / h) * (b * (m / h)))
    with ((a * a + b * b) * (m * m) / (h * h)) by (field; lra).
  rewrite <- Hs. field. lra.
Qed.

(** The velocity after one kinematics step: a point on the segment from
    the old velocity to the speed-clamped target. *)
Lemma update_velocity (dt : R) (r : Robot.t) :
  Robot.active r = true -> 0 < dt ->
  exists tx0 ty0 tx ty s,
    tx0 = Robot.vx r
          + Robot._alpha (Robot.tau_v r) dt * (Robot.desired_vx r - Robot.vx r)
    /\ ty0 = Robot.vy r
             + Robot._alpha (Robot.tau_v r) dt * (Robot.desired_vy r - Robot.vy r)
    /\ ((Robot.max_speed r < Py.hypot tx0 ty0 /\ 0 < Robot.max_speed r
         /\ tx = tx0 * (Robot.max_speed r / Py.hypot tx0 ty0)
         /\ ty = ty0 * (Robot.max_speed r / Py.hypot tx0 ty0))
        \/ ((Py.hypot tx0 ty0 <= Robot.max_speed r \/ Robot.max_speed r <= 0)
            /\ tx = tx0 /\ ty = ty0))
    /\ 0 <= s <= 1
    /\ Robot.vx (Robot.update dt r) = Robot.vx r + (tx - Robot.vx r) * s
    /\ Robot.vy (Robot.update dt r) = Robot.vy r + (ty - Robot.vy r) * s.
Proof.
  intros Ha Hdt. unfold Robot.update.
  rewrite Ha, (leb_false _ _ Hdt). cbn [negb orb].
  set (tx0 := Robot.vx r + _). set (ty0 := Robot.vy r + _).
  exists tx0, ty0.
  destruct (Py.ltb (Robot.max_speed r) (Py.hypot tx0 ty0)) eqn:E1;
    [destruct (Py.ltb 0 (Robot.max_speed r)) eqn:E2 |]; cbn [andb].
  - apply ltb_spec in E1, E2.
    set (tx := tx0 * _). set (ty := ty0 * _). exists tx, ty.
    destruct (Py.ltb (Robot.max_accel r * dt) (Py.hypot (tx - Robot.vx r) (ty - Robot.vy r))) eqn:E3;
      [destruct (Py.ltb 0 (Robot.max_accel r * dt)) eqn:E4 |]; cbn [andb].
    + apply ltb_spec in E3, E4.
      exists (Robot.max_accel r * dt / Py.hypot (tx - Robot.vx r) (ty - Robot.vy r)).
      repeat split; try reflexivity; try (left; repeat split; assumption).
      * apply Rmult_le_pos; [lra | left; apply Rinv_0_lt_compat; lra].
      * apply Rmult_le_reg_r with (Py.hypot (tx - Robot.vx r) (ty - Robot.vy r)); [lra |].
        unfold Rdiv. rewrite Rmult_assoc, Rinv_l by lra. lra.
    + exists 1. repeat split; try lra; try (left; repeat split; assumption); simpl; lra.
    + exists 1. repeat split; try lra; try (left; repeat split; assumption); simpl; lra.
  - apply ltb_nspec in E2. exists tx0, ty0.
    destruct (Py.ltb (Robot.max_accel r * dt) (Py.hypot (tx0 - Robot.vx r) (ty0 - Robot.vy r))) eqn:E3;
      [destruct (Py.ltb 0 (Robot.max_accel r * dt)) eqn:E4 |]; cbn [andb].
    + apply ltb_spec in E3, E4.
      exists (Robot.max_accel r * dt / Py.hypot (tx0 - Robot.vx r) (ty0 - Robot.vy r)).
      repeat split; try reflexivity; try (right; repeat split; try reflexivity; right; assumption).
      * apply Rmult_le_pos; [lra | left; apply Rinv_0_lt_compat; lra].
      * apply Rmult_le_reg_r with (Py.hypot (tx0 - Robot.vx r) (ty0 - Robot.vy r)); [lra |].
        unfold Rdiv. rewrite Rmult_assoc, Rinv_l by lra. lra.
    + exists 1. repeat split; try lra;
        try (right; repeat split; try reflexivity; right; assumption); simpl; lra.
    + exists 1. repeat split; try lra;
        try (right; repeat split; try reflexivity; right; assumption); simpl; lra.
  - apply ltb_nspec in E1. exists tx0, ty0.
    destruct (Py.ltb (Robot.max_accel r * dt) (Py.hypot (tx0 - Robot.vx r) (ty0 - Robot.vy r))) eqn:E3;
      [destruct (Py.ltb 0 (Robot.max_accel r * dt)) eqn:E4 |]; cbn [andb].
    + apply ltb_spec in E3, E4.
      exists (Robot.max_accel r * dt / Py.hypot (tx0 - Robot.vx r) (ty0 - Robot.vy r)).
      repeat split; try reflexivity; try (right; repeat split; try reflexivity; left; assumption).
      * apply Rmult_le_pos; [lra | left; apply Rinv_0_lt_compat; lra].
      * apply Rmult_le_reg_r with (Py.hypot (tx0 - Robot.vx r) (ty0 - Robot.vy r)); [lra |].
        unfold Rdiv. rewrite Rmult_assoc, Rinv_l by lra. lra.
    + exists 1. repeat split; try lra;
        try (right; repeat split; try reflexivity; left; assumption); simpl; lra.
    + exists 1. repeat split; try lra;
        try (right; repeat split; try reflexivity; left; assumption); simpl; lra.
Qed.

Lemma update_speed_within (dt b : R) (r : Robot.t) :
  0 < dt -> Robot.max_speed r <= b ->
  Robot.speed r <= Robot.max_speed r ->
  (0 < Robot.max_speed r
   \/ Py.hypot (Robot.desired_vx r) (Robot.desired_vy r) <= b) ->
  (0 < Robot.max_speed r -> b = Robot.max_speed r) ->
  Robot.speed (Robot.update dt r) <= b.
Proof.
  intros Hdt Hb Hsp Hcase Hbm.
  pose proof (hypot_nonneg (Robot.vx r) (Robot.vy r)) as Hv0.
  unfold Robot.speed in *.
  assert (Hb0 : 0 <= b) by lra.
  destruct (Robot.active r) eqn:Ha.
  2:{ rewrite update_skipped by (left; assumption). lra. }
  destruct (update_velocity dt r Ha Hdt)
    as (tx0 & ty0 & tx & ty & s & Htx0 & Hty0 & Htgt & Hs & Hvx & Hvy).
  rewrite Hvx, Hvy. apply hypot_le_iff; [assumption |].
  assert (Hv : Robot.vx r * Robot.vx r + Robot.vy r * Robot.vy r <= b * b).
  { apply hypot_le_iff; [assumption | lra]. }
  apply disc_convex; try assumption.
  destruct Htgt as [(H1 & H2 & -> & ->) | (H1 & -> & ->)].
  - rewrite rescaled_norm by lra. rewrite (Hbm H2). lra.
  - destruct Hcase as [Hpos | Hdes].
    + destruct H1 as [H1 | H1]; [| lra].
      apply hypot_le_iff; [assumption | lra].
    + rewrite Htx0, Hty0.
      replace (Robot._alpha (Robot.tau_v r) dt * (Robot.desired_vx r - Robot.vx r))
        with ((Robot.desired_vx r - Robot.vx r) * Robot._alpha (Robot.tau_v r) dt) by ring.
      replace (Robot._alpha (Robot.tau_v r) dt * (Robot.desired_vy r - Robot.vy r))
        with ((Robot.desired_vy r - Robot.vy r) * Robot._alpha (Robot.tau_v r) dt) by ring.
      apply disc_convex; try assumption.
      * apply alpha_unit; assumption.
      * apply hypot_le_iff; assumption.
Qed.


Lemma hypot_3_4 : Py.hypot 3 4 = 5.
Proof.
  unfold Py.hypot. replace (3 * 3 + 4 * 4) with (5 * 5) by lra.
  apply sqrt_square. lra.
Qed.


(** ** Interception probability *)

Lemma list_min_le_head (a : R) (l : list R) : Planning.list_min a l <= a.
Proof.
  revert a. induction l as [| b l IH]; intros a; simpl; [lra |].
  unfold Py.ltb. destruct (Rlt_dec b a).
  - apply Rle_trans with b; [apply IH | lra].
  - apply IH.
Qed.

Lemma list_min_le (a : R) (l : list R) (c : R) :
  In c (a :: l) -> Planning.list_min a l <= c.
Proof.
  revert a. induction l as [| b l IH]; intros a Hin; simpl.
  - destruct Hin as [-> | []]; lra.
  - destruct Hin as [<- | [<- | Hin]].
    + apply Rle_trans with (if Py.ltb b a then b else a); [apply list_min_le_head |].
      unfold Py.ltb; destruct (Rlt_dec b a); lra.
    + apply Rle_trans with (if Py.ltb b a then b else a); [apply list_min_le_head |].
      unfold Py.ltb; destruct (Rlt_dec b a); lra.
    + apply IH. right; assumption.
Qed.

Lemma list_min_in (a : R) (l : list R) : In (Planning.list_min a l) (a :: l).
Proof.
  revert a. induction l as [| b l IH]; intros a; simpl; [left; reflexivity |].
  destruct (IH (if Py.ltb b a then b else a)) as [H | H].
  - destruct (Py.ltb b a); [right; left | left]; exact H.
  - right; right; exact H.
Qed.

Lemma linear_in_interval_unit (m : R) :
  0 <= Planning.linear_in_interval m 0.8 1 0 1 <= 1.
Proof.
  unfold Planning.linear_in_interval, Py.leb.
  destruct (Rle_dec m 0.8); [lra |]. destruct (Rle_dec 1 m); lra.
Qed.

Lemma linear_in_interval_mono (m1 m2 : R) :
  m1 <= m2 ->
  Planning.linear_in_interval m1 0.8 1 0 1 <= Planning.linear_in_interval m2 0.8 1 0 1.
Proof.
  intros H. unfold Planning.linear_in_interval, Py.leb.
  destruct (Rle_dec m1 0.8); destruct (Rle_dec m2 0.8);
    destruct (Rle_dec 1 m1); destruct (Rle_dec 1 m2); lra.
Qed.

Lemma seg_point_distance_nonneg (p0 p1 p : R * R) :
  0 <= fst (Planning._seg_point_distance p0 p1 p)
  /\ 0 <= snd (Planning._seg_point_distance p0 p1 p) <= 1.
Proof.
  destruct p0 as [x0 y0], p1 as [x1 y1], p as [x y].
  unfold Planning._seg_point_distance.
  destruct (Py.leb _ 1e-12); simpl.
  - split; [apply hypot_nonneg | lra].
  - split; [apply hypot_nonneg |].
    unfold Rmax, Rmin.
    destruct (Rle_dec 1 _); destruct (Rle_dec 0 _); lra.
Qed.

(** A faster opponent never has a larger ratio. *)
Lemma crit_antitone (start cible : R * R) (L v s1 s2 icd tr : R) (i : R * R) :
  s1 <= s2 ->
  Planning.crit start cible L v s2 icd tr i
  <= Planning.crit start cible L v s1 icd tr i.
Proof.
  intros Hs. unfold Planning.crit.
  destruct (Planning._seg_point_distance start cible i) as [d t].
  set (d_eff := Rmax 0 (d - icd)).
  assert (Hd : 0 <= d_eff) by apply Rmax_l.
  set (trr := if Py.eqb d_eff 0 then 0 else tr).
  set (den := Rmax 1e-6 (t * L / Rmax 1e-6 v)).
  assert (Hden : 0 < den).
  { apply Rlt_le_trans with 1e-6; [lra | apply Rmax_l]. }
  assert (H1 : 0 < Rmax 1e-6 s1).
  { apply Rlt_le_trans with 1e-6; [lra | apply Rmax_l]. }
  assert (H12 : Rmax 1e-6 s1 <= Rmax 1e-6 s2).
  { apply Rle_max_compat_l; assumption. }
  assert (Hinv : / Rmax 1e-6 s2 <= / Rmax 1e-6 s1).
  { apply Rinv_le_contravar; assumption. }
  unfold Rdiv at 1 3.
  apply Rmult_le_compat_r; [left; apply Rinv_0_lt_compat; assumption |].
  apply Rplus_le_compat_r. unfold Rdiv.
  apply Rmult_le_compat_l; assumption.
Qed.

Lemma evaluate_unfold (start cible : R * R) (ops : list (R * R))
    (v s icd tr : R) :
  Planning.evaluate_success_probability_absence_interception
    start cible ops v s icd tr
  = let L := Py.hypot (fst cible - fst start) (snd cible - snd start) in
    if Py.leb L 1e-9 then 1
    else match map (Planning.crit start cible L v s icd tr) ops with
         | [] => 1
         | c :: crits => Planning.linear_in_interval (Planning.list_min c crits) 0.8 1 0 1
         end.
Proof. destruct start, cible. reflexivity. Qed.

Lemma evaluate_antitone (start cible : R * R) (ops : list (R * R))
    (v s1 s2 icd tr : R) :
  s1 <= s2 ->
  Planning.evaluate_success_probability_absence_interception
    start cible ops v s2 icd tr
  <= Planning.evaluate_success_probability_absence_interception
       start cible ops v s1 icd tr.
Proof.
  intros Hs. rewrite !evaluate_unfold. cbv zeta.
  set (L := Py.hypot _ _).
  destruct (Py.leb L 1e-9); [lra |].
  destruct ops as [| o ops]; [simpl; lra |].
  cbn [map]. apply linear_in_interval_mono.
  set (f1 := Planning.crit start cible L v s1 icd tr).
  set (f2 := Planning.crit start cible L v s2 icd tr).
  assert (Hin : In (Planning.list_min (f1 o) (map f1 ops)) (map f1 (o :: ops))).
  { apply list_min_in. }
  apply in_map_iff in Hin. destruct Hin as (i & Hi & Hio).
  rewrite <- Hi.
  apply Rle_trans with (f2 i).
  - apply list_min_le. change (In (f2 i) (map f2 (o :: ops))).
    apply in_map; assumption.
  - apply crit_antitone; assumption.
Qed.

Lemma interception_unit (start cible : R * R) (ops : list (R * R))
    (v s icd tr : R) :
  0 <= Planning.evaluate_success_probability_absence_interception
         start cible ops v s icd tr <= 1.
Proof.
  rewrite evaluate_unfold. cbv zeta.
  destruct (Py.leb _ 1e-9); [lra |].
  destruct (map _ ops); [lra |]. apply linear_in_interval_unit.
Qed.

(** ** The interception ratio against its specification *)

Section Projection.

Variables start cible opp : R * R.

Let vx := fst cible - fst start.
Let vy := snd cible - snd start.
Let L2 := vx * vx + vy * vy.
Let wv := (fst opp - fst start) * vx + (snd opp - snd start) * vy.

Hypothesis HL : 1e-12 < L2.

(** The squared distance from the opponent to the point at [s]. *)
Lemma projection_square (s : R) :
  InterceptionSpec.distance opp (InterceptionSpec.point start cible s)
  * InterceptionSpec.distance opp (InterceptionSpec.point start cible s)
  = (fst opp - fst start) * (fst opp - fst start)
    + (snd opp - snd start) * (snd opp - snd start)
    - 2 * s * wv + s * s * L2.
Proof.
  unfold InterceptionSpec.distance, InterceptionSpec.point. cbn [fst snd].
  rewrite hypot_sqr. unfold wv, L2, vx, vy. ring.
Qed.

Lemma distance_le_square (p q p' q' : R * R) :
  InterceptionSpec.distance p q <= InterceptionSpec.distance p' q'
  <-> InterceptionSpec.distance p q * InterceptionSpec.distance p q
      <= InterceptionSpec.distance p' q' * InterceptionSpec.distance p' q'.
Proof.
  unfold InterceptionSpec.distance.
  pose proof (hypot_nonneg (fst p - fst q) (snd p - snd q)).
  pose proof (hypot_nonneg (fst p' - fst q') (snd p' - snd q')).
  split; intros; nra.
Qed.

(** The fraction the code computes is a projection. *)
Lemma clamped_fraction_projects :
  InterceptionSpec.projects start cible opp (Rmax 0 (Rmin 1 (wv / L2))).
Proof.
  set (ts := wv / L2).
  assert (Hts : ts * L2 = wv) by (unfold ts; field; lra).
  set (t := Rmax 0 (Rmin 1 ts)).
  assert (Ht : 0 <= t <= 1).
  { unfold t, Rmax, Rmin. destruct (Rle_dec 1 ts); destruct (Rle_dec 0 _); lra. }
  split; [exact Ht |]. intros u Hu.
  apply distance_le_square. rewrite !projection_square, <- Hts.
  assert (Hkey : 0 <= (u - t) * L2 * (u + t - 2 * ts)).
  { assert (HLp : 0 < L2) by lra.
    subst t. unfold Rmax, Rmin in *.
    destruct (Rle_dec 1 ts); destruct (Rle_dec 0 _).
    - replace ((u - 1) * L2 * (u + 1 - 2 * ts))
        with ((1 - u) * L2 * (2 * ts - 1 - u)) by ring.
      apply Rmult_le_pos; [apply Rmult_le_pos |]; lra.
    - lra.
    - replace ((u - ts) * L2 * (u + ts - 2 * ts)) with ((u - ts) * (u - ts) * L2) by ring.
      apply Rmult_le_pos; [apply (Rle_0_sqr (u - ts)) | lra].
    - replace ((u - 0) * L2 * (u + 0 - 2 * ts)) with (u * L2 * (u - 2 * ts)) by ring.
      apply Rmult_le_pos; [apply Rmult_le_pos |]; lra. }
  replace ((u - t) * L2 * (u + t - 2 * ts))
    with ((- 2 * u * (ts * L2) + u * u * L2) - (- 2 * t * (ts * L2) + t * t * L2))
    in Hkey by ring.
  lra.
Qed.

(** A segment has one point nearest to the opponent. *)
Lemma projection_unique (u u' : R) :
  InterceptionSpec.projects start cible opp u ->
  InterceptionSpec.projects start cible opp u' -> u = u'.
Proof.
  intros [Hu Hmin] [Hu' Hmin'].
  assert (Hm : 0 <= (u + u') / 2 <= 1) by lra.
  pose proof (proj1 (distance_le_square _ _ _ _) (Hmin _ Hm)) as H1.
  pose proof (proj1 (distance_le_square _ _ _ _) (Hmin' _ Hm)) as H2.
  rewrite !projection_square in H1, H2.
  assert (Hsq : L2 * ((u - u') * (u - u')) <= 0).
  { replace (L2 * ((u - u') * (u - u')))
      with (2 * ((- 2 * u * wv + u * u * L2) + (- 2 * u' * wv + u' * u' * L2))
            - 4 * (- 2 * ((u + u') / 2) * wv + (u + u') / 2 * ((u + u') / 2) * L2))
      by field.
    lra. }
  assert (Hz : (u - u') * (u - u') <= 0).
  { pose proof (Rle_0_sqr (u - u')) as Hp. unfold Rsqr in Hp.
    destruct (Rle_dec ((u - u') * (u - u')) 0) as [|Hn]; [assumption |].
    exfalso. assert (0 < L2 * ((u - u') * (u - u'))); [| lra].
    apply Rmult_lt_0_compat; lra. }
  assert (Hu0 : u - u' = 0).
  { pose proof (Rle_0_sqr (u - u')) as Hp. unfold Rsqr in Hp.
    apply Rsqr_0_uniq. unfold Rsqr. lra. }
  lra.
Qed.

End Projection.

Lemma ramp_linear (m : R) :
  Planning.linear_in_interval m 0.8 1 0 1 = InterceptionSpec.ramp m.
Proof.
  unfold Planning.linear_in_interval, InterceptionSpec.ramp, Py.leb.
  destruct (Rle_dec m 0.8); [reflexivity |].
  destruct (Rle_dec 1 m); [reflexivity |]. lra.
Qed.

(** Where no floor of the code is active, the ratio appended for an
    opponent is the ratio of the specification at the opponent's
    projection. *)
Lemma crit_ratio (start cible : R * R) (v s icd tr : R) (opp : R * R) :
  let L := Py.hypot (fst cible - fst start) (snd cible - snd start) in
  1e-6 < L -> 1e-6 <= v -> 1e-6 <= s ->
  (forall u, InterceptionSpec.projects start cible opp u ->
     1e-6 <= InterceptionSpec.distance start (InterceptionSpec.point start cible u) / v) ->
  exists u,
    InterceptionSpec.projects start cible opp u
    /\ Planning.crit start cible L v s icd tr opp
       = InterceptionSpec.ratio_at start cible v s icd tr opp u.
Proof.
  intros L HL Hv Hs Hfloor.
  pose proof (hypot_sqr (fst cible - fst start) (snd cible - snd start)) as HLL.
  fold L in HLL.
  assert (HL2 : 1e-12 < (fst cible - fst start) * (fst cible - fst start)
                        + (snd cible - snd start) * (snd cible - snd start)) by nra.
  pose proof (clamped_fraction_projects start cible opp HL2) as Hp.
  set (t := Rmax 0 (Rmin 1 _)) in Hp.
  exists t. split; [exact Hp |].
  assert (Hstart : InterceptionSpec.distance start (InterceptionSpec.point start cible t)
                   = t * L).
  { unfold InterceptionSpec.distance, InterceptionSpec.point. cbn [fst snd].
    destruct Hp as [Ht _].
    replace (fst start - (fst start + t * (fst cible - fst start)))
      with (- t * (fst cible - fst start)) by ring.
    replace (snd start - (snd start + t * (snd cible - snd start)))
      with (- t * (snd cible - snd start)) by ring.
    unfold Py.hypot.
    replace (- t * (fst cible - fst start) * (- t * (fst cible - fst start))
             + - t * (snd cible - snd start) * (- t * (snd cible - snd start)))
      with ((t * L) * (t * L))
      by (transitivity (t * t * (L * L)); [ring | rewrite HLL; ring]).
    apply sqrt_square. apply Rmult_le_pos; lra. }
  pose proof (Hfloor t Hp) as Hf. rewrite Hstart in Hf.
  unfold Planning.crit, InterceptionSpec.ratio_at.
  destruct start as [x0 y0], cible as [x1 y1], opp as [x y].
  unfold Planning._seg_point_distance. cbn [fst snd] in *.
  rewrite (leb_false _ 1e-12 HL2). fold t. cbv zeta. cbn [fst snd].
  rewrite Hstart.
  change (InterceptionSpec.distance (x, y) (InterceptionSpec.point (x0, y0) (x1, y1) t))
    with (Py.hypot (x - (x0 + t * (x1 - x0))) (y - (y0 + t * (y1 - y0)))).
  rewrite (Rmax_right 1e-6 s) by lra.
  rewrite (Rmax_right 1e-6 v) by lra.
  rewrite (Rmax_right 1e-6 (t * L / v)) by lra.
  unfold Py.eqb. destruct (Req_dec_T _ 0); reflexivity.
Qed.

Lemma evaluate_least_ratio (start cible : R * R) (interceptors : list (R * R))
    (v s icd tr : R) :
  let L := Py.hypot (fst cible - fst start) (snd cible - snd start) in
  1e-6 < L -> 1e-6 <= v -> 1e-6 <= s -> interceptors <> [] ->
  (forall opp u, In opp interceptors ->
     InterceptionSpec.projects start cible opp u ->
     1e-6 <= InterceptionSpec.distance start (InterceptionSpec.point start cible u) / v) ->
  exists m,
    InterceptionSpec.least_ratio start cible v s icd tr interceptors m
    /\ Planning.evaluate_success_probability_absence_interception
         start cible interceptors v s icd tr
       = InterceptionSpec.ramp m.
Proof.
  intros L HL Hv Hs Hne Hfloor.
  pose proof (hypot_sqr (fst cible - fst start) (snd cible - snd start)) as HLL.
  fold L in HLL.
  assert (HL2 : 1e-12 < (fst cible - fst start) * (fst cible - fst start)
                        + (snd cible - snd start) * (snd cible - snd start)) by nra.
  assert (Hcrit : forall opp, In opp interceptors ->
            InterceptionSpec.ratio start cible v s icd tr opp
              (Planning.crit start cible L v s icd tr opp)).
  { intros opp Hin.
    destruct (crit_ratio start cible v s icd tr opp HL Hv Hs (fun u => Hfloor opp u Hin))
      as (u & Hu & E).
    exists u. split; assumption. }
  assert (Honly : forall opp m, In opp interceptors ->
            InterceptionSpec.ratio start cible v s icd tr opp m ->
            m = Planning.crit start cible L v s icd tr opp).
  { intros opp m Hin (u & Hu & ->).
    destruct (Hcrit opp Hin) as (u' & Hu' & ->).
    rewrite (projection_unique start cible opp HL2 u u' Hu Hu'). reflexivity. }
  rewrite evaluate_unfold. cbv zeta. fold L. rewrite leb_false by lra.
  destruct interceptors as [| o ops]; [contradiction |].
  cbn [map]. set (f := Planning.crit start cible L v s icd tr) in *.
  exists (Planning.list_min (f o) (map f ops)). split; [split |].
  - pose proof (list_min_in (f o) (map f ops)) as Hin.
    change (In (Planning.list_min (f o) (map f ops)) (map f (o :: ops))) in Hin.
    apply in_map_iff in Hin. destruct Hin as (opp & <- & Hopp).
    exists opp. split; [exact Hopp | apply Hcrit; exact Hopp].
  - intros opp m' Hin Hr. rewrite (Honly opp m' Hin Hr).
    apply list_min_le. change (In (f opp) (map f (o :: ops))).
    apply in_map. exact Hin.
  - apply ramp_linear.
Qed.


(** One opponent beside the middle of an 8 m pass. *)
Lemma pass_lane_projection (u : R) :
  InterceptionSpec.projects (0, 0) (8, 0) (4, 0.75) u -> u = 0.5.
Proof.
  intros Hu.
  assert (HL2 : 1e-12 < (fst (8, 0) - fst (0, 0)) * (fst (8, 0) - fst (0, 0))
                        + (snd (8, 0) - snd (0, 0)) * (snd (8, 0) - snd (0, 0)))
    by (cbn [fst snd]; lra).
  pose proof (clamped_fraction_projects (0, 0) (8, 0) (4, 0.75) HL2) as Hp.
  cbn [fst snd] in Hp.
  replace ((4 - 0) * (8 - 0) + (0.75 - 0) * (0 - 0)) with 32 in Hp by lra.
  replace ((8 - 0) * (8 - 0) + (0 - 0) * (0 - 0)) with 64 in Hp by lra.
  replace (32 / 64) with 0.5 in Hp by lra.
  rewrite (Rmin_right 1 0.5), (Rmax_right 0 0.5) in Hp by lra.
  apply (projection_unique (0, 0) (8, 0) (4, 0.75) HL2 u 0.5 Hu Hp).
Qed.

Lemma pass_lane_ratio (s : R) :
  InterceptionSpec.ratio_at (0, 0) (8, 0) 4 s 0.5 0.75 (4, 0.75) 0.5
  = 0.25 / s + 0.75
  /\ InterceptionSpec.distance (0, 0) (InterceptionSpec.point (0, 0) (8, 0) 0.5) = 4.
Proof.
  assert (Hd : InterceptionSpec.distance (4, 0.75)
                 (InterceptionSpec.point (0, 0) (8, 0) 0.5) = 0.75).
  { unfold InterceptionSpec.distance, InterceptionSpec.point. cbn [fst snd].
    replace (4 - (0 + 0.5 * (8 - 0))) with 0 by lra.
    replace (0.75 - (0 + 0.5 * (0 - 0))) with 0.75 by lra.
    apply hypot_0_y. lra. }
  assert (Hs : InterceptionSpec.distance (0, 0)
                 (InterceptionSpec.point (0, 0) (8, 0) 0.5) = 4).
  { unfold InterceptionSpec.distance, InterceptionSpec.point, Py.hypot. cbn [fst snd].
    replace ((0 - (0 + 0.5 * (8 - 0))) * (0 - (0 + 0.5 * (8 - 0)))
             + (0 - (0 + 0.5 * (0 - 0))) * (0 - (0 + 0.5 * (0 - 0))))
      with (4 * 4) by lra.
    apply sqrt_square. lra. }
  split; [| exact Hs].
  unfold InterceptionSpec.ratio_at. cbv zeta. rewrite Hd, Hs.
  rewrite (Rmax_right 0 (0.75 - 0.5)) by lra.
  destruct (Req_dec_T (0.75 - 0.5) 0) as [E | _]; [lra |].
  replace (4 / 4) with 1 by lra. replace (0.75 - 0.5) with 0.25 by lra.
  unfold Rdiv. rewrite Rinv_1. ring.
Qed.

Lemma pass_lane_value (s : R) (m : R) :
  InterceptionSpec.least_ratio (0, 0) (8, 0) 4 s 0.5 0.75 [(4, 0.75)] m ->
  m = 0.25 / s + 0.75.
Proof.
  intros [(opp & [<- | []] & u & Hu & ->) _].
  rewrite (pass_lane_projection u Hu). apply pass_lane_ratio.
Qed.


(** ** Robots of the world *)

Lemma all_robots_app (w : World.t) :
  World.all_robots w
  = Team.robots (World.team_left w) ++ Team.robots (World.team_right w).
Proof. unfold World.all_robots. simpl. rewrite app_nil_r. reflexivity. Qed.

Lemma all_robots_with_all_robots (rs : list Robot.t) (w : World.t) :
  World.all_robots (World.with_all_robots rs w) = rs.
Proof.
  rewrite all_robots_app. unfold World.with_all_robots. simpl.
  apply firstn_skipn.
Qed.

Lemma set_flags_length (h : option nat) (k : nat) (l : list Robot.t) :
  length (World.set_flags h k l) = length l.
Proof. revert k; induction l; intros k; simpl; [| rewrite IHl]; reflexivity. Qed.

Lemma set_flags_nth_error (h : option nat) (k0 k : nat) (l : list Robot.t) :
  nth_error (World.set_flags h k0 l) k
  = option_map
      (Robot.with_has_ball
         (match h with Some i => Nat.eqb (k0 + k) i | None => false end))
      (nth_error l k).
Proof.
  revert k0 k. induction l as [| r l IH]; intros k0 k.
  - destruct k; reflexivity.
  - destruct k as [| k]; simpl.
    + rewrite Nat.add_0_r. reflexivity.
    + rewrite IH. replace (S k0 + k)%nat with (k0 + S k)%nat by lia. reflexivity.
Qed.

Lemma first_index_some {A : Type} (p : A -> bool) (l : list A) (k : nat) :
  World.first_index p l = Some k ->
  (exists a, nth_error l k = Some a /\ p a = true)
  /\ forall j a, (j < k)%nat -> nth_error l j = Some a -> p a = false.
Proof.
  revert k. induction l as [| a l IH]; intros k H; simpl in H; [discriminate |].
  destruct (p a) eqn:E.
  - injection H as <-. split; [exists a; split; [reflexivity | assumption] |].
    intros j b Hj; lia.
  - destruct (World.first_index p l) as [k' |] eqn:E'; [| discriminate].
    injection H as <-. destruct (IH k' eq_refl) as [Hk Hlt]. split.
    + exact Hk.
    + intros [| j] b Hj Hb; simpl in Hb.
      * injection Hb as <-. assumption.
      * apply (Hlt j); [lia | assumption].
Qed.

Lemma first_index_none {A : Type} (p : A -> bool) (l : list A) :
  World.first_index p l = None ->
  forall j a, nth_error l j = Some a -> p a = false.
Proof.
  induction l as [| a l IH]; intros H j b Hb.
  - destruct j; discriminate.
  - simpl in H. destruct (p a) eqn:E; [discriminate |].
    destruct (World.first_index p l) eqn:E'; [discriminate |].
    destruct j as [| j]; simpl in Hb.
    + injection Hb as <-. assumption.
    + apply (IH eq_refl j). assumption.
Qed.

Lemma sees_ball_front_spec (bx by_ max_dist half_angle_deg : R) (r : Robot.t) :
  Robot.sees_ball_front bx by_ max_dist half_angle_deg r = true
  <-> PossessionSpec.in_cone bx by_ max_dist half_angle_deg r.
Proof.
  unfold Robot.sees_ball_front, Robot.ball_relative, PossessionSpec.in_cone.
  rewrite andb_true_iff, !leb_spec. reflexivity.
Qed.

(** The squared distances the code compares order the robots as their
    distances to the ball do. *)
Lemma dist2_to_distance (bx by_ : R) (r : Robot.t) :
  PossessionSpec.distance bx by_ r = sqrt (World.dist2_to bx by_ r)
  /\ 0 <= World.dist2_to bx by_ r.
Proof.
  unfold PossessionSpec.distance, Py.hypot, World.dist2_to. split; [f_equal; ring |].
  apply Rplus_le_le_0_compat; apply pow2_ge_0.
Qed.

Lemma dist2_to_le (bx by_ : R) (r1 r2 : Robot.t) :
  World.dist2_to bx by_ r1 <= World.dist2_to bx by_ r2 ->
  PossessionSpec.distance bx by_ r1 <= PossessionSpec.distance bx by_ r2.
Proof.
  intros H. destruct (dist2_to_distance bx by_ r1) as [-> H1].
  destruct (dist2_to_distance bx by_ r2) as [-> H2].
  apply sqrt_le_1; assumption.
Qed.

Lemma dist2_to_lt (bx by_ : R) (r1 r2 : Robot.t) :
  World.dist2_to bx by_ r1 < World.dist2_to bx by_ r2 ->
  PossessionSpec.distance bx by_ r1 < PossessionSpec.distance bx by_ r2.
Proof.
  intros H. destruct (dist2_to_distance bx by_ r1) as [-> H1].
  destruct (dist2_to_distance bx by_ r2) as [-> H2].
  apply sqrt_lt_1; assumption.
Qed.

Section NearestFrom.

Variable w : World.t.
Variables bx by_ : R.

Let takes (r : Robot.t) : bool := World.may_take_ball w bx by_ r.
Let dist (r : Robot.t) : R := World.dist2_to bx by_ r.

(** What [best] records about the robots [p] visited so far. *)
Let inv (p : list Robot.t) (best : option (nat * R)) : Prop :=
  match best with
  | None => forall j r, nth_error p j = Some r -> takes r = false
  | Some (kb, db) =>
      (exists r, nth_error p kb = Some r /\ takes r = true /\ db = dist r)
      /\ (forall j r, nth_error p j = Some r -> takes r = true -> db <= dist r)
      /\ (forall j r, (j < kb)%nat -> nth_error p j = Some r -> takes r = true ->
                      db < dist r)
  end.

Lemma nth_error_snoc (p : list Robot.t) (r r' : Robot.t) (j : nat) :
  nth_error (p ++ [r]) j = Some r' ->
  ((j < length p)%nat /\ nth_error p j = Some r') \/ (j = length p /\ r' = r).
Proof.
  intros H. destruct (Nat.lt_ge_cases j (length p)) as [Hlt | Hge].
  - left. split; [assumption |]. rewrite nth_error_app1 in H; assumption.
  - right. rewrite nth_error_app2 in H by assumption.
    destruct (j - length p)%nat as [| d] eqn:E; simpl in H.
    + injection H as <-. split; [lia | reflexivity].
    + destruct d; discriminate.
Qed.

Lemma nearest_from_step (p : list Robot.t) (r : Robot.t) (best : option (nat * R)) :
  inv p best ->
  inv (p ++ [r])
      (if takes r then
         match best with
         | None => Some (length p, dist r)
         | Some (_, best_d2) =>
             if Py.ltb (dist r) best_d2 then Some (length p, dist r) else best
         end
       else best).
Proof.
  intros Hinv. destruct (takes r) eqn:Et.
  - destruct best as [[kb db] |].
    + destruct Hinv as ((rb & Hrb & Htb & Hdb) & Hle & Hlt).
      assert (Hkb : (kb < length p)%nat).
      { apply nth_error_Some. rewrite Hrb. discriminate. }
      destruct (Py.ltb (dist r) db) eqn:E.
      * apply ltb_spec in E. simpl. repeat split.
        -- exists r. rewrite nth_error_app2, Nat.sub_diag by lia.
           repeat split; [assumption].
        -- intros j r' Hj Ht. destruct (nth_error_snoc _ _ _ _ Hj) as [[_ H] | [_ ->]].
           ++ pose proof (Hle j r' H Ht). lra.
           ++ lra.
        -- intros j r' Hjlt Hj Ht.
           destruct (nth_error_snoc _ _ _ _ Hj) as [[_ H] | [Hjeq _]]; [| lia].
           pose proof (Hle j r' H Ht). lra.
      * apply ltb_nspec in E. simpl. repeat split.
        -- exists rb. rewrite nth_error_app1 by assumption. repeat split; assumption.
        -- intros j r' Hj Ht. destruct (nth_error_snoc _ _ _ _ Hj) as [[_ H] | [_ ->]].
           ++ apply (Hle j r' H Ht).
           ++ assumption.
        -- intros j r' Hjlt Hj Ht.
           destruct (nth_error_snoc _ _ _ _ Hj) as [[_ H] | [Hjeq _]]; [| lia].
           apply (Hlt j r' Hjlt H Ht).
    + simpl in Hinv. simpl. repeat split.
      * exists r. rewrite nth_error_app2, Nat.sub_diag by lia.
        repeat split; assumption.
      * intros j r' Hj Ht. destruct (nth_error_snoc _ _ _ _ Hj) as [[_ H] | [_ ->]].
        -- rewrite (Hinv j r' H) in Ht. discriminate.
        -- lra.
      * intros j r' Hjlt Hj Ht.
        destruct (nth_error_snoc _ _ _ _ Hj) as [[_ H] | [Hjeq _]]; [| lia].
        rewrite (Hinv j r' H) in Ht. discriminate.
  - destruct best as [[kb db] |].
    + destruct Hinv as ((rb & Hrb & Htb & Hdb) & Hle & Hlt).
      assert (Hkb : (kb < length p)%nat).
      { apply nth_error_Some. rewrite Hrb. discriminate. }
      simpl. repeat split.
      * exists rb. rewrite nth_error_app1 by assumption. repeat split; assumption.
      * intros j r' Hj Ht. destruct (nth_error_snoc _ _ _ _ Hj) as [[_ H] | [_ ->]].
        -- apply (Hle j r' H Ht).
        -- rewrite Et in Ht. discriminate.
      * intros j r' Hjlt Hj Ht.
        destruct (nth_error_snoc _ _ _ _ Hj) as [[_ H] | [Hjeq _]]; [| lia].
        apply (Hlt j r' Hjlt H Ht).
    + simpl in Hinv. simpl.
      intros j r' Hj. destruct (nth_error_snoc _ _ _ _ Hj) as [[_ H] | [_ ->]].
      * apply (Hinv j r' H).
      * assumption.
Qed.

Lemma nearest_from_inv (l p : list Robot.t) (best : option (nat * R)) :
  inv p best ->
  inv (p ++ l) (World.nearest_from w bx by_ (length p) best l).
Proof.
  revert p best. induction l as [| r l IH]; intros p best Hinv.
  - rewrite app_nil_r. exact Hinv.
  - cbn [World.nearest_from].
    replace (p ++ r :: l) with ((p ++ [r]) ++ l) by (rewrite <- app_assoc; reflexivity).
    replace (S (length p)) with (length (p ++ [r])) by (rewrite length_app; simpl; lia).
    apply IH. apply nearest_from_step. exact Hinv.
Qed.

Lemma nearest_from_start (l : list Robot.t) :
  inv l (World.nearest_from w bx by_ O None l).
Proof.
  apply (nearest_from_inv l [] None). intros j r H. destruct j; discriminate.
Qed.

End NearestFrom.

(** ** Possession *)

Lemma find_holder_spec (w : World.t) :
  PossessionSpec.holder w
    (World.find_holder w (Ball.x (World.ball w)) (Ball.y (World.ball w))).
Proof.
  unfold World.find_holder.
  set (bx := Ball.x (World.ball w)). set (by_ := Ball.y (World.ball w)).
  assert (Hret : forall j a, nth_error (World.all_robots w) j = Some a ->
                 World.keeps_ball w bx by_ a = false -> ~ PossessionSpec.retains w j).
  { intros j a Hj Hk (r & Hr & Hb & Hc). rewrite Hj in Hr. injection Hr as <-.
    unfold World.keeps_ball in Hk. rewrite Hb in Hk. simpl in Hk.
    apply sees_ball_front_spec in Hc. fold bx by_ in Hc. rewrite Hc in Hk. discriminate. }
  assert (Hnone : forall j, nth_error (World.all_robots w) j = None ->
                  ~ PossessionSpec.retains w j).
  { intros j Hj (r & Hr & _). rewrite Hj in Hr. discriminate. }
  destruct (World.first_index (World.keeps_ball w bx by_) (World.all_robots w))
    as [k |] eqn:E.
  - destruct (first_index_some _ _ _ E) as ((a & Ha & Hk) & Hlt).
    left. split.
    + exists a. unfold World.keeps_ball in Hk. apply andb_true_iff in Hk.
      destruct Hk as [Hb Hc]. apply sees_ball_front_spec in Hc.
      split; [assumption | split; assumption].
    + intros j Hj. destruct (nth_error (World.all_robots w) j) as [b |] eqn:Eb.
      * apply (Hret j b Eb). apply (Hlt j b Hj Eb).
      * apply Hnone; assumption.
  - assert (Hno : forall j, ~ PossessionSpec.retains w j).
    { intros j. destruct (nth_error (World.all_robots w) j) as [b |] eqn:Eb.
      - apply (Hret j b Eb). apply (first_index_none _ _ E j b Eb).
      - apply Hnone; assumption. }
    pose proof (nearest_from_start w bx by_ (World.all_robots w)) as Hinv.
    destruct (World.nearest_from w bx by_ 0 None (World.all_robots w))
      as [[kb db] |]; simpl.
    + destruct Hinv as ((rb & Hrb & Htb & Hdb) & Hle & Hlt).
      right. split; [exact Hno |].
      assert (Hd : PossessionSpec.dist w kb = PossessionSpec.distance bx by_ rb).
      { unfold PossessionSpec.dist. fold bx by_.
        rewrite (nth_error_nth _ _ _ Hrb). reflexivity. }
      split; [| split].
      * exists rb. unfold World.may_take_ball in Htb. apply andb_true_iff in Htb.
        destruct Htb as [Hact Hc]. apply sees_ball_front_spec in Hc.
        split; [assumption | split; assumption].
      * intros j (r & Hr & Hact & Hc). rewrite Hd.
        unfold PossessionSpec.dist. fold bx by_. rewrite (nth_error_nth _ _ _ Hr).
        apply dist2_to_le. rewrite <- Hdb.
        apply (Hle j r Hr). unfold World.may_take_ball. rewrite Hact. simpl.
        apply sees_ball_front_spec. assumption.
      * intros j Hj (r & Hr & Hact & Hc). rewrite Hd.
        unfold PossessionSpec.dist. fold bx by_. rewrite (nth_error_nth _ _ _ Hr).
        apply dist2_to_lt. rewrite <- Hdb.
        apply (Hlt j r Hj Hr). unfold World.may_take_ball. rewrite Hact. simpl.
        apply sees_ball_front_spec. assumption.
    + intros j. split; [apply Hno |].
      intros (r & Hr & Hact & Hc).
      assert (Ht : World.may_take_ball w bx by_ r = true).
      { unfold World.may_take_ball. rewrite Hact. simpl.
        apply sees_ball_front_spec. assumption. }
      rewrite (Hinv j r Hr) in Ht. discriminate.
Qed.

Lemma possession_robots (dt : R) (w : World.t) :
  World.kick_cooldown w <= 0 ->
  World.all_robots (World._update_possession_and_anchor dt w)
  = World.set_flags
      (World.find_holder w (Ball.x (World.ball w)) (Ball.y (World.ball w)))
      O (World.all_robots w).
Proof.
  intros Hk. unfold World._update_possession_and_anchor.
  rewrite (ltb_false 0 (World.kick_cooldown w) Hk).
  rewrite (ltb_false 0 (World.kick_cooldown w) Hk).
  destruct (World.find_holder w _ _) as [h |].
  - destruct (World.sticky_enabled _).
    + destruct (Robot.dribble_anchor _ _ _) as [[[ax ay] avx] avy].
      destruct (World.sticky_clip_field _);
        rewrite all_robots_app; simpl; apply firstn_skipn.
    + apply all_robots_with_all_robots.
  - apply all_robots_with_all_robots.
Qed.

(** C2: with no cooldown running, the possession update selects the
    holder by hysteresis (a flagged robot still inside the off cone
    stays holder, the first such one in iteration order; otherwise the
    nearest active robot inside the on cone; otherwise nobody) and
    rewrites the flags so that [has_ball] is true for that holder and
    false for every other robot of both teams, hence for at most one
    robot of the world. *)
Theorem C2_possession_hysteresis (dt : R) (w : World.t) :
  World.kick_cooldown w <= 0 ->
  let w' := World._update_possession_and_anchor dt w in
  exists h : option nat,
    PossessionSpec.holder w h
    /\ length (World.all_robots w') = length (World.all_robots w)
    /\ (forall k r, nth_error (World.all_robots w) k = Some r ->
          nth_error (World.all_robots w') k
          = Some (Robot.with_has_ball
                    (match h with Some i => Nat.eqb k i | None => false end) r))
    /\ (forall k r', nth_error (World.all_robots w') k = Some r' ->
          (Robot.has_ball r' = true <-> h = Some k))
    /\ (forall j k rj rk,
          nth_error (World.all_robots w') j = Some rj ->
          nth_error (World.all_robots w') k = Some rk ->
          Robot.has_ball rj = true -> Robot.has_ball rk = true -> j = k).
Proof.
  intros Hk. cbv zeta.
  exists (World.find_holder w (Ball.x (World.ball w)) (Ball.y (World.ball w))).
  rewrite (possession_robots dt w Hk).
  set (h := World.find_holder w _ _).
  assert (Hflag : forall k r', nth_error (World.set_flags h 0 (World.all_robots w)) k = Some r' ->
                  (Robot.has_ball r' = true <-> h = Some k)).
  { intros k r' Hr'. rewrite set_flags_nth_error in Hr'. simpl in Hr'.
    destruct (nth_error (World.all_robots w) k) as [r |]; [| discriminate].
    simpl in Hr'. injection Hr' as <-. simpl.
    destruct h as [i |].
    - rewrite Nat.eqb_eq. split; [intros ->; reflexivity | intros H; injection H as ->; reflexivity].
    - split; discriminate. }
  split; [apply find_holder_spec |].
  split; [apply set_flags_length |].
  split; [| split].
  - intros k r Hr. rewrite set_flags_nth_error, Hr. reflexivity.
  - exact Hflag.
  - intros j k rj rk Hj Hk' Hbj Hbk.
    apply (Hflag j rj Hj) in Hbj. apply (Hflag k rk Hk') in Hbk.
    rewrite Hbj in Hbk. injection Hbk as ->. reflexivity.
Qed.

(** ** What a tick leaves alone *)

Lemma enforce_no_overlap_frame (w : World.t) (it : Z) (c e l : R) (g : Rng.t) :
  exists rs, fst (Collisions.enforce_no_overlap w it c e l g)
             = World.with_all_robots rs w.
Proof.
  unfold Collisions.enforce_no_overlap.
  destruct (Nat.leb _ 1).
  - eexists; reflexivity.
  - destruct (Nat.iter _ _ _) as [rs g']. eexists; reflexivity.
Qed.

Lemma update_before_ball_robots (dt : R) (w : World.t) (g : Rng.t) :
  exists rs,
    fst (World.update_before_ball dt w g)
    = World._update_possession_and_anchor dt (World.with_all_robots rs w).
Proof.
  unfold World.update_before_ball.
  set (w1 := World.with_teams _ _ w).
  destruct (enforce_no_overlap_frame w1 6 0.01 0 0.10 g) as [rs Hrs].
  destruct (Collisions.enforce_no_overlap w1 6 0.01 0 0.10 g) as [w2 g2].
  simpl in Hrs. subst w2. exists rs. cbn [fst]. f_equal.
  unfold World.with_all_robots, w1.
  cbn [World.team_left World.with_teams Team.update Team.robots Team.with_robots].
  rewrite length_map. reflexivity.
Qed.

Lemma update_before_ball_unfold (dt : R) (w : World.t) (g : Rng.t) :
  fst (World.update_before_ball dt w g)
  = World._update_possession_and_anchor dt
      (fst (Collisions.enforce_no_overlap
              (World.with_teams (Team.update dt (World.team_left w))
                                (Team.update dt (World.team_right w)) w)
              6 0.01 0 0.10 g)).
Proof.
  unfold World.update_before_ball.
  destruct (Collisions.enforce_no_overlap _ 6 0.01 0 0.10 g) as [w2 g2].
  reflexivity.
Qed.

Lemma team_update_settings (dt : R) (w : World.t) :
  Frame.same_settings w
    (World.with_teams (Team.update dt (World.team_left w))
                      (Team.update dt (World.team_right w)) w)
  /\ World.all_robots
       (World.with_teams (Team.update dt (World.team_left w))
                         (Team.update dt (World.team_right w)) w)
     = map (Robot.update dt) (World.all_robots w).
Proof.
  split.
  - unfold Frame.same_settings, Frame.same_team, Team.update.
    cbn [World.field_w World.field_h World.score World.state World.cone_dist_on
         World.cone_angle_on_deg World.cone_dist_off World.cone_angle_off_deg
         World.sticky_enabled World.sticky_ball_radius World.sticky_gap
         World.sticky_clip_field World.team_left World.team_right World.with_teams
         Team.team_id Team.name Team.side Team.max_size Team.goalie_id
         Team._next_robot_id Team.robots Team.with_robots].
    rewrite !length_map. repeat split.
  - rewrite !all_robots_app. unfold Team.update.
    cbn [World.team_left World.team_right World.with_teams Team.robots
         Team.with_robots].
    rewrite map_app. reflexivity.
Qed.

Lemma update_before_ball_frame (dt : R) (w : World.t) (g : Rng.t) :
  exists w2,
    fst (World.update_before_ball dt w g) = World._update_possession_and_anchor dt w2
    /\ World.ball w2 = World.ball w
    /\ World.kick_cooldown w2 = World.kick_cooldown w
    /\ World.field_w w2 = World.field_w w
    /\ World.field_h w2 = World.field_h w
    /\ World.state w2 = World.state w
    /\ World.t_ w2 = World.t_ w.
Proof.
  destruct (update_before_ball_robots dt w g) as [rs Hrs].
  exists (World.with_all_robots rs w). split; [exact Hrs |].
  repeat split.
Qed.

Lemma possession_in_cooldown (dt : R) (w : World.t) :
  0 < World.kick_cooldown w - dt ->
  0 < dt ->
  World._update_possession_and_anchor dt w
  = World.with_all_robots
      (map (Robot.with_has_ball false) (World.all_robots w))
      (World.with_kick_cooldown (World.kick_cooldown w - dt) w).
Proof.
  intros Hk Hdt. unfold World._update_possession_and_anchor.
  rewrite (ltb_true 0 (World.kick_cooldown w)) by lra.
  cbn [World.kick_cooldown World.with_kick_cooldown].
  rewrite (Rmax_right 0 (World.kick_cooldown w - dt)) by lra.
  rewrite (ltb_true _ _ Hk).
  reflexivity.
Qed.

Lemma possession_cooldown_value (dt : R) (w : World.t) :
  World.kick_cooldown (World._update_possession_and_anchor dt w)
  = if Py.ltb 0 (World.kick_cooldown w)
    then Rmax 0 (World.kick_cooldown w - dt)
    else World.kick_cooldown w.
Proof.
  unfold World._update_possession_and_anchor.
  destruct (Py.ltb 0 (World.kick_cooldown w)) eqn:E.
  - cbn [World.kick_cooldown World.with_kick_cooldown].
    destruct (Py.ltb 0 (Rmax 0 _)); [reflexivity |].
    destruct (World.find_holder _ _ _); [| reflexivity].
    cbn [World.sticky_enabled World.with_all_robots World.with_teams World.with_kick_cooldown].
    destruct (World.sticky_enabled w); [| reflexivity].
    destruct (Robot.dribble_anchor _ _ _) as [[[ax ay] avx] avy].
    destruct (World.sticky_clip_field _); reflexivity.
  - rewrite E.
    destruct (World.find_holder _ _ _); [| reflexivity].
    cbn [World.sticky_enabled World.with_all_robots World.with_teams].
    destruct (World.sticky_enabled w); [| reflexivity].
    destruct (Robot.dribble_anchor _ _ _) as [[[ax ay] avx] avy].
    destruct (World.sticky_clip_field _); reflexivity.
Qed.

Lemma update_unfold (dt : R) (w : World.t) (g : Rng.t) :
  0 < dt ->
  fst (World.update dt w g)
  = let w3 := fst (World.update_before_ball dt w g) in
    World.with_t (World.t_ w3 + dt)
      (World.with_ball
         (Ball.update dt (Some (World.half_w w3)) (Some (World.half_h w3)) Clip
                      (World.ball w3)) w3).
Proof.
  intros Hdt. unfold World.update. rewrite (leb_false _ _ Hdt).
  destruct (World.update_before_ball dt w g) as [w3 g3]. reflexivity.
Qed.

Lemma update_cooldown_value (dt : R) (w : World.t) (g : Rng.t) :
  0 < dt ->
  World.kick_cooldown (fst (World.update dt w g))
  = if Py.ltb 0 (World.kick_cooldown w)
    then Rmax 0 (World.kick_cooldown w - dt)
    else World.kick_cooldown w.
Proof.
  intros Hdt. rewrite update_unfold by assumption. cbv zeta.
  destruct (update_before_ball_frame dt w g) as (w2 & -> & _ & Hk & _).
  cbn [World.kick_cooldown World.with_t World.with_ball].
  rewrite possession_cooldown_value, Hk. reflexivity.
Qed.

(** ** Cooldown *)

Lemma update_in_cooldown (dt : R) (w : World.t) (g : Rng.t) :
  0 < dt ->
  0 < World.kick_cooldown (fst (World.update dt w g)) ->
  (forall r, In r (World.all_robots (fst (World.update dt w g))) ->
             Robot.has_ball r = false)
  /\ World.ball (fst (World.update dt w g))
     = Ball.update dt (Some (World.half_w w)) (Some (World.half_h w)) Clip
                   (World.ball w).
Proof.
  intros Hdt Hk. rewrite update_cooldown_value in Hk by assumption.
  assert (Hrem : 0 < World.kick_cooldown w - dt).
  { destruct (Py.ltb 0 (World.kick_cooldown w)) eqn:E.
    - unfold Rmax in Hk. destruct (Rle_dec 0 (World.kick_cooldown w - dt)); lra.
    - apply ltb_nspec in E. lra. }
  rewrite update_unfold by assumption. cbv zeta.
  destruct (update_before_ball_frame dt w g)
    as (w2 & -> & Hb & Hkc & Hfw & Hfh & _).
  rewrite possession_in_cooldown by (rewrite ?Hkc; assumption).
  split.
  - intros r Hr.
    change (In r (World.all_robots
                    (World.with_all_robots
                       (map (Robot.with_has_ball false) (World.all_robots w2))
                       (World.with_kick_cooldown (World.kick_cooldown w2 - dt) w2)))) in Hr.
    rewrite all_robots_with_all_robots in Hr.
    apply in_map_iff in Hr. destruct Hr as (r0 & <- & _). reflexivity.
  - cbn [World.ball World.with_t World.with_ball World.with_all_robots
         World.with_teams World.with_kick_cooldown].
    unfold World.half_w, World.half_h.
    cbn [World.field_w World.field_h World.with_all_robots World.with_teams
         World.with_kick_cooldown].
    rewrite Hb, Hfw, Hfh. reflexivity.
Qed.

Lemma rmax0_sub (a b : R) : 0 <= b -> Rmax 0 (Rmax 0 a - b) = Rmax 0 (a - b).
Proof.
  intros Hb. destruct (Rle_dec 0 a).
  - rewrite (Rmax_right 0 a) by lra. reflexivity.
  - rewrite (Rmax_left 0 a) by lra. rewrite !Rmax_left by lra. reflexivity.
Qed.

Lemma ticks_cooldown_value (dts : list R) (w : World.t) (g : Rng.t) :
  Forall (fun d => 0 < d) dts ->
  0 <= World.kick_cooldown w ->
  World.kick_cooldown (fst (Driver.ticks dts w g))
  = Rmax 0 (World.kick_cooldown w - fold_right Rplus 0 dts).
Proof.
  intros Hd. revert w g. induction Hd as [| d dts Hpos Hd IH]; intros w g Hk.
  - simpl. rewrite Rminus_0_r, Rmax_right by assumption. reflexivity.
  - unfold Driver.ticks. cbn [fold_left fst snd].
    destruct (World.update d w g) as [w1 g1] eqn:E.
    assert (Hk1 : World.kick_cooldown w1
                  = Rmax 0 (World.kick_cooldown w - d)).
    { replace w1 with (fst (World.update d w g)) by (rewrite E; reflexivity).
      rewrite update_cooldown_value by assumption.
      destruct (Py.ltb 0 (World.kick_cooldown w)) eqn:E0; [reflexivity |].
      apply ltb_nspec in E0. rewrite Rmax_left by lra. lra. }
    change (World.kick_cooldown (fst (Driver.ticks dts w1 g1))
            = Rmax 0 (World.kick_cooldown w - (d + fold_right Rplus 0 dts))).
    rewrite IH by (rewrite Hk1; apply Rmax_l). rewrite Hk1.
    assert (Hs : 0 <= fold_right Rplus 0 dts).
    { clear -Hd. induction Hd; simpl; lra. }
    rewrite rmax0_sub by assumption. f_equal. lra.
Qed.

Lemma exec_shoot_cooldown (w : World.t) (team : Side) (robot : nat) (speed : R) :
  World.kick_cooldown (Planning.exec_shoot w team robot speed) = 0.25.
Proof.
  unfold Planning.exec_shoot, Planning.release_ball.
  destruct (Planning._place_ball_in_front _ _). reflexivity.
Qed.

Lemma exec_pass_cooldown (w : World.t) (team : Side) (robot : nat)
    (to_xy : R * R) (speed : R) :
  World.kick_cooldown (Planning.exec_pass w team robot to_xy speed) = 0.25.
Proof.
  unfold Planning.exec_pass, Planning.release_ball.
  destruct (Planning._place_ball_in_front _ _), to_xy. reflexivity.
Qed.

(** C3: [exec_shoot] and [exec_pass] set the cooldown to 0.25 s.  On the
    ticks that follow (each with positive [dt]) the cooldown is still
    positive as long as the time elapsed stays 1e-9 s short of 0.25 s;
    and on every tick after which it is still positive, every robot's
    [has_ball] is false, whatever the geometry, and the ball is not
    anchored: it is the free-flight step of the ball the tick started
    with. *)
Theorem C3_cooldown_blocks_capture (w : World.t) (team : Side) (robot : nat)
    (to_xy : R * R) (speed : R) (dts : list R) (dt : R) (g : Rng.t) :
  Forall (fun d => 0 < d) dts ->
  0 < dt ->
  let shot := Planning.exec_shoot w team robot speed in
  let passed := Planning.exec_pass w team robot to_xy speed in
  World.kick_cooldown shot = 0.25
  /\ World.kick_cooldown passed = 0.25
  /\ forall w0, w0 = shot \/ w0 = passed ->
       let before := Driver.ticks dts w0 g in
       let after := fst (World.update dt (fst before) (snd before)) in
       (fold_right Rplus 0 dts + dt <= 0.25 - 1e-9 ->
        0 < World.kick_cooldown after)
       /\ (0 < World.kick_cooldown after ->
           (forall r, In r (World.all_robots after) -> Robot.has_ball r = false)
           /\ World.ball after
              = Ball.update dt (Some (World.half_w (fst before)))
                            (Some (World.half_h (fst before))) Clip
                            (World.ball (fst before))).
Proof.
  intros Hd Hdt. cbv zeta.
  split; [apply exec_shoot_cooldown |]. split; [apply exec_pass_cooldown |].
  intros w0 Hw0.
  assert (Hk0 : World.kick_cooldown w0 = 0.25).
  { destruct Hw0 as [-> | ->]; [apply exec_shoot_cooldown | apply exec_pass_cooldown]. }
  split.
  - intros Hlt. rewrite update_cooldown_value by assumption.
    rewrite ticks_cooldown_value by (try assumption; lra). rewrite Hk0.
    assert (Hs : 0 <= fold_right Rplus 0 dts).
    { clear -Hd. induction Hd; simpl; lra. }
    rewrite (Rmax_right 0 (0.25 - fold_right Rplus 0 dts)) by lra.
    rewrite ltb_true by lra. rewrite Rmax_right by lra. lra.
  - intros Hk. apply update_in_cooldown; assumption.
Qed.

(** ** Evaluating a tick *)

(** A robot that already moves as commanded, without turning, keeps its
    velocity and advances along it. *)
Lemma update_cruising (dt : R) (r : Robot.t) :
  Robot.active r = true -> 0 < dt ->
  Robot.desired_vx r = Robot.vx r -> Robot.desired_vy r = Robot.vy r ->
  Robot.omega r = 0 -> Robot.desired_omega r = 0 ->
  Robot.speed r <= Robot.max_speed r ->
  0 <= Robot.max_omega r -> 0 <= Robot.max_alpha r ->
  Robot.update dt r
  = Robot.with_theta (_wrap_pi (Robot.theta r))
      (Robot.with_xy (Robot.x r + Robot.vx r * dt) (Robot.y r + Robot.vy r * dt) r).
Proof.
  intros Ha Hdt Hdx Hdy Hw Hdw Hsp Hmo Hma.
  unfold Robot.update. rewrite Ha, (leb_false _ _ Hdt). cbn [negb orb].
  rewrite Hdx, Hdy, Hw, Hdw.
  replace (Robot.vx r + Robot._alpha (Robot.tau_v r) dt * (Robot.vx r - Robot.vx r))
    with (Robot.vx r) by ring.
  replace (Robot.vy r + Robot._alpha (Robot.tau_v r) dt * (Robot.vy r - Robot.vy r))
    with (Robot.vy r) by ring.
  replace (0 + Robot._alpha (Robot.tau_w r) dt * (0 - 0)) with 0 by ring.
  rewrite (ltb_false (Robot.max_speed r) (Py.hypot (Robot.vx r) (Robot.vy r)) Hsp).
  cbn [andb].
  rewrite !Rminus_diag, hypot_0_0.
  rewrite (clamp_id 0 (- Robot.max_omega r) (Robot.max_omega r)) by lra.
  destruct (Py.ltb (Robot.max_accel r * dt) 0 && Py.ltb 0 (Robot.max_accel r * dt)) eqn:E.
  { apply andb_true_iff in E. destruct E as [E1 E2].
    apply ltb_spec in E1, E2. lra. }
  rewrite Rminus_diag.
  assert (Hdt' : 0 <= Robot.max_alpha r * dt) by (apply Rmult_le_pos; lra).
  rewrite (clamp_id 0) by lra.
  destruct r; cbn in *. subst. unfold Robot.with_theta, Robot.with_xy, Robot.with_omega,
    Robot.with_vxy; cbn.
  f_equal; try lra.
  f_equal; lra.
Qed.

Lemma cos_sin_0_extent (h : R) : h * (Rabs (cos 0) + Rabs (sin 0)) = h.
Proof. rewrite cos_0, sin_0, Rabs_R1, Rabs_R0. ring. Qed.

Lemma wrap_pi_0 : _wrap_pi 0 = 0.
Proof. apply wrap_pi_fixed. pose proof PI_RGT_0. lra. Qed.

Lemma wrap_pi_2PI : _wrap_pi (2 * PI) = 0.
Proof.
  pose proof PI_RGT_0 as Hpi. unfold _wrap_pi, Py.fmod.
  replace (Int_part ((2 * PI + PI) / (2 * PI))) with 1%Z; [simpl; lra |].
  apply Int_part_spec. simpl.
  replace ((2 * PI + PI) / (2 * PI)) with (3 / 2) by (field; lra). lra.
Qed.

Lemma sqrt_of_square (a : R) : 0 <= a -> sqrt (a * a) = a.
Proof. intros H. apply sqrt_square; assumption. Qed.

Lemma runner1_step :
  Robot.update 0.05 Examples.runner1 = Robot.with_xy 0.05 0 Examples.runner1.
Proof.
  rewrite update_cruising; try reflexivity; try (simpl; lra).
  - simpl. rewrite wrap_pi_0. unfold Robot.with_xy, Robot.with_theta. simpl.
    f_equal; lra.
  - unfold Robot.speed. simpl. rewrite hypot_x_0 by lra. lra.
Qed.

Lemma before_ball_one_robot (dt : R) (w : World.t) (r : Robot.t) (g : Rng.t) :
  Team.robots (World.team_left w) = [r] ->
  Team.robots (World.team_right w) = [] ->
  Robot.active (Robot.update dt r) = true ->
  fst (World.update_before_ball dt w g)
  = World._update_possession_and_anchor dt
      (World.with_all_robots
         [Collisions.clamp_robot_inside_field w (Robot.update dt r)] w).
Proof.
  intros Hl Hr Ha. unfold World.update_before_ball, Collisions.enforce_no_overlap.
  rewrite all_robots_app.
  cbn [World.team_left World.team_right World.with_teams WorldState.team_left WorldState.team_right WorldState.with_teams
       Team.update Team.robots Team.with_robots].
  rewrite Hl, Hr. cbn [map app filter]. rewrite Ha.
  cbn [length Nat.leb map Collisions.scatter]. rewrite Ha.
  cbn [fst]. unfold World.with_all_robots, WorldState.with_all_robots.
  cbn [World.team_left World.team_right World.with_teams WorldState.team_left WorldState.team_right WorldState.with_teams
       Team.update Team.robots Team.with_robots length map firstn skipn].
  rewrite Hl. cbn [length firstn skipn map].
  reflexivity.
Qed.

Lemma clamp_robot_id (w : World.t) (r : Robot.t) :
  let e := Robot.half_side r
           * (Rabs (cos (Robot.theta r)) + Rabs (sin (Robot.theta r))) in
  - World.half_w w + e <= Robot.x r <= World.half_w w - e ->
  - World.half_h w + e <= Robot.y r <= World.half_h w - e ->
  Collisions.clamp_robot_inside_field w r = r.
Proof.
  cbv zeta. intros Hx Hy. unfold Collisions.clamp_robot_inside_field.
  unfold Robot.half_extents_xy. cbv zeta.
  cbn [Robot.x Robot.y Robot.with_xy].
  change (WorldState.half_w w) with (World.half_w w).
  change (WorldState.half_h w) with (World.half_h w).
  rewrite !clamp_id by assumption.
  destruct r; reflexivity.
Qed.

Lemma possession_no_holder (dt : R) (w : World.t) :
  World.kick_cooldown w <= 0 ->
  World.find_holder w (Ball.x (World.ball w)) (Ball.y (World.ball w)) = None ->
  World._update_possession_and_anchor dt w
  = World.with_all_robots (World.set_flags None O (World.all_robots w)) w.
Proof.
  intros Hk Hh. unfold World._update_possession_and_anchor.
  rewrite (ltb_false 0 (World.kick_cooldown w) Hk).
  rewrite (ltb_false 0 (World.kick_cooldown w) Hk).
  rewrite Hh. reflexivity.
Qed.

Lemma ball_update_position (dt hw hh : R) (b : Ball.t) :
  0 < dt ->
  - (hw - Ball.radius b) <= Ball.x b + Ball.vx b * dt <= hw - Ball.radius b ->
  - (hh - Ball.radius b) <= Ball.y b + Ball.vy b * dt <= hh - Ball.radius b ->
  Ball.x (Ball.update dt (Some hw) (Some hh) Clip b) = Ball.x b + Ball.vx b * dt
  /\ Ball.y (Ball.update dt (Some hw) (Some hh) Clip b) = Ball.y b + Ball.vy b * dt.
Proof.
  intros Hdt Hx Hy. unfold Ball.update. rewrite (leb_false _ _ Hdt).
  destruct (Py.ltb _ _); unfold Ball.clip_axis;
    rewrite (ltb_false (hw - Ball.radius b)), (ltb_false _ (- (hw - Ball.radius b))),
            (ltb_false (hh - Ball.radius b)), (ltb_false _ (- (hh - Ball.radius b)))
      by lra;
    split; reflexivity.
Qed.

(** Unfolding the records of the concrete worlds down to their fields. *)
Ltac fields :=
  cbv [Robot.robot_id Robot.team_id Robot.x Robot.y Robot.theta Robot.vx Robot.vy
       Robot.omega Robot.desired_vx Robot.desired_vy Robot.desired_omega
       Robot.side_len Robot.max_speed Robot.max_omega Robot.max_accel
       Robot.max_alpha Robot.tau_v Robot.tau_w Robot.active Robot.has_ball
       Robot.dbg_action Robot.default Robot.with_ids Robot.with_xy Robot.with_theta
       Robot.with_vxy Robot.with_omega Robot.with_desired Robot.with_desired_omega
       Robot.with_active Robot.with_has_ball Robot.half_side Robot.speed
       Ball.x Ball.y Ball.vx Ball.vy Ball.radius Ball.min_speed Ball.lin_drag_per_s
       Ball.restitution Ball.default Ball.set_pos Ball.set_vel
       Team.team_id Team.name Team.side Team.max_size Team.robots Team.goalie_id
       Team._next_robot_id Team.with_robots Team.with_goalie_id
       WorldState.field_w WorldState.field_h WorldState.t_ WorldState.ball
       WorldState.team_left WorldState.team_right WorldState.score WorldState.state
       WorldState.cone_dist_on WorldState.cone_angle_on_deg WorldState.cone_dist_off
       WorldState.cone_angle_off_deg WorldState.sticky_enabled
       WorldState.sticky_ball_radius WorldState.sticky_gap WorldState.sticky_clip_field
       WorldState.kick_cooldown WorldState.default WorldState.with_t
       WorldState.with_ball WorldState.with_teams WorldState.with_score
       WorldState.with_state WorldState.with_kick_cooldown WorldState.half_w
       WorldState.half_h WorldState.with_all_robots WorldState.all_robots
       WorldState.teams
       World.field_w World.field_h World.t_ World.ball
       World.team_left World.team_right World.score World.state
       World.cone_dist_on World.cone_angle_on_deg World.cone_dist_off
       World.cone_angle_off_deg World.sticky_enabled
       World.sticky_ball_radius World.sticky_gap World.sticky_clip_field
       World.kick_cooldown World.default World.with_t
       World.with_ball World.with_teams World.with_score
       World.with_state World.with_kick_cooldown World.half_w
       World.half_h World.with_all_robots World.all_robots World.teams
       World.halt World.place_ball
       Examples.world_of Examples.robot1 Examples.holder1 Examples.dribbler1
       Examples.runner1 Examples.loose_grip Examples.dribbling Examples.in_motion
       Examples.wall_a_at Examples.wall_a Examples.wall_b Examples.at_the_wall
       length firstn skipn app flat_map map fst snd nth Nat.eqb].

(** The same for the further worlds, hypotheses included. *)
Ltac contested_fields :=
  unfold Examples.contested, Examples.taker_far, Examples.taker_near,
    Examples.loser in *; fields.

Ltac kept_fields :=
  unfold Examples.kept, Examples.keeper_far, Examples.taker_near in *; fields.

Ltac pass_play_fields :=
  unfold Examples.pass_play, Examples.receiver2 in *; fields.

Ltac close_pair_fields :=
  unfold Examples.close_pair, Examples.close_a, Examples.close_b in *; fields.

Ltac crossing_fields :=
  unfold Examples.crossing, Examples.crossing_a, Examples.crossing_b in *; fields.

Lemma in_motion_before_ball :
  fst (World.update_before_ball 0.05 (World.halt Examples.in_motion) Rng.identity)
  = World.with_all_robots [Robot.with_xy 0.05 0 Examples.runner1]
      (World.halt Examples.in_motion).
Proof.
  rewrite (before_ball_one_robot _ _ Examples.runner1) by
    (try reflexivity; rewrite runner1_step; reflexivity).
  rewrite runner1_step.
  rewrite clamp_robot_id.
  2:{ fields. rewrite cos_sin_0_extent. lra. }
  2:{ fields. rewrite cos_sin_0_extent. lra. }
  rewrite possession_no_holder.
  - reflexivity.
  - fields. lra.
  - unfold World.find_holder. rewrite all_robots_with_all_robots.
    unfold World.first_index, World.nearest_from, World.keeps_ball, World.may_take_ball,
      Robot.sees_ball_front, Robot.ball_relative.
    fields.
    replace (0 - 0) with 0 by lra. rewrite hypot_x_0 by lra.
    rewrite (leb_false (5 - 0.05) 0.35) by lra. reflexivity.
Qed.

(** C4, at a concrete world: after [halt], one [update] of 50 ms still
    moves the running robot and the rolling ball and advances the
    clock; the halt state is kept but never consulted. *)
Theorem C4_halt_does_not_freeze_update :
  let w := World.halt Examples.in_motion in
  let w' := fst (World.update 0.05 w Rng.identity) in
  World.state w = st_halt
  /\ World.state w' = st_halt
  /\ World.all_robots w = [Examples.runner1]
  /\ World.all_robots w' = [Robot.with_xy 0.05 0 Examples.runner1]
  /\ Robot.x Examples.runner1 = 0
  /\ Ball.x (World.ball w) = 5
  /\ Ball.x (World.ball w') = 5.05
  /\ World.t_ w = 0
  /\ World.t_ w' = 0.05.
Proof.
  cbv zeta. rewrite update_unfold by lra. cbv zeta.
  rewrite in_motion_before_ball.
  repeat split; try reflexivity.
  - cbv [World.ball World.with_t World.with_ball WorldState.ball WorldState.with_t
         WorldState.with_ball].
    match goal with
    | |- Ball.x (Ball.update ?dt (Some ?hw) (Some ?hh) Clip ?b) = _ =>
        destruct (ball_update_position dt hw hh b) as [Hx _]
    end; [lra | fields; lra | fields; lra |].
    rewrite Hx. fields. lra.
  - fields. lra.
Qed.

(** ** Anchoring *)

Lemma possession_expired (dt : R) (w : World.t) :
  0 < World.kick_cooldown w -> World.kick_cooldown w - dt <= 0 ->
  World._update_possession_and_anchor dt w
  = World._update_possession_and_anchor dt (World.with_kick_cooldown 0 w).
Proof.
  intros Hk Hd. unfold World._update_possession_and_anchor at 1.
  rewrite (ltb_true _ _ Hk). rewrite (Rmax_left 0 (World.kick_cooldown w - dt)) by lra.
  assert (E : Py.ltb 0 (World.kick_cooldown (World.with_kick_cooldown 0 w)) = false)
    by (apply ltb_false; simpl; lra).
  rewrite E.
  unfold World._update_possession_and_anchor. rewrite !E. reflexivity.
Qed.

Lemma possession_anchor (dt : R) (w : World.t) (k : nat) (r : Robot.t) :
  World.kick_cooldown w <= 0 ->
  World.sticky_enabled w = true ->
  nth_error (World.all_robots (World._update_possession_and_anchor dt w)) k = Some r ->
  Robot.has_ball r = true ->
  World.ball (World._update_possession_and_anchor dt w)
  = Ball.set_vel (fst (PossessionSpec.anchor_velocity w r))
                 (snd (PossessionSpec.anchor_velocity w r))
      (Ball.set_pos (fst (PossessionSpec.anchor_point w r))
                    (snd (PossessionSpec.anchor_point w r)) (World.ball w)).
Proof.
  intros Hk Hs Hr Hb.
  rewrite (possession_robots dt w Hk) in Hr.
  assert (Hh : World.find_holder w (Ball.x (World.ball w)) (Ball.y (World.ball w))
               = Some k).
  { rewrite set_flags_nth_error in Hr.
    destruct (nth_error (World.all_robots w) k) as [r0 |]; [| discriminate].
    simpl in Hr. injection Hr as <-. simpl in Hb.
    destruct (World.find_holder w _ _) as [i |]; [| discriminate].
    apply Nat.eqb_eq in Hb. subst i. reflexivity. }
  unfold World._update_possession_and_anchor.
  rewrite (ltb_false 0 (World.kick_cooldown w) Hk).
  rewrite (ltb_false 0 (World.kick_cooldown w) Hk).
  rewrite Hh in *.
  change (World.sticky_enabled (World.with_all_robots
            (World.set_flags (Some k) 0 (World.all_robots w)) w))
    with (World.sticky_enabled w).
  rewrite Hs.
  rewrite all_robots_with_all_robots.
  rewrite (nth_error_nth _ _ Robot.default Hr).
  unfold Robot.dribble_anchor, PossessionSpec.anchor_point,
    PossessionSpec.anchor_velocity, Robot.half_side, _clamp.
  change (World.sticky_clip_field (World.with_all_robots
            (World.set_flags (Some k) 0 (World.all_robots w)) w))
    with (World.sticky_clip_field w).
  destruct (World.sticky_clip_field w);
    cbn [fst snd World.ball World.with_ball World.with_all_robots World.with_teams
         World.sticky_ball_radius World.sticky_gap World.half_w World.half_h
         World.field_w World.field_h];
    unfold World.half_w, World.half_h;
    cbn [World.field_w World.field_h World.with_all_robots World.with_teams];
    unfold Ball.set_vel, Ball.set_pos; cbn; f_equal; try nra.
  - f_equal; [nra | f_equal; nra].
  - f_equal; [nra | f_equal; nra].
Qed.

Lemma possession_frame (dt : R) (w : World.t) :
  World.field_w (World._update_possession_and_anchor dt w) = World.field_w w
  /\ World.field_h (World._update_possession_and_anchor dt w) = World.field_h w
  /\ World.t_ (World._update_possession_and_anchor dt w) = World.t_ w
  /\ World.state (World._update_possession_and_anchor dt w) = World.state w.
Proof.
  unfold World._update_possession_and_anchor.
  destruct (Py.ltb 0 (World.kick_cooldown w));
    (destruct (Py.ltb 0 _); [repeat split |]);
    (destruct (World.find_holder _ _ _); [| repeat split]);
    (destruct (World.sticky_enabled _); [| repeat split]);
    destruct (Robot.dribble_anchor _ _ _) as [[[ax ay] avx] avy];
    destruct (World.sticky_clip_field _); repeat split.
Qed.

(** The ball a holder ends a tick with, when sticky attach is on. *)
Lemma update_anchors_ball (dt : R) (w : World.t) (g : Rng.t)
    (k : nat) (r : Robot.t) :
  0 < dt ->
  World.sticky_enabled w = true ->
  let w3 := fst (World.update_before_ball dt w g) in
  let w4 := fst (World.update dt w g) in
  nth_error (World.all_robots w4) k = Some r ->
  Robot.has_ball r = true ->
  let p := PossessionSpec.anchor_point w r in
  let v := PossessionSpec.anchor_velocity w r in
  World.ball w4
  = Ball.update dt (Some (World.half_w w)) (Some (World.half_h w)) Clip
                (World.ball w3)
  /\ World.ball w3
     = Ball.set_vel (fst v) (snd v) (Ball.set_pos (fst p) (snd p) (World.ball w))
  /\ Ball.x (World.ball w3) = fst p /\ Ball.y (World.ball w3) = snd p
  /\ Ball.vx (World.ball w3) = fst v /\ Ball.vy (World.ball w3) = snd v
  /\ (fst v = 0 -> snd v = 0 ->
      - (World.half_w w - Ball.radius (World.ball w)) <= fst p
        <= World.half_w w - Ball.radius (World.ball w) ->
      - (World.half_h w - Ball.radius (World.ball w)) <= snd p
        <= World.half_h w - Ball.radius (World.ball w) ->
      Ball.x (World.ball w4) = fst p /\ Ball.y (World.ball w4) = snd p).
Proof.
  intros Hdt Hs. cbv zeta. rewrite update_unfold by assumption. cbv zeta.
  destruct (update_before_ball_robots dt w g) as [rs Hrs]. rewrite Hrs.
  set (w2 := World.with_all_robots rs w).
  intros Hr Hb.
  change (nth_error (World.all_robots (World._update_possession_and_anchor dt w2)) k
          = Some r) in Hr.
  destruct (possession_frame dt w2) as (Hfw & Hfh & _ & _).
  assert (Hball : World.ball (World._update_possession_and_anchor dt w2)
                  = Ball.set_vel (fst (PossessionSpec.anchor_velocity w r))
                                 (snd (PossessionSpec.anchor_velocity w r))
                      (Ball.set_pos (fst (PossessionSpec.anchor_point w r))
                                    (snd (PossessionSpec.anchor_point w r))
                                    (World.ball w))).
  { destruct (Rlt_dec 0 (World.kick_cooldown w2 - dt)) as [Hrun | Hend].
    - exfalso. rewrite possession_in_cooldown in Hr by assumption.
      rewrite all_robots_with_all_robots in Hr.
      apply nth_error_In, in_map_iff in Hr. destruct Hr as (r0 & <- & _).
      discriminate.
    - destruct (Rlt_dec 0 (World.kick_cooldown w2)) as [Hpos | Hnon].
      + rewrite possession_expired in Hr |- * by lra.
        apply (possession_anchor dt (World.with_kick_cooldown 0 w2) k r);
          try assumption. simpl. lra.
      + apply (possession_anchor dt w2 k r); try assumption. lra. }
  split; [| split; [| split; [| split; [| split; [| split]]]]].
  - cbn [World.ball World.with_t World.with_ball]. unfold World.half_w, World.half_h.
    rewrite Hfw, Hfh. reflexivity.
  - exact Hball.
  - rewrite Hball. reflexivity.
  - rewrite Hball. reflexivity.
  - rewrite Hball. reflexivity.
  - rewrite Hball. reflexivity.
  - intros Hvx Hvy Hpx Hpy.
    cbn [World.ball World.with_t World.with_ball]. unfold World.half_w, World.half_h.
    rewrite Hfw, Hfh, Hball.
    change (0.5 * World.field_w w2) with (World.half_w w).
    change (0.5 * World.field_h w2) with (World.half_h w).
    set (b := Ball.set_vel _ _ _).
    assert (Hx : Ball.x b = fst (PossessionSpec.anchor_point w r)) by reflexivity.
    assert (Hy : Ball.y b = snd (PossessionSpec.anchor_point w r)) by reflexivity.
    assert (Hbx : Ball.vx b = 0) by (rewrite <- Hvx; reflexivity).
    assert (Hby : Ball.vy b = 0) by (rewrite <- Hvy; reflexivity).
    assert (Hrad : Ball.radius b = Ball.radius (World.ball w)) by reflexivity.
    destruct (ball_update_position dt (World.half_w w) (World.half_h w) b)
      as [Ex Ey]; try assumption; rewrite ?Hx, ?Hy, ?Hbx, ?Hby, ?Hrad;
      try lra.
    rewrite Ex, Ey, Hx, Hy, Hbx, Hby. split; lra.
Qed.

(** C1 (amended): when sticky attach is enabled and a robot holds the
    ball after a tick with positive [dt], the possession step of that
    tick has put the ball on the holder's anchor point (clamped when
    clipping is on) with the anchor's velocity, before the ball's own
    step; the ball of the world after the tick is that ball advanced by
    one [Ball.update], and it is still on the anchor point when the
    anchor velocity is zero and the point lies within the field less the
    ball's radius. *)
Theorem C1_ball_anchored_before_flight (dt : R) (w : World.t) (g : Rng.t)
    (k : nat) (r : Robot.t) :
  0 < dt ->
  World.sticky_enabled w = true ->
  let w3 := fst (World.update_before_ball dt w g) in
  let w4 := fst (World.update dt w g) in
  nth_error (World.all_robots w4) k = Some r ->
  Robot.has_ball r = true ->
  let p := PossessionSpec.anchor_point w r in
  let v := PossessionSpec.anchor_velocity w r in
  World.ball w4
  = Ball.update dt (Some (World.half_w w)) (Some (World.half_h w)) Clip
                (World.ball w3)
  /\ World.ball w3
     = Ball.set_vel (fst v) (snd v) (Ball.set_pos (fst p) (snd p) (World.ball w))
  /\ Ball.x (World.ball w3) = fst p /\ Ball.y (World.ball w3) = snd p
  /\ Ball.vx (World.ball w3) = fst v /\ Ball.vy (World.ball w3) = snd v
  /\ (fst v = 0 -> snd v = 0 ->
      - (World.half_w w - Ball.radius (World.ball w)) <= fst p
        <= World.half_w w - Ball.radius (World.ball w) ->
      - (World.half_h w - Ball.radius (World.ball w)) <= snd p
        <= World.half_h w - Ball.radius (World.ball w) ->
      Ball.x (World.ball w4) = fst p /\ Ball.y (World.ball w4) = snd p).
Proof. exact (update_anchors_ball dt w g k r). Qed.


Lemma sees_ball_ahead (bx by_ max_dist deg : R) (r : Robot.t) :
  Robot.theta r = 0 -> Robot.y r = by_ -> Robot.x r < bx ->
  bx - Robot.x r <= max_dist -> 0 <= deg ->
  Robot.sees_ball_front bx by_ max_dist deg r = true.
Proof.
  intros Ht Hy Hx Hd Hdeg.
  unfold Robot.sees_ball_front, Robot.ball_relative.
  rewrite Ht, Hy, Rminus_diag, hypot_x_0 by lra.
  unfold Py.atan2. rewrite (ltb_true 0 (bx - Robot.x r)) by lra.
  replace (0 / (bx - Robot.x r)) with 0 by (field; lra).
  rewrite atan_0, Rminus_diag, wrap_pi_0, Rabs_R0.
  rewrite (leb_true _ _ Hd). unfold Py.radians.
  rewrite leb_true; [reflexivity |].
  pose proof PI_RGT_0. nra.
Qed.

Lemma find_holder_keeps_first (w : World.t) (r : Robot.t) (rs : list Robot.t) :
  World.all_robots w = r :: rs ->
  World.keeps_ball w (Ball.x (World.ball w)) (Ball.y (World.ball w)) r = true ->
  World.find_holder w (Ball.x (World.ball w)) (Ball.y (World.ball w)) = Some O.
Proof.
  intros Hrs Hk. unfold World.find_holder. rewrite Hrs. simpl. rewrite Hk. reflexivity.
Qed.

Lemma possession_holder_no_sticky (dt : R) (w : World.t) (h : nat) :
  World.kick_cooldown w <= 0 ->
  World.find_holder w (Ball.x (World.ball w)) (Ball.y (World.ball w)) = Some h ->
  World.sticky_enabled w = false ->
  World._update_possession_and_anchor dt w
  = World.with_all_robots (World.set_flags (Some h) O (World.all_robots w)) w.
Proof.
  intros Hk Hh Hs. unfold World._update_possession_and_anchor.
  rewrite (ltb_false 0 (World.kick_cooldown w) Hk).
  rewrite (ltb_false 0 (World.kick_cooldown w) Hk).
  rewrite Hh.
  change (World.sticky_enabled (World.with_all_robots
            (World.set_flags (Some h) 0 (World.all_robots w)) w))
    with (World.sticky_enabled w).
  rewrite Hs. reflexivity.
Qed.

Lemma holder1_step : Robot.update 0.05 Examples.holder1 = Examples.holder1.
Proof.
  rewrite update_cruising; try reflexivity; try (simpl; lra).
  - simpl. rewrite wrap_pi_0. unfold Robot.with_xy, Robot.with_theta. simpl.
    unfold Examples.holder1, Examples.robot1. fields. f_equal; lra.
  - unfold Robot.speed. simpl. rewrite hypot_0_0. lra.
Qed.

Lemma loose_grip_before_ball :
  fst (World.update_before_ball 0.05 Examples.loose_grip Rng.identity)
  = Examples.loose_grip.
Proof.
  rewrite (before_ball_one_robot _ _ Examples.holder1) by
    (try reflexivity; rewrite holder1_step; reflexivity).
  rewrite holder1_step.
  rewrite clamp_robot_id.
  2:{ fields. rewrite cos_sin_0_extent. lra. }
  2:{ fields. rewrite cos_sin_0_extent. lra. }
  rewrite (possession_holder_no_sticky _ _ O).
  - reflexivity.
  - fields. lra.
  - apply (find_holder_keeps_first _ Examples.holder1 []); [reflexivity |].
    unfold World.keeps_ball. change (Robot.has_ball Examples.holder1) with true.
    cbn [andb]. apply sees_ball_ahead; fields; try reflexivity; lra.
  - reflexivity.
Qed.

(** C1, as the claim states it, fails: with sticky attach switched off
    the holder keeps its flag through the tick while the ball stays
    where it was, 5 cm short of the holder's anchor point. *)
Lemma C1_ball_off_anchor_without_sticky :
  let w' := fst (World.update 0.05 Examples.loose_grip Rng.identity) in
  World.all_robots w' = [Examples.holder1]
  /\ Robot.has_ball Examples.holder1 = true
  /\ Ball.x (World.ball w') = 0.3
  /\ fst (PossessionSpec.anchor_point Examples.loose_grip Examples.holder1) = 0.35
  /\ Ball.x (World.ball w')
     <> fst (PossessionSpec.anchor_point Examples.loose_grip Examples.holder1).
Proof.
  cbv zeta. rewrite update_unfold by lra. cbv zeta.
  rewrite loose_grip_before_ball.
  assert (Hb : Ball.x (World.ball
                 (World.with_t (World.t_ Examples.loose_grip + 0.05)
                    (World.with_ball
                       (Ball.update 0.05 (Some (World.half_w Examples.loose_grip))
                          (Some (World.half_h Examples.loose_grip)) Clip
                          (World.ball Examples.loose_grip)) Examples.loose_grip)))
               = 0.3).
  { cbv [World.ball World.with_t World.with_ball WorldState.ball WorldState.with_t
         WorldState.with_ball].
    match goal with
    | |- Ball.x (Ball.update ?dt (Some ?hw) (Some ?hh) Clip ?b) = _ =>
        destruct (ball_update_position dt hw hh b) as [Hx _]
    end; [lra | fields; lra | fields; lra |].
    rewrite Hx. fields. lra. }
  assert (Ha : fst (PossessionSpec.anchor_point Examples.loose_grip Examples.holder1)
               = 0.35).
  { unfold PossessionSpec.anchor_point. fields. rewrite cos_0.
    rewrite clamp_id; lra. }
  repeat split; try assumption.
  rewrite Hb, Ha. lra.
Qed.

Lemma dribbler1_step :
  Robot.update 0.05 Examples.dribbler1 = Robot.with_xy 0.05 0 Examples.dribbler1.
Proof.
  rewrite update_cruising; try reflexivity; try (simpl; lra).
  - simpl. rewrite wrap_pi_0. unfold Robot.with_xy, Robot.with_theta. simpl.
    f_equal; lra.
  - unfold Robot.speed. simpl. rewrite hypot_x_0 by lra. lra.
Qed.

Lemma dribbling_holder :
  World.all_robots (fst (World.update 0.05 Examples.dribbling Rng.identity))
  = [Robot.with_xy 0.05 0 Examples.dribbler1].
Proof.
  rewrite update_unfold by lra. cbv zeta.
  rewrite (before_ball_one_robot _ _ Examples.dribbler1) by
    (try reflexivity; rewrite dribbler1_step; reflexivity).
  rewrite dribbler1_step.
  rewrite clamp_robot_id.
  2:{ fields. rewrite cos_sin_0_extent. lra. }
  2:{ fields. rewrite cos_sin_0_extent. lra. }
  match goal with
  | |- World.all_robots (World.with_t _ (World.with_ball _ ?w3)) = _ =>
      change (World.all_robots w3 = [Robot.with_xy 0.05 0 Examples.dribbler1])
  end.
  rewrite possession_robots by (fields; lra).
  rewrite (find_holder_keeps_first _ (Robot.with_xy 0.05 0 Examples.dribbler1) []).
  - reflexivity.
  - reflexivity.
  - unfold World.keeps_ball.
    change (Robot.has_ball (Robot.with_xy 0.05 0 Examples.dribbler1)) with true.
    cbn [andb]. apply sees_ball_ahead; fields; try reflexivity; lra.
Qed.

Lemma C1_ball_anchored_before_flight_witness :
  let w3 := fst (World.update_before_ball 0.05 Examples.dribbling Rng.identity) in
  let r := Robot.with_xy 0.05 0 Examples.dribbler1 in
  Ball.x (World.ball w3) = fst (PossessionSpec.anchor_point Examples.dribbling r)
  /\ Ball.vx (World.ball w3) = fst (PossessionSpec.anchor_velocity Examples.dribbling r).
Proof.
  destruct (C1_ball_anchored_before_flight 0.05 Examples.dribbling Rng.identity O
              (Robot.with_xy 0.05 0 Examples.dribbler1))
    as (_ & _ & Hx & _ & Hvx & _).
  - lra.
  - reflexivity.
  - rewrite dribbling_holder. reflexivity.
  - reflexivity.
  - split; assumption.
Defined.

(** With the default settings and the holder driving at 1 m/s, the ball
    is put on the anchor point (x = 0.40) and then advanced by its own
    step: after the tick it is 5 cm ahead of the anchor point. *)
Lemma dribbling_ball_leads_anchor :
  let w' := fst (World.update 0.05 Examples.dribbling Rng.identity) in
  let r := Robot.with_xy 0.05 0 Examples.dribbler1 in
  World.all_robots w' = [r]
  /\ Robot.has_ball r = true
  /\ fst (PossessionSpec.anchor_point Examples.dribbling r) = 0.40
  /\ Ball.x (World.ball w') = 0.45.
Proof.
  cbv zeta.
  destruct (update_anchors_ball 0.05 Examples.dribbling Rng.identity O
              (Robot.with_xy 0.05 0 Examples.dribbler1))
    as (Hb & Hb3 & _);
    [lra | reflexivity | rewrite dribbling_holder; reflexivity | reflexivity |].
  assert (Ha : fst (PossessionSpec.anchor_point Examples.dribbling
                      (Robot.with_xy 0.05 0 Examples.dribbler1)) = 0.40).
  { unfold PossessionSpec.anchor_point. fields. rewrite cos_0.
    rewrite clamp_id; lra. }
  assert (Hs : snd (PossessionSpec.anchor_point Examples.dribbling
                      (Robot.with_xy 0.05 0 Examples.dribbler1)) = 0).
  { unfold PossessionSpec.anchor_point. fields. rewrite sin_0.
    rewrite clamp_id; lra. }
  assert (Hv : PossessionSpec.anchor_velocity Examples.dribbling
                 (Robot.with_xy 0.05 0 Examples.dribbler1) = (1, 0)).
  { unfold PossessionSpec.anchor_velocity. fields. f_equal; lra. }
  repeat split; try assumption.
  - apply dribbling_holder.
  - rewrite Hb, Hb3, Ha, Hs, Hv. cbn [fst snd].
    match goal with
    | |- Ball.x (Ball.update ?dt (Some ?hw) (Some ?hh) Clip ?b) = _ =>
        destruct (ball_update_position dt hw hh b) as [Ex _]
    end; [lra | fields; lra | fields; lra |].
    rewrite Ex. fields. lra.
Qed.

(** Who may keep and who may take the ball in the contested world. *)
Lemma contested_cones :
  (forall j, ~ PossessionSpec.retains Examples.contested j)
  /\ PossessionSpec.acquires Examples.contested 0
  /\ PossessionSpec.acquires Examples.contested 1
  /\ ~ PossessionSpec.acquires Examples.contested 2
  /\ PossessionSpec.dist Examples.contested 0 = 0.34
  /\ PossessionSpec.dist Examples.contested 1 = 0.30.
Proof.
  pose proof PI_RGT_0 as Hpi.
  assert (Hfar : Py.hypot (0 - -0.34) (0 - 0) = 0.34).
  { replace (0 - 0) with 0 by lra. rewrite hypot_abs_0, Rabs_right; lra. }
  assert (Hnear : Py.hypot (0 - 0.30) (0 - 0) = 0.30).
  { replace (0 - 0) with 0 by lra. rewrite hypot_abs_0, Rabs_left; lra. }
  assert (Hlost : Py.hypot (0 - 2) (0 - 0) = 2).
  { replace (0 - 0) with 0 by lra. rewrite hypot_abs_0, Rabs_left; lra. }
  split; [| split; [| split; [| split; [| split]]]].
  - intros j (r & Hr & Hb & Hc).
    change (World.all_robots Examples.contested)
      with [Examples.taker_far; Examples.taker_near; Examples.loser] in Hr.
    destruct j as [| [| [| j]]]; cbn [nth_error] in Hr;
      [| | | destruct j; discriminate];
      injection Hr as <-; try discriminate.
    destruct Hc as [Hc _]. revert Hc. contested_fields. rewrite Hlost. lra.
  - exists Examples.taker_far. split; [reflexivity |]. split; [reflexivity |].
    unfold PossessionSpec.in_cone. contested_fields. rewrite Hfar. split; [lra |].
    unfold Py.atan2. rewrite (ltb_true 0 (0 - -0.34)) by lra.
    replace ((0 - 0) / (0 - -0.34)) with 0 by (field; lra).
    rewrite atan_0. replace (0 - 0) with 0 by lra.
    rewrite wrap_pi_0, Rabs_R0. unfold Py.radians. lra.
  - exists Examples.taker_near. split; [reflexivity |]. split; [reflexivity |].
    unfold PossessionSpec.in_cone. contested_fields. rewrite Hnear. split; [lra |].
    unfold Py.atan2.
    rewrite (ltb_false 0 (0 - 0.30)) by lra.
    rewrite (ltb_true (0 - 0.30) 0) by lra.
    rewrite (leb_true 0 (0 - 0)) by lra.
    replace ((0 - 0) / (0 - 0.30)) with 0 by (field; lra).
    rewrite atan_0.
    replace (0 + PI - - PI) with (2 * PI) by lra.
    rewrite wrap_pi_2PI, Rabs_R0. unfold Py.radians. lra.
  - intros (r & Hr & _ & Hc & _).
    change (World.all_robots Examples.contested)
      with [Examples.taker_far; Examples.taker_near; Examples.loser] in Hr.
    cbn [nth_error] in Hr. injection Hr as <-.
    revert Hc. contested_fields. rewrite Hlost. lra.
  - unfold PossessionSpec.dist, PossessionSpec.distance. contested_fields. exact Hfar.
  - unfold PossessionSpec.dist, PossessionSpec.distance. contested_fields. exact Hnear.
Qed.

(** In the world [kept] the flagged robot is inside the wide cone and
    outside the narrow one, which the other robot is inside of. *)
Lemma kept_cones :
  PossessionSpec.retains Examples.kept 0
  /\ ~ PossessionSpec.acquires Examples.kept 0
  /\ PossessionSpec.acquires Examples.kept 1.
Proof.
  pose proof PI_RGT_0 as Hpi.
  assert (Hfar : Py.hypot (0 - -0.40) (0 - 0) = 0.40).
  { replace (0 - 0) with 0 by lra. rewrite hypot_abs_0, Rabs_right; lra. }
  assert (Hnear : Py.hypot (0 - 0.30) (0 - 0) = 0.30).
  { replace (0 - 0) with 0 by lra. rewrite hypot_abs_0, Rabs_left; lra. }
  split; [| split].
  - exists Examples.keeper_far. split; [reflexivity |]. split; [reflexivity |].
    unfold PossessionSpec.in_cone. kept_fields. rewrite Hfar. split; [lra |].
    unfold Py.atan2. rewrite (ltb_true 0 (0 - -0.40)) by lra.
    replace ((0 - 0) / (0 - -0.40)) with 0 by (field; lra).
    rewrite atan_0. replace (0 - 0) with 0 by lra.
    rewrite wrap_pi_0, Rabs_R0. unfold Py.radians. lra.
  - intros (r & Hr & _ & Hc & _).
    change (World.all_robots Examples.kept)
      with [Examples.keeper_far; Examples.taker_near] in Hr.
    cbn [nth_error] in Hr. injection Hr as <-.
    revert Hc. kept_fields. rewrite Hfar. lra.
  - exists Examples.taker_near. split; [reflexivity |]. split; [reflexivity |].
    unfold PossessionSpec.in_cone. kept_fields. rewrite Hnear. split; [lra |].
    unfold Py.atan2.
    rewrite (ltb_false 0 (0 - 0.30)) by lra.
    rewrite (ltb_true (0 - 0.30) 0) by lra.
    rewrite (leb_true 0 (0 - 0)) by lra.
    replace ((0 - 0) / (0 - 0.30)) with 0 by (field; lra).
    rewrite atan_0.
    replace (0 + PI - - PI) with (2 * PI) by lra.
    rewrite wrap_pi_2PI, Rabs_R0. unfold Py.radians. lra.
Qed.

Lemma C2_possession_hysteresis_witness :
  (let w' := World._update_possession_and_anchor 0.05 Examples.contested in
   PossessionSpec.holder Examples.contested (Some 1%nat)
   /\ map Robot.has_ball (World.all_robots Examples.contested) = [false; false; true]
   /\ map Robot.has_ball (World.all_robots w') = [false; true; false])
  /\ (let w' := World._update_possession_and_anchor 0.05 Examples.kept in
      PossessionSpec.holder Examples.kept (Some 0%nat)
      /\ ~ PossessionSpec.acquires Examples.kept 0
      /\ PossessionSpec.acquires Examples.kept 1
      /\ map Robot.has_ball (World.all_robots Examples.kept) = [true; false]
      /\ map Robot.has_ball (World.all_robots w') = [true; false]).
Proof.
  cbv zeta. split.
  - destruct (C2_possession_hysteresis 0.05 Examples.contested)
      as (h & Hh & Hl & Hflags & _); [contested_fields; lra |].
    destruct contested_cones as (Hret & Ha0 & Ha1 & Ha2 & Hd0 & Hd1).
    assert (Eh : h = Some 1%nat).
    { destruct h as [k |].
      - destruct Hh as [[Hr _] | (_ & Hk & Hmin & _)]; [destruct (Hret k Hr) |].
        pose proof (Hmin 1%nat Ha1) as Hle.
        destruct k as [| [| [| k]]].
        + rewrite Hd0, Hd1 in Hle. lra.
        + reflexivity.
        + contradiction.
        + destruct Hk as (r & Hr & _).
          change (World.all_robots Examples.contested)
            with [Examples.taker_far; Examples.taker_near; Examples.loser] in Hr.
          destruct k; discriminate.
      - destruct (Hh 1%nat) as [_ Hn]. contradiction. }
    subst h. split; [exact Hh |]. split; [reflexivity |].
    pose proof (Hflags 0%nat _ eq_refl) as H0.
    pose proof (Hflags 1%nat _ eq_refl) as H1.
    pose proof (Hflags 2%nat _ eq_refl) as H2.
    change (length (World.all_robots Examples.contested)) with 3%nat in Hl.
    destruct (World.all_robots _) as [| a [| b [| c [| ? ?]]]]; try discriminate.
    cbn [nth_error] in H0, H1, H2.
    injection H0 as ->. injection H1 as ->. injection H2 as ->. reflexivity.
  - destruct (C2_possession_hysteresis 0.05 Examples.kept)
      as (h & Hh & Hl & Hflags & _); [kept_fields; lra |].
    destruct kept_cones as (Hr0 & Hn0 & Ha1).
    assert (Eh : h = Some 0%nat).
    { destruct h as [k |].
      - destruct Hh as [[_ Hlt] | (Hno & _)]; [| destruct (Hno 0%nat Hr0)].
        destruct k as [| k]; [reflexivity |].
        destruct (Hlt 0%nat (Nat.lt_0_succ k) Hr0).
      - destruct (Hh 0%nat) as [Hn _]. contradiction. }
    subst h. split; [exact Hh |]. split; [exact Hn0 |]. split; [exact Ha1 |].
    split; [reflexivity |].
    pose proof (Hflags 0%nat _ eq_refl) as H0.
    pose proof (Hflags 1%nat _ eq_refl) as H1.
    change (length (World.all_robots Examples.kept)) with 2%nat in Hl.
    destruct (World.all_robots _) as [| a [| b [| ? ?]]]; try discriminate.
    cbn [nth_error] in H0, H1.
    injection H0 as ->. injection H1 as ->. reflexivity.
Defined.

(** ** Collision resolution *)

Lemma list_set_length {A : Type} (i : nat) (v : A) (l : list A) :
  length (Collisions.list_set i v l) = length l.
Proof.
  revert i. induction l as [| a l IH]; intros i; [destruct i; reflexivity |].
  destruct i; simpl; [reflexivity | rewrite IH; reflexivity].
Qed.

Lemma resolve_pair_length (radii : list R) (e l : R) (i : nat) (xi yi : R)
    (st : list Robot.t * Rng.t) (j : nat) :
  length (fst (Collisions.resolve_pair radii e l i xi yi st j)) = length (fst st).
Proof.
  destruct st as [rs g]. unfold Collisions.resolve_pair.
  destruct (Py.ltb _ 1e-12).
  - destruct (Rng.random g) as [u g'].
    destruct (Py.leb _ _); [| destruct (Py.ltb _ 0)];
      cbn [fst]; rewrite !list_set_length; reflexivity.
  - destruct (Py.leb _ _); [| destruct (Py.ltb _ 0)];
      cbn [fst]; rewrite !list_set_length; reflexivity.
Qed.

Lemma resolve_from_length (radii : list R) (e l : R) (n : nat) (order : list nat)
    (st : list Robot.t * Rng.t) (a : nat) :
  length (fst (Collisions.resolve_from radii e l n order st a)) = length (fst st).
Proof.
  unfold Collisions.resolve_from.
  set (i := nth a order O). set (xi := Robot.x _). set (yi := Robot.y _).
  clearbody xi yi. generalize (seq (S i) (n - S i)). intros js. revert st.
  induction js as [| j js IH]; intros st; [reflexivity |].
  cbn [fold_left]. rewrite IH. apply resolve_pair_length.
Qed.

Lemma relax_pass_shape (w : World.t) (radii : list R) (e l : R) (n : nat)
    (st : list Robot.t * Rng.t) :
  exists rs, fst (Collisions.relax_pass w radii e l n st)
             = map (Collisions.clamp_robot_inside_field w) rs
             /\ length rs = length (fst st).
Proof.
  destruct st as [robots g]. unfold Collisions.relax_pass.
  destruct (Rng.shuffle n g) as [order g1].
  assert (H : forall (xs : list nat) (st : list Robot.t * Rng.t),
             length (fst (fold_left (Collisions.resolve_from radii e l n order) xs st))
             = length (fst st)).
  { induction xs as [| a xs IH]; intros st; [reflexivity |].
    cbn [fold_left]. rewrite IH. apply resolve_from_length. }
  specialize (H (seq 0 n) (robots, g1)).
  destruct (fold_left _ (seq 0 n) (robots, g1)) as [rs g2].
  exists rs. split; [reflexivity | exact H].
Qed.

Lemma enforce_no_overlap_robots (w : World.t) (it : Z) (c e l : R) (g : Rng.t) :
  exists rs,
    World.all_robots (fst (Collisions.enforce_no_overlap w it c e l g))
    = Collisions.scatter (World.all_robots w)
        (map (Collisions.clamp_robot_inside_field w) rs)
    /\ length rs = length (filter Robot.active (World.all_robots w)).
Proof.
  unfold Collisions.enforce_no_overlap.
  change (WorldState.all_robots w) with (World.all_robots w).
  set (all := World.all_robots w). set (acts := filter Robot.active all).
  destruct (Nat.leb (length acts) 1).
  - exists acts. split; [| reflexivity].
    cbn [fst]. apply all_robots_with_all_robots.
  - destruct (Z.to_nat (Z.max 1 it)) as [| k] eqn:Ek; [lia |].
    rewrite Nat.iter_succ.
    set (radii := map _ acts).
    assert (Hlen : forall k st, length (fst (Nat.iter k
                     (Collisions.relax_pass w radii e l (length acts)) st))
                   = length (fst st)).
    { clear. induction k as [| k IH]; intros st; [reflexivity |].
      rewrite Nat.iter_succ.
      destruct (relax_pass_shape w radii e l (length acts)
                  (Nat.iter k (Collisions.relax_pass w radii e l (length acts)) st))
        as (rs & -> & Hrs).
      rewrite length_map, Hrs. apply IH. }
    destruct (relax_pass_shape w radii e l (length acts)
                (Nat.iter k (Collisions.relax_pass w radii e l (length acts)) (acts, g)))
      as (rs & Hrs & Hl).
    rewrite Hlen in Hl. cbn [fst] in Hl.
    destruct (Collisions.relax_pass w radii e l (length acts) _) as [rs' g'].
    cbn [fst] in Hrs. subst rs'. exists rs. split; [| exact Hl].
    cbn [fst]. apply all_robots_with_all_robots.
Qed.

Lemma scatter_active (all acts : list Robot.t) (r : Robot.t) :
  length acts = length (filter Robot.active all) ->
  In r (Collisions.scatter all acts) -> Robot.active r = true -> In r acts.
Proof.
  revert acts. induction all as [| a all IH]; intros acts Hl Hin Ha; [destruct Hin |].
  simpl in Hin, Hl. destruct (Robot.active a) eqn:Ea.
  - destruct acts as [| b acts]; [discriminate |].
    destruct Hin as [<- | Hin]; [left; reflexivity |].
    right. apply IH; try assumption. simpl in Hl. lia.
  - destruct Hin as [<- | Hin]; [congruence |].
    apply IH; assumption.
Qed.

Lemma clamp_robot_within (w : World.t) (r : Robot.t) :
  let r' := Collisions.clamp_robot_inside_field w r in
  Robot.half_extents_xy r' = Robot.half_extents_xy r
  /\ (fst (Robot.half_extents_xy r) <= World.half_w w ->
      - World.half_w w + fst (Robot.half_extents_xy r) <= Robot.x r'
      <= World.half_w w - fst (Robot.half_extents_xy r))
  /\ (snd (Robot.half_extents_xy r) <= World.half_h w ->
      - World.half_h w + snd (Robot.half_extents_xy r) <= Robot.y r'
      <= World.half_h w - snd (Robot.half_extents_xy r)).
Proof.
  cbv zeta. unfold Collisions.clamp_robot_inside_field, Robot.half_extents_xy.
  cbv zeta. cbn [fst snd Robot.x Robot.y Robot.with_xy].
  change (WorldState.half_w w) with (World.half_w w).
  change (WorldState.half_h w) with (World.half_h w).
  split; [reflexivity |]. split; intros H; apply clamp_bounds; lra.
Qed.

Lemma scatter_length (all acts : list Robot.t) :
  length (Collisions.scatter all acts) = length all.
Proof.
  revert acts. induction all as [| a all IH]; intros acts; [reflexivity |].
  simpl. destruct (Robot.active a); [destruct acts |]; simpl; rewrite IH; reflexivity.
Qed.

Lemma list_set_nth_same {A : Type} (i : nat) (v d : A) (l : list A) :
  (i < length l)%nat -> nth i (Collisions.list_set i v l) d = v.
Proof.
  revert i. induction l as [| a l IH]; intros i H; simpl in H; [lia |].
  destruct i; simpl; [reflexivity | apply IH; lia].
Qed.

Lemma list_set_nth_other {A : Type} (i j : nat) (v d : A) (l : list A) :
  i <> j -> nth j (Collisions.list_set i v l) d = nth j l d.
Proof.
  revert i j. induction l as [| a l IH]; intros i j H; [destruct i; reflexivity |].
  destruct i, j; simpl; try reflexivity; try lia. apply IH. lia.
Qed.

Lemma unit_normal (dx dy : R) :
  0 < sqrt (dx * dx + dy * dy) ->
  dx / sqrt (dx * dx + dy * dy) * (dx / sqrt (dx * dx + dy * dy))
  + dy / sqrt (dx * dx + dy * dy) * (dy / sqrt (dx * dx + dy * dy)) = 1.
Proof.
  intros Hd. set (d := sqrt (dx * dx + dy * dy)) in *.
  assert (Hdd : d * d = dx * dx + dy * dy) by (apply sqrt_sqrt; nra).
  replace (dx / d * (dx / d) + dy / d * (dy / d))
    with ((dx * dx + dy * dy) / (d * d)) by (field; lra).
  rewrite <- Hdd. field. lra.
Qed.

(** ** Two robots in the resolver *)

Lemma permutes_identity : Rng.permutes Rng.identity.
Proof. intros k n. apply Permutation_refl. Qed.

Lemma permutes_shuffle (n : nat) (g : Rng.t) :
  Rng.permutes g -> Rng.permutes (snd (Rng.shuffle n g)).
Proof. intros H. exact H. Qed.

Lemma permutes_random (g : Rng.t) :
  Rng.permutes g -> Rng.permutes (snd (Rng.random g)).
Proof. intros H. exact H. Qed.

(** The correction of the only pair of a two-robot list, the centres
    not coincident. *)
Lemma resolve_pair_two (radii : list R) (e l : R) (ra rb : Robot.t) (g : Rng.t) :
  let dx := Robot.x rb - Robot.x ra in
  let dy := Robot.y rb - Robot.y ra in
  let d := sqrt (dx * dx + dy * dy) in
  let min_d := nth 0 radii 0 + nth 1 radii 0 in
  1e-12 <= dx * dx + dy * dy ->
  Collisions.resolve_pair radii e l 0 (Robot.x ra) (Robot.y ra) ([ra; rb], g) 1
  = (if Py.leb min_d d then [ra; rb]
     else
       let push := Rmin (0.5 * (min_d - d)) l in
       let vn := (Robot.vx rb - Robot.vx ra) * (dx / d)
                 + (Robot.vy rb - Robot.vy ra) * (dy / d) in
       let j := if Py.ltb vn 0 then - (1 + e) * vn * 0.5 else 0 in
       [Robot.with_vxy (Robot.vx ra - dx / d * j) (Robot.vy ra - dy / d * j)
          (Robot.with_xy (Robot.x ra - dx / d * push)
                         (Robot.y ra - dy / d * push) ra);
        Robot.with_vxy (Robot.vx rb + dx / d * j) (Robot.vy rb + dy / d * j)
          (Robot.with_xy (Robot.x rb + dx / d * push)
                         (Robot.y rb + dy / d * push) rb)], g).
Proof.
  cbv zeta. intros Hd2.
  set (dx := Robot.x rb - Robot.x ra) in *.
  set (dy := Robot.y rb - Robot.y ra) in *.
  set (d := sqrt (dx * dx + dy * dy)).
  assert (Hd : 1e-6 <= d).
  { unfold d. replace 1e-6 with (sqrt (1e-6 * 1e-6)) by (apply sqrt_square; lra).
    apply sqrt_le_1_alt. lra. }
  unfold Collisions.resolve_pair. cbn [nth]. fold dx dy.
  rewrite (ltb_false (dx * dx + dy * dy) 1e-12 Hd2). fold d.
  destruct (Py.leb _ d); [reflexivity |].
  rewrite (ltb_true 1e-9 d) by lra.
  destruct (Py.ltb _ 0); cbn [Collisions.list_set Robot.vx Robot.vy Robot.with_xy].
  - reflexivity.
  - f_equal. destruct ra, rb.
    cbv [Robot.with_vxy Robot.with_xy Robot.x Robot.y Robot.vx Robot.vy
         Robot.robot_id Robot.team_id Robot.theta Robot.omega Robot.desired_vx
         Robot.desired_vy Robot.desired_omega Robot.side_len Robot.max_speed
         Robot.max_omega Robot.max_accel Robot.max_alpha Robot.tau_v Robot.tau_w
         Robot.active Robot.has_ball Robot.dbg_action].
    f_equal; [f_equal; lra | f_equal; f_equal; lra].
Qed.

(** One pass over two robots: whatever the shuffle, the pair is
    corrected once and both robots are clamped. *)
Lemma relax_pass_two (w : World.t) (radii : list R) (e l : R) (ra rb : Robot.t)
    (g : Rng.t) :
  Rng.permutes g ->
  let st := Collisions.resolve_pair radii e l 0 (Robot.x ra) (Robot.y ra)
              ([ra; rb], snd (Rng.shuffle 2 g)) 1 in
  Collisions.relax_pass w radii e l 2 ([ra; rb], g)
  = (map (Collisions.clamp_robot_inside_field w) (fst st), snd st).
Proof.
  intros Hg. cbv zeta. unfold Collisions.relax_pass.
  pose proof (Hg (Rng.n_shuffle g) 2%nat) as Hp.
  destruct (Rng.shuffle 2 g) as [order g1] eqn:E.
  assert (Ho : order = Rng.shuffle_at g (Rng.n_shuffle g) 2)
    by (unfold Rng.shuffle in E; injection E as <- _; reflexivity).
  rewrite <- Ho in Hp. cbn [snd].
  apply Permutation_sym in Hp. cbn [seq] in Hp.
  apply Permutation_length_2_inv in Hp.
  destruct Hp as [-> | ->]; cbn [seq fold_left]; unfold Collisions.resolve_from;
    cbn [nth fst seq Nat.sub fold_left];
    destruct (Collisions.resolve_pair _ _ _ _ _ _ _ _) as [rs g2] eqn:E2.
  - reflexivity.
  - reflexivity.
Qed.

Lemma moved_eq (r : Robot.t) (x y vx vy x' y' vx' vy' : R) :
  x = x' -> y = y' -> vx = vx' -> vy = vy' ->
  Robot.with_vxy vx vy (Robot.with_xy x y r)
  = Robot.with_vxy vx' vy' (Robot.with_xy x' y' r).
Proof. intros -> -> -> ->. reflexivity. Qed.

Lemma moved_moved (r : Robot.t) (x y vx vy x' y' vx' vy' : R) :
  Robot.with_vxy vx' vy' (Robot.with_xy x' y' (Robot.with_vxy vx vy (Robot.with_xy x y r)))
  = Robot.with_vxy vx' vy' (Robot.with_xy x' y' r).
Proof. reflexivity. Qed.

Lemma unit_normal_bounds (dx dy : R) :
  0 < Py.hypot dx dy ->
  -1 <= dx / Py.hypot dx dy <= 1 /\ -1 <= dy / Py.hypot dx dy <= 1.
Proof.
  intros Hd. pose proof (unit_normal dx dy Hd) as Hu.
  change (sqrt (dx * dx + dy * dy)) with (Py.hypot dx dy) in Hu.
  set (nx := dx / Py.hypot dx dy) in *. set (ny := dy / Py.hypot dx dy) in *.
  split; split; nra.
Qed.

Section TwoRobots.

Variable w : World.t.
Variables rada radb e l : R.
Variables ra rb : Robot.t.

Let dx := Robot.x rb - Robot.x ra.
Let dy := Robot.y rb - Robot.y ra.
Let d0 := Py.hypot dx dy.
Let min_d := rada + radb.
Let room := Rmax 0 (min_d - d0) / 2.
Let ext (r : Robot.t) : R :=
  Robot.half_side r * (Rabs (cos (Robot.theta r)) + Rabs (sin (Robot.theta r))).

Hypothesis Hd0 : 1e-6 <= d0.
Hypothesis Hl : 0 <= l.
Hypothesis Hxa : - World.half_w w + ext ra + room <= Robot.x ra
                 <= World.half_w w - ext ra - room.
Hypothesis Hya : - World.half_h w + ext ra + room <= Robot.y ra
                 <= World.half_h w - ext ra - room.
Hypothesis Hxb : - World.half_w w + ext rb + room <= Robot.x rb
                 <= World.half_w w - ext rb - room.
Hypothesis Hyb : - World.half_h w + ext rb + room <= Robot.y rb
                 <= World.half_h w - ext rb - room.

(** The two robots pushed [s] apart along their line of centres. *)
Let at_s (s : R) (va vb : R * R) : list Robot.t :=
  [Robot.with_vxy (fst va) (snd va)
     (Robot.with_xy (Robot.x ra - dx / d0 * s) (Robot.y ra - dy / d0 * s) ra);
   Robot.with_vxy (fst vb) (snd vb)
     (Robot.with_xy (Robot.x rb + dx / d0 * s) (Robot.y rb + dy / d0 * s) rb)].

Lemma two_room : 0 <= room /\ (min_d - d0) / 2 <= room.
Proof.
  unfold room. pose proof (Rmax_l 0 (min_d - d0)). pose proof (Rmax_r 0 (min_d - d0)).
  lra.
Qed.

Lemma two_start :
  [ra; rb] = at_s 0 (Robot.vx ra, Robot.vy ra) (Robot.vx rb, Robot.vy rb).
Proof.
  unfold at_s. cbn [fst snd].
  replace (Robot.x ra - dx / d0 * 0) with (Robot.x ra) by lra.
  replace (Robot.y ra - dy / d0 * 0) with (Robot.y ra) by lra.
  replace (Robot.x rb + dx / d0 * 0) with (Robot.x rb) by lra.
  replace (Robot.y rb + dy / d0 * 0) with (Robot.y rb) by lra.
  destruct ra, rb. reflexivity.
Qed.

Lemma two_distance (s : R) (va vb : R * R) :
  0 <= s ->
  let a := nth 0 (at_s s va vb) Robot.default in
  let b := nth 1 (at_s s va vb) Robot.default in
  Robot.x b - Robot.x a = dx * (1 + 2 * s / d0)
  /\ Robot.y b - Robot.y a = dy * (1 + 2 * s / d0)
  /\ sqrt ((Robot.x b - Robot.x a) * (Robot.x b - Robot.x a)
           + (Robot.y b - Robot.y a) * (Robot.y b - Robot.y a)) = d0 + 2 * s.
Proof.
  intros Hs. cbv zeta. unfold at_s.
  cbn [nth Robot.x Robot.y Robot.with_vxy Robot.with_xy].
  assert (Ex : Robot.x rb + dx / d0 * s - (Robot.x ra - dx / d0 * s)
               = dx * (1 + 2 * s / d0)) by (unfold dx; field; lra).
  assert (Ey : Robot.y rb + dy / d0 * s - (Robot.y ra - dy / d0 * s)
               = dy * (1 + 2 * s / d0)) by (unfold dy; field; lra).
  rewrite Ex, Ey. split; [reflexivity |]. split; [reflexivity |].
  pose proof (hypot_sqr dx dy) as Hh. fold d0 in Hh.
  replace (dx * (1 + 2 * s / d0) * (dx * (1 + 2 * s / d0))
           + dy * (1 + 2 * s / d0) * (dy * (1 + 2 * s / d0)))
    with ((d0 + 2 * s) * (d0 + 2 * s)).
  - apply sqrt_square. lra.
  - transitivity ((dx * dx + dy * dy) * ((1 + 2 * s / d0) * (1 + 2 * s / d0)));
      [| ring].
    rewrite <- Hh. field. lra.
Qed.

Lemma two_clamped (s : R) (va vb : R * R) :
  0 <= s <= room ->
  map (Collisions.clamp_robot_inside_field w) (at_s s va vb) = at_s s va vb.
Proof.
  intros Hs. assert (Hpos : 0 < d0) by lra.
  destruct (unit_normal_bounds dx dy Hpos) as [Hnx Hny]. fold d0 in Hnx, Hny.
  set (nx := dx / d0) in *. set (ny := dy / d0) in *.
  assert (Hxs : - s <= nx * s <= s) by nra.
  assert (Hys : - s <= ny * s <= s) by nra.
  unfold at_s. fold nx ny. cbn [map]. f_equal; [| f_equal];
    apply clamp_robot_id;
    unfold ext, Robot.half_side in *;
    cbn [Robot.x Robot.y Robot.theta Robot.side_len Robot.with_vxy Robot.with_xy];
    set (ea := 0.5 * Robot.side_len ra * _) in *;
    set (eb := 0.5 * Robot.side_len rb * _) in *; lra.
Qed.

Lemma two_pass (s : R) (va vb : R * R) (g : Rng.t) :
  0 <= s <= room -> Rng.permutes g ->
  let st := Collisions.relax_pass w [rada; radb] e l 2 (at_s s va vb, g) in
  exists s' va' vb',
    fst st = at_s s' va' vb'
    /\ s <= s' <= room /\ Rmin room (s + l) <= s'
    /\ Rng.permutes (snd st).
Proof.
  intros Hs Hg. cbv zeta. assert (Hpos : 0 < d0) by lra.
  destruct two_room as [Hr0 Hr1].
  destruct (two_distance s va vb (proj1 Hs)) as (Ex & Ey & Ed).
  cbv zeta in Ex, Ey, Ed.
  set (a := nth 0 (at_s s va vb) Robot.default) in *.
  set (b := nth 1 (at_s s va vb) Robot.default) in *.
  change (at_s s va vb) with [a; b].
  rewrite (relax_pass_two w [rada; radb] e l a b g Hg). cbv zeta.
  rewrite resolve_pair_two.
  2:{ set (q := (Robot.x b - Robot.x a) * (Robot.x b - Robot.x a)
                + (Robot.y b - Robot.y a) * (Robot.y b - Robot.y a)) in *.
      assert (Hq : 0 <= q).
      { unfold q. apply Rplus_le_le_0_compat;
          [apply (Rle_0_sqr (Robot.x b - Robot.x a))
          | apply (Rle_0_sqr (Robot.y b - Robot.y a))]. }
      pose proof (sqrt_sqrt q Hq) as Hqq. rewrite Ed in Hqq.
      clearbody q. nra. }
  cbv zeta. rewrite Ed. cbn [nth fst snd]. fold min_d.
  destruct (Py.leb min_d (d0 + 2 * s)) eqn:E.
  - apply leb_spec in E. exists s, va, vb.
    split; [change [a; b] with (at_s s va vb); apply two_clamped; exact Hs |].
    split; [lra |]. split; [| exact Hg].
    apply Rle_trans with room; [apply Rmin_l |].
    unfold room, Rmax in *. destruct (Rle_dec 0 (min_d - d0)); lra.
  - apply leb_nspec in E.
    set (push := Rmin (0.5 * (min_d - (d0 + 2 * s))) l).
    assert (Hp0 : 0 <= push) by (unfold push; apply Rmin_glb; lra).
    assert (Hp1 : s + push <= room).
    { pose proof (Rmin_l (0.5 * (min_d - (d0 + 2 * s))) l). fold push in H. lra. }
    assert (Hp2 : Rmin room (s + l) <= s + push).
    { unfold push, Rmin.
      destruct (Rle_dec (0.5 * (min_d - (d0 + 2 * s))) l);
        destruct (Rle_dec room (s + l)); try lra;
        unfold room, Rmax in *; destruct (Rle_dec 0 (min_d - d0)); lra. }
    assert (Enx : (Robot.x b - Robot.x a) / (d0 + 2 * s) = dx / d0)
      by (rewrite Ex; field; lra).
    assert (Eny : (Robot.y b - Robot.y a) / (d0 + 2 * s) = dy / d0)
      by (rewrite Ey; field; lra).
    rewrite Enx, Eny.
    match goal with
    | |- context [Robot.with_vxy ?v1 ?v2 (Robot.with_xy _ _ a) :: ?t] =>
        match t with
        | [Robot.with_vxy ?v3 ?v4 _] =>
            exists (s + push), (v1, v2), (v3, v4)
        end
    end.
    split; [| split; [lra | split; [exact Hp2 | exact Hg]]].
    rewrite <- (two_clamped (s + push) _ _) by lra.
    f_equal. unfold a, b, at_s. cbn [nth fst snd].
    rewrite !moved_moved.
    f_equal; [| f_equal];
      apply moved_eq; try reflexivity;
      cbn [Robot.x Robot.y Robot.with_vxy Robot.with_xy]; ring.
Qed.

Lemma two_passes (k : nat) (va vb : R * R) (g : Rng.t) :
  Rng.permutes g ->
  let st := Nat.iter k (Collisions.relax_pass w [rada; radb] e l 2)
                     (at_s 0 va vb, g) in
  exists s' va' vb',
    fst st = at_s s' va' vb'
    /\ 0 <= s' <= room /\ Rmin room (INR k * l) <= s'
    /\ Rng.permutes (snd st).
Proof.
  intros Hg. cbv zeta. destruct two_room as [Hr0 Hr1].
  induction k as [| k IH].
  - exists 0, va, vb. cbn [Nat.iter fst snd INR].
    split; [reflexivity |]. split; [lra |]. split; [| exact Hg].
    apply Rle_trans with (0 * l); [apply Rmin_r | lra].
  - destruct IH as (s & va1 & vb1 & E & Hs & Hk & Hg1).
    rewrite Nat.iter_succ.
    destruct (Nat.iter k _ _) as [rs g1]. cbn [fst snd] in *. subst rs.
    destruct (two_pass s va1 vb1 g1 Hs Hg1) as (s' & va' & vb' & E' & Hs' & Hk' & Hg').
    exists s', va', vb'. split; [exact E' |]. split; [lra |]. split; [| exact Hg'].
    rewrite S_INR.
    unfold Rmin in *. destruct (Rle_dec room ((INR k + 1) * l));
      destruct (Rle_dec room (INR k * l)); destruct (Rle_dec room (s + l)); nra.
Qed.

Lemma two_resolved (k : nat) (g : Rng.t) :
  Rng.permutes g -> min_d - d0 <= 2 * (INR k * l) ->
  exists ra' rb',
    fst (Nat.iter k (Collisions.relax_pass w [rada; radb] e l 2) ([ra; rb], g))
    = [ra'; rb']
    /\ Frame.moved ra ra' /\ Frame.moved rb rb'
    /\ Rmax d0 min_d
       <= Py.hypot (Robot.x rb' - Robot.x ra') (Robot.y rb' - Robot.y ra').
Proof.
  intros Hg Hk. rewrite two_start.
  destruct (two_passes k (Robot.vx ra, Robot.vy ra) (Robot.vx rb, Robot.vy rb) g Hg)
    as (s & va & vb & E & Hs & Hmin & _).
  rewrite E. destruct two_room as [Hr0 Hr1].
  eexists _, _. split; [reflexivity |].
  split; [eexists _, _, _, _; reflexivity |].
  split; [eexists _, _, _, _; reflexivity |].
  destruct (two_distance s va vb (proj1 Hs)) as (_ & _ & Ed). cbv zeta in Ed.
  unfold at_s in Ed. cbn [nth] in Ed. unfold Py.hypot. rewrite Ed.
  unfold Rmin in Hmin. unfold room, Rmax in *.
  destruct (Rle_dec 0 (min_d - d0)); destruct (Rle_dec d0 min_d);
    destruct (Rle_dec (_ / 2) (INR k * l)); lra.
Qed.

End TwoRobots.

Lemma filter_scatter (all acts : list Robot.t) :
  length acts = length (filter Robot.active all) ->
  Forall (fun r => Robot.active r = true) acts ->
  filter Robot.active (Collisions.scatter all acts) = acts.
Proof.
  revert acts. induction all as [| a all IH]; intros acts Hl Ha.
  - destruct acts; [reflexivity | discriminate].
  - cbn [Collisions.scatter filter] in *. destruct (Robot.active a) eqn:Ea.
    + destruct acts as [| b acts]; [discriminate |].
      inversion Ha as [| ? ? Hb Ha']; subst.
      cbn [filter]. rewrite Hb. f_equal. apply IH; [| assumption].
      simpl in Hl. lia.
    + cbn [filter]. rewrite Ea. apply IH; assumption.
Qed.

(** Two active robots with room around them: the passes push them
    apart along their line of centres until the required distance is
    reached. *)
Lemma enforce_no_overlap_two (w : World.t) (it : Z) (c e l : R) (g : Rng.t)
    (ra rb : Robot.t) :
  filter Robot.active (World.all_robots w) = [ra; rb] ->
  Rng.permutes g -> 0 <= l ->
  let d := Py.hypot (Robot.x rb - Robot.x ra) (Robot.y rb - Robot.y ra) in
  let need := Robot.outer_radius ra + Robot.outer_radius rb + c in
  let room := Rmax 0 (need - d) / 2 in
  1e-6 <= d ->
  need - d <= 2 * IZR (Z.max 1 it) * l ->
  (forall r, r = ra \/ r = rb ->
     - World.half_w w + fst (Robot.half_extents_xy r) + room <= Robot.x r
       <= World.half_w w - fst (Robot.half_extents_xy r) - room
     /\ - World.half_h w + snd (Robot.half_extents_xy r) + room <= Robot.y r
        <= World.half_h w - snd (Robot.half_extents_xy r) - room) ->
  exists ra' rb',
    filter Robot.active
      (World.all_robots (fst (Collisions.enforce_no_overlap w it c e l g)))
    = [ra'; rb']
    /\ Frame.moved ra ra' /\ Frame.moved rb rb'
    /\ Rmax d need
       <= Py.hypot (Robot.x rb' - Robot.x ra') (Robot.y rb' - Robot.y ra').
Proof.
  intros Hf Hg Hl d need room Hd Hk Hroom.
  destruct (Hroom ra (or_introl eq_refl)) as [Hxa Hya].
  destruct (Hroom rb (or_intror eq_refl)) as [Hxb Hyb].
  unfold Robot.half_extents_xy in Hxa, Hya, Hxb, Hyb. cbn [fst snd] in *.
  unfold Collisions.enforce_no_overlap.
  change (WorldState.all_robots w) with (World.all_robots w).
  rewrite Hf. cbn [length Nat.leb map].
  set (rada := Robot.outer_radius ra + c * 0.5).
  set (radb := Robot.outer_radius rb + c * 0.5).
  assert (En : rada + radb = need) by (unfold rada, radb, need; lra).
  set (k := Z.to_nat (Z.max 1 it)).
  assert (Ek : INR k = IZR (Z.max 1 it)).
  { unfold k. rewrite INR_IZR_INZ, Z2Nat.id by lia. reflexivity. }
  destruct (two_resolved w rada radb e l ra rb) with (k := k) (g := g)
    as (ra' & rb' & E & Ha & Hb & Hdist);
    rewrite ?En; fold d; fold room; try assumption.
  { rewrite Ek. lra. }
  rewrite En in Hdist. fold d in Hdist.
  destruct (Nat.iter k _ _) as [rs g']. cbn [fst] in E. subst rs.
  exists ra', rb'. cbn [fst]. rewrite all_robots_with_all_robots.
  assert (Hact : Robot.active ra = true /\ Robot.active rb = true).
  { assert (Hin : forall r, In r [ra; rb] -> Robot.active r = true).
    { intros r Hr. rewrite <- Hf in Hr. apply filter_In in Hr. apply Hr. }
    split; apply Hin; [left | right; left]; reflexivity. }
  split; [| split; [exact Ha | split; [exact Hb | exact Hdist]]].
  apply filter_scatter; [rewrite Hf; reflexivity |].
  destruct Ha as (x1 & y1 & vx1 & vy1 & ->). destruct Hb as (x2 & y2 & vx2 & vy2 & ->).
  repeat constructor; cbn [Robot.active Robot.with_vxy Robot.with_xy]; apply Hact.
Qed.


Lemma wall_pass (xa rad : R) (g : Rng.t) :
  Rng.shuffle_at g = (fun _ n => seq 0 n) ->
  1e-6 <= 10.775 - xa -> 10.775 - xa < rad + rad -> -10 <= xa ->
  let push := Rmin (0.5 * (rad + rad - (10.775 - xa))) 0.10 in
  let st := Collisions.relax_pass Examples.at_the_wall [rad; rad] 0 0.10 2
              ([Examples.wall_a_at xa; Examples.wall_b], g) in
  fst st = [Examples.wall_a_at (xa - push); Examples.wall_b]
  /\ Rng.shuffle_at (snd st) = (fun _ n => seq 0 n).
Proof.
  intros Hg Hd Hov Hxa. cbv zeta.
  set (push := Rmin (0.5 * (rad + rad - (10.775 - xa))) 0.10).
  assert (Hp0 : 0 <= push) by (unfold push; apply Rmin_glb; lra).
  assert (Hp1 : push <= 0.10) by (unfold push; apply Rmin_r).
  unfold Collisions.relax_pass, Rng.shuffle. rewrite Hg.
  cbn [seq fold_left]. unfold Collisions.resolve_from.
  cbn [nth seq Nat.sub fold_left fst].
  unfold Collisions.resolve_pair.
  cbn [nth]. fields.
  replace (0 - 0) with 0 by lra.
  replace ((10.775 - xa) * (10.775 - xa) + 0 * 0)
    with ((10.775 - xa) * (10.775 - xa)) by ring.
  rewrite (ltb_false ((10.775 - xa) * (10.775 - xa)) 1e-12) by nra.
  cbv beta iota zeta.
  rewrite sqrt_square by lra.
  rewrite (leb_false (rad + rad) (10.775 - xa)) by lra.
  rewrite (ltb_true 1e-9 (10.775 - xa)) by lra.
  replace ((10.775 - xa) / (10.775 - xa)) with 1 by (field; lra).
  replace (0 / (10.775 - xa)) with 0 by (field; lra).
  fold push.
  rewrite (ltb_false ((0 - 0) * 1 + (0 - 0) * 0) 0) by lra.
  cbv beta iota zeta. cbn [Collisions.list_set map fst snd].
  unfold Collisions.clamp_robot_inside_field, Robot.half_extents_xy.
  fields. rewrite cos_0, sin_0, Rabs_R1, Rabs_R0.
  split; [| reflexivity].
  rewrite (clamp_id (xa - 1 * push)) by lra.
  rewrite (clamp_id (0 - 0 * push)) by lra.
  rewrite (clamp_id (0 + 0 * push)) by lra.
  assert (Hb : _clamp (10.775 + 1 * push) (- (0.5 * 22) + 0.5 * 0.45 * (1 + 0))
                 (0.5 * 22 - 0.5 * 0.45 * (1 + 0)) = 10.775).
  { unfold _clamp. rewrite Rmin_left by lra. rewrite Rmax_right by lra. lra. }
  rewrite Hb.
  f_equal; [f_equal; lra | f_equal; f_equal; lra].
Qed.

Lemma wall_pass_to (xa xb rad : R) (st : list Robot.t * Rng.t) :
  fst st = [Examples.wall_a_at xa; Examples.wall_b]
  /\ Rng.shuffle_at (snd st) = (fun _ n => seq 0 n) ->
  1e-6 <= 10.775 - xa -> 10.775 - xa < rad + rad -> -10 <= xa ->
  xb = xa - Rmin (0.5 * (rad + rad - (10.775 - xa))) 0.10 ->
  fst (Collisions.relax_pass Examples.at_the_wall [rad; rad] 0 0.10 2 st)
  = [Examples.wall_a_at xb; Examples.wall_b]
  /\ Rng.shuffle_at (snd (Collisions.relax_pass Examples.at_the_wall [rad; rad] 0 0.10 2 st))
     = (fun _ n => seq 0 n).
Proof.
  destruct st as [rs g]. cbn [fst snd]. intros [-> Hg] Hd Hov Hxa ->.
  apply (wall_pass xa rad g); assumption.
Qed.

Lemma outer_radius_default_bounds :
  0.318 < Py.hypot (0.5 * 0.45) (0.5 * 0.45) < 0.3183.
Proof.
  pose proof (hypot_nonneg (0.5 * 0.45) (0.5 * 0.45)) as H0.
  pose proof (hypot_sqr (0.5 * 0.45) (0.5 * 0.45)) as H1.
  set (s := Py.hypot (0.5 * 0.45) (0.5 * 0.45)) in *.
  split; nra.
Qed.

Lemma wall_six_passes :
  let rad := Py.hypot (0.5 * 0.45) (0.5 * 0.45) + 0.01 * 0.5 in
  fst (Nat.iter 6 (Collisions.relax_pass Examples.at_the_wall [rad; rad] 0 0.10 2)
         ([Examples.wall_a; Examples.wall_b], Rng.identity))
  = [Examples.wall_a_at (10.65625 - 1.5 * rad); Examples.wall_b].
Proof.
  cbv zeta. pose proof outer_radius_default_bounds as Hs.
  set (rad := Py.hypot (0.5 * 0.45) (0.5 * 0.45) + 0.01 * 0.5).
  assert (Hrad : 0.323 < rad < 0.3233) by (unfold rad; lra).
  set (f := Collisions.relax_pass Examples.at_the_wall [rad; rad] 0 0.10 2).
  set (st0 := ([Examples.wall_a; Examples.wall_b], Rng.identity)).
  assert (H0 : fst st0 = [Examples.wall_a_at 10.7; Examples.wall_b]
               /\ Rng.shuffle_at (snd st0) = (fun _ n => seq 0 n))
    by (split; reflexivity).
  assert (H1 := wall_pass_to 10.7 10.6 rad st0 H0).
  fold f in H1. specialize (H1 ltac:(lra) ltac:(lra) ltac:(lra)
                               ltac:(rewrite Rmin_right by lra; lra)).
  assert (H2 := wall_pass_to 10.6 10.5 rad (f st0) H1).
  fold f in H2. specialize (H2 ltac:(lra) ltac:(lra) ltac:(lra)
                               ltac:(rewrite Rmin_right by lra; lra)).
  assert (H3 := wall_pass_to 10.5 10.4 rad (f (f st0)) H2).
  fold f in H3. specialize (H3 ltac:(lra) ltac:(lra) ltac:(lra)
                               ltac:(rewrite Rmin_right by lra; lra)).
  assert (H4 := wall_pass_to 10.4 10.3 rad (f (f (f st0))) H3).
  fold f in H4. specialize (H4 ltac:(lra) ltac:(lra) ltac:(lra)
                               ltac:(rewrite Rmin_right by lra; lra)).
  assert (H5 := wall_pass_to 10.3 (10.5375 - rad) rad (f (f (f (f st0)))) H4).
  fold f in H5. specialize (H5 ltac:(lra) ltac:(lra) ltac:(lra)
                               ltac:(rewrite Rmin_left by lra; lra)).
  assert (H6 := wall_pass_to (10.5375 - rad) (10.65625 - 1.5 * rad) rad
                  (f (f (f (f (f st0))))) H5).
  fold f in H6. specialize (H6 ltac:(lra) ltac:(lra) ltac:(lra)
                               ltac:(rewrite Rmin_left by lra; lra)).
  exact (proj1 H6).
Qed.

Lemma at_the_wall_resolved :
  World.all_robots (fst (Collisions.enforce_no_overlap Examples.at_the_wall
                           6 0.01 0 0.10 Rng.identity))
  = [Examples.wall_a_at
       (10.65625 - 1.5 * (Py.hypot (0.5 * 0.45) (0.5 * 0.45) + 0.01 * 0.5));
     Examples.wall_b].
Proof.
  set (rad := Py.hypot (0.5 * 0.45) (0.5 * 0.45) + 0.01 * 0.5).
  unfold Collisions.enforce_no_overlap.
  change (filter Robot.active (WorldState.all_robots Examples.at_the_wall))
    with [Examples.wall_a; Examples.wall_b].
  change (Z.to_nat (Z.max 1 6)) with 6%nat.
  cbn [length Nat.leb].
  change (map (fun r => Robot.outer_radius r + 0.01 * 0.5)
              [Examples.wall_a; Examples.wall_b]) with [rad; rad].
  pose proof wall_six_passes as H6. cbv zeta in H6. fold rad in H6.
  destruct (Nat.iter 6 _ _) as [rs g]. cbn [fst] in H6. subst rs.
  cbn [fst]. rewrite all_robots_with_all_robots. reflexivity.
Qed.



(** ** Two robots through a tick *)

Lemma relax_pass_two_apart (w : World.t) (radii : list R) (e l : R)
    (ra rb : Robot.t) (g : Rng.t) :
  Rng.permutes g ->
  let dx := Robot.x rb - Robot.x ra in
  let dy := Robot.y rb - Robot.y ra in
  1e-12 <= dx * dx + dy * dy ->
  nth 0 radii 0 + nth 1 radii 0 <= sqrt (dx * dx + dy * dy) ->
  Collisions.clamp_robot_inside_field w ra = ra ->
  Collisions.clamp_robot_inside_field w rb = rb ->
  let st := Collisions.relax_pass w radii e l 2 ([ra; rb], g) in
  fst st = [ra; rb] /\ Rng.permutes (snd st).
Proof.
  intros Hg dx dy Hd2 Hd Ha Hb. cbv zeta.
  rewrite (relax_pass_two w radii e l ra rb g Hg). cbv zeta.
  rewrite resolve_pair_two by exact Hd2. cbv zeta. fold dx dy.
  rewrite (leb_true _ _ Hd). cbn [fst snd map]. rewrite Ha, Hb.
  split; [reflexivity | exact Hg].
Qed.

Lemma relax_passes_two_apart (w : World.t) (radii : list R) (e l : R)
    (ra rb : Robot.t) (k : nat) (g : Rng.t) :
  Rng.permutes g ->
  let dx := Robot.x rb - Robot.x ra in
  let dy := Robot.y rb - Robot.y ra in
  1e-12 <= dx * dx + dy * dy ->
  nth 0 radii 0 + nth 1 radii 0 <= sqrt (dx * dx + dy * dy) ->
  Collisions.clamp_robot_inside_field w ra = ra ->
  Collisions.clamp_robot_inside_field w rb = rb ->
  let st := Nat.iter k (Collisions.relax_pass w radii e l 2) ([ra; rb], g) in
  fst st = [ra; rb] /\ Rng.permutes (snd st).
Proof.
  intros Hg dx dy Hd2 Hd Ha Hb. cbv zeta.
  induction k as [| k [IH1 IH2]]; [split; [reflexivity | exact Hg] |].
  rewrite Nat.iter_succ. destruct (Nat.iter k _ _) as [rs g1].
  cbn [fst snd] in IH1, IH2. subst rs.
  apply relax_pass_two_apart; assumption.
Qed.

Lemma crossing_a_step :
  Robot.update 0.05 Examples.crossing_a = Robot.with_xy 0 0 Examples.crossing_a.
Proof.
  rewrite update_cruising; try reflexivity; try (simpl; lra).
  - simpl. rewrite wrap_pi_0. unfold Robot.with_xy, Robot.with_theta. simpl.
    f_equal; lra.
  - unfold Robot.speed. simpl. rewrite hypot_0_y by lra. lra.
Qed.

Lemma crossing_b_step :
  Robot.update 0.05 Examples.crossing_b = Robot.with_xy 0.5 0 Examples.crossing_b.
Proof.
  rewrite update_cruising; try reflexivity; try (simpl; lra).
  - simpl. rewrite wrap_pi_0. unfold Robot.with_xy, Robot.with_theta. simpl.
    f_equal; lra.
  - unfold Robot.speed, Py.hypot. simpl.
    replace (-2.5 * -2.5 + 0 * 0) with (2.5 * 2.5) by lra.
    rewrite sqrt_square by lra. lra.
Qed.

(** The crossing robots after the resolver: pushed apart to the
    required distance, the normal part of their closing velocity
    shared out between them. *)
Lemma crossing_resolved :
  let rad := Py.hypot (0.5 * 0.45) (0.5 * 0.45) + 0.01 * 0.5 in
  let wa := World.with_teams (Team.update 0.05 (World.team_left Examples.crossing))
                             (Team.update 0.05 (World.team_right Examples.crossing))
                             Examples.crossing in
  World.all_robots (fst (Collisions.enforce_no_overlap wa 6 0.01 0 0.10 Rng.identity))
  = [Robot.with_vxy (-1.25) 2.5 (Robot.with_xy (0.25 - rad) 0 Examples.crossing_a);
     Robot.with_vxy (-1.25) 0 (Robot.with_xy (0.25 + rad) 0 Examples.crossing_b)].
Proof.
  cbv zeta. pose proof outer_radius_default_bounds as Hs.
  set (rad := Py.hypot (0.5 * 0.45) (0.5 * 0.45) + 0.01 * 0.5).
  assert (Hrad : 0.323 < rad < 0.3233) by (unfold rad; lra).
  set (wa := World.with_teams _ _ _).
  set (a1 := Robot.with_xy 0 0 Examples.crossing_a).
  set (b1 := Robot.with_xy 0.5 0 Examples.crossing_b).
  set (a2 := Robot.with_vxy (-1.25) 2.5 (Robot.with_xy (0.25 - rad) 0 Examples.crossing_a)).
  set (b2 := Robot.with_vxy (-1.25) 0 (Robot.with_xy (0.25 + rad) 0 Examples.crossing_b)).
  assert (Hall : World.all_robots wa = [a1; b1]).
  { unfold wa. rewrite all_robots_app.
    cbn [World.team_left World.team_right World.with_teams Team.update Team.robots
         Team.with_robots Examples.crossing Examples.world_of World.default map app].
    rewrite crossing_a_step, crossing_b_step. reflexivity. }
  assert (Hclamp : forall r : Robot.t,
             Robot.theta r = 0 -> Robot.side_len r = 0.45 ->
             -1 <= Robot.x r <= 1 -> -1 <= Robot.y r <= 1 ->
             Collisions.clamp_robot_inside_field wa r = r).
  { assert (Hw : World.half_w wa = 11) by (unfold wa; crossing_fields; lra).
    assert (Hh : World.half_h wa = 7) by (unfold wa; crossing_fields; lra).
    intros r Ht Hsl Hx Hy. apply clamp_robot_id;
      rewrite Ht, cos_sin_0_extent; unfold Robot.half_side; rewrite Hsl;
      rewrite ?Hw, ?Hh; lra. }
  unfold Collisions.enforce_no_overlap.
  change (WorldState.all_robots wa) with (World.all_robots wa). rewrite Hall.
  change (filter Robot.active [a1; b1]) with [a1; b1].
  change (Z.to_nat (Z.max 1 6)) with 6%nat.
  cbn [length Nat.leb].
  change (map (fun r => Robot.outer_radius r + 0.01 * 0.5) [a1; b1]) with [rad; rad].
  assert (H1 : Collisions.relax_pass wa [rad; rad] 0 0.10 2 ([a1; b1], Rng.identity)
               = ([a2; b2], snd (Rng.shuffle 2 Rng.identity))).
  { rewrite (relax_pass_two wa [rad; rad] 0 0.10 a1 b1 Rng.identity permutes_identity).
    cbv zeta. rewrite resolve_pair_two.
    2:{ unfold a1, b1. crossing_fields. lra. }
    cbv zeta. cbn [nth].
    assert (Ex : Robot.x b1 - Robot.x a1 = 0.5) by (unfold a1, b1; crossing_fields; lra).
    assert (Ey : Robot.y b1 - Robot.y a1 = 0) by (unfold a1, b1; crossing_fields; lra).
    rewrite Ex, Ey.
    replace (0.5 * 0.5 + 0 * 0) with (0.5 * 0.5) by lra.
    rewrite sqrt_square by lra.
    rewrite (leb_false (rad + rad) 0.5) by lra.
    rewrite (Rmin_left (0.5 * (rad + rad - 0.5)) 0.10) by lra.
    assert (Evn : (Robot.vx b1 - Robot.vx a1) * (0.5 / 0.5)
                  + (Robot.vy b1 - Robot.vy a1) * (0 / 0.5) = -2.5)
      by (unfold a1, b1; crossing_fields; lra).
    rewrite Evn. rewrite (ltb_true (-2.5) 0) by lra.
    cbn [fst snd map].
    f_equal. unfold a2, b2.
    assert (Ea : Collisions.clamp_robot_inside_field wa
                   (Robot.with_vxy (Robot.vx a1 - 0.5 / 0.5 * (- (1 + 0) * -2.5 * 0.5))
                      (Robot.vy a1 - 0 / 0.5 * (- (1 + 0) * -2.5 * 0.5))
                      (Robot.with_xy (Robot.x a1 - 0.5 / 0.5 * (0.5 * (rad + rad - 0.5)))
                         (Robot.y a1 - 0 / 0.5 * (0.5 * (rad + rad - 0.5))) a1))
                 = Robot.with_vxy (-1.25) 2.5
                     (Robot.with_xy (0.25 - rad) 0 Examples.crossing_a)).
    { rewrite Hclamp; try reflexivity;
        [| cbn [Robot.x Robot.with_vxy Robot.with_xy]; unfold a1; crossing_fields; lra
         | cbn [Robot.y Robot.with_vxy Robot.with_xy]; unfold a1; crossing_fields; lra].
      match goal with
      | |- Robot.with_vxy ?v1 ?v2 (Robot.with_xy ?p1 ?p2 _) = _ =>
          transitivity (Robot.with_vxy v1 v2 (Robot.with_xy p1 p2 Examples.crossing_a));
            [reflexivity |]
      end.
      apply (moved_eq Examples.crossing_a); unfold a1; crossing_fields; lra. }
    assert (Eb : Collisions.clamp_robot_inside_field wa
                   (Robot.with_vxy (Robot.vx b1 + 0.5 / 0.5 * (- (1 + 0) * -2.5 * 0.5))
                      (Robot.vy b1 + 0 / 0.5 * (- (1 + 0) * -2.5 * 0.5))
                      (Robot.with_xy (Robot.x b1 + 0.5 / 0.5 * (0.5 * (rad + rad - 0.5)))
                         (Robot.y b1 + 0 / 0.5 * (0.5 * (rad + rad - 0.5))) b1))
                 = Robot.with_vxy (-1.25) 0
                     (Robot.with_xy (0.25 + rad) 0 Examples.crossing_b)).
    { rewrite Hclamp; try reflexivity;
        [| cbn [Robot.x Robot.with_vxy Robot.with_xy]; unfold b1; crossing_fields; lra
         | cbn [Robot.y Robot.with_vxy Robot.with_xy]; unfold b1; crossing_fields; lra].
      match goal with
      | |- Robot.with_vxy ?v1 ?v2 (Robot.with_xy ?p1 ?p2 _) = _ =>
          transitivity (Robot.with_vxy v1 v2 (Robot.with_xy p1 p2 Examples.crossing_b));
            [reflexivity |]
      end.
      apply (moved_eq Examples.crossing_b); unfold b1; crossing_fields; lra. }
    rewrite Ea, Eb. reflexivity. }
  change (Nat.iter 6 (Collisions.relax_pass wa [rad; rad] 0 0.10 2)
                 ([a1; b1], Rng.identity))
    with (Nat.iter 5 (Collisions.relax_pass wa [rad; rad] 0 0.10 2)
            (Collisions.relax_pass wa [rad; rad] 0 0.10 2 ([a1; b1], Rng.identity))).
  rewrite H1.
  destruct (relax_passes_two_apart wa [rad; rad] 0 0.10 a2 b2 5
              (snd (Rng.shuffle 2 Rng.identity))) as [H5 _].
  - apply permutes_shuffle, permutes_identity.
  - unfold a2, b2. crossing_fields. nra.
  - cbn [nth].
    assert (Ex : Robot.x b2 - Robot.x a2 = rad + rad) by (unfold a2, b2; crossing_fields; lra).
    assert (Ey : Robot.y b2 - Robot.y a2 = 0) by (unfold a2, b2; crossing_fields; lra).
    rewrite Ex, Ey.
    replace ((rad + rad) * (rad + rad) + 0 * 0) with ((rad + rad) * (rad + rad)) by ring.
    rewrite sqrt_square by lra. lra.
  - apply Hclamp; try reflexivity; unfold a2; crossing_fields; lra.
  - apply Hclamp; try reflexivity; unfold b2; crossing_fields; lra.
  - destruct (Nat.iter 5 _ _) as [rs g5]. cbn [fst] in H5. subst rs.
    cbn [fst]. rewrite all_robots_with_all_robots. reflexivity.
Qed.


Lemma update_at_rest (dt : R) (r : Robot.t) :
  Robot.active r = true -> 0 < dt ->
  Robot.vx r = 0 -> Robot.vy r = 0 -> Robot.omega r = 0 ->
  Robot.desired_vx r = 0 -> Robot.desired_vy r = 0 -> Robot.desired_omega r = 0 ->
  0 <= Robot.max_speed r -> 0 <= Robot.max_omega r -> 0 <= Robot.max_alpha r ->
  - PI <= Robot.theta r < PI ->
  Robot.update dt r = r.
Proof.
  intros Ha Hdt Hvx Hvy Hw Hdx Hdy Hdw Hms Hmo Hma Hth.
  rewrite update_cruising; try assumption; try congruence.
  - rewrite (wrap_pi_fixed _ Hth), Hvx, Hvy.
    replace (Robot.x r + 0 * dt) with (Robot.x r) by ring.
    replace (Robot.y r + 0 * dt) with (Robot.y r) by ring.
    destruct r. reflexivity.
  - unfold Robot.speed. rewrite Hvx, Hvy, hypot_0_0. exact Hms.
Qed.

(** Two active robots that are the required distance apart and inside
    the field are left where they are. *)
Lemma enforce_no_overlap_two_apart (w : World.t) (it : Z) (c e l : R) (g : Rng.t)
    (ra rb : Robot.t) :
  World.all_robots w = [ra; rb] ->
  Robot.active ra = true -> Robot.active rb = true ->
  Rng.permutes g ->
  let dx := Robot.x rb - Robot.x ra in
  let dy := Robot.y rb - Robot.y ra in
  1e-12 <= dx * dx + dy * dy ->
  Robot.outer_radius ra + c * 0.5 + (Robot.outer_radius rb + c * 0.5)
  <= sqrt (dx * dx + dy * dy) ->
  Collisions.clamp_robot_inside_field w ra = ra ->
  Collisions.clamp_robot_inside_field w rb = rb ->
  World.all_robots (fst (Collisions.enforce_no_overlap w it c e l g)) = [ra; rb].
Proof.
  intros Hall Ha Hb Hg dx dy Hd2 Hd Hca Hcb.
  unfold Collisions.enforce_no_overlap.
  change (WorldState.all_robots w) with (World.all_robots w). rewrite Hall.
  cbn [filter]. rewrite Ha, Hb. cbn [length Nat.leb map].
  destruct (relax_passes_two_apart w
              [Robot.outer_radius ra + c * 0.5; Robot.outer_radius rb + c * 0.5]
              e l ra rb (Z.to_nat (Z.max 1 it)) g Hg Hd2 Hd Hca Hcb) as [H _].
  destruct (Nat.iter _ _ _) as [rs g']. cbn [fst] in H. subst rs.
  cbn [fst]. rewrite all_robots_with_all_robots.
  cbn [Collisions.scatter]. rewrite Ha, Hb. reflexivity.
Qed.

Lemma pass_play_kicked :
  let w0 := Planning.exec_pass Examples.pass_play Left 0 (0.655, 0) Planning.PASS_SPEED in
  World.all_robots w0 = [Examples.robot1; Examples.receiver2]
  /\ Ball.x (World.ball w0) = 0.355 /\ Ball.y (World.ball w0) = 0
  /\ World.kick_cooldown w0 = 0.25
  /\ World.half_w w0 = 11 /\ World.half_h w0 = 7.
Proof.
  cbv zeta. unfold Planning.exec_pass, Planning.release_ball,
    Planning._place_ball_in_front, Planning._set_cooldown, Planning.BALL_RADIUS,
    Ball.kick, Ball.set_speed_dir.
  pass_play_fields. cbn [Collisions.list_set]. rewrite cos_0, sin_0.
  repeat split; try lra. 
Qed.

Lemma receiver2_in_cone :
  PossessionSpec.in_cone 0.355 0 0.35 40 Examples.receiver2.
Proof.
  pose proof PI_RGT_0 as Hpi.
  unfold PossessionSpec.in_cone. pass_play_fields. split.
  - unfold Py.hypot.
    replace ((0.355 - 0.655) * (0.355 - 0.655) + (0 - 0) * (0 - 0))
      with (0.3 * 0.3) by lra.
    rewrite sqrt_square by lra. lra.
  - unfold Py.atan2.
    rewrite (ltb_false 0 (0.355 - 0.655)) by lra.
    rewrite (ltb_true (0.355 - 0.655) 0) by lra.
    rewrite (leb_true 0 (0 - 0)) by lra.
    replace ((0 - 0) / (0.355 - 0.655)) with 0 by (field; lra).
    rewrite atan_0.
    replace (0 + PI - - PI) with (2 * PI) by lra.
    rewrite wrap_pi_2PI, Rabs_R0. unfold Py.radians. lra.
Qed.

Lemma pass_play_tick :
  let w0 := Planning.exec_pass Examples.pass_play Left 0 (0.655, 0) Planning.PASS_SPEED in
  World.all_robots (fst (World.update 0.05 w0 Rng.identity))
  = [Examples.robot1; Examples.receiver2].
Proof.
  cbv zeta. pose proof PI_RGT_0 as Hpi.
  destruct pass_play_kicked as (Hall & _ & _ & Hk & Hw & Hh). cbv zeta in *.
  set (w0 := Planning.exec_pass _ _ _ _ _) in *.
  rewrite update_unfold by lra. cbv zeta.
  match goal with
  | |- World.all_robots (World.with_t _ (World.with_ball _ ?w3)) = _ =>
      change (World.all_robots w3 = [Examples.robot1; Examples.receiver2])
  end.
  rewrite update_before_ball_unfold.
  set (wa := World.with_teams _ _ w0).
  assert (Ha1 : Robot.update 0.05 Examples.robot1 = Examples.robot1).
  { apply update_at_rest; try reflexivity; simpl; lra. }
  assert (Ha2 : Robot.update 0.05 Examples.receiver2 = Examples.receiver2).
  { apply update_at_rest; try reflexivity; simpl; lra. }
  assert (Hwa : World.all_robots wa = [Examples.robot1; Examples.receiver2]).
  { destruct (team_update_settings 0.05 w0) as [_ Haa]. fold wa in Haa.
    rewrite Haa, Hall. cbn [map]. rewrite Ha1, Ha2. reflexivity. }
  assert (Hkw : World.kick_cooldown wa = 0.25) by exact Hk.
  assert (Hwb : World.all_robots
                  (fst (Collisions.enforce_no_overlap wa 6 0.01 0 0.10 Rng.identity))
                = [Examples.robot1; Examples.receiver2]).
  { pose proof outer_radius_default_bounds as Hs.
    apply enforce_no_overlap_two_apart; try assumption; try reflexivity.
    - apply permutes_identity.
    - pass_play_fields. lra.
    - unfold Robot.outer_radius. pass_play_fields.
      replace ((0.655 - 0) * (0.655 - 0) + (0 - 0) * (0 - 0))
        with (0.655 * 0.655) by lra.
      rewrite sqrt_square by lra. lra.
    - apply clamp_robot_id;
        change (World.half_w wa) with (World.half_w w0);
        change (World.half_h wa) with (World.half_h w0);
        rewrite ?Hw, ?Hh; simpl; rewrite cos_0, sin_0, Rabs_R1, Rabs_R0;
        unfold Robot.half_side; simpl; lra.
    - apply clamp_robot_id;
        change (World.half_w wa) with (World.half_w w0);
        change (World.half_h wa) with (World.half_h w0);
        rewrite ?Hw, ?Hh; simpl; rewrite cos_neg, sin_neg, cos_PI, sin_PI;
        rewrite Ropp_0, Rabs_R0;
        replace (Rabs (-1)) with 1
          by (unfold Rabs; destruct (Rcase_abs (-1)); lra);
        unfold Robot.half_side; simpl; lra. }
  destruct (enforce_no_overlap_frame wa 6 0.01 0 0.10 Rng.identity) as [rs Hrs].
  rewrite Hrs in Hwb |- *.
  rewrite possession_in_cooldown;
    [| change (World.kick_cooldown (World.with_all_robots rs wa))
         with (World.kick_cooldown wa); rewrite Hkw; lra | lra].
  rewrite all_robots_with_all_robots.
  change (World.all_robots
            (World.with_kick_cooldown
               (World.kick_cooldown (World.with_all_robots rs wa) - 0.05)
               (World.with_all_robots rs wa)))
    with (World.all_robots (World.with_all_robots rs wa)).
  rewrite Hwb. reflexivity.
Qed.

Lemma C3_cooldown_blocks_capture_witness :
  let w0 := Planning.exec_pass Examples.pass_play Left 0 (0.655, 0) Planning.PASS_SPEED in
  let after := fst (World.update 0.05 w0 Rng.identity) in
  nth_error (World.all_robots w0) 1 = Some Examples.receiver2
  /\ Robot.active Examples.receiver2 = true
  /\ PossessionSpec.in_cone (Ball.x (World.ball w0)) (Ball.y (World.ball w0))
       (World.cone_dist_on w0) (World.cone_angle_on_deg w0) Examples.receiver2
  /\ nth_error (World.all_robots after) 1 = Some Examples.receiver2
  /\ 0 < World.kick_cooldown after
  /\ (forall r, In r (World.all_robots after) -> Robot.has_ball r = false)
  /\ World.ball after
     = Ball.update 0.05 (Some (World.half_w w0)) (Some (World.half_h w0)) Clip
                   (World.ball w0).
Proof.
  cbv zeta.
  destruct pass_play_kicked as (Hall & Hbx & Hby & _). cbv zeta in *.
  destruct (C3_cooldown_blocks_capture Examples.pass_play Left 0 (0.655, 0)
              Planning.PASS_SPEED [] 0.05 Rng.identity) as (_ & _ & H);
    [constructor | lra |].
  destruct (H _ (or_intror eq_refl)) as [Hpos Hfree]. cbv zeta in Hpos, Hfree.
  cbn [Driver.ticks fold_left fst snd fold_right] in Hpos, Hfree.
  assert (Hk : 0 < World.kick_cooldown
                     (fst (World.update 0.05
                             (Planning.exec_pass Examples.pass_play Left 0 (0.655, 0)
                                Planning.PASS_SPEED) Rng.identity)))
    by (apply Hpos; lra).
  destruct (Hfree Hk) as [Hflags Hball].
  split; [rewrite Hall; reflexivity |]. split; [reflexivity |].
  split; [rewrite Hbx, Hby; exact receiver2_in_cone |].
  split; [rewrite pass_play_tick; reflexivity |].
  split; [exact Hk |]. split; [exact Hflags | exact Hball].
Defined.

(** ** Rosters *)

Lemma insert_by_perm {A : Type} (le : A -> A -> bool) (a : A) (l : list A) :
  Permutation (Roster.insert_by le a l) (a :: l).
Proof.
  induction l as [| b l IH]; simpl; [apply Permutation_refl |].
  destruct (le a b); [apply Permutation_refl |].
  apply Permutation_trans with (b :: a :: l);
    [apply perm_skip; exact IH | apply perm_swap].
Qed.

Lemma sort_by_perm {A : Type} (le : A -> A -> bool) (l : list A) :
  Permutation (Roster.sort_by le l) l.
Proof.
  induction l as [| a l IH]; simpl; [apply perm_nil |].
  apply Permutation_trans with (a :: Roster.sort_by le l);
    [apply insert_by_perm | apply perm_skip; exact IH].
Qed.

Lemma roster_set_keys (r : Robot.t) (d : Roster.t) :
  NoDup (Roster.keys d) -> NoDup (Roster.keys (Roster.set r d))
  /\ Roster.set r d <> []
  /\ forall k, In k (Roster.keys (Roster.set r d))
               <-> k = Robot.robot_id r \/ In k (Roster.keys d).
Proof.
  induction d as [| r0 d IH]; intros Hnd; simpl.
  - repeat split; try discriminate.
    + constructor; [intros [] | constructor].
    + intros [<- | []]; left; reflexivity.
    + intros [-> | []]; left; reflexivity.
  - inversion Hnd as [| k0 ks Hnin Hnd' Heq]; subst.
    destruct (IH Hnd') as (IH1 & _ & IH3).
    destruct (Z.eqb (Robot.robot_id r0) (Robot.robot_id r)) eqn:E.
    + apply Z.eqb_eq in E. simpl. repeat split; try discriminate.
      * constructor; [rewrite <- E; assumption | assumption].
      * intros [<- | H]; [left; reflexivity | right; right; assumption].
      * intros [-> | [H | H]]; [left; reflexivity | left; congruence | right; assumption].
    + apply Z.eqb_neq in E. simpl. repeat split; try discriminate.
      * constructor; [| assumption].
        intros Hin. apply IH3 in Hin. destruct Hin as [Hin | Hin];
          [congruence | contradiction].
      * intros [<- | H]; [right; left; reflexivity |].
        apply IH3 in H. destruct H as [-> | H];
          [left; reflexivity | right; right; assumption].
      * intros [-> | [<- | H]].
        -- right. apply IH3. left; reflexivity.
        -- left; reflexivity.
        -- right. apply IH3. right; assumption.
Qed.

Lemma add_robot_roster (tm : Team.t) :
  NoDup (Roster.keys (Team.robots tm)) ->
  let tm' := Team.add_robot None None tm in
  NoDup (Roster.keys (Team.robots tm')) /\ Team.robots tm' <> []
  /\ Team.side tm' = Team.side tm.
Proof.
  intros Hnd. cbv zeta. unfold Team.add_robot, Team._alloc_id.
  set (r := Robot.with_ids _ _ _).
  destruct (roster_set_keys r (Team.robots tm) Hnd) as (H1 & H2 & _).
  cbn [Team.goalie_id Team.with_robots Team.with_next_robot_id Team.robots].
  destruct (Team.goalie_id tm); cbn; repeat split; assumption.
Qed.

Lemma ensure_size_empty (n : Z) (tm : Team.t) :
  Team.robots tm = [] ->
  let tm' := Team.ensure_size n tm in
  NoDup (Roster.keys (Team.robots tm')) /\ Team.robots tm' <> []
  /\ Team.side tm' = Team.side tm.
Proof.
  intros He. cbv zeta. unfold Team.ensure_size. rewrite He. cbn [length Z.of_nat].
  assert (Hlt : (0 <? Z.max 1 n)%Z = true) by (apply Z.ltb_lt; lia).
  rewrite Hlt.
  destruct (Z.to_nat (Z.max 1 n - 0)) as [| k] eqn:Ek; [lia |].
  assert (Hk : forall k, NoDup (Roster.keys (Team.robots
                           (Nat.iter k (Team.add_robot None None) tm)))
                         /\ Team.side (Nat.iter k (Team.add_robot None None) tm)
                            = Team.side tm).
  { clear -He. induction k as [| k [IH1 IH2]].
    - simpl. rewrite He. split; [constructor | reflexivity].
    - rewrite Nat.iter_succ.
      destruct (add_robot_roster _ IH1) as (H1 & _ & H3).
      split; [exact H1 | congruence]. }
  rewrite Nat.iter_succ. destruct (Hk k) as [H1 H2].
  destruct (add_robot_roster _ H1) as (H3 & H4 & H5).
  repeat split; try assumption. congruence.
Qed.

(** ** Kickoff formation *)

Lemma kickoff_templates_length (n : nat) (x_gk x_def x_mid x_fwd y0 y_mid y_max : R) :
  length (Team.kickoff_templates n x_gk x_def x_mid x_fwd y0 y_mid y_max) = n.
Proof.
  unfold Team.kickoff_templates.
  do 5 (destruct n as [| n]; [reflexivity |]).
  cbn [Nat.leb app length Nat.sub].
  destruct n as [| n]; [reflexivity |].
  rewrite Nat.sub_0_r. cbn [Nat.ltb Nat.leb length].
  rewrite length_map, length_seq. reflexivity.
Qed.

Section KickoffFold.

Variables half_w half_h face : R.

(** What the loop body does to the robot it visits. *)
Let put (p : R * R) (r : Robot.t) : Robot.t :=
  Robot.stop
    (Robot.set_vel 0 0 0
       (Robot.set_pose (fst (Team.clip_xy half_w half_h p))
                       (snd (Team.clip_xy half_w half_h p)) face r)).

Let step (tm : Team.t) (rp : Robot.t * (R * R)) : Team.t :=
  let '(r, p) := rp in
  let '(px, py) := Team.clip_xy half_w half_h p in
  Team.with_robots
    (Roster.modify (Robot.robot_id r)
       (fun r => Robot.stop (Robot.set_vel 0 0 0 (Robot.set_pose px py face r)))
       (Team.robots tm))
    tm.

Let rstep (d : Roster.t) (rp : Robot.t * (R * R)) : Roster.t :=
  Roster.modify (Robot.robot_id (fst rp)) (put (snd rp)) d.

Lemma kickoff_fold_roster (ops : list (Robot.t * (R * R))) (tm : Team.t) :
  fold_left step ops tm = Team.with_robots (fold_left rstep ops (Team.robots tm)) tm.
Proof.
  revert tm. induction ops as [| [r p] ops IH]; intros tm.
  - destruct tm; reflexivity.
  - cbn [fold_left]. rewrite IH.
    assert (H1 : Team.robots (step tm (r, p)) = rstep (Team.robots tm) (r, p))
      by reflexivity.
    assert (H2 : forall d, Team.with_robots d (step tm (r, p)) = Team.with_robots d tm)
      by reflexivity.
    rewrite H1, H2. reflexivity.
Qed.

Lemma kickoff_fold_keys (ops : list (Robot.t * (R * R))) (d : Roster.t) :
  Roster.keys (fold_left rstep ops d) = Roster.keys d.
Proof.
  revert d. induction ops as [| [r p] ops IH]; intros d; [reflexivity |].
  cbn [fold_left]. rewrite IH. unfold rstep, Roster.modify, Roster.keys.
  rewrite map_map. apply map_ext. intros a.
  destruct (Z.eqb _ _); reflexivity.
Qed.

Lemma kickoff_fold_cases (ops : list (Robot.t * (R * R))) (d : Roster.t)
    (r' : Robot.t) :
  In r' (fold_left rstep ops d) ->
  (exists r0 p r, In (r0, p) ops /\ Robot.robot_id r0 = Robot.robot_id r'
                  /\ r' = put p r)
  \/ (In r' d /\ forall r0 p, In (r0, p) ops ->
                              Robot.robot_id r0 <> Robot.robot_id r').
Proof.
  revert d. induction ops as [| [r0 p] ops IH]; intros d Hin.
  - right. split; [exact Hin | intros ? ? []].
  - cbn [fold_left] in Hin. apply IH in Hin.
    destruct Hin as [(r1 & p1 & r & H1 & H2 & H3) | [Hd Hno]].
    + left. exists r1, p1, r. split; [right; assumption | split; assumption].
    + unfold rstep, Roster.modify in Hd. cbn [fst snd] in Hd.
      apply in_map_iff in Hd. destruct Hd as (r & Hr & Hrd).
      destruct (Z.eqb (Robot.robot_id r) (Robot.robot_id r0)) eqn:E.
      * apply Z.eqb_eq in E. left. exists r0, p, r.
        split; [left; reflexivity |]. split; [| symmetry; assumption].
        rewrite <- Hr. symmetry. exact E.
      * apply Z.eqb_neq in E. subst r'. right. split; [assumption |].
        intros r1 p1 [H | H]; [injection H as <- <-; congruence | apply (Hno r1 p1 H)].
Qed.

End KickoffFold.

Lemma sort_by_nil_iff {A : Type} (le : A -> A -> bool) (l : list A) :
  Roster.sort_by le l = [] <-> l = [].
Proof.
  split; intros H.
  - pose proof (sort_by_perm le l) as Hp. rewrite H in Hp.
    apply Permutation_nil in Hp. exact Hp.
  - subst. reflexivity.
Qed.

Lemma combine_fst_in {A B : Type} (l : list A) (l' : list B) (a : A) :
  length l = length l' -> In a l -> exists b, In (a, b) (combine l l').
Proof.
  revert l'. induction l as [| x l IH]; intros l' Hl Hin; [destruct Hin |].
  destruct l' as [| y l']; [discriminate |]. simpl in Hl.
  destruct Hin as [<- | Hin].
  - exists y. left; reflexivity.
  - destruct (IH l' ltac:(lia) Hin) as [b Hb]. exists b. right; assumption.
Qed.

(** ** Sorting *)

Section SortBy.

Context {A : Type} (le : A -> A -> bool).

Hypothesis le_total : forall a b, le a b = true \/ le b a = true.
Hypothesis le_trans : forall a b c, le a b = true -> le b c = true -> le a c = true.

Lemma insert_by_sorted (a : A) (l : list A) :
  StronglySorted (fun x y => le x y = true) l ->
  StronglySorted (fun x y => le x y = true) (Roster.insert_by le a l).
Proof.
  induction l as [| b l IH]; intros Hs; cbn [Roster.insert_by].
  - constructor; constructor.
  - inversion Hs as [| ? ? Hs' Hb]; subst.
    destruct (le a b) eqn:E.
    + constructor; [exact Hs |]. constructor; [exact E |].
      apply Forall_forall. intros c Hc. rewrite Forall_forall in Hb.
      apply le_trans with b; [exact E | apply Hb; exact Hc].
    + constructor; [apply IH; exact Hs' |].
      apply (Permutation_Forall (Permutation_sym (insert_by_perm le a l))).
      constructor; [| exact Hb].
      destruct (le_total a b) as [H | H]; [congruence | exact H].
Qed.

Lemma sort_by_sorted (l : list A) :
  StronglySorted (fun x y => le x y = true) (Roster.sort_by le l).
Proof.
  induction l as [| a l IH]; [constructor |].
  cbn [Roster.sort_by fold_right]. apply insert_by_sorted. exact IH.
Qed.

End SortBy.

Lemma filter_length_perm {A : Type} (f : A -> bool) (l l' : list A) :
  Permutation l l' -> length (filter f l) = length (filter f l').
Proof.
  induction 1 as [| x l l' _ IH | x y l | l l' l'' _ IH1 _ IH2]; cbn [filter].
  - reflexivity.
  - destruct (f x); cbn [length]; rewrite IH; reflexivity.
  - destruct (f x), (f y); reflexivity.
  - rewrite IH1. exact IH2.
Qed.

(** ** The kickoff order *)

Lemma before_irrefl (g : option Z) (a : Z) : KickoffSpec.before g a a = false.
Proof.
  unfold KickoffSpec.before. destruct g as [g |].
  - destruct (Z.eqb a g); [reflexivity |]. cbn. apply Z.ltb_irrefl.
  - cbn. apply Z.ltb_irrefl.
Qed.

Lemma before_asym (g : option Z) (a b : Z) :
  KickoffSpec.before g a b = true -> KickoffSpec.before g b a = false.
Proof.
  unfold KickoffSpec.before. destruct g as [g |].
  - destruct (Z.eqb a g), (Z.eqb b g); cbn; try congruence.
    intros H. apply Z.ltb_lt in H. apply Z.ltb_ge. lia.
  - cbn. intros H. apply Z.ltb_lt in H. apply Z.ltb_ge. lia.
Qed.

(** In a list sorted by the kickoff order, a robot's place is the
    number of robots before it. *)
Lemma sorted_rank (g : option Z) (ks : list Z) (i : nat) (k : Z) :
  StronglySorted (fun a b => KickoffSpec.before g a b = true) ks ->
  nth_error ks i = Some k ->
  length (filter (fun a => KickoffSpec.before g a k) ks) = i.
Proof.
  intros Hs. revert i. induction Hs as [| x l Hs IH Hx]; intros i Hi.
  - destruct i; discriminate.
  - rewrite Forall_forall in Hx. cbn [filter]. destruct i as [| i]; cbn in Hi.
    + injection Hi as <-. rewrite before_irrefl.
      assert (Hnone : forall l', (forall b, In b l' -> KickoffSpec.before g x b = true) ->
                filter (fun a => KickoffSpec.before g a x) l' = []).
      { induction l' as [| b l' IHl]; intros H; [reflexivity |].
        cbn [filter]. rewrite (before_asym g x b) by (apply H; left; reflexivity).
        apply IHl. intros c Hc. apply H. right. exact Hc. }
      rewrite (Hnone l Hx). reflexivity.
    + rewrite (Hx k) by (apply nth_error_In with i; exact Hi).
      cbn [length]. f_equal. apply IH. exact Hi.
Qed.

(** The order the code sorts by, goalkeeper first, is the kickoff
    order. *)
Lemma goalie_first_sorted (g : Z) (l : list Robot.t) :
  NoDup (map Robot.robot_id l) ->
  StronglySorted (fun a b => KickoffSpec.before (Some g) a b = true)
    (map Robot.robot_id
       (Roster.sort_by
          (fun a b =>
             let ka := if Z.eqb (Robot.robot_id a) g then 0%Z else 1%Z in
             let kb := if Z.eqb (Robot.robot_id b) g then 0%Z else 1%Z in
             Z.ltb ka kb
             || (Z.eqb ka kb && Z.leb (Robot.robot_id a) (Robot.robot_id b)))
          l)).
Proof.
  set (le := fun a b : Robot.t => _). intros Hnd.
  assert (Htot : forall a b, le a b = true \/ le b a = true).
  { intros a b. unfold le. cbv zeta.
    destruct (Z.eqb (Robot.robot_id a) g), (Z.eqb (Robot.robot_id b) g); cbn;
      try (left; reflexivity); try (right; reflexivity);
      destruct (Z.leb_spec (Robot.robot_id a) (Robot.robot_id b));
      [left; reflexivity | right; apply Z.leb_le; lia
      | left; reflexivity | right; apply Z.leb_le; lia]. }
  assert (Htr : forall a b c, le a b = true -> le b c = true -> le a c = true).
  { intros a b c. unfold le. cbv zeta.
    destruct (Z.eqb (Robot.robot_id a) g), (Z.eqb (Robot.robot_id b) g),
      (Z.eqb (Robot.robot_id c) g); cbn; try congruence;
      rewrite !Z.leb_le; lia. }
  pose proof (sort_by_sorted le Htot Htr l) as Hs.
  assert (Hnd' : NoDup (map Robot.robot_id (Roster.sort_by le l))).
  { apply (Permutation_NoDup
             (Permutation_sym (Permutation_map Robot.robot_id (sort_by_perm le l)))).
    exact Hnd. }
  induction Hs as [| x s Hs IH Hx]; [constructor |].
  cbn [map] in *. inversion Hnd' as [| ? ? Hnin Hnd'']; subst.
  constructor; [apply IH; exact Hnd'' |].
  apply Forall_forall. intros k Hk. apply in_map_iff in Hk.
  destruct Hk as (y & <- & Hy). rewrite Forall_forall in Hx.
  pose proof (Hx y Hy) as Hle.
  assert (Hne : Robot.robot_id x <> Robot.robot_id y).
  { intros E. apply Hnin. rewrite E. apply in_map. exact Hy. }
  unfold le in Hle. cbv zeta in Hle. unfold KickoffSpec.before.
  destruct (Z.eqb_spec (Robot.robot_id x) g) as [Ex | Ex];
    destruct (Z.eqb_spec (Robot.robot_id y) g) as [Ey | Ey]; cbn in Hle |- *;
    try reflexivity; try congruence.
  apply Z.leb_le in Hle. apply Z.ltb_lt. lia.
Qed.

(** Sorted by id with the first robot as goalkeeper is the kickoff
    order too. *)
Lemma id_sorted_is_kickoff_order (l : list Robot.t) :
  NoDup (map Robot.robot_id l) ->
  let order := Roster.sort_by
                 (fun a b => Z.leb (Robot.robot_id a) (Robot.robot_id b)) l in
  StronglySorted
    (fun a b => KickoffSpec.before
                  (Some (Robot.robot_id (hd Robot.default order))) a b = true)
    (map Robot.robot_id order).
Proof.
  intros Hnd order.
  set (le := fun a b : Robot.t => Z.leb (Robot.robot_id a) (Robot.robot_id b)) in *.
  assert (Htot : forall a b, le a b = true \/ le b a = true).
  { intros a b. unfold le. rewrite !Z.leb_le. lia. }
  assert (Htr : forall a b c, le a b = true -> le b c = true -> le a c = true).
  { intros a b c. unfold le. rewrite !Z.leb_le. lia. }
  pose proof (sort_by_sorted le Htot Htr l) as Hs. fold order in Hs.
  assert (Hnd' : NoDup (map Robot.robot_id order)).
  { apply (Permutation_NoDup
             (Permutation_sym (Permutation_map Robot.robot_id (sort_by_perm le l)))).
    exact Hnd. }
  assert (Hlt : StronglySorted Z.lt (map Robot.robot_id order)).
  { clear -Hs Hnd'. induction Hs as [| x s Hs IH Hx]; [constructor |].
    cbn [map] in *. inversion Hnd' as [| ? ? Hnin Hnd'']; subst.
    constructor; [apply IH; exact Hnd'' |].
    apply Forall_forall. intros k Hk. apply in_map_iff in Hk.
    destruct Hk as (y & <- & Hy). rewrite Forall_forall in Hx.
    pose proof (Hx y Hy) as Hle. unfold le in Hle. apply Z.leb_le in Hle.
    assert (Hne : Robot.robot_id x <> Robot.robot_id y).
    { intros E. apply Hnin. rewrite E. apply in_map. exact Hy. }
    lia. }
  destruct order as [| h rest]; [constructor |].
  cbn [hd map] in *. set (g := Robot.robot_id h) in *.
  inversion Hlt as [| ? ? Hrest Hh]; subst.
  assert (Hgt : Forall (fun k => (g < k)%Z) (map Robot.robot_id rest)) by exact Hh.
  constructor.
  - clear -Hrest Hgt. induction Hrest as [| x s Hs IH Hx]; [constructor |].
    inversion Hgt as [| ? ? Hxg Hsg]; subst.
    constructor; [apply IH; exact Hsg |].
    rewrite Forall_forall in *. intros k Hk.
    unfold KickoffSpec.before.
    destruct (Z.eqb_spec x g); [lia |].
    destruct (Z.eqb_spec k g); [pose proof (Hsg k Hk); lia |].
    cbn. apply Z.ltb_lt. apply Hx. exact Hk.
  - rewrite Forall_forall in *. intros k Hk.
    unfold KickoffSpec.before. rewrite Z.eqb_refl.
    destruct (Z.eqb_spec k g); [pose proof (Hgt k Hk); lia | reflexivity].
Qed.

Lemma nth_error_combine {A B : Type} (l : list A) (l' : list B) (i : nat)
    (a : A) (b : B) :
  nth_error (combine l l') i = Some (a, b) ->
  nth_error l i = Some a /\ nth_error l' i = Some b.
Proof.
  revert l' i. induction l as [| x l IH]; intros l' i H.
  - destruct i; discriminate.
  - destruct l' as [| y l']; [destruct i; discriminate |].
    destruct i as [| i]; cbn in *.
    + injection H as <- <-. split; reflexivity.
    + apply IH. exact H.
Qed.

(** The templates the code builds are the slots of the formation. *)
Lemma kickoff_templates_slot (fw fh : R) (side : Side) (n i : nat) (p : R * R) :
  let s := match side with Left => 1 | Right => -1 end in
  nth_error (Team.kickoff_templates n (- s * (fw * 0.5 - 0.5)) (- s * 6)
               (- s * 3) (- s * 1) 0 2 (fh * 0.5 - 0.5)) i = Some p ->
  p = KickoffSpec.slot fw fh side n i.
Proof.
  cbv zeta. set (s := match side with Left => 1 | Right => -1 end).
  assert (Hgk : (- s * (fw * 0.5 - 0.5), 0) = (- s * (fw / 2 - 0.5), 0))
    by (f_equal; lra).
  assert (Hmf : (- s * 3, - (2)) = (- s * 3, -2)) by (f_equal; lra).
  unfold Team.kickoff_templates, KickoffSpec.slot. fold s.
  destruct n as [| [| [| [| [| n]]]]]; cbn [Nat.leb app length Nat.sub Nat.ltb].
  - destruct i; discriminate.
  - destruct i as [| i]; cbn; [| destruct i; discriminate].
    intros H; injection H as <-. exact Hgk.
  - destruct i as [| [| i]]; cbn; [| | destruct i; discriminate];
      intros H; injection H as <-; [exact Hgk | reflexivity].
  - destruct i as [| [| [| i]]]; cbn; [| | | destruct i; discriminate];
      intros H; injection H as <-; [exact Hgk | reflexivity | reflexivity].
  - destruct i as [| [| [| [| i]]]]; cbn; [| | | | destruct i; discriminate];
      intros H; injection H as <-;
      [exact Hgk | reflexivity | reflexivity | exact Hmf].
  - destruct n as [| m].
    + cbn [Nat.leb].
      destruct i as [| [| [| [| [| i]]]]]; cbn; [| | | | | destruct i; discriminate];
        intros H; injection H as <-;
        [exact Hgk | reflexivity | reflexivity | exact Hmf | reflexivity].
    + rewrite !Nat.sub_0_r. cbn [Nat.leb].
      destruct i as [| [| [| [| [| i]]]]]; cbn [nth_error app];
        try (intros H; injection H as <-;
             first [exact Hgk | exact Hmf | reflexivity]).
      rewrite nth_error_map. intros H.
      destruct (nth_error (seq 0 (S m)) i) as [k |] eqn:Ek; [| discriminate].
      cbn [option_map] in H. injection H as <-.
      assert (Hk : k = i).
      { assert (Hi : (i < length (seq 0 (S m)))%nat)
          by (apply nth_error_Some; rewrite Ek; discriminate).
        rewrite length_seq in Hi.
        rewrite (nth_error_nth' _ O) in Ek by (rewrite length_seq; exact Hi).
        rewrite seq_nth in Ek by exact Hi. injection Ek as <-. reflexivity. }
      subst k. cbn [Nat.sub]. rewrite ?Nat.sub_0_r.
      f_equal.
      change (match m with | 0%nat => 1 | S _ => INR m + 1 end) with (INR (S m)).
      rewrite Nat.add_1_r, !S_INR. unfold Nat.odd.
      replace (fh * 0.5 - 0.5) with (fh / 2 - 0.5) by lra.
      destruct (Nat.even i); cbn [negb]; ring.
Qed.

Lemma clip_xy_inside (fw fh : R) (p : R * R) :
  Team.clip_xy (fw * 0.5) (fh * 0.5) p = KickoffSpec.inside fw fh p.
Proof.
  unfold Team.clip_xy, KickoffSpec.inside, _clamp.
  f_equal; f_equal; try lra; f_equal; lra.
Qed.

Lemma slot_columns (fw fh : R) (side : Side) (n i : nat) :
  let s := match side with Left => 1 | Right => -1 end in
  fst (KickoffSpec.slot fw fh side n i) = - s * (fw / 2 - 0.5)
  \/ fst (KickoffSpec.slot fw fh side n i) = - s * 6
  \/ fst (KickoffSpec.slot fw fh side n i) = - s * 3
  \/ fst (KickoffSpec.slot fw fh side n i) = - s * 1.
Proof.
  cbv zeta. unfold KickoffSpec.slot.
  destruct i as [| [| [| [| [| i]]]]]; cbn [fst]; auto.
Qed.

Lemma inside_fst_mono (fw fh : R) (p q : R * R) :
  fst p <= fst q ->
  fst (KickoffSpec.inside fw fh p) <= fst (KickoffSpec.inside fw fh q).
Proof.
  intros H. unfold KickoffSpec.inside, _clamp. cbn [fst].
  apply Rle_max_compat_l, Rle_min_compat_l. exact H.
Qed.

Lemma rank_keeper (tm : Team.t) (g : Z) (r : Robot.t) :
  Team.goalie_id tm = Some g -> Robot.robot_id r = g ->
  KickoffSpec.rank tm r = 0%nat.
Proof.
  intros Hg Hr. unfold KickoffSpec.rank. rewrite Hg, Hr.
  induction (Roster.keys (Team.robots tm)) as [| k ks IH]; [reflexivity |].
  cbn [filter]. unfold KickoffSpec.before at 1. rewrite Z.eqb_refl.
  destruct (Z.eqb k g); cbn; exact IH.
Qed.

Lemma kickoff_fold_placed (fw fh : R) (tm : Team.t) (order : list Robot.t)
    (tm2 : Team.t) :
  Permutation order (Team.robots tm2) ->
  NoDup (Roster.keys (Team.robots tm2)) ->
  Team.robots tm2 <> [] ->
  Team.side tm2 = Team.side tm ->
  StronglySorted
    (fun a b => KickoffSpec.before (Team.goalie_id tm2) a b = true)
    (map Robot.robot_id order) ->
  let tm' :=
    fold_left
      (fun (tm2 : Team.t) '(r, p) =>
         let '(px, py) := Team.clip_xy (fw * 0.5) (fh * 0.5) p in
         Team.with_robots
           (Roster.modify (Robot.robot_id r)
              (fun r0 : Robot.t =>
                 Robot.stop
                   (Robot.set_vel 0 0 0
                      (Robot.set_pose px py
                         (if (Team.attack_sign tm =? 1)%Z then 0 else PI) r0)))
              (Team.robots tm2))
           tm2)
      (combine order
         (Team.kickoff_templates (length order)
            (- IZR (Team.attack_sign tm) * (fw * 0.5 - 0.5))
            (- IZR (Team.attack_sign tm) * 6)
            (- IZR (Team.attack_sign tm) * 3)
            (- IZR (Team.attack_sign tm) * 1) 0 2 (fh * 0.5 - 0.5)))
      tm2 in
  KickoffSpec.team_placed fw fh tm'
  /\ Team.side tm' = Team.side tm
  /\ Roster.keys (Team.robots tm') = Roster.keys (Team.robots tm2).
Proof.
  intros Hperm Hnd Hne Hside Hsorted. cbv zeta.
  set (face := if (Team.attack_sign tm =? 1)%Z then 0 else PI).
  set (templates := Team.kickoff_templates _ _ _ _ _ _ _ _).
  set (ops := combine order templates).
  rewrite (kickoff_fold_roster (fw * 0.5) (fh * 0.5) face ops tm2).
  set (d' := fold_left _ ops (Team.robots tm2)).
  assert (Hkeys : Roster.keys d' = Roster.keys (Team.robots tm2))
    by apply kickoff_fold_keys.
  assert (Hlen : length d' = length order).
  { rewrite (Permutation_length Hperm).
    unfold Roster.keys in Hkeys. apply (f_equal (@length Z)) in Hkeys.
    rewrite !length_map in Hkeys. exact Hkeys. }
  assert (Htl : length templates = length order) by apply kickoff_templates_length.
  assert (Hface : _wrap_pi face = match Team.side tm with Left => 0 | Right => - PI end).
  { unfold face, Team.attack_sign. destruct (Team.side tm); simpl.
    - apply wrap_pi_0.
    - apply wrap_pi_at_PI. }
  assert (Hpk : Permutation (map Robot.robot_id order) (Roster.keys d')).
  { rewrite Hkeys. apply Permutation_map. exact Hperm. }
  set (tm' := Team.with_robots d' tm2).
  assert (Hrank : forall (r : Robot.t) (i : nat),
            nth_error (map Robot.robot_id order) i = Some (Robot.robot_id r) ->
            KickoffSpec.rank tm' r = i).
  { intros r i Hi. unfold KickoffSpec.rank.
    cbn [Team.goalie_id Team.robots Team.with_robots tm'].
    rewrite <- (filter_length_perm _ _ _ Hpk).
    apply sorted_rank; assumption. }
  assert (Hplaced : forall r', In r' d' ->
            exists i p r,
              nth_error order i <> None
              /\ KickoffSpec.rank tm' r' = i
              /\ nth_error templates i = Some p
              /\ r' = Robot.stop (Robot.set_vel 0 0 0
                        (Robot.set_pose (fst (Team.clip_xy (fw * 0.5) (fh * 0.5) p))
                                        (snd (Team.clip_xy (fw * 0.5) (fh * 0.5) p))
                                        face r))).
  { intros r' Hin. apply kickoff_fold_cases in Hin.
    destruct Hin as [(r0 & p & r & H1 & H2 & H3) | [Hd Hno]].
    - apply In_nth_error in H1. destruct H1 as [i Hi].
      apply nth_error_combine in Hi. destruct Hi as [Ho Ht].
      exists i, p, r. split; [rewrite Ho; discriminate |].
      split; [| split; [exact Ht | exact H3]].
      apply Hrank. rewrite nth_error_map, Ho. cbn. rewrite H2. reflexivity.
    - exfalso. apply (Permutation_in _ (Permutation_sym Hperm)) in Hd.
      destruct (combine_fst_in order templates r' (eq_sym Htl) Hd) as [b Hb].
      apply (Hno r' b Hb). reflexivity. }
  assert (Hxy : forall r', In r' d' ->
            (Robot.x r', Robot.y r')
            = KickoffSpec.inside fw fh
                (KickoffSpec.slot fw fh (Team.side tm) (length d')
                   (KickoffSpec.rank tm' r'))).
  { intros r' Hin. destruct (Hplaced r' Hin) as (i & p & r & _ & Hr & Hp & ->).
    rewrite Hr. unfold templates, Team.attack_sign in Hp.
    rewrite Hlen, <- (clip_xy_inside fw fh).
    assert (Hs : p = KickoffSpec.slot fw fh (Team.side tm) (length order) i).
    { apply kickoff_templates_slot. destruct (Team.side tm); exact Hp. }
    rewrite <- Hs. reflexivity. }
  cbn [Team.side Team.with_robots Team.robots].
  split; [| split; [exact Hside | exact Hkeys]].
  unfold KickoffSpec.team_placed. fold tm'.
  cbn [Team.side Team.with_robots Team.robots Team.goalie_id tm'].
  rewrite Hside. fold tm'.
  split; [| split; [| split; [| split]]].
  - intros He. unfold Roster.keys in Hkeys. rewrite He in Hkeys.
    destruct (Team.robots tm2); [contradiction | discriminate].
  - assert (Hmap : map (KickoffSpec.rank tm') order = seq 0 (length order)).
    { apply nth_error_ext. intros i.
      destruct (nth_error order i) as [r |] eqn:Er.
      - rewrite (map_nth_error _ _ _ Er).
        assert (Hi : (i < length order)%nat)
          by (apply nth_error_Some; rewrite Er; discriminate).
        rewrite (nth_error_nth' _ O) by (rewrite length_seq; exact Hi).
        rewrite seq_nth by exact Hi. f_equal. cbn.
        apply Hrank. rewrite nth_error_map, Er. reflexivity.
      - assert (Hi : (length order <= i)%nat) by (apply nth_error_None; exact Er).
        transitivity (@None nat); [| symmetry];
          apply nth_error_None; rewrite ?length_map, ?length_seq; exact Hi. }
    rewrite Hlen, <- Hmap.
    assert (Hid : forall l : list Robot.t,
              map (KickoffSpec.rank tm') l
              = map (fun k => length (filter (fun a => KickoffSpec.before (Team.goalie_id tm2) a k)
                                        (Roster.keys d')))
                    (map Robot.robot_id l)).
    { intros l. rewrite map_map. reflexivity. }
    rewrite (Hid d'), (Hid order). apply Permutation_map.
    apply Permutation_sym. exact Hpk.
  - intros r' Hin. destruct (Hplaced r' Hin) as (i & p & r & _ & _ & _ & Hr').
    unfold KickoffSpec.placed.
    cbn [Team.side Team.with_robots Team.robots tm']. rewrite Hside.
    split; [rewrite Hr'; reflexivity |]. split; [rewrite Hr'; reflexivity |].
    split; [rewrite Hr'; reflexivity |]. split; [rewrite Hr'; reflexivity |].
    split; [rewrite Hr'; reflexivity |]. split; [rewrite Hr'; reflexivity |].
    split; [rewrite Hr'; exact Hface |].
    apply Hxy. exact Hin.
  - intros g r Hg _ Hid. apply (rank_keeper tm' g r); [exact Hg | exact Hid].
  - intros Hfw g r r' Hg Hin Hid Hin'.
    assert (Hx : Robot.x r = fst (KickoffSpec.inside fw fh
                   (KickoffSpec.slot fw fh (Team.side tm) (length d') 0)))
      by (rewrite <- (rank_keeper tm' g r Hg Hid), <- (Hxy r Hin); reflexivity).
    assert (Hx' : Robot.x r' = fst (KickoffSpec.inside fw fh
                   (KickoffSpec.slot fw fh (Team.side tm) (length d')
                      (KickoffSpec.rank tm' r'))))
      by (rewrite <- (Hxy r' Hin'); reflexivity).
    rewrite Hx, Hx'.
    pose proof (slot_columns fw fh (Team.side tm) (length d')
                  (KickoffSpec.rank tm' r')) as Hc. cbv zeta in Hc.
    destruct (Team.side tm); apply inside_fst_mono; cbn [fst KickoffSpec.slot];
      destruct Hc as [-> | [-> | [-> | ->]]]; lra.
Qed.

Lemma auto_position_kickoff_placed (fw fh : R) (tm : Team.t) :
  NoDup (Roster.keys (Team.robots tm)) ->
  let tm' := Team.auto_position_kickoff fw fh 0.5 tm in
  KickoffSpec.team_placed fw fh tm'
  /\ Team.side tm' = Team.side tm
  /\ (Team.robots tm <> [] ->
      Roster.keys (Team.robots tm') = Roster.keys (Team.robots tm)).
Proof.
  intros Hnd. cbv zeta. unfold Team.auto_position_kickoff. cbv zeta.
  set (tm1 := match Team.robots_list tm with
              | [] => Team.ensure_size (Team.max_size tm) tm
              | _ :: _ => tm
              end).
  assert (H1 : NoDup (Roster.keys (Team.robots tm1)) /\ Team.robots tm1 <> []
               /\ Team.side tm1 = Team.side tm
               /\ (Team.robots tm <> [] -> tm1 = tm)).
  { unfold tm1, Team.robots_list.
    destruct (Roster.sort_by _ (Team.robots tm)) as [| a l] eqn:E.
    - apply sort_by_nil_iff in E.
      destruct (ensure_size_empty (Team.max_size tm) tm E) as (Ha & Hb & Hc).
      repeat split; try assumption. intros Hne. contradiction.
    - repeat split; try assumption; try reflexivity.
      intros He. rewrite He in E. discriminate. }
  destruct H1 as (Hnd1 & Hne1 & Hside1 & Hsame).
  assert (Hp0 : Permutation (Team.robots_list tm1) (Team.robots tm1))
    by apply sort_by_perm.
  destruct (Team.goalie_id tm1) as [g |] eqn:Eg.
  - set (order := Roster.sort_by _ (Team.robots_list tm1)).
    assert (Hperm : Permutation order (Team.robots tm1)).
    { apply Permutation_trans with (Team.robots_list tm1);
        [apply sort_by_perm | exact Hp0]. }
    destruct (kickoff_fold_placed fw fh tm order tm1 Hperm Hnd1 Hne1 Hside1)
      as (Ha & Hb & Hc).
    + rewrite Eg. apply goalie_first_sorted.
      apply (Permutation_NoDup
               (Permutation_sym (Permutation_map Robot.robot_id Hp0))).
      exact Hnd1.
    + split; [exact Ha |]. split; [exact Hb |].
      intros Hne. rewrite Hc, (Hsame Hne). reflexivity.
  - set (tm2 := Team.with_goalie_id _ tm1).
    destruct (kickoff_fold_placed fw fh tm (Team.robots_list tm1) tm2 Hp0 Hnd1 Hne1 Hside1)
      as (Ha & Hb & Hc).
    + unfold tm2. cbn [Team.goalie_id Team.with_goalie_id].
      apply (id_sorted_is_kickoff_order (Team.robots tm1)). exact Hnd1.
    + split; [exact Ha |]. split; [exact Hb |].
      intros Hne. rewrite Hc. unfold tm2. cbn [Team.robots Team.with_goalie_id].
      rewrite (Hsame Hne). reflexivity.
Qed.

(** C9 (amended): [goal_scored] credits the scoring side, hands the
    kickoff to the other side, and (through [set_kickoff]) puts both
    teams in the kickoff formation: in the kickoff order (goalkeeper
    first, the others by ascending id) the robots take the slots of the
    formation one each, every robot standing on its own slot brought
    back to 0.1 m inside the field, facing the opponent goal, with zero
    velocities and zero commands; the goalkeeper takes the slot 0.5 m
    in front of its own goal line, where on a field at least 13 m long
    no team-mate stands deeper; and the ball lies on the centre spot at
    rest.  Rosters keep their robots (an empty roster is filled
    first). *)
Theorem C9_goal_scored_resets_kickoff (by_side : Side) (w : World.t) :
  NoDup (Roster.keys (Team.robots (World.team_left w))) ->
  NoDup (Roster.keys (Team.robots (World.team_right w))) ->
  let w' := World.goal_scored by_side w in
  World.score w'
  = match by_side with
    | Left => ScoreBoard.mk (ScoreBoard.left (World.score w) + 1)
                            (ScoreBoard.right (World.score w))
    | Right => ScoreBoard.mk (ScoreBoard.left (World.score w))
                             (ScoreBoard.right (World.score w) + 1)
    end
  /\ World.state w'
     = match by_side with Left => st_kickoff_right | Right => st_kickoff_left end
  /\ Ball.x (World.ball w') = 0 /\ Ball.y (World.ball w') = 0
  /\ Ball.vx (World.ball w') = 0 /\ Ball.vy (World.ball w') = 0
  /\ KickoffSpec.team_placed (World.field_w w) (World.field_h w) (World.team_left w')
  /\ KickoffSpec.team_placed (World.field_w w) (World.field_h w) (World.team_right w')
  /\ Team.side (World.team_left w') = Team.side (World.team_left w)
  /\ Team.side (World.team_right w') = Team.side (World.team_right w)
  /\ (Team.robots (World.team_left w) <> [] ->
      Roster.keys (Team.robots (World.team_left w'))
      = Roster.keys (Team.robots (World.team_left w)))
  /\ (Team.robots (World.team_right w) <> [] ->
      Roster.keys (Team.robots (World.team_right w'))
      = Roster.keys (Team.robots (World.team_right w))).
Proof.
  intros Hl Hr. cbv zeta.
  destruct (auto_position_kickoff_placed (World.field_w w) (World.field_h w)
              (World.team_left w) Hl) as (Hl1 & Hl2 & Hl3).
  destruct (auto_position_kickoff_placed (World.field_w w) (World.field_h w)
              (World.team_right w) Hr) as (Hr1 & Hr2 & Hr3).
  destruct by_side;
    (do 6 (split; [reflexivity |]));
    (split; [exact Hl1 |]); (split; [exact Hr1 |]);
    (split; [exact Hl2 |]); (split; [exact Hr2 |]);
    (split; [exact Hl3 | exact Hr3]).
Qed.

Lemma clip_xy_fixed (hw hh : R) (p : R * R) :
  - hw + 0.1 <= fst p <= hw - 0.1 -> - hh + 0.1 <= snd p <= hh - 0.1 ->
  Team.clip_xy hw hh p = p.
Proof.
  intros Hx Hy. unfold Team.clip_xy. destruct p as [x y]. cbn [fst snd] in *.
  rewrite (Rmin_right (hw - 0.1) x), (Rmax_right (- hw + 0.1) x) by lra.
  rewrite (Rmin_right (hh - 0.1) y), (Rmax_right (- hh + 0.1) y) by lra.
  reflexivity.
Qed.

(** The kickoff after a goal of the left team in [at_the_wall]: the two
    robots of the left team and the five robots the empty right team is
    filled with, by id, where they stand. *)
Lemma at_the_wall_kickoff :
  let w' := World.goal_scored Left Examples.at_the_wall in
  map (fun r => (Robot.robot_id r, (Robot.x r, Robot.y r)))
      (Team.robots (World.team_left w'))
  = [(1%Z, (-10.5, 0)); (2%Z, (-6, 0))]
  /\ map (fun r => (Robot.robot_id r, (Robot.x r, Robot.y r)))
         (Team.robots (World.team_right w'))
     = [(1%Z, (10.5, 0)); (2%Z, (6, 0)); (3%Z, (3, 2)); (4%Z, (3, -2)); (5%Z, (1, 0))].
Proof.
  cbv zeta.
  assert (Hl : Team.robots (World.team_left (World.goal_scored Left Examples.at_the_wall))
               = [Robot.stop (Robot.set_vel 0 0 0
                    (Robot.set_pose
                       (fst (Team.clip_xy (22 * 0.5) (14 * 0.5) (- 1 * (22 * 0.5 - 0.5), 0)))
                       (snd (Team.clip_xy (22 * 0.5) (14 * 0.5) (- 1 * (22 * 0.5 - 0.5), 0)))
                       0 Examples.wall_a));
                  Robot.stop (Robot.set_vel 0 0 0
                    (Robot.set_pose
                       (fst (Team.clip_xy (22 * 0.5) (14 * 0.5) (- 1 * 6, 0)))
                       (snd (Team.clip_xy (22 * 0.5) (14 * 0.5) (- 1 * 6, 0)))
                       0 Examples.wall_b))]) by reflexivity.
  assert (Hr : map (fun r => (Robot.robot_id r, (Robot.x r, Robot.y r)))
                 (Team.robots (World.team_right
                                 (World.goal_scored Left Examples.at_the_wall)))
               = [(1%Z, Team.clip_xy (22 * 0.5) (14 * 0.5) (- -1 * (22 * 0.5 - 0.5), 0));
                  (2%Z, Team.clip_xy (22 * 0.5) (14 * 0.5) (- -1 * 6, 0));
                  (3%Z, Team.clip_xy (22 * 0.5) (14 * 0.5) (- -1 * 3, 2));
                  (4%Z, Team.clip_xy (22 * 0.5) (14 * 0.5) (- -1 * 3, - (2)));
                  (5%Z, Team.clip_xy (22 * 0.5) (14 * 0.5) (- -1 * 1, 0))]) by reflexivity.
  rewrite Hl, Hr. cbn [map Robot.robot_id Robot.x Robot.y Robot.stop Robot.set_vel
                       Robot.set_pose Robot.with_desired Robot.with_omega
                       Robot.with_vxy Robot.with_theta Robot.with_xy
                       Examples.wall_a Examples.wall_a_at Examples.wall_b
                       Examples.robot1 Robot.with_ids Robot.default].
  rewrite !clip_xy_fixed by (cbn [fst snd]; lra).
  cbn [fst snd].
  split; repeat (f_equal; try lra).
Qed.

Lemma C9_goal_scored_resets_kickoff_witness :
  let w' := World.goal_scored Left Examples.at_the_wall in
  World.state w' = st_kickoff_right
  /\ World.score w' = ScoreBoard.mk 1 0
  /\ Ball.x (World.ball w') = 0 /\ Ball.y (World.ball w') = 0
  /\ KickoffSpec.team_placed 22 14 (World.team_left w')
  /\ KickoffSpec.team_placed 22 14 (World.team_right w')
  /\ map (fun r => (Robot.robot_id r, (Robot.x r, Robot.y r)))
         (Team.robots (World.team_left w'))
     = [(1%Z, (-10.5, 0)); (2%Z, (-6, 0))]
  /\ map (fun r => (Robot.robot_id r, (Robot.x r, Robot.y r)))
         (Team.robots (World.team_right w'))
     = [(1%Z, (10.5, 0)); (2%Z, (6, 0)); (3%Z, (3, 2)); (4%Z, (3, -2)); (5%Z, (1, 0))].
Proof.
  cbv zeta.
  destruct (C9_goal_scored_resets_kickoff Left Examples.at_the_wall)
    as (Hsc & Hs & Hx & Hy & _ & _ & Hl & Hr & _).
  - simpl. repeat constructor; simpl; intuition discriminate.
  - simpl. constructor.
  - destruct at_the_wall_kickoff as [Hpl Hpr].
    split; [exact Hs |]. split; [exact Hsc |]. split; [exact Hx |].
    split; [exact Hy |]. split; [exact Hl |]. split; [exact Hr |].
    split; [exact Hpl | exact Hpr].
Defined.

Lemma short_field_kickoff :
  Team.robots (World.team_left (World.goal_scored Right Examples.short_field))
  = [Robot.stop (Robot.set_vel 0 0 0
       (Robot.set_pose
          (fst (Team.clip_xy (10 * 0.5) (14 * 0.5) (- 1 * (10 * 0.5 - 0.5), 0)))
          (snd (Team.clip_xy (10 * 0.5) (14 * 0.5) (- 1 * (10 * 0.5 - 0.5), 0)))
          0 Examples.robot1));
     Robot.stop (Robot.set_vel 0 0 0
       (Robot.set_pose
          (fst (Team.clip_xy (10 * 0.5) (14 * 0.5) (- 1 * 6, 0)))
          (snd (Team.clip_xy (10 * 0.5) (14 * 0.5) (- 1 * 6, 0)))
          0 (Robot.with_ids 2 0 Robot.default)))].
Proof. reflexivity. Qed.

(** C9, as the claim states it, fails: on a field 10 m long the
    defender's slot (6 m from the centre line) is clipped to 0.1 m from
    the own goal line, deeper than the goalkeeper's slot 0.5 m from
    it. *)
Lemma C9_goalkeeper_not_deepest_on_short_field :
  let w' := World.goal_scored Right Examples.short_field in
  exists gk r,
    Team.robots (World.team_left w') = [gk; r]
    /\ Team.goalie_id (World.team_left w') = Some (Robot.robot_id gk)
    /\ Team.side (World.team_left w') = Left
    /\ Robot.x gk = -4.5 /\ Robot.x r = -4.9
    /\ Robot.x r < Robot.x gk.
Proof.
  cbv zeta. rewrite short_field_kickoff.
  eexists _, _. split; [reflexivity |]. split; [reflexivity |].
  split; [reflexivity |].
  assert (Hg : fst (Team.clip_xy (10 * 0.5) (14 * 0.5) (- 1 * (10 * 0.5 - 0.5), 0))
               = -4.5).
  { unfold Team.clip_xy. cbn [fst]. rewrite Rmin_right by lra.
    rewrite Rmax_right by lra. lra. }
  assert (Hd : fst (Team.clip_xy (10 * 0.5) (14 * 0.5) (- 1 * 6, 0)) = -4.9).
  { unfold Team.clip_xy. cbn [fst]. rewrite Rmin_right by lra.
    rewrite Rmax_left by lra. lra. }
  cbn [Robot.x Robot.stop Robot.set_vel Robot.set_pose Robot.with_desired
       Robot.with_omega Robot.with_vxy Robot.with_theta Robot.with_xy].
  rewrite Hg, Hd. repeat split; lra.
Qed.

(** * Further properties of the code *)

(** ** models/robot.py: the footprint *)

Lemma cos_sin_unit (a : R) : cos a * cos a + sin a * sin a = 1.
Proof. pose proof (sin2_cos2 a) as H. unfold Rsqr in H. lra. Qed.

(** X1. Every corner returned by [corners] lies on the bounding circle:
    its distance to the centre is [outer_radius], whatever the heading
    and the side length. *)
Theorem X1_corners_on_outer_circle (r : Robot.t) (p : R * R) :
  In p (Robot.corners r) ->
  Py.hypot (fst p - Robot.x r) (snd p - Robot.y r) = Robot.outer_radius r.
Proof.
  unfold Robot.corners, Robot.outer_radius, Py.hypot.
  pose proof (cos_sin_unit (Robot.theta r)) as H.
  set (c := cos (Robot.theta r)) in *. set (s := sin (Robot.theta r)) in *.
  set (h := Robot.half_side r).
  cbn [map In]. intros [E | [E | [E | [E | []]]]]; subst p; cbn [fst snd];
    f_equal;
    match goal with
    | |- (Robot.x r + c * ?lx - s * ?ly - Robot.x r)
         * (Robot.x r + c * ?lx - s * ?ly - Robot.x r)
         + (Robot.y r + s * ?lx + c * ?ly - Robot.y r)
           * (Robot.y r + s * ?lx + c * ?ly - Robot.y r) = _ =>
        replace ((Robot.x r + c * lx - s * ly - Robot.x r)
                 * (Robot.x r + c * lx - s * ly - Robot.x r)
                 + (Robot.y r + s * lx + c * ly - Robot.y r)
                   * (Robot.y r + s * lx + c * ly - Robot.y r))
          with ((c * c + s * s) * (lx * lx + ly * ly)) by ring
    end; rewrite H; ring.
Qed.

Lemma X1_corners_on_outer_circle_witness :
  let p := nth 2 (Robot.corners Robot.default) (0, 0) in
  Py.hypot (fst p - Robot.x Robot.default) (snd p - Robot.y Robot.default)
  = Robot.outer_radius Robot.default.
Proof.
  intros p. apply (X1_corners_on_outer_circle Robot.default p).
  subst p. unfold Robot.corners. cbn [map nth In].
  right. right. left. reflexivity.
Defined.

(** The extent [h * (|cos| + |sin|)] bounds every corner, on both axes. *)
Lemma corner_offsets (c s h : R) :
  0 <= h ->
  let e := h * (Rabs c + Rabs s) in
  - e <= c * - h - s * - h <= e /\ - e <= c * h - s * - h <= e
  /\ - e <= c * h - s * h <= e /\ - e <= c * - h - s * h <= e
  /\ - e <= s * - h + c * - h <= e /\ - e <= s * h + c * - h <= e
  /\ - e <= s * h + c * h <= e /\ - e <= s * - h + c * h <= e.
Proof.
  intros Hh e. subst e.
  assert (Hc : - (h * Rabs c) <= c * h <= h * Rabs c).
  { unfold Rabs. destruct (Rcase_abs c); split; nra. }
  assert (Hs : - (h * Rabs s) <= s * h <= h * Rabs s).
  { unfold Rabs. destruct (Rcase_abs s); split; nra. }
  repeat split; lra.
Qed.

Lemma min_of_eq (a : R) (l : list R) (m : R) :
  In m (a :: l) -> (forall c, In c (a :: l) -> m <= c) -> Py.min_of a l = m.
Proof.
  unfold Py.min_of. revert a. induction l as [| b l IH]; intros a Hin Hle.
  - cbn. destruct Hin as [E | []]. exact E.
  - cbn [fold_left]. apply IH.
    + unfold Py.ltb. destruct (Rlt_dec b a) as [Hlt | Hn].
      * destruct Hin as [E | [E | Hin]]; [| left; exact E | right; exact Hin].
        subst m. specialize (Hle b (or_intror (or_introl eq_refl))). lra.
      * destruct Hin as [E | [E | Hin]]; [left; exact E | | right; exact Hin].
        subst m. specialize (Hle a (or_introl eq_refl)). left. lra.
    + intros c [E | Hc].
      * subst c. unfold Py.ltb. destruct (Rlt_dec b a);
          apply Hle; [right; left | left]; reflexivity.
      * apply Hle. right. right. exact Hc.
Qed.

Lemma max_of_eq (a : R) (l : list R) (m : R) :
  In m (a :: l) -> (forall c, In c (a :: l) -> c <= m) -> Py.max_of a l = m.
Proof.
  unfold Py.max_of. revert a. induction l as [| b l IH]; intros a Hin Hle.
  - cbn. destruct Hin as [E | []]. exact E.
  - cbn [fold_left]. apply IH.
    + unfold Py.ltb. destruct (Rlt_dec a b) as [Hlt | Hn].
      * destruct Hin as [E | [E | Hin]]; [| left; exact E | right; exact Hin].
        subst m. specialize (Hle b (or_intror (or_introl eq_refl))). lra.
      * destruct Hin as [E | [E | Hin]]; [left; exact E | | right; exact Hin].
        subst m. specialize (Hle a (or_introl eq_refl)). left. lra.
    + intros c [E | Hc].
      * subst c. unfold Py.ltb. destruct (Rlt_dec a b);
          apply Hle; [right; left | left]; reflexivity.
      * apply Hle. right. right. exact Hc.
Qed.

(** X2. For a robot of non-negative side length the bounding box
    computed from the corners, [aabb], is the centre plus and minus the
    extents given by [half_extents_xy]. *)
Theorem X2_aabb_is_centre_plus_half_extents (r : Robot.t) :
  0 <= Robot.side_len r ->
  Robot.aabb r
  = (Robot.x r - fst (Robot.half_extents_xy r),
     Robot.x r + fst (Robot.half_extents_xy r),
     Robot.y r - snd (Robot.half_extents_xy r),
     Robot.y r + snd (Robot.half_extents_xy r)).
Proof.
  intros Hs.
  assert (Hh : 0 <= Robot.half_side r) by (unfold Robot.half_side; lra).
  unfold Robot.aabb, Robot.corners, Robot.half_extents_xy.
  cbn [map hd tl fst snd].
  set (c := cos (Robot.theta r)). set (s := sin (Robot.theta r)).
  set (h := Robot.half_side r) in *.
  pose proof (corner_offsets c s h Hh) as Ho. cbv zeta in Ho.
  assert (Hc : Rabs c = c \/ Rabs c = - c).
  { unfold Rabs. destruct (Rcase_abs c); [right | left]; reflexivity. }
  assert (Hs' : Rabs s = s \/ Rabs s = - s).
  { unfold Rabs. destruct (Rcase_abs s); [right | left]; reflexivity. }
  set (e := h * (Rabs c + Rabs s)) in *.
  assert (Ee : (e = c * h + s * h \/ e = c * h - s * h)
               \/ (e = - (c * h) + s * h \/ e = - (c * h) - s * h)).
  { subst e. destruct Hc as [Ec | Ec], Hs' as [Es | Es]; rewrite Ec, Es;
      [left; left | left; right | right; left | right; right]; ring. }
  assert (Hin : forall v v1 v2 v3 v4 : R,
             v = v1 \/ v = v2 \/ v = v3 \/ v = v4 ->
             v1 = v \/ v2 = v \/ v3 = v \/ v4 = v \/ False).
  { intros v v1 v2 v3 v4 [E | [E | [E | E]]]; rewrite E; tauto. }
  repeat apply f_equal2.
  - apply min_of_eq.
    + cbn [In]. apply Hin. destruct Ee as [[E | E] | [E | E]]; rewrite E; lra.
    + cbn [In]. intros v [E | [E | [E | [E | []]]]]; subst v; lra.
  - apply max_of_eq.
    + cbn [In]. apply Hin. destruct Ee as [[E | E] | [E | E]]; rewrite E; lra.
    + cbn [In]. intros v [E | [E | [E | [E | []]]]]; subst v; lra.
  - apply min_of_eq.
    + cbn [In]. apply Hin. destruct Ee as [[E | E] | [E | E]]; rewrite E; lra.
    + cbn [In]. intros v [E | [E | [E | [E | []]]]]; subst v; lra.
  - apply max_of_eq.
    + cbn [In]. apply Hin. destruct Ee as [[E | E] | [E | E]]; rewrite E; lra.
    + cbn [In]. intros v [E | [E | [E | [E | []]]]]; subst v; lra.
Qed.

Lemma X2_aabb_is_centre_plus_half_extents_witness :
  Robot.aabb Robot.default
  = (Robot.x Robot.default - fst (Robot.half_extents_xy Robot.default),
     Robot.x Robot.default + fst (Robot.half_extents_xy Robot.default),
     Robot.y Robot.default - snd (Robot.half_extents_xy Robot.default),
     Robot.y Robot.default + snd (Robot.half_extents_xy Robot.default)).
Proof.
  apply (X2_aabb_is_centre_plus_half_extents Robot.default).
  cbn [Robot.side_len Robot.default]. lra.
Defined.

Lemma corners_within_extents (r : Robot.t) (p : R * R) :
  0 <= Robot.side_len r -> In p (Robot.corners r) ->
  - fst (Robot.half_extents_xy r) <= fst p - Robot.x r
    <= fst (Robot.half_extents_xy r)
  /\ - snd (Robot.half_extents_xy r) <= snd p - Robot.y r
     <= snd (Robot.half_extents_xy r).
Proof.
  intros Hs.
  assert (Hh : 0 <= Robot.half_side r) by (unfold Robot.half_side; lra).
  pose proof (corner_offsets (cos (Robot.theta r)) (sin (Robot.theta r))
                (Robot.half_side r) Hh) as Ho.
  cbv zeta in Ho.
  unfold Robot.corners, Robot.half_extents_xy. cbn [map In fst snd].
  intros [E | [E | [E | [E | []]]]]; subst p; cbn [fst snd]; lra.
Qed.

(** X3. A robot of non-negative side length whose extents fit in the
    field has, once [clamp_robot_inside_field] has been applied, all
    four corners inside the field. *)
Theorem X3_clamped_corners_inside_field (w : World.t) (r : Robot.t) (p : R * R) :
  0 <= Robot.side_len r ->
  fst (Robot.half_extents_xy r) <= World.half_w w ->
  snd (Robot.half_extents_xy r) <= World.half_h w ->
  In p (Robot.corners (Collisions.clamp_robot_inside_field w r)) ->
  - World.half_w w <= fst p <= World.half_w w
  /\ - World.half_h w <= snd p <= World.half_h w.
Proof.
  intros Hs Hx Hy Hp.
  destruct (clamp_robot_within w r) as (He & Hcx & Hcy).
  specialize (Hcx Hx). specialize (Hcy Hy).
  assert (Hs' : 0 <= Robot.side_len (Collisions.clamp_robot_inside_field w r)).
  { unfold Collisions.clamp_robot_inside_field.
    destruct (Robot.half_extents_xy r). exact Hs. }
  destruct (corners_within_extents _ p Hs' Hp) as [H1 H2].
  rewrite He in H1, H2. lra.
Qed.

Lemma X3_clamped_corners_inside_field_witness :
  let p := nth 2 (Robot.corners
                    (Collisions.clamp_robot_inside_field World.default
                       (Robot.with_xy 20 0 Robot.default))) (0, 0) in
  - World.half_w World.default <= fst p <= World.half_w World.default
  /\ - World.half_h World.default <= snd p <= World.half_h World.default.
Proof.
  intros p.
  assert (E : Robot.half_extents_xy (Robot.with_xy 20 0 Robot.default)
              = (0.5 * 0.45, 0.5 * 0.45)).
  { unfold Robot.half_extents_xy, Robot.half_side.
    cbn [Robot.theta Robot.side_len Robot.with_xy Robot.default].
    rewrite cos_sin_0_extent. reflexivity. }
  apply (X3_clamped_corners_inside_field World.default
           (Robot.with_xy 20 0 Robot.default) p).
  - cbn [Robot.side_len Robot.with_xy Robot.default]. lra.
  - rewrite E. cbn [fst]. unfold World.half_w, World.default.
    cbn [World.field_w]. lra.
  - rewrite E. cbn [snd]. unfold World.half_h, World.default.
    cbn [World.field_h]. lra.
  - subst p. unfold Robot.corners. cbn [map nth In].
    right. right. left. reflexivity.
Defined.

(** ** models/robot.py: the kinematics *)

(** X4. A robot whose commanded velocity is zero never gains speed in
    [update], whatever its limits and time constants. *)
Theorem X4_zero_command_never_speeds_up (dt : R) (r : Robot.t) :
  Robot.desired_vx r = 0 -> Robot.desired_vy r = 0 ->
  Robot.speed (Robot.update dt r) <= Robot.speed r.
Proof.
  intros Hdx Hdy.
  destruct (Robot.active r) eqn:Hact;
    [| rewrite update_skipped by (left; exact Hact); lra].
  destruct (Rle_dec dt 0) as [Hdt | Hdt];
    [rewrite update_skipped by (right; exact Hdt); lra |].
  assert (Hpos : 0 < dt) by lra.
  destruct (update_velocity dt r Hact Hpos)
    as (tx0 & ty0 & tx & ty & s & Etx0 & Ety0 & Ht & Hs & Evx & Evy).
  pose proof (alpha_unit (Robot.tau_v r) dt Hpos) as Ha.
  set (a := Robot._alpha (Robot.tau_v r) dt) in *.
  rewrite Hdx in Etx0. rewrite Hdy in Ety0.
  unfold Robot.speed.
  apply hypot_le_iff; [apply hypot_nonneg |].
  rewrite hypot_sqr, Evx, Evy.
  set (vx := Robot.vx r) in *. set (vy := Robot.vy r) in *.
  assert (H0 : tx0 * tx0 + ty0 * ty0 <= vx * vx + vy * vy).
  { subst tx0 ty0.
    replace ((vx + a * (0 - vx)) * (vx + a * (0 - vx))
             + (vy + a * (0 - vy)) * (vy + a * (0 - vy)))
      with ((1 - a) * (1 - a) * (vx * vx + vy * vy)) by ring.
    assert (0 <= vx * vx + vy * vy) by nra.
    assert ((1 - a) * (1 - a) <= 1) by nra.
    nra. }
  assert (H1 : tx * tx + ty * ty <= vx * vx + vy * vy).
  { destruct Ht as [(Hlt & Hms & Ex & Ey) | (_ & Ex & Ey)].
    - assert (Hh : 0 < Py.hypot tx0 ty0) by lra.
      rewrite Ex, Ey, (rescaled_norm tx0 ty0 (Robot.max_speed r) Hh).
      pose proof (hypot_sqr tx0 ty0). nra.
    - rewrite Ex, Ey. exact H0. }
  destruct (Rle_dec 0 (vx * vx + vy * vy)) as [Hn | Hn]; [| nra].
  pose proof (sqrt_sqrt _ Hn) as Hsq.
  pose proof (disc_convex vx vy tx ty s (sqrt (vx * vx + vy * vy)) Hs) as Hd.
  rewrite Hsq in Hd. apply Hd; lra.
Qed.

Lemma X4_zero_command_never_speeds_up_witness :
  Robot.speed (Robot.update 0.1 (Robot.with_vxy 1 0 Robot.default))
  <= Robot.speed (Robot.with_vxy 1 0 Robot.default).
Proof.
  apply (X4_zero_command_never_speeds_up 0.1 (Robot.with_vxy 1 0 Robot.default));
    reflexivity.
Defined.

Lemma update_omega (dt : R) (r : Robot.t) :
  Robot.active r = true -> 0 < dt ->
  Robot.omega (Robot.update dt r)
  = Robot.omega r
    + _clamp (_clamp (Robot.omega r
                      + Robot._alpha (Robot.tau_w r) dt
                        * (Robot.desired_omega r - Robot.omega r))
                     (- Robot.max_omega r) (Robot.max_omega r)
              - Robot.omega r)
             (- Robot.max_alpha r * dt) (Robot.max_alpha r * dt).
Proof.
  intros Hact Hdt. unfold Robot.update.
  rewrite Hact, (leb_false dt 0) by lra. cbn [negb orb].
  destruct (Py.ltb (Robot.max_speed r) _ && Py.ltb 0 (Robot.max_speed r));
    destruct (Py.ltb (Robot.max_accel r * dt) _ && Py.ltb 0 (Robot.max_accel r * dt));
    reflexivity.
Qed.

(** X5. With a non-negative angular acceleration limit, a robot whose
    turn rate is within [max_omega] keeps it within [max_omega] in
    [update], whatever turn rate is commanded. *)
Theorem X5_turn_rate_never_exceeds_max (dt : R) (r : Robot.t) :
  0 <= Robot.max_alpha r ->
  Rabs (Robot.omega r) <= Robot.max_omega r ->
  Rabs (Robot.omega (Robot.update dt r)) <= Robot.max_omega r.
Proof.
  intros Ha Hw.
  destruct (Robot.active r) eqn:Hact;
    [| rewrite update_skipped by (left; exact Hact); exact Hw].
  destruct (Rle_dec dt 0) as [Hdt | Hdt];
    [rewrite update_skipped by (right; exact Hdt); exact Hw |].
  assert (Hpos : 0 < dt) by lra.
  rewrite (update_omega dt r Hact Hpos).
  assert (Hmo : 0 <= Robot.max_omega r) by (pose proof (Rabs_pos (Robot.omega r)); lra).
  assert (Hom : - Robot.max_omega r <= Robot.omega r <= Robot.max_omega r).
  { revert Hw. unfold Rabs. destruct (Rcase_abs (Robot.omega r)); lra. }
  pose proof (clamp_bounds
                (Robot.omega r
                 + Robot._alpha (Robot.tau_w r) dt
                   * (Robot.desired_omega r - Robot.omega r))
                (- Robot.max_omega r) (Robot.max_omega r)) as Hc.
  set (wt := _clamp _ (- Robot.max_omega r) (Robot.max_omega r)) in *.
  assert (Hwt : - Robot.max_omega r <= wt <= Robot.max_omega r) by (apply Hc; lra).
  assert (HA : 0 <= Robot.max_alpha r * dt) by nra.
  replace (- Robot.max_alpha r * dt) with (- (Robot.max_alpha r * dt)) by ring.
  set (A := Robot.max_alpha r * dt) in *.
  unfold _clamp, Rmax, Rmin, Rabs.
  destruct (Rle_dec A (wt - Robot.omega r));
    destruct (Rle_dec (- A) _); destruct (Rcase_abs _); lra.
Qed.

Lemma X5_turn_rate_never_exceeds_max_witness :
  Rabs (Robot.omega (Robot.update 0.1 (Robot.with_desired 0 0 100 Robot.default)))
  <= Robot.max_omega (Robot.with_desired 0 0 100 Robot.default).
Proof.
  apply (X5_turn_rate_never_exceeds_max 0.1 (Robot.with_desired 0 0 100 Robot.default)).
  - cbn [Robot.max_alpha Robot.with_desired Robot.default]. lra.
  - cbn [Robot.omega Robot.max_omega Robot.with_desired Robot.default].
    rewrite Rabs_R0. lra.
Defined.

(** ** models/ball.py *)

Lemma clip_axis_inside (m p v : R) :
  0 <= m -> - m <= fst (Ball.clip_axis m p v) <= m.
Proof.
  intros Hm. unfold Ball.clip_axis.
  destruct (Py.ltb m p) eqn:E1; [cbn; lra |].
  destruct (Py.ltb p (- m)) eqn:E2; [cbn; lra |].
  apply ltb_nspec in E1. apply ltb_nspec in E2. cbn. lra.
Qed.

Lemma bounce_axis_inside (e m p v : R) :
  0 <= m -> - m <= fst (Ball.bounce_axis e m p v) <= m.
Proof.
  intros Hm. unfold Ball.bounce_axis.
  destruct (Py.ltb m p) eqn:E1; [cbn; lra |].
  destruct (Py.ltb p (- m)) eqn:E2; [cbn; lra |].
  apply ltb_nspec in E1. apply ltb_nspec in E2. cbn. lra.
Qed.

Lemma ball_update_bounded (dt hw hh : R) (mode : BoundaryMode) (b : Ball.t) :
  0 < dt ->
  exists vx2 vy2,
    Ball.x (Ball.update dt (Some hw) (Some hh) mode b)
    = fst (match mode with
           | Clip => Ball.clip_axis (hw - Ball.radius b)
                       (Ball.x b + Ball.vx b * dt) vx2
           | Bounce => Ball.bounce_axis (Ball.restitution b) (hw - Ball.radius b)
                         (Ball.x b + Ball.vx b * dt) vx2
           end)
    /\ Ball.y (Ball.update dt (Some hw) (Some hh) mode b)
       = fst (match mode with
              | Clip => Ball.clip_axis (hh - Ball.radius b)
                          (Ball.y b + Ball.vy b * dt) vy2
              | Bounce => Ball.bounce_axis (Ball.restitution b) (hh - Ball.radius b)
                            (Ball.y b + Ball.vy b * dt) vy2
              end).
Proof.
  intros Hdt. unfold Ball.update. rewrite (leb_false dt 0) by lra.
  match goal with
  | |- context [if Py.ltb ?a ?c then (0, 0) else (?u, ?v)] =>
      destruct (Py.ltb a c);
        [exists 0, 0 | exists u, v]
  end;
    destruct mode;
    repeat match goal with
           | |- context [Ball.clip_axis ?m ?p ?v] =>
               destruct (Ball.clip_axis m p v)
           | |- context [Ball.bounce_axis ?e ?m ?p ?v] =>
               destruct (Ball.bounce_axis e m p v)
           end;
    split; reflexivity.
Qed.

(** X6. After [update] with a positive time step and field bounds that
    leave room for the ball, the ball's centre is at least one radius
    inside the field on both axes, in the clip mode and in the bounce
    mode, wherever the ball was and however fast it moved. *)
Theorem X6_ball_update_keeps_ball_inside (dt hw hh : R) (mode : BoundaryMode)
    (b : Ball.t) :
  0 < dt -> Ball.radius b <= hw -> Ball.radius b <= hh ->
  let b' := Ball.update dt (Some hw) (Some hh) mode b in
  - (hw - Ball.radius b) <= Ball.x b' <= hw - Ball.radius b
  /\ - (hh - Ball.radius b) <= Ball.y b' <= hh - Ball.radius b.
Proof.
  intros Hdt Hw Hh b'. subst b'.
  destruct (ball_update_bounded dt hw hh mode b Hdt) as (vx2 & vy2 & Ex & Ey).
  rewrite Ex, Ey.
  destruct mode; split;
    first [apply clip_axis_inside | apply bounce_axis_inside]; lra.
Qed.

Lemma X6_ball_update_keeps_ball_inside_witness :
  let b := Ball.set_vel 50 0 Ball.default in
  let b' := Ball.update 1 (Some 11) (Some 7) Bounce b in
  - (11 - Ball.radius b) <= Ball.x b' <= 11 - Ball.radius b
  /\ - (7 - Ball.radius b) <= Ball.y b' <= 7 - Ball.radius b.
Proof.
  intros b.
  apply (X6_ball_update_keeps_ball_inside 1 11 7 Bounce b);
    [lra | | ]; subst b; cbn [Ball.radius Ball.set_vel Ball.default]; lra.
Defined.

Lemma damping_unit (dt : R) (b : Ball.t) :
  0 < dt -> 0 < Ball._time_invariant_damping dt b <= 1.
Proof.
  intros Hdt. unfold Ball._time_invariant_damping.
  split; [apply exp_pos |].
  assert (Hk : 0 <= Rmax 0 (Ball.lin_drag_per_s b)) by apply Rmax_l.
  set (k := Rmax 0 (Ball.lin_drag_per_s b)) in *.
  destruct (Req_dec k 0) as [E | E].
  - rewrite E. replace (- 0 * dt) with 0 by ring. rewrite exp_0. lra.
  - left. rewrite <- exp_0. apply exp_increasing. nra.
Qed.

Lemma clip_axis_velocity (m p v : R) :
  snd (Ball.clip_axis m p v) * snd (Ball.clip_axis m p v) <= v * v.
Proof.
  unfold Ball.clip_axis.
  destruct (Py.ltb m p); [cbn; nra |].
  destruct (Py.ltb p (- m)); cbn; nra.
Qed.

Lemma bounce_axis_velocity (e m p v : R) :
  Rabs e <= 1 ->
  snd (Ball.bounce_axis e m p v) * snd (Ball.bounce_axis e m p v) <= v * v.
Proof.
  intros He.
  assert (He2 : e * e <= 1).
  { revert He. unfold Rabs. destruct (Rcase_abs e); intros; nra. }
  assert (Hv : (- v * e) * (- v * e) <= v * v).
  { replace ((- v * e) * (- v * e)) with (v * v * (e * e)) by ring.
    assert (0 <= v * v) by nra. nra. }
  unfold Ball.bounce_axis.
  destruct (Py.ltb m p); [cbn; exact Hv |].
  destruct (Py.ltb p (- m)); cbn; [exact Hv | lra].
Qed.

Lemma ball_update_velocity (dt : R) (fw fh : option R) (mode : BoundaryMode)
    (b : Ball.t) :
  (mode = Clip \/ Rabs (Ball.restitution b) <= 1) ->
  let b' := Ball.update dt fw fh mode b in
  Ball.vx b' * Ball.vx b' <= Ball.vx b * Ball.vx b
  /\ Ball.vy b' * Ball.vy b' <= Ball.vy b * Ball.vy b.
Proof.
  intros Hm b'. subst b'. unfold Ball.update.
  destruct (Py.leb dt 0) eqn:Edt; [split; lra |].
  apply leb_nspec in Edt.
  pose proof (damping_unit dt b Edt) as Hd.
  set (d := Ball._time_invariant_damping dt b) in *.
  assert (Hx : (Ball.vx b * d) * (Ball.vx b * d) <= Ball.vx b * Ball.vx b).
  { replace ((Ball.vx b * d) * (Ball.vx b * d))
      with (Ball.vx b * Ball.vx b * (d * d)) by ring.
    assert (0 <= Ball.vx b * Ball.vx b) by nra. assert (d * d <= 1) by nra. nra. }
  assert (Hy : (Ball.vy b * d) * (Ball.vy b * d) <= Ball.vy b * Ball.vy b).
  { replace ((Ball.vy b * d) * (Ball.vy b * d))
      with (Ball.vy b * Ball.vy b * (d * d)) by ring.
    assert (0 <= Ball.vy b * Ball.vy b) by nra. assert (d * d <= 1) by nra. nra. }
  assert (H0x : 0 * 0 <= Ball.vx b * Ball.vx b) by nra.
  assert (H0y : 0 * 0 <= Ball.vy b * Ball.vy b) by nra.
  assert (Hs : exists vx2 vy2,
             (if Py.ltb (Ball.vx b * d * (Ball.vx b * d)
                         + Ball.vy b * d * (Ball.vy b * d))
                        (Ball.min_speed b * Ball.min_speed b)
              then (0, 0) else (Ball.vx b * d, Ball.vy b * d)) = (vx2, vy2)
             /\ vx2 * vx2 <= Ball.vx b * Ball.vx b
             /\ vy2 * vy2 <= Ball.vy b * Ball.vy b).
  { destruct (Py.ltb _ _); eexists _, _; (split; [reflexivity |]); split; assumption. }
  destruct Hs as (vx2 & vy2 & E & Hvx & Hvy). rewrite E.
  destruct fw as [hw |], fh as [hh |]; try (cbn; split; assumption).
  destruct mode.
  - pose proof (clip_axis_velocity (hw - Ball.radius b) (Ball.x b + Ball.vx b * dt) vx2).
    pose proof (clip_axis_velocity (hh - Ball.radius b) (Ball.y b + Ball.vy b * dt) vy2).
    destruct (Ball.clip_axis (hw - Ball.radius b) _ vx2).
    destruct (Ball.clip_axis (hh - Ball.radius b) _ vy2).
    cbn in *. split; lra.
  - destruct Hm as [Hm | Hm]; [discriminate |].
    pose proof (bounce_axis_velocity (Ball.restitution b) (hw - Ball.radius b)
                  (Ball.x b + Ball.vx b * dt) vx2 Hm).
    pose proof (bounce_axis_velocity (Ball.restitution b) (hh - Ball.radius b)
                  (Ball.y b + Ball.vy b * dt) vy2 Hm).
    destruct (Ball.bounce_axis _ (hw - Ball.radius b) _ vx2).
    destruct (Ball.bounce_axis _ (hh - Ball.radius b) _ vy2).
    cbn in *. split; lra.
Qed.

(** X7. [update] never makes the ball faster: in the clip mode, and in
    the bounce mode when the restitution is at most 1 in absolute
    value, the ball's speed after the step is at most its speed before,
    with or without field bounds and for every time step. *)
Theorem X7_ball_update_never_speeds_up (dt : R) (fw fh : option R)
    (mode : BoundaryMode) (b : Ball.t) :
  (mode = Clip \/ Rabs (Ball.restitution b) <= 1) ->
  Ball.speed (Ball.update dt fw fh mode b) <= Ball.speed b.
Proof.
  intros Hm. destruct (ball_update_velocity dt fw fh mode b Hm) as [Hx Hy].
  unfold Ball.speed, Py.hypot. apply sqrt_le_1_alt. lra.
Qed.

Lemma X7_ball_update_never_speeds_up_witness :
  Ball.speed (Ball.update 1 (Some 11) (Some 7) Bounce (Ball.set_vel 50 0 Ball.default))
  <= Ball.speed (Ball.set_vel 50 0 Ball.default).
Proof.
  apply (X7_ball_update_never_speeds_up 1 (Some 11) (Some 7) Bounce
           (Ball.set_vel 50 0 Ball.default)).
  right. cbn [Ball.restitution Ball.set_vel Ball.default].
  rewrite Rabs_pos_eq; lra.
Defined.

Lemma ball_update_free (dt : R) (mode : BoundaryMode) (b : Ball.t) :
  0 < dt -> Ball.min_speed b = 0 ->
  Ball.update dt None None mode b
  = Ball.set_vel (Ball.vx b * Ball._time_invariant_damping dt b)
                 (Ball.vy b * Ball._time_invariant_damping dt b)
      (Ball.set_pos (Ball.x b + Ball.vx b * dt) (Ball.y b + Ball.vy b * dt) b).
Proof.
  intros Hdt Hm. unfold Ball.update. rewrite (leb_false dt 0) by lra.
  rewrite Hm. rewrite ltb_false; [reflexivity |].
  set (d := Ball._time_invariant_damping dt b). nra.
Qed.

Lemma ball_damping_composes (dt1 dt2 : R) (mode : BoundaryMode) (b : Ball.t) :
  0 < dt1 -> 0 < dt2 -> Ball.min_speed b = 0 ->
  let b2 := Ball.update dt2 None None mode (Ball.update dt1 None None mode b) in
  let b1 := Ball.update (dt1 + dt2) None None mode b in
  Ball.vx b2 = Ball.vx b1 /\ Ball.vy b2 = Ball.vy b1.
Proof.
  intros H1 H2 Hm b2 b1. subst b2 b1.
  rewrite (ball_update_free dt1 mode b H1 Hm).
  rewrite ball_update_free by (assumption || exact Hm).
  rewrite (ball_update_free (dt1 + dt2) mode b) by (lra || exact Hm).
  unfold Ball._time_invariant_damping.
  cbn [Ball.vx Ball.vy Ball.set_vel Ball.set_pos Ball.lin_drag_per_s].
  replace (- Rmax 0 (Ball.lin_drag_per_s b) * (dt1 + dt2))
    with (- Rmax 0 (Ball.lin_drag_per_s b) * dt1
          + - Rmax 0 (Ball.lin_drag_per_s b) * dt2) by ring.
  rewrite exp_plus. split; ring.
Qed.

(** X8. The drag does not depend on how time is cut into steps: for a
    ball with no rest threshold and no field bounds, two successive
    updates leave the velocity that one update over the summed time
    leaves, each component to within 1e-9 of its size before the
    updates (over the reals the two velocities are equal). *)
Theorem X8_ball_damping_composes (dt1 dt2 : R) (mode : BoundaryMode) (b : Ball.t) :
  0 < dt1 -> 0 < dt2 -> Ball.min_speed b = 0 ->
  let b2 := Ball.update dt2 None None mode (Ball.update dt1 None None mode b) in
  let b1 := Ball.update (dt1 + dt2) None None mode b in
  Rabs (Ball.vx b2 - Ball.vx b1) <= 1e-9 * Rabs (Ball.vx b)
  /\ Rabs (Ball.vy b2 - Ball.vy b1) <= 1e-9 * Rabs (Ball.vy b).
Proof.
  intros H1 H2 Hm. cbv zeta.
  destruct (ball_damping_composes dt1 dt2 mode b H1 H2 Hm) as [-> ->].
  rewrite !Rminus_diag, Rabs_R0.
  split; apply Rmult_le_pos; try lra; apply Rabs_pos.
Qed.

Lemma X8_ball_damping_composes_witness :
  let b := Ball.mk 0 0 3 4 0.11 0 1.5 0.25 in
  let b2 := Ball.update 0.2 None None Clip (Ball.update 0.1 None None Clip b) in
  let b1 := Ball.update (0.1 + 0.2) None None Clip b in
  Rabs (Ball.vx b2 - Ball.vx b1) <= 1e-9 * Rabs (Ball.vx b)
  /\ Rabs (Ball.vy b2 - Ball.vy b1) <= 1e-9 * Rabs (Ball.vy b).
Proof.
  intros b.
  apply (X8_ball_damping_composes 0.1 0.2 Clip b); [lra | lra | reflexivity].
Defined.

(** ** models/team.py: the roster *)

Lemma roster_get_in (rid : Z) (d : Roster.t) (r : Robot.t) :
  Roster.get rid d = Some r -> In r d /\ Robot.robot_id r = rid.
Proof.
  induction d as [| r0 d IH]; cbn; [discriminate |].
  destruct (Z.eqb_spec (Robot.robot_id r0) rid) as [E | E].
  - intros H. injection H as <-. split; [left; reflexivity | exact E].
  - intros H. destruct (IH H) as [Hin Hid]. split; [right; exact Hin | exact Hid].
Qed.

Lemma roster_get_none (rid : Z) (d : Roster.t) :
  Roster.get rid d = None <-> ~ In rid (Roster.keys d).
Proof.
  induction d as [| r0 d IH]; cbn; [tauto |].
  destruct (Z.eqb_spec (Robot.robot_id r0) rid) as [E | E].
  - split; [discriminate | intros H; exfalso; apply H; left; exact E].
  - rewrite IH. tauto.
Qed.

Lemma roster_get_set (r : Robot.t) (d : Roster.t) (k : Z) :
  Roster.get k (Roster.set r d)
  = if Z.eqb k (Robot.robot_id r) then Some r else Roster.get k d.
Proof.
  induction d as [| r0 d IH]; cbn.
  - rewrite (Z.eqb_sym k). reflexivity.
  - destruct (Z.eqb_spec (Robot.robot_id r0) (Robot.robot_id r)) as [E | E]; cbn.
    + rewrite (Z.eqb_sym k), E.
      destruct (Z.eqb_spec (Robot.robot_id r) k); reflexivity.
    + rewrite IH.
      destruct (Z.eqb_spec (Robot.robot_id r0) k) as [E1 | E1];
        destruct (Z.eqb_spec k (Robot.robot_id r)) as [E2 | E2];
        try reflexivity.
      exfalso. apply E. rewrite E1. exact E2.
Qed.

Lemma roster_set_in (r : Robot.t) (d : Roster.t) (r' : Robot.t) :
  In r' (Roster.set r d) -> r' = r \/ In r' d.
Proof.
  induction d as [| r0 d IH]; cbn.
  - intros [E | []]. left. symmetry. exact E.
  - destruct (Z.eqb (Robot.robot_id r0) (Robot.robot_id r)); cbn.
    + intros [E | H]; [left; symmetry; exact E | right; right; exact H].
    + intros [E | H]; [right; left; exact E |].
      destruct (IH H) as [E | H']; [left; exact E | right; right; exact H'].
Qed.

Lemma roster_set_length (r : Robot.t) (d : Roster.t) :
  ~ In (Robot.robot_id r) (Roster.keys d) ->
  length (Roster.set r d) = S (length d).
Proof.
  induction d as [| r0 d IH]; cbn; [reflexivity |].
  intros H. destruct (Z.eqb_spec (Robot.robot_id r0) (Robot.robot_id r)) as [E | E].
  - exfalso. apply H. left. exact E.
  - cbn. rewrite IH; [reflexivity |]. intros Hin. apply H. right. exact Hin.
Qed.

Lemma roster_pop_keys (rid : Z) (d : Roster.t) :
  NoDup (Roster.keys d) ->
  NoDup (Roster.keys (Roster.pop rid d))
  /\ forall k, In k (Roster.keys (Roster.pop rid d))
               <-> In k (Roster.keys d) /\ k <> rid.
Proof.
  induction d as [| r0 d IH]; cbn; intros Hnd.
  - split; [constructor | intros k; tauto].
  - inversion Hnd as [| ? ? Hnotin Hnd']; subst.
    destruct (IH Hnd') as [IH1 IH2].
    destruct (Z.eqb_spec (Robot.robot_id r0) rid) as [E | E].
    + split; [exact Hnd' |]. intros k. split.
      * intros Hk. split; [right; exact Hk |]. intros ->. apply Hnotin.
        rewrite E. exact Hk.
      * intros [[E' | Hk] Hne]; [exfalso; apply Hne; rewrite <- E'; exact E | exact Hk].
    + cbn. split.
      * constructor; [| exact IH1]. intros Hin. apply IH2 in Hin. tauto.
      * intros k. rewrite IH2. split.
        -- intros [E' | [Hk Hne]]; [split; [left; exact E' | congruence] | tauto].
        -- intros [[E' | Hk] Hne]; [left; exact E' | right; tauto].
Qed.

Lemma roster_pop_in (rid : Z) (d : Roster.t) (r : Robot.t) :
  In r (Roster.pop rid d) -> In r d.
Proof.
  induction d as [| r0 d IH]; cbn; [tauto |].
  destruct (Z.eqb (Robot.robot_id r0) rid); cbn; [tauto |].
  intros [E | H]; [left; exact E | right; exact (IH H)].
Qed.

Lemma roster_pop_length (rid : Z) (d : Roster.t) :
  In rid (Roster.keys d) -> S (length (Roster.pop rid d)) = length d.
Proof.
  induction d as [| r0 d IH]; cbn; [tauto |].
  destruct (Z.eqb_spec (Robot.robot_id r0) rid) as [E | E]; [reflexivity |].
  intros [E' | H]; [contradiction |]. cbn. rewrite IH; [reflexivity | exact H].
Qed.

Lemma roster_get_pop (rid : Z) (d : Roster.t) (k : Z) :
  NoDup (Roster.keys d) ->
  Roster.get k (Roster.pop rid d)
  = if Z.eqb k rid then None else Roster.get k d.
Proof.
  induction d as [| r0 d IH]; cbn; intros Hnd.
  - destruct (Z.eqb k rid); reflexivity.
  - inversion Hnd as [| ? ? Hnotin Hnd']; subst.
    destruct (Z.eqb_spec (Robot.robot_id r0) rid) as [E | E].
    + destruct (Z.eqb_spec k rid) as [E1 | E1].
      * apply roster_get_none. rewrite E1, <- E. exact Hnotin.
      * destruct (Z.eqb_spec (Robot.robot_id r0) k); [congruence | reflexivity].
    + cbn. rewrite (IH Hnd').
      destruct (Z.eqb_spec (Robot.robot_id r0) k) as [E1 | E1];
        destruct (Z.eqb_spec k rid) as [E2 | E2]; try reflexivity.
      congruence.
Qed.

Lemma roster_modify_keys (rid : Z) (f : Robot.t -> Robot.t) (d : Roster.t) :
  (forall r, Robot.robot_id (f r) = Robot.robot_id r) ->
  Roster.keys (Roster.modify rid f d) = Roster.keys d.
Proof.
  intros Hf. unfold Roster.keys, Roster.modify. rewrite map_map.
  apply map_ext. intros r. destruct (Z.eqb (Robot.robot_id r) rid);
    [apply Hf | reflexivity].
Qed.

Lemma roster_get_modify (rid : Z) (f : Robot.t -> Robot.t) (d : Roster.t) (k : Z) :
  (forall r, Robot.robot_id (f r) = Robot.robot_id r) ->
  Roster.get k (Roster.modify rid f d)
  = if Z.eqb k rid then option_map f (Roster.get k d) else Roster.get k d.
Proof.
  intros Hf. induction d as [| r0 d IH]; cbn.
  - destruct (Z.eqb k rid); reflexivity.
  - destruct (Z.eqb_spec (Robot.robot_id r0) rid) as [E | E].
    + rewrite Hf. destruct (Z.eqb_spec (Robot.robot_id r0) k) as [E1 | E1].
      * rewrite <- E1, E, Z.eqb_refl. reflexivity.
      * exact IH.
    + destruct (Z.eqb_spec (Robot.robot_id r0) k) as [E1 | E1].
      * rewrite <- E1. destruct (Z.eqb_spec (Robot.robot_id r0) rid);
          [contradiction | reflexivity].
      * exact IH.
Qed.

Lemma add_robot_get (robot_id : option Z) (tm : Team.t) (k : Z) :
  Team.get k (Team.add_robot None robot_id tm)
  = if Z.eqb k (match robot_id with
                | Some i => i
                | None => Team._next_robot_id tm
                end)
    then Some (Robot.with_ids (match robot_id with
                               | Some i => i
                               | None => Team._next_robot_id tm
                               end) (Team.team_id tm) Robot.default)
    else Team.get k tm.
Proof.
  unfold Team.add_robot, Team.get, Team._alloc_id.
  destruct robot_id as [i |]; cbn [Team.team_id Team.with_next_robot_id
    Team.robots Team.with_robots Team.goalie_id];
    destruct (Team.goalie_id tm);
    cbn [Team.robots Team.with_robots Team.with_goalie_id];
    rewrite roster_get_set; reflexivity.
Qed.

(** X9. [add_robot()] and [add_robot(robot_id=k)] store a fresh robot
    under the allotted or the given id, with the robot's own id and
    team id set; looking that id up returns this robot, and every
    other id still returns what it returned before. *)
Theorem X9_add_robot_then_get (robot_id : option Z) (tm : Team.t) (k : Z) :
  let rid := match robot_id with
             | Some i => i
             | None => Team._next_robot_id tm
             end in
  Team.get k (Team.add_robot None robot_id tm)
  = if Z.eqb k rid
    then Some (Robot.with_ids rid (Team.team_id tm) Robot.default)
    else Team.get k tm.
Proof. intros rid. exact (add_robot_get robot_id tm k). Qed.

(** X10. In a team whose ids are distinct, [remove_robot] makes the
    removed id unknown to [get] and leaves the answer for every other
    id as it was. *)
Theorem X10_remove_robot_then_get (rid : Z) (tm : Team.t) (k : Z) :
  NoDup (Roster.keys (Team.robots tm)) ->
  Team.get k (Team.remove_robot rid tm)
  = if Z.eqb k rid then None else Team.get k tm.
Proof.
  intros Hnd. unfold Team.remove_robot, Team.get.
  cbn [Team.goalie_id Team.with_robots Team.robots].
  destruct (Team.goalie_id tm) as [g |];
    [destruct (Z.eqb g rid) |];
    cbn [Team.robots Team.with_robots Team.with_goalie_id];
    apply roster_get_pop; exact Hnd.
Qed.

Lemma X10_remove_robot_then_get_witness :
  let tm := Team.add_robot None None (Team.add_robot None None
              (World.team_left World.default)) in
  Team.get 1 (Team.remove_robot 1 tm) = (if Z.eqb 1 1 then None else Team.get 1 tm).
Proof.
  intros tm.
  apply (X10_remove_robot_then_get 1 tm 1).
  subst tm. cbv [Team.add_robot Team._alloc_id World.team_left World.default
    WorldState.team_left WorldState.default Team._next_robot_id Team.with_next_robot_id
    Team.team_id Team.robots Team.with_robots Team.goalie_id Team.with_goalie_id
    Roster.set Roster.keys Robot.with_ids Robot.robot_id map Z.add Z.eqb
    Pos.eqb Pos.add Pos.succ Team.name Team.side Team.max_size].
  repeat constructor; cbn; intuition discriminate.
Defined.

(** X11. [set_active] changes the [active] flag of the robot stored
    under the given id and nothing else: the ids, the goalkeeper and
    the next id stay, every other robot is returned unchanged, and an
    id that is not in the team leaves the team as it is. *)
Theorem X11_set_active_then_get (rid : Z) (flag : bool) (tm : Team.t) (k : Z) :
  Team.get k (Team.set_active rid flag tm)
  = (if Z.eqb k rid then option_map (Robot.with_active flag) (Team.get k tm)
     else Team.get k tm)
  /\ Roster.keys (Team.robots (Team.set_active rid flag tm))
     = Roster.keys (Team.robots tm)
  /\ Team.goalie_id (Team.set_active rid flag tm) = Team.goalie_id tm
  /\ Team._next_robot_id (Team.set_active rid flag tm) = Team._next_robot_id tm
  /\ (Team.get rid tm = None -> Team.set_active rid flag tm = tm).
Proof.
  unfold Team.set_active, Team.get.
  destruct (Roster.get rid (Team.robots tm)) as [r |] eqn:E.
  - cbn [Team.robots Team.with_robots Team.goalie_id Team._next_robot_id].
    split; [apply roster_get_modify; reflexivity |].
    split; [apply roster_modify_keys; reflexivity |].
    split; [reflexivity |]. split; [reflexivity | discriminate].
  - split.
    + destruct (Z.eqb_spec k rid) as [-> |]; [rewrite E |]; reflexivity.
    + repeat split; reflexivity.
Qed.

(** ** models/team.py: what every call keeps *)

Lemma update_ids (dt : R) (r : Robot.t) :
  Robot.robot_id (Robot.update dt r) = Robot.robot_id r
  /\ Robot.team_id (Robot.update dt r) = Robot.team_id r
  /\ Robot.active (Robot.update dt r) = Robot.active r
  /\ Robot.has_ball (Robot.update dt r) = Robot.has_ball r
  /\ Robot.side_len (Robot.update dt r) = Robot.side_len r.
Proof.
  unfold Robot.update.
  destruct (negb (Robot.active r) || Py.leb dt 0); [repeat split |].
  destruct (Py.ltb (Robot.max_speed r) _ && Py.ltb 0 (Robot.max_speed r));
    destruct (Py.ltb (Robot.max_accel r * dt) _ && Py.ltb 0 (Robot.max_accel r * dt));
    repeat split.
Qed.

Lemma fold_left_inv {A B : Type} (P : A -> Prop) (F : A -> B -> A)
    (l : list B) (a : A) :
  (forall a b, P a -> P (F a b)) -> P a -> P (fold_left F l a).
Proof.
  intros HF. revert a. induction l as [| b l IH]; intros a Ha; cbn;
    [exact Ha | apply IH, HF, Ha].
Qed.

Lemma wf_add_robot (robot_id : option Z) (tm : Team.t) :
  TeamCalls.well_formed tm ->
  TeamCalls.well_formed (Team.add_robot None robot_id tm).
Proof.
  intros (Hnd & Hlt & Htid & Hg).
  set (rid := match robot_id with Some i => i | None => Team._next_robot_id tm end).
  set (nx := match robot_id with
             | Some i => Z.max (Team._next_robot_id tm) (i + 1)
             | None => (Team._next_robot_id tm + 1)%Z
             end).
  set (r := Robot.with_ids rid (Team.team_id tm) Robot.default).
  assert (E : Team.add_robot None robot_id tm
              = Team.mk (Team.team_id tm) (Team.name tm) (Team.side tm)
                  (Team.max_size tm) (Roster.set r (Team.robots tm))
                  (match Team.goalie_id tm with
                   | Some g => Some g
                   | None => Some rid
                   end) nx).
  { unfold Team.add_robot, Team._alloc_id. subst rid nx r.
    destruct robot_id;
      cbn [Team.goalie_id Team.with_robots Team.with_next_robot_id
           Team.team_id Team.robots];
      destruct (Team.goalie_id tm) eqn:Eg;
      unfold Team.with_goalie_id, Team.with_robots, Team.with_next_robot_id;
      cbn [Team.goalie_id Team.team_id Team.robots Team.name Team.side
           Team.max_size Team._next_robot_id];
      rewrite ?Eg; reflexivity. }
  rewrite E. unfold TeamCalls.well_formed.
  cbn [Team.robots Team._next_robot_id Team.team_id Team.goalie_id].
  destruct (roster_set_keys r (Team.robots tm) Hnd) as (Hnd' & _ & Hin).
  assert (Hrid : Robot.robot_id r = rid) by reflexivity.
  split; [exact Hnd' |]. split; [| split].
  - intros k Hk. apply Hin in Hk. rewrite Hrid in Hk.
    assert (Hnx : (Team._next_robot_id tm <= nx)%Z /\ (rid < nx)%Z).
    { subst nx rid. destruct robot_id; lia. }
    destruct Hk as [-> | Hk]; [lia |]. specialize (Hlt k Hk). lia.
  - intros r' Hr'. apply roster_set_in in Hr'.
    destruct Hr' as [-> | Hr']; [reflexivity | exact (Htid r' Hr')].
  - destruct (Team.goalie_id tm) as [g |]; apply Hin.
    + right. exact Hg.
    + left. symmetry. exact Hrid.
Qed.

Lemma wf_remove_robot (rid : Z) (tm : Team.t) :
  TeamCalls.well_formed tm -> TeamCalls.well_formed (Team.remove_robot rid tm).
Proof.
  intros (Hnd & Hlt & Htid & Hg).
  destruct (roster_pop_keys rid (Team.robots tm) Hnd) as [Hnd' Hin].
  assert (Hbase : forall g' : option Z,
            match g' with
            | Some g => In g (Roster.keys (Roster.pop rid (Team.robots tm)))
            | None => Roster.pop rid (Team.robots tm) = []
            end ->
            TeamCalls.well_formed
              (Team.with_goalie_id g'
                 (Team.with_robots (Roster.pop rid (Team.robots tm)) tm))).
  { intros g' Hg'. unfold TeamCalls.well_formed.
    cbn [Team.robots Team._next_robot_id Team.team_id Team.goalie_id
         Team.with_goalie_id Team.with_robots].
    split; [exact Hnd' |]. split; [| split].
    - intros k Hk. apply Hin in Hk. apply Hlt. tauto.
    - intros r Hr. apply Htid. exact (roster_pop_in rid _ r Hr).
    - exact Hg'. }
  unfold Team.remove_robot. cbn [Team.goalie_id Team.with_robots Team.robots].
  destruct (Team.goalie_id tm) as [g |] eqn:Eg.
  - destruct (Z.eqb_spec g rid) as [E | E].
    + apply Hbase.
      destruct (Roster.pop rid (Team.robots tm)) as [| r0 d]; cbn;
        [reflexivity | left; reflexivity].
    + specialize (Hbase (Some g)). cbv beta iota in Hbase.
      replace (Team.with_robots (Roster.pop rid (Team.robots tm)) tm)
        with (Team.with_goalie_id (Some g)
                (Team.with_robots (Roster.pop rid (Team.robots tm)) tm))
        by (unfold Team.with_goalie_id, Team.with_robots; cbn; rewrite Eg;
            reflexivity).
      apply Hbase. apply Hin. split; [exact Hg | exact E].
  - specialize (Hbase None). cbv beta iota in Hbase.
    replace (Team.with_robots (Roster.pop rid (Team.robots tm)) tm)
      with (Team.with_goalie_id None
              (Team.with_robots (Roster.pop rid (Team.robots tm)) tm))
      by (unfold Team.with_goalie_id, Team.with_robots; cbn; rewrite Eg;
          reflexivity).
    apply Hbase. rewrite Hg. reflexivity.
Qed.

Lemma wf_modify (rid : Z) (f : Robot.t -> Robot.t) (tm : Team.t) :
  (forall r, Robot.robot_id (f r) = Robot.robot_id r) ->
  (forall r, Robot.team_id (f r) = Robot.team_id r) ->
  TeamCalls.well_formed tm ->
  TeamCalls.well_formed
    (Team.with_robots (Roster.modify rid f (Team.robots tm)) tm).
Proof.
  intros Hid Htm (Hnd & Hlt & Htid & Hg). unfold TeamCalls.well_formed.
  cbn [Team.robots Team._next_robot_id Team.team_id Team.goalie_id Team.with_robots].
  rewrite (roster_modify_keys rid f _ Hid).
  split; [exact Hnd |]. split; [exact Hlt |]. split.
  - intros r Hr. unfold Roster.modify in Hr. apply in_map_iff in Hr.
    destruct Hr as (r0 & E & Hr0). subst r.
    destruct (Z.eqb (Robot.robot_id r0) rid); [rewrite Htm |]; apply Htid, Hr0.
  - destruct (Team.goalie_id tm); [exact Hg |].
    rewrite Hg. reflexivity.
Qed.

Lemma wf_set_active (rid : Z) (flag : bool) (tm : Team.t) :
  TeamCalls.well_formed tm -> TeamCalls.well_formed (Team.set_active rid flag tm).
Proof.
  intros Hwf. unfold Team.set_active.
  destruct (Team.get rid tm); [| exact Hwf].
  apply wf_modify; [reflexivity | reflexivity | exact Hwf].
Qed.

Lemma wf_set_goalie (rid : Z) (tm : Team.t) :
  TeamCalls.well_formed tm -> TeamCalls.well_formed (Team.set_goalie rid tm).
Proof.
  intros Hwf. unfold Team.set_goalie.
  destruct (Roster.get rid (Team.robots tm)) as [r |] eqn:E; [| exact Hwf].
  destruct Hwf as (Hnd & Hlt & Htid & Hg). unfold TeamCalls.well_formed.
  cbn [Team.robots Team._next_robot_id Team.team_id Team.goalie_id
       Team.with_goalie_id].
  split; [exact Hnd |]. split; [exact Hlt |]. split; [exact Htid |].
  destruct (roster_get_in rid _ r E) as [Hin Hid].
  rewrite <- Hid. apply in_map. exact Hin.
Qed.

Lemma wf_update (dt : R) (tm : Team.t) :
  TeamCalls.well_formed tm -> TeamCalls.well_formed (Team.update dt tm).
Proof.
  intros (Hnd & Hlt & Htid & Hg). unfold TeamCalls.well_formed, Team.update.
  cbn [Team.robots Team._next_robot_id Team.team_id Team.goalie_id Team.with_robots].
  assert (Ek : Roster.keys (map (Robot.update dt) (Team.robots tm))
               = Roster.keys (Team.robots tm)).
  { unfold Roster.keys. rewrite map_map. apply map_ext.
    intros r. apply update_ids. }
  rewrite Ek. split; [exact Hnd |]. split; [exact Hlt |]. split.
  - intros r Hr. apply in_map_iff in Hr. destruct Hr as (r0 & <- & Hr0).
    destruct (update_ids dt r0) as (_ & -> & _). apply Htid, Hr0.
  - destruct (Team.goalie_id tm); [exact Hg |]. rewrite Hg. reflexivity.
Qed.

Lemma wf_ensure_size (n : Z) (tm : Team.t) :
  TeamCalls.well_formed tm -> TeamCalls.well_formed (Team.ensure_size n tm).
Proof.
  intros Hwf. unfold Team.ensure_size.
  destruct (Z.ltb _ _).
  - generalize (Z.to_nat (Z.max 1 n - Z.of_nat (length (Team.robots tm)))).
    intros k. induction k as [| k IH]; [exact Hwf |].
    rewrite Nat.iter_succ. apply wf_add_robot. exact IH.
  - destruct (Z.ltb _ _); [| exact Hwf].
    apply fold_left_inv; [| exact Hwf].
    intros a b Ha. apply wf_remove_robot. exact Ha.
Qed.

Lemma ensure_size_nonempty (n : Z) (tm : Team.t) :
  Team.robots (Team.ensure_size n tm) = [] -> False.
Proof.
  destruct (Team.robots tm) as [| r0 d] eqn:E.
  - destruct (ensure_size_empty n tm E) as (_ & H & _). exact H.
  - unfold Team.ensure_size. rewrite E.
    destruct (Z.ltb_spec (Z.of_nat (length (r0 :: d))) (Z.max 1 n)) as [H | H].
    + remember (Z.to_nat (Z.max 1 n - Z.of_nat (length (r0 :: d)))) as k eqn:Ek.
      destruct k as [| k]; [lia |].
      rewrite Nat.iter_succ. intros Hnil.
      set (tm' := Nat.iter k (Team.add_robot None None) tm) in *.
      unfold Team.add_robot, Team._alloc_id in Hnil.
      cbn [Team.robots Team.with_robots Team.with_next_robot_id Team.goalie_id
           Team.team_id] in Hnil.
      destruct (Team.goalie_id tm');
        cbn [Team.robots Team.with_robots Team.with_goalie_id] in Hnil;
        destruct (Team.robots tm'); cbn in Hnil;
        try discriminate;
        destruct (Z.eqb _ _); discriminate.
    + destruct (Z.ltb_spec (Z.max 1 n) (Z.of_nat (length (r0 :: d)))) as [H' | H'];
        [| rewrite E; discriminate].
      (* the removals leave at least one robot *)
      intros Hnil.
      assert (Hlen : forall l (t0 : Team.t),
                 (length l < length (Team.robots t0))%nat ->
                 Team.robots (fold_left (fun tm rid => Team.remove_robot rid tm) l t0)
                 <> []).
      { induction l as [| k l IH]; intros t0 Hl; cbn.
        - destruct (Team.robots t0); [cbn in Hl; lia | discriminate].
        - apply IH. cbn in Hl.
          assert (Hp : forall d0 : Roster.t,
                     (length d0 <= S (length (Roster.pop k d0)))%nat).
          { induction d0 as [| a d0 IHd]; cbn; [lia |].
            destruct (Z.eqb _ _); cbn; lia. }
          specialize (Hp (Team.robots t0)).
          unfold Team.remove_robot.
          cbn [Team.goalie_id Team.with_robots Team.robots].
          destruct (Team.goalie_id t0); [destruct (Z.eqb _ _) |];
            cbn [Team.robots Team.with_robots Team.with_goalie_id]; lia. }
      apply (Hlen _ tm) in Hnil; [exact Hnil |].
      rewrite E. rewrite length_firstn.
      apply Nat.min_lt_iff. left. lia.
Qed.

Lemma wf_auto_position_kickoff (fw fh mg : R) (tm : Team.t) :
  TeamCalls.well_formed tm ->
  TeamCalls.well_formed (Team.auto_position_kickoff fw fh mg tm).
Proof.
  intros Hwf. unfold Team.auto_position_kickoff.
  set (tm1 := match Team.robots_list tm with
              | [] => Team.ensure_size (Team.max_size tm) tm
              | _ :: _ => tm
              end).
  assert (Hwf1 : TeamCalls.well_formed tm1).
  { subst tm1. destruct (Team.robots_list tm); [apply wf_ensure_size |]; exact Hwf. }
  assert (Hne : Team.robots tm1 <> []).
  { subst tm1. destruct (Team.robots_list tm) eqn:E.
    - intros H. exact (ensure_size_nonempty _ _ H).
    - intros H. unfold Team.robots_list in E.
      assert (E' : Roster.sort_by
                     (fun a b => Z.leb (Robot.robot_id a) (Robot.robot_id b))
                     (Team.robots tm) = []).
      { apply sort_by_nil_iff. exact H. }
      rewrite E' in E. discriminate. }
  destruct (Team.goalie_id tm1) as [g |] eqn:Eg.
  - apply fold_left_inv; [| exact Hwf1].
    intros a [r p] Ha. destruct (Team.clip_xy _ _ p).
    apply wf_modify; [reflexivity | reflexivity | exact Ha].
  - exfalso. destruct Hwf1 as (_ & _ & _ & Hg). rewrite Eg in Hg.
    exact (Hne Hg).
Qed.

(** X12. Every sequence of calls of the methods that change a team
    ([add_robot] of a fresh robot, [remove_robot], [set_active],
    [set_goalie], [update], [ensure_size], [auto_position_kickoff])
    keeps a well-formed team well-formed: distinct ids below the next
    id to allot, every robot carrying the team's id, and a goalkeeper
    id that names a member and is unset only while the team is
    empty. *)
Theorem X12_team_calls_keep_team_well_formed (cs : list TeamCalls.call)
    (tm : Team.t) :
  TeamCalls.well_formed tm -> TeamCalls.well_formed (TeamCalls.run_all cs tm).
Proof.
  intros Hwf. unfold TeamCalls.run_all. apply fold_left_inv; [| exact Hwf].
  intros a c Ha. destruct c; cbn [TeamCalls.run].
  - apply wf_add_robot, Ha.
  - apply wf_remove_robot, Ha.
  - apply wf_set_active, Ha.
  - apply wf_set_goalie, Ha.
  - apply wf_update, Ha.
  - apply wf_ensure_size, Ha.
  - apply wf_auto_position_kickoff, Ha.
Qed.

Lemma X12_team_calls_keep_team_well_formed_witness :
  TeamCalls.well_formed
    (TeamCalls.run_all
       [TeamCalls.EnsureSize 3; TeamCalls.RemoveRobot 1;
        TeamCalls.AddRobot (Some 7%Z); TeamCalls.SetGoalie 7;
        TeamCalls.AutoPositionKickoff 22 14 0.5; TeamCalls.Update 0.02]
       (World.team_left World.default)).
Proof.
  apply (X12_team_calls_keep_team_well_formed _ (World.team_left World.default)).
  unfold TeamCalls.well_formed. cbn.
  split; [constructor |]. split; [intros k [] |]. split; [intros r [] | reflexivity].
Defined.

Lemma remove_robot_robots (rid : Z) (tm : Team.t) :
  Team.robots (Team.remove_robot rid tm) = Roster.pop rid (Team.robots tm).
Proof.
  unfold Team.remove_robot. cbn [Team.goalie_id Team.with_robots Team.robots].
  destruct (Team.goalie_id tm); [destruct (Z.eqb _ _) |]; reflexivity.
Qed.

Lemma add_robot_length (tm : Team.t) :
  (forall k, In k (Roster.keys (Team.robots tm)) ->
             (k < Team._next_robot_id tm)%Z) ->
  length (Team.robots (Team.add_robot None None tm))
  = S (length (Team.robots tm))
  /\ forall k, In k (Roster.keys (Team.robots (Team.add_robot None None tm))) ->
               (k < Team._next_robot_id (Team.add_robot None None tm))%Z.
Proof.
  intros Hlt.
  assert (E : Team.robots (Team.add_robot None None tm)
              = Roster.set (Robot.with_ids (Team._next_robot_id tm)
                              (Team.team_id tm) Robot.default)
                           (Team.robots tm)
              /\ Team._next_robot_id (Team.add_robot None None tm)
                 = (Team._next_robot_id tm + 1)%Z).
  { unfold Team.add_robot, Team._alloc_id.
    cbn [Team.goalie_id Team.with_robots Team.with_next_robot_id
         Team.team_id Team.robots].
    destruct (Team.goalie_id tm); split; reflexivity. }
  destruct E as [E1 E2]. rewrite E1, E2. split.
  - apply roster_set_length. intros Hin. apply Hlt in Hin.
    cbn [Robot.robot_id Robot.with_ids] in Hin. lia.
  - intros k Hk. unfold Roster.keys in Hk. apply in_map_iff in Hk.
    destruct Hk as (r & <- & Hr). apply roster_set_in in Hr.
    destruct Hr as [-> | Hr].
    + cbn [Robot.robot_id Robot.with_ids]. lia.
    + assert (Robot.robot_id r < Team._next_robot_id tm)%Z; [| lia].
      apply Hlt. apply in_map. exact Hr.
Qed.

Lemma remove_all_length (l : list Z) (tm : Team.t) :
  NoDup l -> NoDup (Roster.keys (Team.robots tm)) ->
  (forall k, In k l -> In k (Roster.keys (Team.robots tm))) ->
  (length (Team.robots (fold_left (fun tm rid => Team.remove_robot rid tm) l tm))
   + length l = length (Team.robots tm))%nat.
Proof.
  revert tm. induction l as [| k l IH]; intros tm Hl Hnd Hin; cbn [fold_left length].
  - lia.
  - inversion Hl as [| ? ? Hk Hl']; subst.
    destruct (roster_pop_keys k (Team.robots tm) Hnd) as [Hnd' Hkeys].
    assert (Hin' : forall k', In k' l ->
                     In k' (Roster.keys (Team.robots (Team.remove_robot k tm)))).
    { intros k' Hk'. rewrite remove_robot_robots. apply Hkeys.
      split; [apply Hin; right; exact Hk' |]. intros ->. contradiction. }
    assert (Hnd2 : NoDup (Roster.keys (Team.robots (Team.remove_robot k tm)))).
    { rewrite remove_robot_robots. exact Hnd'. }
    pose proof (IH (Team.remove_robot k tm) Hl' Hnd2 Hin') as H.
    rewrite (remove_robot_robots k tm) in H.
    pose proof (roster_pop_length k (Team.robots tm) (Hin k (or_introl eq_refl))).
    lia.
Qed.

Lemma NoDup_firstn_of {A : Type} (n : nat) (l : list A) :
  NoDup l -> NoDup (firstn n l).
Proof.
  intros H. rewrite <- (firstn_skipn n l) in H.
  exact (NoDup_app_remove_r _ _ H).
Qed.

Lemma In_firstn_of {A : Type} (n : nat) (l : list A) (a : A) :
  In a (firstn n l) -> In a l.
Proof.
  intros H. rewrite <- (firstn_skipn n l). apply in_or_app. left. exact H.
Qed.

(** X13. In a team whose ids are distinct and below the next id to
    allot, [ensure_size n] leaves exactly [max(1, n)] robots, whether
    it has to add robots or to remove some. *)
Theorem X13_ensure_size_gives_n_robots (n : Z) (tm : Team.t) :
  NoDup (Roster.keys (Team.robots tm)) ->
  (forall k, In k (Roster.keys (Team.robots tm)) ->
             (k < Team._next_robot_id tm)%Z) ->
  length (Team.robots (Team.ensure_size n tm)) = Z.to_nat (Z.max 1 n).
Proof.
  intros Hnd Hlt. unfold Team.ensure_size.
  set (cur := length (Team.robots tm)).
  destruct (Z.ltb_spec (Z.of_nat cur) (Z.max 1 n)) as [H | H].
  - assert (Hk : forall k,
               length (Team.robots (Nat.iter k (Team.add_robot None None) tm))
               = (cur + k)%nat
               /\ forall i,
                    In i (Roster.keys
                            (Team.robots (Nat.iter k (Team.add_robot None None) tm))) ->
                    (i < Team._next_robot_id
                           (Nat.iter k (Team.add_robot None None) tm))%Z).
    { induction k as [| k [IH1 IH2]].
      - cbn [Nat.iter nat_rect]. split; [subst cur; lia | exact Hlt].
      - rewrite Nat.iter_succ.
        destruct (add_robot_length _ IH2) as [E1 E2].
        split; [rewrite E1, IH1; lia | exact E2]. }
    rewrite (proj1 (Hk _)). lia.
  - destruct (Z.ltb_spec (Z.max 1 n) (Z.of_nat cur)) as [H' | H']; [| subst cur; lia].
    set (l := firstn (Z.to_nat (Z.of_nat cur - Z.max 1 n))
                (rev (Roster.sort_by Z.leb (Roster.keys (Team.robots tm))))).
    pose proof (sort_by_perm Z.leb (Roster.keys (Team.robots tm))) as Hp.
    assert (Hrev : Permutation
                     (rev (Roster.sort_by Z.leb (Roster.keys (Team.robots tm))))
                     (Roster.keys (Team.robots tm))).
    { eapply Permutation_trans; [apply Permutation_sym, Permutation_rev | exact Hp]. }
    assert (Hl1 : NoDup l).
    { subst l. apply NoDup_firstn_of.
      eapply Permutation_NoDup; [apply Permutation_sym; exact Hrev | exact Hnd]. }
    assert (Hl2 : forall k, In k l -> In k (Roster.keys (Team.robots tm))).
    { intros k Hk. subst l. apply In_firstn_of in Hk.
      eapply Permutation_in; [exact Hrev | exact Hk]. }
    assert (Hl3 : length l = Z.to_nat (Z.of_nat cur - Z.max 1 n)).
    { subst l. rewrite length_firstn.
      rewrite (Permutation_length Hrev). unfold Roster.keys.
      rewrite length_map. fold cur. lia. }
    pose proof (remove_all_length l tm Hl1 Hnd Hl2) as Hlen.
    fold cur in Hlen. lia.
Qed.

Lemma X13_ensure_size_gives_n_robots_witness :
  length (Team.robots (Team.ensure_size 3 (World.team_left World.default)))
  = Z.to_nat (Z.max 1 3).
Proof.
  apply (X13_ensure_size_gives_n_robots 3 (World.team_left World.default)).
  - cbn. constructor.
  - cbn. intros k [].
Defined.

(** ** models/team.py: the nearest robot *)

Lemma nearest_fold (x y : R) (l : list Robot.t) (best : option (Robot.t * R)) :
  let d2 := fun r => (Robot.x r - x) * (Robot.x r - x)
                     + (Robot.y r - y) * (Robot.y r - y) in
  match best with Some (b, bd) => bd = d2 b | None => True end ->
  match fold_left (Team.nearest_step x y) l best with
  | None => best = None /\ l = []
  | Some (r, d) =>
      d = d2 r
      /\ (In r l \/ exists bd, best = Some (r, bd))
      /\ (forall r', In r' l -> d2 r <= d2 r')
      /\ (forall b bd, best = Some (b, bd) -> d2 r <= bd)
  end.
Proof.
  intros d2. revert best. induction l as [| a l IH]; intros best Hb.
  - cbn [fold_left]. destruct best as [[b bd] |].
    + split; [exact Hb |]. split; [right; exists bd; reflexivity |].
      split; [intros r' [] |]. intros b' bd' E. injection E as <- <-. lra.
    + split; reflexivity.
  - cbn [fold_left].
    assert (Hstep : match Team.nearest_step x y best a with
                    | Some (b, bd) => bd = d2 b
                    | None => True
                    end
                    /\ exists b bd, Team.nearest_step x y best a = Some (b, bd)
                       /\ d2 b <= d2 a
                       /\ (b = a \/ best = Some (b, bd))
                       /\ (forall b0 bd0, best = Some (b0, bd0) -> d2 b <= bd0)).
    { unfold Team.nearest_step. fold (d2 a). destruct best as [[b bd] |].
      - destruct (Py.ltb (d2 a) bd) eqn:E.
        + apply ltb_spec in E. split; [reflexivity |].
          exists a, (d2 a). split; [reflexivity |]. split; [lra |].
          split; [left; reflexivity |].
          intros b0 bd0 E0. injection E0 as <- <-. lra.
        + apply ltb_nspec in E. split; [exact Hb |].
          exists b, bd. split; [reflexivity |]. split; [lra |].
          split; [right; reflexivity |].
          intros b0 bd0 E0. injection E0 as <- <-. lra.
      - split; [reflexivity |]. exists a, (d2 a). split; [reflexivity |].
        split; [lra |]. split; [left; reflexivity |]. intros b0 bd0 E0. discriminate. }
    destruct Hstep as [Hinv (b & bd & Eb & Hba & Hor & Hbest)].
    specialize (IH _ Hinv).
    destruct (fold_left (Team.nearest_step x y) l (Team.nearest_step x y best a))
      as [[r d] |].
    + destruct IH as (Hd & Hin & Hmin & Hprev).
      rewrite Eb in Hin, Hprev. rewrite Eb in Hinv.
      assert (Hrb : d2 r <= d2 b).
      { rewrite <- Hinv. apply (Hprev b bd). reflexivity. }
      split; [exact Hd |]. split; [| split].
      * destruct Hin as [Hin | [bd' E]].
        -- left. right. exact Hin.
        -- injection E as Er Ebd. subst.
           destruct Hor as [-> | Hor]; [left; left; reflexivity |].
           right. eexists. exact Hor.
      * intros r' [<- | Hr']; [lra | apply Hmin, Hr'].
      * intros b0 bd0 E0. specialize (Hbest b0 bd0 E0). lra.
    + destruct IH as [E _]. rewrite Eb in E. discriminate.
Qed.

(** X14. [nearest_robot_to] returns a robot of the team (an active one
    when [active_only] is set) that is at least as near to the point as
    every other such robot, and returns nothing exactly when the team
    has no such robot. *)
Theorem X14_nearest_robot_to_is_nearest (x y : R) (active_only : bool)
    (tm : Team.t) :
  let d2 := fun r => (Robot.x r - x) * (Robot.x r - x)
                     + (Robot.y r - y) * (Robot.y r - y) in
  let candidate := fun r => In r (Team.robots tm)
                            /\ (active_only = true -> Robot.active r = true) in
  match Team.nearest_robot_to x y active_only tm with
  | Some r => candidate r /\ forall r', candidate r' -> d2 r <= d2 r'
  | None => forall r', ~ candidate r'
  end.
Proof.
  intros d2 candidate. unfold Team.nearest_robot_to.
  set (cands := if active_only then Team.active_robots tm else Team.robots_list tm).
  assert (Hc : forall r, In r cands <-> candidate r).
  { intros r. subst cands candidate. cbv beta.
    pose proof (sort_by_perm
                  (fun a b => Z.leb (Robot.robot_id a) (Robot.robot_id b))
                  (Team.robots tm)) as Hp.
    destruct active_only.
    - unfold Team.active_robots, Team.robots_list. rewrite filter_In. split.
      + intros [Hin Ha]. split; [eapply Permutation_in; eassumption | intros _; exact Ha].
      + intros [Hin Ha]. split;
          [eapply Permutation_in; [apply Permutation_sym; exact Hp | exact Hin]
          | apply Ha; reflexivity].
    - unfold Team.robots_list. split.
      + intros Hin. split; [eapply Permutation_in; eassumption | discriminate].
      + intros [Hin _].
        eapply Permutation_in; [apply Permutation_sym; exact Hp | exact Hin]. }
  pose proof (nearest_fold x y cands None I) as H. cbv zeta in H.
  destruct (fold_left (Team.nearest_step x y) cands None) as [[r d] |];
    cbn [option_map fst].
  - destruct H as (_ & Hin & Hmin & _).
    destruct Hin as [Hin | [bd E]]; [| discriminate].
    split; [apply Hc, Hin |]. intros r' Hr'. apply Hmin, Hc, Hr'.
  - destruct H as [_ E]. intros r' Hr'. apply Hc in Hr'. rewrite E in Hr'.
    exact Hr'.
Qed.

(** ** simulation/collisions.py: what the overlap removal leaves alone *)

Lemma moved_refl (r : Robot.t) : Frame.moved r r.
Proof.
  exists (Robot.x r), (Robot.y r), (Robot.vx r), (Robot.vy r).
  destruct r. reflexivity.
Qed.

Lemma moved_with_xy (a b : R) (r r' : Robot.t) :
  Frame.moved r r' -> Frame.moved r (Robot.with_xy a b r').
Proof.
  intros (x & y & vx & vy & ->). exists a, b, vx, vy. reflexivity.
Qed.

Lemma moved_with_vxy (a b : R) (r r' : Robot.t) :
  Frame.moved r r' -> Frame.moved r (Robot.with_vxy a b r').
Proof.
  intros (x & y & vx & vy & ->). exists x, y, a, b. reflexivity.
Qed.

Lemma moved_clamp (w : World.t) (r r' : Robot.t) :
  Frame.moved r r' -> Frame.moved r (Collisions.clamp_robot_inside_field w r').
Proof.
  intros H. unfold Collisions.clamp_robot_inside_field.
  destruct (Robot.half_extents_xy r'). apply moved_with_xy, moved_with_xy, H.
Qed.

Lemma moved_nth (l l' : list Robot.t) (i : nat) (r d : Robot.t) :
  Forall2 Frame.moved l l' -> nth_error l i = Some r ->
  Frame.moved r (nth i l' d).
Proof.
  intros H. revert i. induction H as [| a b l l' Hab H IH]; intros i Hi.
  - destruct i; discriminate.
  - destruct i as [| i]; cbn in *; [injection Hi as <-; exact Hab | apply IH, Hi].
Qed.

Lemma moved_list_set (l l' : list Robot.t) (i : nat) (v : Robot.t) :
  Forall2 Frame.moved l l' ->
  (forall r, nth_error l i = Some r -> Frame.moved r v) ->
  Forall2 Frame.moved l (Collisions.list_set i v l').
Proof.
  intros H. revert i. induction H as [| a b l l' Hab H IH]; intros i Hv.
  - destruct i; constructor.
  - destruct i as [| i]; cbn.
    + constructor; [apply Hv; reflexivity | exact H].
    + constructor; [exact Hab | apply IH; intros r Hr; apply Hv; exact Hr].
Qed.

Ltac moved_step H :=
  apply moved_list_set;
  [ apply moved_list_set;
    [ exact H
    | let r := fresh "r" in let Hr := fresh "Hr" in
      intros r Hr;
      repeat first [apply moved_with_vxy | apply moved_with_xy];
      exact (moved_nth _ _ _ _ _ H Hr) ]
  | let r := fresh "r" in let Hr := fresh "Hr" in
    intros r Hr;
    repeat first [apply moved_with_vxy | apply moved_with_xy];
    exact (moved_nth _ _ _ _ _ H Hr) ].

Lemma resolve_pair_moved (l0 : list Robot.t) (radii : list R) (e l : R)
    (i : nat) (xi yi : R) (st : list Robot.t * Rng.t) (j : nat) :
  Forall2 Frame.moved l0 (fst st) ->
  Forall2 Frame.moved l0 (fst (Collisions.resolve_pair radii e l i xi yi st j)).
Proof.
  destruct st as [rs g]. cbn [fst]. intros H. unfold Collisions.resolve_pair.
  destruct (Py.ltb _ 1e-12).
  - destruct (Rng.random g) as [u g'].
    destruct (Py.leb _ _); [| destruct (Py.ltb _ 0)]; cbn [fst]; moved_step H.
  - destruct (Py.leb _ _); [| destruct (Py.ltb _ 0)]; cbn [fst]; moved_step H.
Qed.

Lemma resolve_from_moved (l0 : list Robot.t) (radii : list R) (e l : R) (n : nat)
    (order : list nat) (st : list Robot.t * Rng.t) (a : nat) :
  Forall2 Frame.moved l0 (fst st) ->
  Forall2 Frame.moved l0 (fst (Collisions.resolve_from radii e l n order st a)).
Proof.
  unfold Collisions.resolve_from.
  set (i := nth a order O). set (xi := Robot.x _). set (yi := Robot.y _).
  clearbody xi yi. generalize (seq (S i) (n - S i)). intros js. revert st.
  induction js as [| j js IH]; intros st H; [exact H |].
  cbn [fold_left]. apply IH, resolve_pair_moved, H.
Qed.

Lemma moved_map_clamp (w : World.t) (l0 rs : list Robot.t) :
  Forall2 Frame.moved l0 rs ->
  Forall2 Frame.moved l0 (map (Collisions.clamp_robot_inside_field w) rs).
Proof.
  intros H. induction H as [| a b l l' Hab H IH]; cbn; constructor;
    [apply moved_clamp, Hab | exact IH].
Qed.

Lemma relax_pass_moved (l0 : list Robot.t) (w : World.t) (radii : list R)
    (e l : R) (n : nat) (st : list Robot.t * Rng.t) :
  Forall2 Frame.moved l0 (fst st) ->
  Forall2 Frame.moved l0 (fst (Collisions.relax_pass w radii e l n st)).
Proof.
  destruct st as [robots g]. cbn [fst]. intros H. unfold Collisions.relax_pass.
  destruct (Rng.shuffle n g) as [order g1].
  assert (Hf : forall (xs : list nat) (st : list Robot.t * Rng.t),
             Forall2 Frame.moved l0 (fst st) ->
             Forall2 Frame.moved l0
               (fst (fold_left (Collisions.resolve_from radii e l n order) xs st))).
  { induction xs as [| a xs IH]; intros st Hst; [exact Hst |].
    cbn [fold_left]. apply IH, resolve_from_moved, Hst. }
  specialize (Hf (seq 0 n) (robots, g1) H).
  destruct (fold_left _ (seq 0 n) (robots, g1)) as [rs g2].
  cbn [fst] in *. apply moved_map_clamp, Hf.
Qed.

Lemma moved_list_refl (l : list Robot.t) : Forall2 Frame.moved l l.
Proof. induction l; constructor; [apply moved_refl | assumption]. Qed.

Lemma scatter_nth (P : Robot.t -> Robot.t -> Prop) (all acts : list Robot.t)
    (k : nat) (r : Robot.t) :
  Forall2 P (filter Robot.active all) acts ->
  nth_error all k = Some r ->
  exists r', nth_error (Collisions.scatter all acts) k = Some r'
             /\ (if Robot.active r then P r r' else r' = r).
Proof.
  revert acts k. induction all as [| r0 all IH]; intros acts k H Hk.
  - destruct k; discriminate.
  - cbn [filter] in H. cbn [Collisions.scatter].
    destruct (Robot.active r0) eqn:Ea.
    + inversion H as [| ? a ? acts' Hp H']; subst.
      destruct k as [| k]; cbn in Hk |- *.
      * injection Hk as <-. exists a. rewrite Ea. split; [reflexivity | exact Hp].
      * apply IH; assumption.
    + destruct k as [| k]; cbn in Hk |- *.
      * injection Hk as <-. exists r0. rewrite Ea. split; reflexivity.
      * apply IH; assumption.
Qed.

Lemma enforce_no_overlap_moved (w : World.t) (it : Z) (c e l : R) (g : Rng.t) :
  exists rs,
    fst (Collisions.enforce_no_overlap w it c e l g)
    = World.with_all_robots (Collisions.scatter (World.all_robots w) rs) w
    /\ Forall2 Frame.moved (filter Robot.active (World.all_robots w)) rs.
Proof.
  unfold Collisions.enforce_no_overlap.
  change (WorldState.all_robots w) with (World.all_robots w).
  set (all := World.all_robots w). set (acts := filter Robot.active all).
  destruct (Nat.leb (length acts) 1).
  - eexists. split; [reflexivity |]. apply moved_map_clamp, moved_list_refl.
  - set (radii := map _ acts).
    assert (Hk : forall k,
               Forall2 Frame.moved acts
                 (fst (Nat.iter k (Collisions.relax_pass w radii e l (length acts))
                         (acts, g)))).
    { induction k as [| k IH]; [apply moved_list_refl |].
      rewrite Nat.iter_succ. apply relax_pass_moved, IH. }
    specialize (Hk (Z.to_nat (Z.max 1 it))).
    destruct (Nat.iter _ _ (acts, g)) as [rs g'].
    exists rs. split; [reflexivity | exact Hk].
Qed.

Lemma with_all_robots_settings (rs : list Robot.t) (w : World.t) :
  length rs = length (World.all_robots w) ->
  Frame.same_settings w (World.with_all_robots rs w).
Proof.
  intros Hl. rewrite all_robots_app, length_app in Hl.
  unfold Frame.same_settings, Frame.same_team, World.with_all_robots.
  cbn [World.field_w World.field_h World.score World.state World.cone_dist_on
       World.cone_angle_on_deg World.cone_dist_off World.cone_angle_off_deg
       World.sticky_enabled World.sticky_ball_radius World.sticky_gap
       World.sticky_clip_field World.team_left World.team_right World.with_teams
       Team.team_id Team.name Team.side Team.max_size Team.goalie_id
       Team._next_robot_id Team.robots Team.with_robots].
  rewrite length_firstn, length_skipn.
  repeat split; lia.
Qed.

(** X15. [enforce_no_overlap] changes nothing but the place and the
    velocity of active robots: an inactive robot is left exactly as it
    was, an active one keeps its heading, turn rate, commands, limits,
    flags and ids, and the ball, the time, the cooldown, the score, the
    state, the settings and the size of both rosters are untouched. *)
Theorem X15_overlap_removal_only_moves_active_robots (w : World.t) (it : Z)
    (c e l : R) (g : Rng.t) (k : nat) (r : Robot.t) :
  nth_error (World.all_robots w) k = Some r ->
  let w' := fst (Collisions.enforce_no_overlap w it c e l g) in
  (exists r', nth_error (World.all_robots w') k = Some r'
              /\ (if Robot.active r then Frame.moved r r' else r' = r))
  /\ Frame.same_settings w w'
  /\ World.ball w' = World.ball w
  /\ World.t_ w' = World.t_ w
  /\ World.kick_cooldown w' = World.kick_cooldown w.
Proof.
  intros Hk w'. subst w'.
  destruct (enforce_no_overlap_moved w it c e l g) as (rs & -> & Hrs).
  split; [| split; [| repeat split]].
  - rewrite all_robots_with_all_robots. apply scatter_nth; assumption.
  - apply with_all_robots_settings. apply scatter_length.
Qed.

Lemma X15_overlap_removal_only_moves_active_robots_witness :
  let w := Examples.at_the_wall in
  let w' := fst (Collisions.enforce_no_overlap w 6 0.01 0 0.10 Rng.identity) in
  (exists r', nth_error (World.all_robots w') 1 = Some r'
              /\ (if Robot.active Examples.wall_b
                  then Frame.moved Examples.wall_b r' else r' = Examples.wall_b))
  /\ Frame.same_settings w w'
  /\ World.ball w' = World.ball w
  /\ World.t_ w' = World.t_ w
  /\ World.kick_cooldown w' = World.kick_cooldown w.
Proof.
  intros w.
  apply (X15_overlap_removal_only_moves_active_robots w 6 0.01 0 0.10
           Rng.identity 1 Examples.wall_b).
  reflexivity.
Defined.

(** ** models/world.py: what a tick leaves alone *)

Lemma same_robot_refl (r : Robot.t) : Frame.same_robot r r.
Proof. unfold Frame.same_robot. repeat split. Qed.

Lemma same_robot_trans (r1 r2 r3 : Robot.t) :
  Frame.same_robot r1 r2 -> Frame.same_robot r2 r3 -> Frame.same_robot r1 r3.
Proof.
  unfold Frame.same_robot.
  intros (A1 & A2 & A3 & A4 & A5 & A6 & A7 & A8 & A9 & A10)
         (B1 & B2 & B3 & B4 & B5 & B6 & B7 & B8 & B9 & B10).
  repeat split; congruence.
Qed.

Lemma update_same_robot (dt : R) (r : Robot.t) :
  Frame.same_robot r (Robot.update dt r).
Proof.
  unfold Frame.same_robot, Robot.update.
  destruct (negb (Robot.active r) || Py.leb dt 0); [repeat split |].
  destruct (Py.ltb (Robot.max_speed r) _ && Py.ltb 0 (Robot.max_speed r));
    destruct (Py.ltb (Robot.max_accel r * dt) _ && Py.ltb 0 (Robot.max_accel r * dt));
    repeat split.
Qed.

Lemma moved_same_robot (r r' : Robot.t) :
  Frame.moved r r' -> Frame.same_robot r r'.
Proof. intros (x & y & vx & vy & ->). unfold Frame.same_robot. repeat split. Qed.

Lemma same_team_refl (tm : Team.t) : Frame.same_team tm tm.
Proof. unfold Frame.same_team. repeat split. Qed.

Lemma same_settings_refl (w : World.t) : Frame.same_settings w w.
Proof. unfold Frame.same_settings, Frame.same_team. repeat split. Qed.

Lemma same_settings_trans (w1 w2 w3 : World.t) :
  Frame.same_settings w1 w2 -> Frame.same_settings w2 w3 ->
  Frame.same_settings w1 w3.
Proof.
  unfold Frame.same_settings, Frame.same_team.
  intros (A1 & A2 & A3 & A4 & A5 & A6 & A7 & A8 & A9 & A10 & A11 & A12
          & (L1 & L2 & L3 & L4 & L5 & L6 & L7) & (R1 & R2 & R3 & R4 & R5 & R6 & R7))
         (B1 & B2 & B3 & B4 & B5 & B6 & B7 & B8 & B9 & B10 & B11 & B12
          & (M1 & M2 & M3 & M4 & M5 & M6 & M7) & (S1 & S2 & S3 & S4 & S5 & S6 & S7)).
  repeat split; congruence.
Qed.

Lemma ball_moved_refl (b : Ball.t) :
  b = Ball.set_vel (Ball.vx b) (Ball.vy b) (Ball.set_pos (Ball.x b) (Ball.y b) b).
Proof. destruct b. reflexivity. Qed.

(** The possession step: flags rewritten, ball possibly re-placed,
    cooldown counted down, nothing else. *)
Lemma possession_shape (dt : R) (w : World.t) :
  let w' := World._update_possession_and_anchor dt w in
  (exists f : nat -> bool,
     forall k, nth_error (World.all_robots w') k
               = option_map (fun r => Robot.with_has_ball (f k) r)
                            (nth_error (World.all_robots w) k))
  /\ Frame.same_settings w w'
  /\ World.t_ w' = World.t_ w
  /\ exists x y vx vy,
       World.ball w' = Ball.set_vel vx vy (Ball.set_pos x y (World.ball w)).
Proof.
  intros w'.
  assert (Hflags : forall (h : option nat) (rs : list Robot.t),
             exists f : nat -> bool,
               forall k, nth_error (World.set_flags h O rs) k
                         = option_map (fun r => Robot.with_has_ball (f k) r)
                                      (nth_error rs k)).
  { intros h rs.
    exists (fun k => match h with Some i => Nat.eqb k i | None => false end).
    intros k. rewrite set_flags_nth_error. reflexivity. }
  assert (Hfalse : forall rs : list Robot.t,
             exists f : nat -> bool,
               forall k, nth_error (map (Robot.with_has_ball false) rs) k
                         = option_map (fun r => Robot.with_has_ball (f k) r)
                                      (nth_error rs k)).
  { intros rs. exists (fun _ => false). intros k. apply nth_error_map. }
  assert (Hset : forall (rs : list Robot.t) (w0 : World.t),
             length rs = length (World.all_robots w) ->
             World.all_robots w0 = World.all_robots w ->
             Frame.same_settings w w0 ->
             Frame.same_settings w (World.with_all_robots rs w0)).
  { intros rs w0 Hl Ha Hs. eapply same_settings_trans; [exact Hs |].
    apply with_all_robots_settings. rewrite Ha. exact Hl. }
  subst w'. unfold World._update_possession_and_anchor.
  set (w1 := if Py.ltb 0 (World.kick_cooldown w)
             then World.with_kick_cooldown
                    (Rmax 0 (World.kick_cooldown w - dt)) w
             else w).
  assert (H1 : World.all_robots w1 = World.all_robots w
               /\ Frame.same_settings w w1 /\ World.t_ w1 = World.t_ w
               /\ World.ball w1 = World.ball w).
  { subst w1. destruct (Py.ltb 0 (World.kick_cooldown w));
      (split; [reflexivity |]); (split; [| split; reflexivity]).
    - unfold Frame.same_settings, Frame.same_team. repeat split.
    - apply same_settings_refl. }
  destruct H1 as (Ha & Hs & Ht & Hb).
  destruct (Py.ltb 0 (World.kick_cooldown w1)).
  - split; [| split; [| split]].
    + rewrite all_robots_with_all_robots, Ha. apply Hfalse.
    + apply Hset; [rewrite length_map, Ha; reflexivity | exact Ha | exact Hs].
    + exact Ht.
    + exists (Ball.x (World.ball w)), (Ball.y (World.ball w)),
        (Ball.vx (World.ball w)), (Ball.vy (World.ball w)).
      change (World.ball (World.with_all_robots _ w1)) with (World.ball w1).
      rewrite Hb. apply ball_moved_refl.
  - set (h := World.find_holder w1 _ _).
    set (w2 := World.with_all_robots (World.set_flags h O (World.all_robots w1)) w1).
    assert (H2 : (exists f : nat -> bool,
                    forall k, nth_error (World.all_robots w2) k
                              = option_map (fun r => Robot.with_has_ball (f k) r)
                                           (nth_error (World.all_robots w) k))
                 /\ Frame.same_settings w w2 /\ World.t_ w2 = World.t_ w
                 /\ World.ball w2 = World.ball w).
    { subst w2. split; [| split; [| split]].
      - rewrite all_robots_with_all_robots, Ha. apply Hflags.
      - apply Hset; [rewrite set_flags_length, Ha; reflexivity | exact Ha | exact Hs].
      - exact Ht.
      - exact Hb. }
    destruct H2 as (Hf2 & Hs2 & Ht2 & Hb2).
    assert (Hkeep : (exists f : nat -> bool,
                       forall k, nth_error (World.all_robots w2) k
                                 = option_map (fun r => Robot.with_has_ball (f k) r)
                                              (nth_error (World.all_robots w) k))
                    /\ Frame.same_settings w w2 /\ World.t_ w2 = World.t_ w
                    /\ exists x y vx vy,
                         World.ball w2
                         = Ball.set_vel vx vy (Ball.set_pos x y (World.ball w))).
    { split; [exact Hf2 |]. split; [exact Hs2 |]. split; [exact Ht2 |].
      exists (Ball.x (World.ball w)), (Ball.y (World.ball w)),
        (Ball.vx (World.ball w)), (Ball.vy (World.ball w)).
      rewrite Hb2. apply ball_moved_refl. }
    destruct h as [h |]; [| exact Hkeep].
    destruct (World.sticky_enabled w2); [| exact Hkeep].
    destruct (Robot.dribble_anchor _ _ _) as [[[ax ay] avx] avy].
    assert (Hball : forall ax' ay' : R,
               (exists f : nat -> bool,
                  forall k,
                    nth_error
                      (World.all_robots
                         (World.with_ball
                            (Ball.set_vel avx avy
                               (Ball.set_pos ax' ay' (World.ball w2))) w2)) k
                    = option_map (fun r => Robot.with_has_ball (f k) r)
                                 (nth_error (World.all_robots w) k))
               /\ Frame.same_settings w
                    (World.with_ball
                       (Ball.set_vel avx avy (Ball.set_pos ax' ay' (World.ball w2)))
                       w2)
               /\ World.t_ (World.with_ball
                              (Ball.set_vel avx avy
                                 (Ball.set_pos ax' ay' (World.ball w2))) w2)
                  = World.t_ w
               /\ exists x y vx vy,
                    World.ball (World.with_ball
                                  (Ball.set_vel avx avy
                                     (Ball.set_pos ax' ay' (World.ball w2))) w2)
                    = Ball.set_vel vx vy (Ball.set_pos x y (World.ball w))).
    { intros ax' ay'. split; [exact Hf2 |]. split; [exact Hs2 |].
      split; [exact Ht2 |]. exists ax', ay', avx, avy.
      cbn [World.ball World.with_ball]. rewrite Hb2. reflexivity. }
    destruct (World.sticky_clip_field w2); apply Hball.
Qed.

(** The first three steps of a tick, robot by robot. *)
Lemma update_before_ball_shape (dt : R) (w : World.t) (g : Rng.t) :
  let w3 := fst (World.update_before_ball dt w g) in
  (forall k r, nth_error (World.all_robots w) k = Some r ->
     exists r1 b,
       nth_error (World.all_robots w3) k = Some (Robot.with_has_ball b r1)
       /\ (if Robot.active r then Frame.moved (Robot.update dt r) r1 else r1 = r))
  /\ Frame.same_settings w w3
  /\ World.t_ w3 = World.t_ w
  /\ exists x y vx vy,
       World.ball w3 = Ball.set_vel vx vy (Ball.set_pos x y (World.ball w)).
Proof.
  intros w3. subst w3. rewrite update_before_ball_unfold.
  set (wa := World.with_teams (Team.update dt (World.team_left w))
                              (Team.update dt (World.team_right w)) w).
  destruct (team_update_settings dt w) as [Hsa Haa]. fold wa in Hsa, Haa.
  destruct (enforce_no_overlap_moved wa 6 0.01 0 0.10 g) as (rs & Eb & Hrs).
  rewrite Eb.
  set (wb := World.with_all_robots (Collisions.scatter (World.all_robots wa) rs) wa).
  assert (Hsb : Frame.same_settings wa wb).
  { apply with_all_robots_settings, scatter_length. }
  destruct (possession_shape dt wb) as ((f & Hf) & Hsc & Htc & (x & y & vx & vy & Hbc)).
  split; [| split; [| split]].
  - intros k r Hk.
    assert (Hka : nth_error (World.all_robots wa) k = Some (Robot.update dt r)).
    { rewrite Haa. apply map_nth_error. exact Hk. }
    destruct (scatter_nth Frame.moved _ rs k _ Hrs Hka) as (r1 & Hr1 & Hm).
    destruct (update_ids dt r) as (_ & _ & Hact & _). rewrite Hact in Hm.
    exists r1, (f k). split.
    + rewrite Hf. subst wb. rewrite all_robots_with_all_robots, Hr1. reflexivity.
    + destruct (Robot.active r) eqn:Ea; [exact Hm |].
      rewrite Hm. apply update_skipped. left. exact Ea.
  - eapply same_settings_trans; [exact Hsa |].
    eapply same_settings_trans; [exact Hsb | exact Hsc].
  - rewrite Htc. reflexivity.
  - exists x, y, vx, vy. rewrite Hbc. reflexivity.
Qed.

Lemma ball_update_moved (dt : R) (fw fh : option R) (mode : BoundaryMode)
    (b : Ball.t) :
  exists x y vx vy,
    Ball.update dt fw fh mode b = Ball.set_vel vx vy (Ball.set_pos x y b).
Proof.
  unfold Ball.update. destruct (Py.leb dt 0).
  - exists (Ball.x b), (Ball.y b), (Ball.vx b), (Ball.vy b). apply ball_moved_refl.
  - destruct (Py.ltb _ _); destruct fw, fh; try (eexists _, _, _, _; reflexivity);
      destruct mode;
      repeat match goal with
             | |- context [Ball.clip_axis ?m ?p ?v] =>
                 destruct (Ball.clip_axis m p v)
             | |- context [Ball.bounce_axis ?e ?m ?p ?v] =>
                 destruct (Ball.bounce_axis e m p v)
             end;
      eexists _, _, _, _; reflexivity.
Qed.

(** X16. A tick changes the time, the ball's place and velocity, the
    robots and the cooldown, and nothing else: the field, the score,
    the state, the possession settings, both teams' ids, sides,
    goalkeepers and roster sizes and the ball's parameters are those
    of before; the time advances by [dt] when [dt] is positive and
    stays otherwise. *)
Theorem X16_update_keeps_settings (dt : R) (w : World.t) (g : Rng.t) :
  let w' := fst (World.update dt w g) in
  Frame.same_settings w w'
  /\ World.t_ w' = World.t_ w + Rmax 0 dt
  /\ exists x y vx vy,
       World.ball w' = Ball.set_vel vx vy (Ball.set_pos x y (World.ball w)).
Proof.
  intros w'. subst w'.
  destruct (Rle_dec dt 0) as [Hdt | Hdt].
  - unfold World.update. rewrite (leb_true dt 0 Hdt). cbn [fst].
    split; [apply same_settings_refl |]. split.
    + rewrite Rmax_left by lra. lra.
    + exists (Ball.x (World.ball w)), (Ball.y (World.ball w)),
        (Ball.vx (World.ball w)), (Ball.vy (World.ball w)).
      apply ball_moved_refl.
  - assert (Hpos : 0 < dt) by lra.
    rewrite (update_unfold dt w g Hpos). cbv zeta.
    destruct (update_before_ball_shape dt w g)
      as (_ & Hs & Ht & (x & y & vx & vy & Hb)).
    cbv zeta in Hs, Ht, Hb.
    set (w3 := fst (World.update_before_ball dt w g)) in *.
    split; [| split].
    + eapply same_settings_trans; [exact Hs |].
      unfold Frame.same_settings, Frame.same_team. repeat split.
    + cbn [World.t_ World.with_t]. rewrite Ht, Rmax_right by lra. reflexivity.
    + cbn [World.ball World.with_t World.with_ball].
      destruct (ball_update_moved dt (Some (World.half_w w3)) (Some (World.half_h w3))
                  Clip (World.ball w3)) as (x' & y' & vx' & vy' & E).
      rewrite E, Hb. exists x', y', vx', vy'. reflexivity.
Qed.

(** X17. A tick keeps every robot in its place in its roster with its
    id, team, active flag, size, limits and time constants, and an
    inactive robot is not moved: at most its [has_ball] flag is
    rewritten. *)
Theorem X17_update_keeps_robot_identity (dt : R) (w : World.t) (g : Rng.t)
    (k : nat) (r : Robot.t) :
  nth_error (World.all_robots w) k = Some r ->
  exists r',
    nth_error (World.all_robots (fst (World.update dt w g))) k = Some r'
    /\ Frame.same_robot r r'
    /\ (Robot.active r = true \/ exists b, r' = Robot.with_has_ball b r).
Proof.
  intros Hk. destruct (Rle_dec dt 0) as [Hdt | Hdt].
  - unfold World.update. rewrite (leb_true dt 0 Hdt). cbn [fst].
    exists r. split; [exact Hk |]. split; [apply same_robot_refl |].
    right. exists (Robot.has_ball r). destruct r. reflexivity.
  - assert (Hpos : 0 < dt) by lra.
    rewrite (update_unfold dt w g Hpos). cbv zeta.
    destruct (update_before_ball_shape dt w g) as (Hr & _). cbv zeta in Hr.
    destruct (Hr k r Hk) as (r1 & b & E & Hm).
    set (w3 := fst (World.update_before_ball dt w g)) in *.
    exists (Robot.with_has_ball b r1).
    split; [exact E |]. split.
    + apply same_robot_trans with r1;
        [| unfold Frame.same_robot; repeat split].
      destruct (Robot.active r).
      * apply same_robot_trans with (Robot.update dt r);
          [apply update_same_robot | apply moved_same_robot, Hm].
      * rewrite Hm. apply same_robot_refl.
    + destruct (Robot.active r); [left; reflexivity |].
      right. exists b. rewrite Hm. reflexivity.
Qed.

Lemma X17_update_keeps_robot_identity_witness :
  exists r',
    nth_error (World.all_robots
                 (fst (World.update 0.02 Examples.at_the_wall Rng.identity))) 1
    = Some r'
    /\ Frame.same_robot Examples.wall_b r'
    /\ (Robot.active Examples.wall_b = true
        \/ exists b, r' = Robot.with_has_ball b Examples.wall_b).
Proof.
  apply (X17_update_keeps_robot_identity 0.02 Examples.at_the_wall Rng.identity
           1 Examples.wall_b).
  reflexivity.
Defined.

(** X18. After a tick with a positive time step on a field that leaves
    room for the ball, the ball's centre is at least one radius inside
    the field, whoever holds the ball and wherever it was. *)
Theorem X18_update_keeps_ball_in_field (dt : R) (w : World.t) (g : Rng.t) :
  0 < dt ->
  Ball.radius (World.ball w) <= World.half_w w ->
  Ball.radius (World.ball w) <= World.half_h w ->
  let b' := World.ball (fst (World.update dt w g)) in
  - (World.half_w w - Ball.radius (World.ball w)) <= Ball.x b'
    <= World.half_w w - Ball.radius (World.ball w)
  /\ - (World.half_h w - Ball.radius (World.ball w)) <= Ball.y b'
     <= World.half_h w - Ball.radius (World.ball w).
Proof.
  intros Hdt Hw Hh b'. subst b'.
  rewrite (update_unfold dt w g Hdt). cbv zeta.
  destruct (update_before_ball_shape dt w g)
    as (_ & Hs & _ & (x & y & vx & vy & Hb)).
  cbv zeta in Hs, Hb.
  set (w3 := fst (World.update_before_ball dt w g)) in *.
  cbn [World.ball World.with_t World.with_ball].
  assert (Hr : Ball.radius (World.ball w3) = Ball.radius (World.ball w))
    by (rewrite Hb; reflexivity).
  assert (Hhw : World.half_w w3 = World.half_w w).
  { unfold World.half_w. destruct Hs as (-> & _). reflexivity. }
  assert (Hhh : World.half_h w3 = World.half_h w).
  { unfold World.half_h. destruct Hs as (_ & -> & _). reflexivity. }
  destruct (ball_update_bounded dt (World.half_w w3) (World.half_h w3) Clip
              (World.ball w3) Hdt) as (vx2 & vy2 & Ex & Ey).
  rewrite Ex, Ey, Hr, Hhw, Hhh.
  split; apply clip_axis_inside; lra.
Qed.

Lemma X18_update_keeps_ball_in_field_witness :
  let w := Examples.in_motion in
  let b' := World.ball (fst (World.update 0.02 w Rng.identity)) in
  - (World.half_w w - Ball.radius (World.ball w)) <= Ball.x b'
    <= World.half_w w - Ball.radius (World.ball w)
  /\ - (World.half_h w - Ball.radius (World.ball w)) <= Ball.y b'
     <= World.half_h w - Ball.radius (World.ball w).
Proof.
  intros w.
  apply (X18_update_keeps_ball_in_field 0.02 w Rng.identity); [lra | |];
    subst w; unfold World.half_w, World.half_h; fields; lra.
Defined.

(** ** simulation/collisions.py: the impulse between two robots *)

Lemma impulse_energy (a b p q s t e : R) :
  a * a + b * b = 1 -> -1 <= e <= 1 ->
  (s - p) * a + (t - q) * b < 0 ->
  (p - a * (- (1 + e) * ((s - p) * a + (t - q) * b) * 0.5))
  * (p - a * (- (1 + e) * ((s - p) * a + (t - q) * b) * 0.5))
  + (q - b * (- (1 + e) * ((s - p) * a + (t - q) * b) * 0.5))
    * (q - b * (- (1 + e) * ((s - p) * a + (t - q) * b) * 0.5))
  + ((s + a * (- (1 + e) * ((s - p) * a + (t - q) * b) * 0.5))
     * (s + a * (- (1 + e) * ((s - p) * a + (t - q) * b) * 0.5))
     + (t + b * (- (1 + e) * ((s - p) * a + (t - q) * b) * 0.5))
       * (t + b * (- (1 + e) * ((s - p) * a + (t - q) * b) * 0.5)))
  <= p * p + q * q + (s * s + t * t).
Proof.
  intros Hu He Hvn.
  replace 0.5 with (/ 2) by lra.
  set (vn := (s - p) * a + (t - q) * b) in *.
  set (J := - (1 + e) * vn * / 2).
  assert (HJ : 2 * J = - (1 + e) * vn) by (unfold J; field).
  clearbody J.
  replace ((p - a * J) * (p - a * J) + (q - b * J) * (q - b * J)
           + ((s + a * J) * (s + a * J) + (t + b * J) * (t + b * J)))
    with (p * p + q * q + (s * s + t * t) + 2 * J * vn + 2 * J * J * (a * a + b * b))
    by (unfold vn; ring).
  rewrite Hu.
  assert (H : 2 * (2 * J * vn + 2 * J * J * 1) = - ((1 + e) * (1 - e) * (vn * vn))).
  { replace (2 * (2 * J * vn + 2 * J * J * 1))
      with (2 * (2 * J) * vn + (2 * J) * (2 * J)) by ring.
    rewrite HJ. ring. }
  assert (0 <= (1 + e) * (1 - e)) by nra.
  assert (0 <= vn * vn) by nra.
  assert (0 <= (1 + e) * (1 - e) * (vn * vn)) by (apply Rmult_le_pos; assumption).
  lra.
Qed.

(** X19. The correction of one pair of robots in [enforce_no_overlap]
    is symmetric: whatever branch is taken, the two robots' positions
    keep their sum (the pair's centroid stays), their velocities keep
    their sum (the impulses are equal and opposite), and for a
    restitution between -1 and 1 the sum of their squared speeds does
    not grow. *)
Theorem X19_pair_correction_is_symmetric (radii : list R) (e l xi yi : R)
    (i j : nat) (rs : list Robot.t) (g : Rng.t) :
  i <> j -> (i < length rs)%nat -> (j < length rs)%nat -> -1 <= e <= 1 ->
  let ri := nth i rs Robot.default in
  let rj := nth j rs Robot.default in
  let rs' := fst (Collisions.resolve_pair radii e l i xi yi (rs, g) j) in
  let ri' := nth i rs' Robot.default in
  let rj' := nth j rs' Robot.default in
  Robot.x ri' + Robot.x rj' = Robot.x ri + Robot.x rj
  /\ Robot.y ri' + Robot.y rj' = Robot.y ri + Robot.y rj
  /\ Robot.vx ri' + Robot.vx rj' = Robot.vx ri + Robot.vx rj
  /\ Robot.vy ri' + Robot.vy rj' = Robot.vy ri + Robot.vy rj
  /\ Robot.vx ri' * Robot.vx ri' + Robot.vy ri' * Robot.vy ri'
     + (Robot.vx rj' * Robot.vx rj' + Robot.vy rj' * Robot.vy rj')
     <= Robot.vx ri * Robot.vx ri + Robot.vy ri * Robot.vy ri
        + (Robot.vx rj * Robot.vx rj + Robot.vy rj * Robot.vy rj).
Proof.
  intros Hij Hi Hj He. cbv zeta.
  set (ri := nth i rs Robot.default). set (rj := nth j rs Robot.default).
  assert (Hnth : forall (a b : Robot.t),
             nth i (Collisions.list_set j b (Collisions.list_set i a rs))
                 Robot.default = a
             /\ nth j (Collisions.list_set j b (Collisions.list_set i a rs))
                    Robot.default = b).
  { intros a b. split.
    - rewrite list_set_nth_other by lia. apply list_set_nth_same. exact Hi.
    - apply list_set_nth_same. rewrite list_set_length. exact Hj. }
  unfold Collisions.resolve_pair. fold ri rj.
  destruct (Py.ltb _ 1e-12).
  - destruct (Rng.random g) as [u g'].
    cbn [Robot.x Robot.y Robot.vx Robot.vy Robot.with_xy Robot.with_vxy].
    set (dx := _ - _). set (dy := Robot.y rj + _ - _).
    destruct (Py.leb _ _).
    + cbn [fst]. destruct (Hnth (Robot.with_xy (Robot.x ri - 1e-3 * cos (u * 2 * PI))
                                   (Robot.y ri - 1e-3 * sin (u * 2 * PI)) ri)
                                (Robot.with_xy (Robot.x rj + 1e-3 * cos (u * 2 * PI))
                                   (Robot.y rj + 1e-3 * sin (u * 2 * PI)) rj))
        as [-> ->].
      cbn [Robot.x Robot.y Robot.vx Robot.vy Robot.with_xy Robot.with_vxy].
      repeat split; lra.
    + set (d := sqrt (dx * dx + dy * dy)).
      assert (Hn : exists nx ny,
                 (if Py.ltb 1e-9 d then dx / d else 1) = nx
                 /\ (if Py.ltb 1e-9 d then dy / d else 0) = ny
                 /\ nx * nx + ny * ny = 1).
      { destruct (Py.ltb 1e-9 d) eqn:En.
        - apply ltb_spec in En. eexists _, _. split; [reflexivity |].
          split; [reflexivity |]. apply unit_normal. fold d. lra.
        - exists 1, 0. split; [reflexivity |]. split; [reflexivity | lra]. }
      destruct Hn as (nx & ny & -> & -> & Hu).
      destruct (Py.ltb _ 0) eqn:Evn; cbn [fst];
        match goal with
        | |- context [Collisions.list_set j ?b (Collisions.list_set i ?a rs)] =>
            destruct (Hnth a b) as [-> ->]
        end;
        cbn [Robot.x Robot.y Robot.vx Robot.vy Robot.with_xy Robot.with_vxy];
        (split; [lra |]); (split; [lra |]); (split; [lra |]); (split; [lra |]);
        [| lra].
      apply ltb_spec in Evn.
      cbn [Robot.x Robot.y Robot.vx Robot.vy Robot.with_xy Robot.with_vxy] in Evn.
      apply impulse_energy; assumption.
  - set (dx := Robot.x rj - xi). set (dy := Robot.y rj - yi).
    destruct (Py.leb _ _).
    + cbn [fst]. destruct (Hnth ri rj) as [-> ->]. repeat split; lra.
    + set (d := sqrt (dx * dx + dy * dy)).
      assert (Hn : exists nx ny,
                 (if Py.ltb 1e-9 d then dx / d else 1) = nx
                 /\ (if Py.ltb 1e-9 d then dy / d else 0) = ny
                 /\ nx * nx + ny * ny = 1).
      { destruct (Py.ltb 1e-9 d) eqn:En.
        - apply ltb_spec in En. eexists _, _. split; [reflexivity |].
          split; [reflexivity |]. apply unit_normal. fold d. lra.
        - exists 1, 0. split; [reflexivity |]. split; [reflexivity | lra]. }
      destruct Hn as (nx & ny & -> & -> & Hu).
      destruct (Py.ltb _ 0) eqn:Evn; cbn [fst];
        match goal with
        | |- context [Collisions.list_set j ?b (Collisions.list_set i ?a rs)] =>
            destruct (Hnth a b) as [-> ->]
        end;
        cbn [Robot.x Robot.y Robot.vx Robot.vy Robot.with_xy Robot.with_vxy];
        (split; [lra |]); (split; [lra |]); (split; [lra |]); (split; [lra |]);
        [| lra].
      apply ltb_spec in Evn.
      cbn [Robot.x Robot.y Robot.vx Robot.vy Robot.with_xy Robot.with_vxy] in Evn.
      apply impulse_energy; assumption.
Qed.

Lemma X19_pair_correction_is_symmetric_witness :
  let rs := [Examples.wall_a; Examples.wall_b] in
  let ri := nth 0 rs Robot.default in
  let rj := nth 1 rs Robot.default in
  let rs' := fst (Collisions.resolve_pair [0.32; 0.32] 0 0.1 0 10.7 0
                    (rs, Rng.identity) 1) in
  let ri' := nth 0 rs' Robot.default in
  let rj' := nth 1 rs' Robot.default in
  Robot.x ri' + Robot.x rj' = Robot.x ri + Robot.x rj
  /\ Robot.y ri' + Robot.y rj' = Robot.y ri + Robot.y rj
  /\ Robot.vx ri' + Robot.vx rj' = Robot.vx ri + Robot.vx rj
  /\ Robot.vy ri' + Robot.vy rj' = Robot.vy ri + Robot.vy rj
  /\ Robot.vx ri' * Robot.vx ri' + Robot.vy ri' * Robot.vy ri'
     + (Robot.vx rj' * Robot.vx rj' + Robot.vy rj' * Robot.vy rj')
     <= Robot.vx ri * Robot.vx ri + Robot.vy ri * Robot.vy ri
        + (Robot.vx rj * Robot.vx rj + Robot.vy rj * Robot.vy rj).
Proof.
  intros rs.
  apply (X19_pair_correction_is_symmetric [0.32; 0.32] 0 0.1 10.7 0 0 1 rs
           Rng.identity); [lia | cbn; lia | cbn; lia | lra].
Defined.

(** ** models/world.py: who holds the ball, and quick placement *)

Lemma first_index_flags_false (l : list Robot.t) :
  World.first_index Robot.has_ball (map (Robot.with_has_ball false) l) = None.
Proof.
  induction l as [| r l IH]; [reflexivity |].
  cbn [map World.first_index Robot.has_ball Robot.with_has_ball]. rewrite IH.
  reflexivity.
Qed.

Lemma first_index_set_flags (h : option nat) (k0 : nat) (l : list Robot.t) :
  World.first_index Robot.has_ball (World.set_flags h k0 l)
  = match h with
    | Some i => if Nat.leb k0 i && Nat.ltb i (k0 + length l)
                then Some (i - k0)%nat else None
    | None => None
    end.
Proof.
  revert k0. induction l as [| r l IH]; intros k0.
  - cbn [World.set_flags World.first_index length]. destruct h as [i |]; [| reflexivity].
    destruct (Nat.leb_spec k0 i); destruct (Nat.ltb_spec i (k0 + 0)); cbn;
      try reflexivity; lia.
  - cbn [World.set_flags World.first_index Robot.has_ball Robot.with_has_ball length].
    rewrite IH. destruct h as [i |]; [| reflexivity].
    destruct (Nat.eqb_spec k0 i) as [E | E].
    + subst i. rewrite Nat.leb_refl.
      destruct (Nat.ltb_spec k0 (k0 + S (length l))); [| lia].
      cbn. rewrite Nat.sub_diag. reflexivity.
    + destruct (Nat.leb_spec (S k0) i); destruct (Nat.ltb_spec i (S k0 + length l));
        destruct (Nat.leb_spec k0 i); destruct (Nat.ltb_spec i (k0 + S (length l)));
        cbn; try reflexivity; try lia.
      f_equal. lia.
Qed.

Lemma find_holder_in_range (w : World.t) (k : nat) :
  World.find_holder w (Ball.x (World.ball w)) (Ball.y (World.ball w)) = Some k ->
  (k < length (World.all_robots w))%nat.
Proof.
  intros E. pose proof (find_holder_spec w) as H. rewrite E in H.
  unfold PossessionSpec.holder in H.
  destruct H as [[(r & Hr & _) _] | (_ & (r & Hr & _) & _)];
    apply nth_error_Some; rewrite Hr; discriminate.
Qed.

Lemma nearest_from_cooldown (c : R) (w : World.t) (bx by_ : R) (k : nat)
    (best : option (nat * R)) (l : list Robot.t) :
  World.nearest_from (World.with_kick_cooldown c w) bx by_ k best l
  = World.nearest_from w bx by_ k best l.
Proof.
  revert k best. induction l as [| r l IH]; intros k best; [reflexivity |].
  cbn [World.nearest_from]. rewrite IH. reflexivity.
Qed.

Lemma find_holder_cooldown (c : R) (w : World.t) (bx by_ : R) :
  World.find_holder (World.with_kick_cooldown c w) bx by_
  = World.find_holder w bx by_.
Proof.
  unfold World.find_holder. rewrite nearest_from_cooldown. reflexivity.
Qed.

(** X20. After the possession step [who_has_ball] names the holder
    that the hysteresis rule selected on the world before the step,
    and nobody while the kick cooldown is still running. *)
Theorem X20_who_has_ball_is_the_selected_holder (dt : R) (w : World.t) :
  let w' := World._update_possession_and_anchor dt w in
  World.who_has_ball w'
  = if Py.ltb 0 (World.kick_cooldown w') then None
    else World.find_holder w (Ball.x (World.ball w)) (Ball.y (World.ball w)).
Proof.
  intros w'. subst w'. unfold World.who_has_ball.
  unfold World._update_possession_and_anchor.
  set (w1 := if Py.ltb 0 (World.kick_cooldown w)
             then World.with_kick_cooldown
                    (Rmax 0 (World.kick_cooldown w - dt)) w
             else w).
  assert (Hh : World.find_holder w1 (Ball.x (World.ball w1)) (Ball.y (World.ball w1))
               = World.find_holder w (Ball.x (World.ball w)) (Ball.y (World.ball w))).
  { subst w1. destruct (Py.ltb 0 (World.kick_cooldown w)); [| reflexivity].
    apply find_holder_cooldown. }
  assert (Ha : World.all_robots w1 = World.all_robots w).
  { subst w1. destruct (Py.ltb 0 (World.kick_cooldown w)); reflexivity. }
  destruct (Py.ltb 0 (World.kick_cooldown w1)) eqn:Ecd.
  - change (World.kick_cooldown (World.with_all_robots _ w1))
      with (World.kick_cooldown w1).
    rewrite Ecd, all_robots_with_all_robots. apply first_index_flags_false.
  - rewrite Hh.
    set (h := World.find_holder w _ _).
    assert (Hflag : World.first_index Robot.has_ball
                      (World.set_flags h O (World.all_robots w1)) = h).
    { rewrite first_index_set_flags. destruct h as [k |] eqn:Eh; [| reflexivity].
      pose proof (find_holder_in_range w k Eh) as Hk. rewrite Ha.
      cbn [Nat.leb andb Nat.add].
      destruct (Nat.ltb_spec k (length (World.all_robots w))); [| lia].
      rewrite Nat.sub_0_r. reflexivity. }
    set (w2 := World.with_all_robots (World.set_flags h O (World.all_robots w1)) w1).
    assert (H2 : World.first_index Robot.has_ball (World.all_robots w2) = h
                 /\ Py.ltb 0 (World.kick_cooldown w2) = false).
    { subst w2. rewrite all_robots_with_all_robots. split; [exact Hflag | exact Ecd]. }
    destruct H2 as [H2 H3].
    destruct h as [k |]; [| rewrite H3; exact H2].
    destruct (World.sticky_enabled w2); [| rewrite H3; exact H2].
    destruct (Robot.dribble_anchor _ _ _) as [[[ax ay] avx] avy].
    destruct (World.sticky_clip_field w2);
      match goal with
      | |- context [World.with_ball ?b w2] =>
          change (World.all_robots (World.with_ball b w2)) with (World.all_robots w2);
          change (World.kick_cooldown (World.with_ball b w2))
            with (World.kick_cooldown w2)
      end;
      rewrite H3; exact H2.
Qed.

(** X21. [place_robot] puts the robot with the given id of the given
    side at the given pose (the heading wrapped), at rest and with no
    command, creating a default robot under that id when the team has
    none; every other robot of that team, the other team and the ball
    are left as they were. *)
Theorem X21_place_robot_then_get (side : Side) (rid : Z) (x y theta : R)
    (w : World.t) (k : Z) :
  let w' := World.place_robot side rid x y theta w in
  let team := fun w0 => match side with
                        | Left => World.team_left w0
                        | Right => World.team_right w0
                        end in
  let other := fun w0 => match side with
                         | Left => World.team_right w0
                         | Right => World.team_left w0
                         end in
  let r0 := match Team.get rid (team w) with
            | Some r => r
            | None => Robot.with_ids rid (Team.team_id (team w)) Robot.default
            end in
  Team.get k (team w')
  = (if Z.eqb k rid
     then Some (Robot.stop (Robot.set_vel 0 0 0 (Robot.set_pose x y theta r0)))
     else Team.get k (team w))
  /\ other w' = other w
  /\ World.ball w' = World.ball w.
Proof.
  intros w' team other r0. subst w'. unfold World.place_robot.
  set (f := fun r => Robot.stop (Robot.set_vel 0 0 0 (Robot.set_pose x y theta r))).
  assert (Hf : forall r, Robot.robot_id (f r) = Robot.robot_id r) by reflexivity.
  assert (Hget : forall tm : Team.t,
             Team.get k
               (Team.with_robots
                  (Roster.modify rid f
                     (Team.robots
                        (match Team.get rid tm with
                         | Some _ => tm
                         | None => Team.add_robot None (Some rid) tm
                         end)))
                  (match Team.get rid tm with
                   | Some _ => tm
                   | None => Team.add_robot None (Some rid) tm
                   end))
             = if Z.eqb k rid
               then Some (f (match Team.get rid tm with
                             | Some r => r
                             | None => Robot.with_ids rid (Team.team_id tm)
                                         Robot.default
                             end))
               else Team.get k tm).
  { intros tm. unfold Team.get at 1. cbn [Team.robots Team.with_robots].
    rewrite (roster_get_modify rid f _ k Hf).
    destruct (Team.get rid tm) as [r |] eqn:E.
    - destruct (Z.eqb_spec k rid) as [-> |]; [| reflexivity].
      unfold Team.get in E. rewrite E. reflexivity.
    - pose proof (add_robot_get (Some rid) tm k) as Ha. unfold Team.get in Ha.
      rewrite Ha. destruct (Z.eqb_spec k rid) as [-> |]; reflexivity. }
  subst team other r0. destruct side;
    cbn [World.team_left World.team_right World.with_teams World.ball];
    (split; [apply Hget | split; reflexivity]).
Qed.

(** ** The direction of [math.atan2] *)

Lemma hypot_scale (x y : R) :
  x <> 0 -> Py.hypot x y = Rabs x * sqrt (1 + (y / x)²).
Proof.
  intros Hx. unfold Py.hypot.
  replace (x * x + y * y) with (x² * (1 + (y / x)²)) by (unfold Rsqr; field; exact Hx).
  rewrite sqrt_mult.
  - rewrite sqrt_Rsqr_abs. reflexivity.
  - apply Rle_0_sqr.
  - pose proof (Rle_0_sqr (y / x)). lra.
Qed.

Lemma atan2_direction (y x : R) :
  x <> 0 \/ y <> 0 ->
  cos (Py.atan2 y x) * Py.hypot x y = x
  /\ sin (Py.atan2 y x) * Py.hypot x y = y.
Proof.
  intros Hxy. unfold Py.atan2.
  assert (HS : forall t : R, 0 < sqrt (1 + t²)).
  { intros t. apply sqrt_lt_R0. pose proof (Rle_0_sqr t). lra. }
  destruct (Py.ltb 0 x) eqn:E1.
  - apply ltb_spec in E1.
    rewrite hypot_scale by lra. rewrite Rabs_pos_eq by lra.
    rewrite cos_atan, sin_atan. specialize (HS (y / x)).
    split; field; lra.
  - apply ltb_nspec in E1. destruct (Py.ltb x 0) eqn:E2.
    + apply ltb_spec in E2.
      rewrite hypot_scale by lra. rewrite Rabs_left by lra.
      specialize (HS (y / x)).
      destruct (Py.leb 0 y).
      * rewrite neg_cos, neg_sin, cos_atan, sin_atan. split; field; lra.
      * rewrite cos_minus, sin_minus, cos_PI, sin_PI, cos_atan, sin_atan.
        split; field; lra.
    + apply ltb_nspec in E2. assert (Hx : x = 0) by lra. subst x.
      assert (Hh : Py.hypot 0 y = Rabs y).
      { unfold Py.hypot. replace (0 * 0 + y * y) with (y²) by (unfold Rsqr; ring).
        apply sqrt_Rsqr_abs. }
      rewrite Hh. destruct (Py.ltb 0 y) eqn:E3.
      * apply ltb_spec in E3. rewrite cos_PI2, sin_PI2, Rabs_pos_eq by lra.
        split; ring.
      * apply ltb_nspec in E3. destruct (Py.ltb y 0) eqn:E4.
        -- apply ltb_spec in E4.
           rewrite cos_neg, sin_neg, cos_PI2, sin_PI2, Rabs_left by lra.
           split; ring.
        -- apply ltb_nspec in E4. destruct Hxy as [H | H]; [lra |].
           exfalso. apply H. lra.
Qed.

Lemma hypot_pos (x y : R) : x <> 0 \/ y <> 0 -> 0 < Py.hypot x y.
Proof.
  intros H. unfold Py.hypot. apply sqrt_lt_R0.
  destruct H as [H | H].
  - assert (0 < x * x) by nra. nra.
  - assert (0 < y * y) by nra. nra.
Qed.

(** ** actions/planning.py: kicks *)

Lemma exec_pass_ball (world : World.t) (team : Side) (robot : nat)
    (to_xy : R * R) (speed : R) :
  let p := Planning._place_ball_in_front
             (nth robot (World.all_robots world) Robot.default) 0.02 in
  World.ball (Planning.exec_pass world team robot to_xy speed)
  = Ball.kick speed (Py.atan2 (snd to_xy - snd p) (fst to_xy - fst p))
      (Ball.set_pos (fst p) (snd p) (World.ball world)).
Proof.
  unfold Planning.exec_pass, Planning.release_ball.
  destruct (Planning._place_ball_in_front _ 0.02) as [bx by_].
  destruct to_xy as [tx ty]. reflexivity.
Qed.

(** X22. [exec_pass] leaves the ball in front of the kicker and,
    unless the target is that very point, gives it a velocity that
    points from the ball to the target: the unit vector towards the
    target times [speed], so its magnitude is the absolute value of
    [speed]. *)
Theorem X22_exec_pass_sends_ball_to_target (world : World.t) (team : Side)
    (robot : nat) (to_xy : R * R) (speed : R) :
  let p := Planning._place_ball_in_front
             (nth robot (World.all_robots world) Robot.default) 0.02 in
  let dx := fst to_xy - fst p in
  let dy := snd to_xy - snd p in
  dx <> 0 \/ dy <> 0 ->
  let b := World.ball (Planning.exec_pass world team robot to_xy speed) in
  Ball.x b = fst p /\ Ball.y b = snd p
  /\ Ball.vx b = speed * (dx / Py.hypot dx dy)
  /\ Ball.vy b = speed * (dy / Py.hypot dx dy)
  /\ Ball.speed b = Rabs speed.
Proof.
  intros p dx dy Hd b. subst b. rewrite exec_pass_ball. fold p dx dy.
  destruct (atan2_direction dy dx Hd) as [Hc Hs].
  pose proof (hypot_pos dx dy Hd) as Hh.
  set (h := Py.hypot dx dy) in *. set (a := Py.atan2 dy dx) in *.
  assert (Ec : cos a = dx / h) by (rewrite <- Hc; field; lra).
  assert (Es : sin a = dy / h) by (rewrite <- Hs; field; lra).
  unfold Ball.kick, Ball.set_speed_dir, Ball.speed.
  cbn [Ball.x Ball.y Ball.vx Ball.vy Ball.set_vel Ball.set_pos].
  split; [reflexivity |]. split; [reflexivity |].
  split; [rewrite Ec; reflexivity |]. split; [rewrite Es; reflexivity |].
  unfold Py.hypot.
  replace (speed * cos a * (speed * cos a) + speed * sin a * (speed * sin a))
    with (speed² * (cos a * cos a + sin a * sin a)) by (unfold Rsqr; ring).
  rewrite cos_sin_unit, Rmult_1_r. apply sqrt_Rsqr_abs.
Qed.

Lemma X22_exec_pass_sends_ball_to_target_witness :
  let world := Examples.dribbling in
  let p := Planning._place_ball_in_front
             (nth 0 (World.all_robots world) Robot.default) 0.02 in
  let dx := fst (5, 0) - fst p in
  let dy := snd (5, 0) - snd p in
  let b := World.ball (Planning.exec_pass world Left 0 (5, 0) 6) in
  Ball.x b = fst p /\ Ball.y b = snd p
  /\ Ball.vx b = 6 * (dx / Py.hypot dx dy)
  /\ Ball.vy b = 6 * (dy / Py.hypot dx dy)
  /\ Ball.speed b = Rabs 6.
Proof.
  intros world.
  apply (X22_exec_pass_sends_ball_to_target world Left 0 (5, 0) 6).
  left. subst world. unfold Planning._place_ball_in_front, Robot.half_side,
    Planning.BALL_RADIUS. fields. rewrite cos_0. lra.
Defined.

Lemma exec_shoot_as_pass (world : World.t) (team : Side) (robot : nat)
    (speed : R) :
  Planning.exec_shoot world team robot speed
  = Planning.exec_pass world team robot
      (match team with
       | Left => World.half_w world
       | Right => - World.half_w world
       end, 0) speed.
Proof.
  unfold Planning.exec_shoot, Planning.exec_pass, Planning.release_ball.
  destruct (Planning._place_ball_in_front _ 0.02) as [bx by_].
  destruct team; reflexivity.
Qed.

Lemma exec_pass_kicker (world : World.t) (team : Side) (robot : nat)
    (to_xy : R * R) (speed : R) :
  (robot < length (World.all_robots world))%nat ->
  nth robot (World.all_robots (Planning.exec_pass world team robot to_xy speed))
      Robot.default
  = Robot.with_has_ball false (nth robot (World.all_robots world) Robot.default).
Proof.
  intros Hr. unfold Planning.exec_pass, Planning.release_ball.
  destruct (Planning._place_ball_in_front _ 0.02) as [bx by_].
  destruct to_xy as [tx ty].
  unfold Planning._set_cooldown.
  match goal with
  | |- nth robot (World.all_robots ?w) _ = _ =>
      change (World.all_robots w)
        with (World.all_robots
                (World.with_all_robots
                   (Collisions.list_set robot
                      (Robot.with_has_ball false
                         (nth robot (World.all_robots world) Robot.default))
                      (World.all_robots world))
                   (World.with_ball (Ball.set_pos bx by_ (World.ball world)) world)))
  end.
  rewrite all_robots_with_all_robots. apply list_set_nth_same. exact Hr.
Qed.

(** X23. [exec_shoot] always aims at the centre of the opponent goal
    line: it leaves the ball in front of the kicker with the velocity
    [speed] times the unit vector from the ball to [(half_w, 0)] for
    the left team and to [(-half_w, 0)] for the right team, clears the
    kicker's [has_ball] flag and sets the kick cooldown to 0.25 s. *)
Theorem X23_exec_shoot_aims_at_goal_centre (world : World.t) (team : Side)
    (robot : nat) (speed : R) :
  let p := Planning._place_ball_in_front
             (nth robot (World.all_robots world) Robot.default) 0.02 in
  let dx := match team with
            | Left => World.half_w world
            | Right => - World.half_w world
            end - fst p in
  let dy := 0 - snd p in
  (robot < length (World.all_robots world))%nat ->
  dx <> 0 \/ dy <> 0 ->
  let w' := Planning.exec_shoot world team robot speed in
  Ball.x (World.ball w') = fst p /\ Ball.y (World.ball w') = snd p
  /\ Ball.vx (World.ball w') = speed * (dx / Py.hypot dx dy)
  /\ Ball.vy (World.ball w') = speed * (dy / Py.hypot dx dy)
  /\ Robot.has_ball (nth robot (World.all_robots w') Robot.default) = false
  /\ World.kick_cooldown w' = 0.25.
Proof.
  intros p dx dy Hr Hd w'. subst w'.
  split; [| split; [| split; [| split; [| split]]]];
    try (rewrite exec_shoot_as_pass, exec_pass_ball; cbn [fst snd]; fold p dx dy).
  - reflexivity.
  - reflexivity.
  - destruct (atan2_direction dy dx Hd) as [Hc _].
    pose proof (hypot_pos dx dy Hd) as Hh.
    unfold Ball.kick, Ball.set_speed_dir. cbn [Ball.vx Ball.set_vel].
    rewrite <- Hc at 2. field. lra.
  - destruct (atan2_direction dy dx Hd) as [_ Hs].
    pose proof (hypot_pos dx dy Hd) as Hh.
    unfold Ball.kick, Ball.set_speed_dir. cbn [Ball.vy Ball.set_vel].
    rewrite <- Hs at 2. field. lra.
  - rewrite exec_shoot_as_pass, exec_pass_kicker by exact Hr. reflexivity.
  - apply exec_shoot_cooldown.
Qed.

Lemma X23_exec_shoot_aims_at_goal_centre_witness :
  let world := Examples.dribbling in
  let p := Planning._place_ball_in_front
             (nth 0 (World.all_robots world) Robot.default) 0.02 in
  let dx := World.half_w world - fst p in
  let dy := 0 - snd p in
  let w' := Planning.exec_shoot world Left 0 7.5 in
  Ball.x (World.ball w') = fst p /\ Ball.y (World.ball w') = snd p
  /\ Ball.vx (World.ball w') = 7.5 * (dx / Py.hypot dx dy)
  /\ Ball.vy (World.ball w') = 7.5 * (dy / Py.hypot dx dy)
  /\ Robot.has_ball (nth 0 (World.all_robots w') Robot.default) = false
  /\ World.kick_cooldown w' = 0.25.
Proof.
  intros world.
  apply (X23_exec_shoot_aims_at_goal_centre world Left 0 7.5).
  - subst world. cbn. lia.
  - left. subst world. unfold Planning._place_ball_in_front, Robot.half_side,
      Planning.BALL_RADIUS, World.half_w. fields. rewrite cos_0. lra.
Defined.

(** ** actions/planning.py: the distance to a segment *)

(** X24. For a segment longer than the degeneracy threshold,
    [_seg_point_distance] returns the distance from the point to the
    nearest point of the segment: no point of the segment is nearer. *)
Theorem X24_seg_point_distance_is_least (p0 p1 p : R * R) (u : R) :
  1e-12 < (fst p1 - fst p0) * (fst p1 - fst p0)
          + (snd p1 - snd p0) * (snd p1 - snd p0) ->
  0 <= u <= 1 ->
  fst (Planning._seg_point_distance p0 p1 p)
  <= Py.hypot (fst p - (fst p0 + u * (fst p1 - fst p0)))
              (snd p - (snd p0 + u * (snd p1 - snd p0))).
Proof.
  destruct p0 as [x0 y0], p1 as [x1 y1], p as [x y]. cbn [fst snd].
  intros HL Hu. unfold Planning._seg_point_distance.
  set (vx := x1 - x0) in *. set (vy := y1 - y0) in *.
  set (L2 := vx * vx + vy * vy) in *.
  rewrite (leb_false L2 1e-12 HL). cbn [fst snd].
  set (wv := (x - x0) * vx + (y - y0) * vy).
  set (ts := wv / L2).
  assert (Hts : ts * L2 = wv) by (unfold ts; field; lra).
  set (t := Rmax 0 (Rmin 1 ts)).
  unfold Py.hypot. apply sqrt_le_1_alt.
  assert (Hid : forall s : R,
             (x - (x0 + s * vx)) * (x - (x0 + s * vx))
             + (y - (y0 + s * vy)) * (y - (y0 + s * vy))
             = (x - x0) * (x - x0) + (y - y0) * (y - y0)
               - 2 * s * (ts * L2) + s * s * L2).
  { intros s. rewrite Hts. unfold wv, L2. ring. }
  rewrite (Hid t), (Hid u).
  assert (Hkey : 0 <= (u - t) * L2 * (u + t - 2 * ts)).
  { assert (HLp : 0 < L2) by lra.
    subst t. unfold Rmax, Rmin.
    destruct (Rle_dec 1 ts); destruct (Rle_dec 0 _).
    - replace ((u - 1) * L2 * (u + 1 - 2 * ts))
        with ((1 - u) * L2 * (2 * ts - 1 - u)) by ring.
      apply Rmult_le_pos; [apply Rmult_le_pos |]; lra.
    - lra.
    - replace ((u - ts) * L2 * (u + ts - 2 * ts)) with ((u - ts) * (u - ts) * L2) by ring.
      apply Rmult_le_pos; [apply (Rle_0_sqr (u - ts)) | lra].
    - replace ((u - 0) * L2 * (u + 0 - 2 * ts)) with (u * L2 * (u - 2 * ts)) by ring.
      apply Rmult_le_pos; [apply Rmult_le_pos |]; lra. }
  replace ((u - t) * L2 * (u + t - 2 * ts))
    with ((- 2 * u * (ts * L2) + u * u * L2) - (- 2 * t * (ts * L2) + t * t * L2))
    in Hkey by ring.
  lra.
Qed.

Lemma X24_seg_point_distance_is_least_witness :
  fst (Planning._seg_point_distance (0, 0) (4, 0) (1, 3))
  <= Py.hypot (fst (1, 3) - (fst (0, 0) + 1 * (fst (4, 0) - fst (0, 0))))
              (snd (1, 3) - (snd (0, 0) + 1 * (snd (4, 0) - snd (0, 0)))).
Proof.
  apply (X24_seg_point_distance_is_least (0, 0) (4, 0) (1, 3) 1); cbn [fst snd]; lra.
Defined.

(** ** actions/planning.py: scoring a shot *)

Lemma linear_in_interval_between (x x0 x1 y0 y1 : R) :
  Rmin y0 y1 <= Planning.linear_in_interval x x0 x1 y0 y1 <= Rmax y0 y1.
Proof.
  unfold Planning.linear_in_interval.
  pose proof (Rmin_l y0 y1). pose proof (Rmin_r y0 y1).
  pose proof (Rmax_l y0 y1). pose proof (Rmax_r y0 y1).
  destruct (Py.leb x x0) eqn:E0; [lra |].
  destruct (Py.leb x1 x) eqn:E1; [lra |].
  apply leb_nspec in E0. apply leb_nspec in E1.
  assert (Hd : 0 < x1 - x0) by lra.
  set (s := (x - x0) / (x1 - x0)).
  assert (Hs : 0 <= s <= 1).
  { unfold s. split.
    - apply Rmult_le_pos; [lra | left; apply Rinv_0_lt_compat; exact Hd].
    - apply Rmult_le_reg_r with (x1 - x0); [exact Hd |].
      replace ((x - x0) / (x1 - x0) * (x1 - x0)) with (x - x0) by (field; lra).
      lra. }
  replace (y0 + (y1 - y0) * (x - x0) / (x1 - x0)) with (y0 + (y1 - y0) * s)
    by (unfold s; field; lra).
  destruct (Rle_dec y0 y1); split; nra.
Qed.

Lemma goal_opening_range (world : World.t) (team : Side) (pos : Planning.Location.t)
    (ghh : R) :
  0.2 <= Planning.evaluate_goal_opening_angle world team pos ghh <= 1.
Proof.
  unfold Planning.evaluate_goal_opening_angle.
  match goal with
  | |- _ <= Planning.linear_in_interval ?x ?a ?b ?c ?d <= _ =>
      pose proof (linear_in_interval_between x a b c d) as H
  end.
  rewrite Rmin_left in H by lra. rewrite Rmax_right in H by lra. exact H.
Qed.

(** X25. [evaluate_shoot] returns a reward between 0 and 1 and a
    success probability between 0 and 1, whatever the positions of the
    shooter, of the shot and of the opponents. *)
Theorem X25_evaluate_shoot_is_bounded (world : World.t) (team : Side)
    (shoot_pos : Planning.Location.t) (goal_y : R) (respect_3m : bool)
    (robot_start : Planning.Location.t) :
  let res := Planning.evaluate_shoot world team shoot_pos goal_y respect_3m
               robot_start in
  0 <= fst res <= 1 /\ 0 <= snd res <= 1.
Proof.
  intros res. subst res. unfold Planning.evaluate_shoot. cbn [fst snd].
  match goal with
  | |- context [Planning.linear_in_interval ?d 2.5 3 1 0] =>
      pose proof (linear_in_interval_between d 2.5 3 1 0) as H1;
      pose proof (linear_in_interval_between d 0 3 1 0.8) as H2;
      set (l1 := Planning.linear_in_interval d 2.5 3 1 0) in *;
      set (l2 := Planning.linear_in_interval d 0 3 1 0.8) in *
  end.
  rewrite Rmin_right, Rmax_left in H1 by lra.
  rewrite Rmin_right, Rmax_left in H2 by lra.
  pose proof (goal_opening_range world team shoot_pos 1.2) as H3.
  set (op := Planning.evaluate_goal_opening_angle world team shoot_pos 1.2) in *.
  split.
  - destruct (Py.leb _ 0).
    + rewrite Rmax_left by lra. lra.
    + assert (0 <= 1 * l1 * l2 * op <= 1).
      { assert (0 <= l1 * l2 <= 1) by nra. nra. }
      rewrite Rmax_right by lra. lra.
  - split; [apply Rmax_l |]. apply Rmax_lub; [lra | apply Rmin_l].
Qed.

(** X26. [evaluate_shoot] gives the reward 0 to a shot taken from the
    shooter's own half or on the halfway line, and to a shot that needs
    the ball carried 3 m or more, whatever [respect_3m] says. *)
Theorem X26_evaluate_shoot_forbidden_shots (world : World.t) (team : Side)
    (shoot_pos : Planning.Location.t) (goal_y : R) (respect_3m : bool)
    (robot_start : Planning.Location.t) :
  Planning.Location.x shoot_pos * IZR (Planning._attack_sign team) <= 0
  \/ 3 <= Py.hypot (Planning.Location.x robot_start - Planning.Location.x shoot_pos)
                   (Planning.Location.y robot_start - Planning.Location.y shoot_pos) ->
  fst (Planning.evaluate_shoot world team shoot_pos goal_y respect_3m robot_start)
  = 0.
Proof.
  intros H. unfold Planning.evaluate_shoot. cbn [fst snd].
  destruct (Py.leb _ 0) eqn:E; [apply Rmax_left; lra |].
  apply leb_nspec in E. destruct H as [H | H]; [lra |].
  unfold Planning._dist. cbn [fst snd].
  unfold Planning.linear_in_interval at 1.
  rewrite (leb_false _ 2.5) by lra. rewrite (leb_true 3 _ H).
  rewrite Rmax_left; lra.
Qed.

Lemma X26_evaluate_shoot_forbidden_shots_witness :
  fst (Planning.evaluate_shoot World.default Left (Planning.Location.mk (-1) 0 0)
         0 true (Planning.Location.mk (-2) 0 0)) = 0.
Proof.
  apply (X26_evaluate_shoot_forbidden_shots World.default Left
           (Planning.Location.mk (-1) 0 0) 0 true (Planning.Location.mk (-2) 0 0)).
  left. cbn [Planning.Location.x Planning._attack_sign]. lra.
Defined.

(** ** actions/planning.py: the choice of an action *)

Lemma best_fold (l : list Planning.ActionQValue.t) (a : Planning.ActionQValue.t) :
  let best := fold_left
                (fun best b =>
                   if Py.ltb (Planning.q_value best) (Planning.q_value b)
                   then b else best) l a in
  In best (a :: l)
  /\ forall b, In b (a :: l) -> Planning.q_value b <= Planning.q_value best.
Proof.
  revert a. induction l as [| c l IH]; intros a; cbn [fold_left].
  - split; [left; reflexivity |]. intros b [<- | []]. lra.
  - destruct (Py.ltb (Planning.q_value a) (Planning.q_value c)) eqn:E.
    + apply ltb_spec in E. destruct (IH c) as [Hin Hmax]. split.
      * destruct Hin as [<- | Hin]; [right; left; reflexivity | right; right; exact Hin].
      * intros b [<- | [<- | Hb]].
        -- specialize (Hmax c (or_introl eq_refl)). lra.
        -- apply Hmax. left. reflexivity.
        -- apply Hmax. right. exact Hb.
    + apply ltb_nspec in E. destruct (IH a) as [Hin Hmax]. split.
      * destruct Hin as [<- | Hin]; [left; reflexivity | right; right; exact Hin].
      * intros b [<- | [<- | Hb]].
        -- apply Hmax. left. reflexivity.
        -- specialize (Hmax a (or_introl eq_refl)). lra.
        -- apply Hmax. right. exact Hb.
Qed.

(** X27. [choose_best_action] returns nothing for an empty list and
    otherwise an action of the list whose value, the reward times the
    success probability floored at 0.001, is at least that of every
    action of the list. *)
Theorem X27_choose_best_action_is_best (actions : list Planning.ActionQValue.t) :
  match Planning.choose_best_action actions with
  | None => actions = []
  | Some a =>
      In a actions
      /\ forall b, In b actions -> Planning.q_value b <= Planning.q_value a
  end.
Proof.
  destruct actions as [| a l]; [reflexivity |].
  cbn [Planning.choose_best_action]. apply best_fold.
Qed.

(** ** actions/positioning.py: the kickoff restriction *)

Lemma kickoff_circle (x2 y2 : R) :
  let p := if Py.ltb ((x2 - 0) ^ 2 + (y2 - 0) ^ 2) (1 * 1)
           then (0 + 1 * cos (Py.atan2 (y2 - 0) (x2 - 0)),
                 0 + 1 * sin (Py.atan2 (y2 - 0) (x2 - 0)))
           else (x2, y2) in
  1 <= fst p * fst p + snd p * snd p.
Proof.
  cbv zeta. destruct (Py.ltb _ _) eqn:E; cbn [fst snd].
  - pose proof (cos_sin_unit (Py.atan2 (y2 - 0) (x2 - 0))). lra.
  - apply ltb_nspec in E. lra.
Qed.

(** X28. While a kickoff is being set up, [kickoff_restricted] never
    returns a point inside the centre circle of radius 1: the square of
    the returned point's distance from the centre spot is 1 or more, to
    within 1e-9. *)
Theorem X28_kickoff_restricted_clears_centre_circle (world : World.t)
    (team : Side) (x y : R) :
  World.state world = st_kickoff_left \/ World.state world = st_kickoff_right ->
  let p := Positioning.kickoff_restricted world team x y in
  1 - 1e-9 <= fst p * fst p + snd p * snd p.
Proof.
  intros Hst p. subst p. unfold Positioning.kickoff_restricted.
  destruct Hst as [-> | ->];
    match goal with
    | |- _ <= fst ?p * fst ?p + snd ?p * snd ?p =>
        assert (H : 1 <= fst p * fst p + snd p * snd p) by apply kickoff_circle;
        lra
    end.
Qed.

Lemma X28_kickoff_restricted_clears_centre_circle_witness :
  let world := World.set_kickoff Left World.default in
  let p := Positioning.kickoff_restricted world Left (-0.5) 0.2 in
  1 - 1e-9 <= fst p * fst p + snd p * snd p.
Proof.
  intros world.
  apply (X28_kickoff_restricted_clears_centre_circle world Left (-0.5) 0.2).
  left. reflexivity.
Defined.

Lemma kickoff_restricted_own_half (world : World.t) (team : Side) (x y : R) :
  World.state world <> st_playing ->
  y <> 0 \/ x * IZR (Positioning._sign team) < 0 ->
  fst (Positioning.kickoff_restricted world team x y)
  * IZR (Positioning._sign team) <= 0.
Proof.
  intros Hst Hxy. unfold Positioning.kickoff_restricted.
  set (x2 := if Z.eqb (Positioning._sign team) 1 then Rmin x 0 else Rmax x 0).
  assert (Hx2 : x2 * IZR (Positioning._sign team) <= 0
                /\ (x2 <> 0 \/ y <> 0)).
  { subst x2. destruct team; cbn [Positioning._sign Z.eqb Pos.eqb] in *;
      unfold Rmin, Rmax; destruct (Rle_dec x 0); (split; [lra |]);
      destruct Hxy as [H | H];
      solve [right; exact H | left; lra | exfalso; lra]. }
  destruct Hx2 as [Hs Hne].
  assert (Hin : fst (if Py.ltb ((x2 - 0) ^ 2 + (y - 0) ^ 2) (1 * 1)
                     then (0 + 1 * cos (Py.atan2 (y - 0) (x2 - 0)),
                           0 + 1 * sin (Py.atan2 (y - 0) (x2 - 0)))
                     else (x2, y))
                * IZR (Positioning._sign team) <= 0).
  { destruct (Py.ltb _ _); cbn [fst]; [| exact Hs].
    replace (x2 - 0) with x2 by ring. replace (y - 0) with y by ring.
    destruct (atan2_direction y x2 Hne) as [Hc _].
    pose proof (hypot_pos x2 y Hne) as Hh.
    set (h := Py.hypot x2 y) in *. set (c := cos (Py.atan2 y x2)) in *.
    assert (Hch : (c * IZR (Positioning._sign team)) * h <= 0).
    { replace (c * IZR (Positioning._sign team) * h)
        with (c * h * IZR (Positioning._sign team)) by ring.
      rewrite Hc. exact Hs. }
    assert (c * IZR (Positioning._sign team) <= 0).
    { destruct (Rle_dec (c * IZR (Positioning._sign team)) 0) as [Hle | Hgt];
        [exact Hle |].
      exfalso. assert (0 < c * IZR (Positioning._sign team) * h); [| lra].
      apply Rmult_lt_0_compat; lra. }
    lra. }
  destruct (World.state world); try exact Hin; try exact Hs.
  exfalso. apply Hst. reflexivity.
Qed.

(** X29. Before play starts, [kickoff_restricted] returns a point of
    the team's own half (x at most 0 for the left team, at least 0 for
    the right team, to within 1e-9), provided the requested point, once
    brought back to the own half, is not the centre spot itself. *)
Theorem X29_kickoff_restricted_keeps_own_half (world : World.t) (team : Side)
    (x y : R) :
  World.state world <> st_playing ->
  y <> 0 \/ x * IZR (Positioning._sign team) < 0 ->
  fst (Positioning.kickoff_restricted world team x y)
  * IZR (Positioning._sign team) <= 1e-9.
Proof.
  intros Hst Hxy.
  pose proof (kickoff_restricted_own_half world team x y Hst Hxy). lra.
Qed.

Lemma X29_kickoff_restricted_keeps_own_half_witness :
  fst (Positioning.kickoff_restricted (World.set_kickoff Left World.default)
         Left 0.5 0.2)
  * IZR (Positioning._sign Left) <= 1e-9.
Proof.
  apply (X29_kickoff_restricted_keeps_own_half
           (World.set_kickoff Left World.default) Left 0.5 0.2).
  - discriminate.
  - left. lra.
Defined.


